(* ===== verification/_CoqProject ===== *)
-Q . S2P
Prelude.v
Stream.v
Records.v
Interfaces.v
Wal.v
DiskStore.v
Address.v
Replicator.v
Storage.v
StorageCorrect.v
Recovery.v
Net.v
Raft.v
RaftCluster.v
Command.v
RaftStore.v
Router.v
Metrics.v
Server.v
Standalone.v
Bounded.v
Shards.v
Concurrent.v
Web.v
Stack.v
Page.v
Replication.v
ReplicaReads.v
CatchUp.v
Handshake.v
ThreadPool.v
Startup.v
Running.v
Durable.v
Sockets.v
Process.v
Accept.v
Listener.v
Scrape.v
WebMain.v
Client.v
Bench.v
