(* ===== verification/Prelude.v ===== *)
(** * Redon: a verification development

    Redon is a key-value store with a line protocol: an LRU cache made durable
    by a write-ahead log (or replaced by an on-disk engine), replicated from a
    leader to followers, sharded by a router, with Raft leader election, a
    thread pool for the connections and metrics; beside the server there are a web
    gateway, a terminal client and a benchmark.  This library models its C++
    sources (src/src/*.cpp, the classes of their headers and
    src/bench/redon_bench.cpp) as functions and transition systems and proves what
    makes them correct.

    ** How the program fits together

    [Server::run] sets up persistence ([setup_persistence]: open the log or the
    data file, replay it), then hands each accepted connection to the thread
    pool.  [handle_client] cuts the byte stream into lines; each line is
    answered from the metrics, forwarded to a shard by the router, or executed
    by [execute_line] against the storage engine and the Raft node.  The engine
    calls the log and the replicator inside its critical section; the
    replicator's sender threads carry the records to followers as ordinary
    protocol lines; Raft nodes talk to each other in the same line protocol.

    ** Files, in dependency order

    - [Prelude]: byte strings, machine integers, scripts of I/O outcomes,
      list lemmas, tactics.  [Stream]: the C++ library's decimal output,
      [stol]-style input, whitespace and [istream] extraction.
    - [Records]: the record format of log and data file, both readers
      (wal.cpp [replay_into], disk_store.cpp [recover]), their agreement, the
      round trip, and that a record cut short is never read as a record.
    - [Interfaces]: the classes through which the engine calls the log
      ([WriteAhead], with its contract [WriteAheadLaws], and [ReliableLog] for one
      that does not fail) and the replicator ([ReplicaSink]).
    - [Wal] (wal.cpp), the instance of the first; [DiskStore] (disk_store.cpp):
      index, recovery, healing of a torn tail, compaction.
    - [Address] ([split_host_port]); [Replicator] (replication.cpp: the links
      and their queues), the instance of the second interface.
    - [Storage] (storage.cpp): the recency list and the hash index as two
      structures, nodes identified by number; [StorageCorrect]: its theorems,
      for any log and sink meeting the interfaces.
    - [Recovery] (wal.cpp [replay_into], server.cpp [setup_persistence]).
    - [Net]: the two forms of [send_all], and the [recv_line]s of raft.cpp,
      router.cpp and web.cpp.
    - [Raft] (raft.cpp): one node, every critical section, and the timer
      thread's [start_election]/[send_heartbeats] composed over a network;
      [RaftCluster]: all nodes interleaved.
    - [Command] (command.cpp): tokenizer and [execute_line].  [RaftStore]: the
      cluster of [RaftCluster] with a storage engine at each node, driven by lines
      of text, whose test for leadership and whose command are separate steps.
    - [Router] (router.cpp), [Metrics] (metrics.cpp, with IEEE doubles),
      [Server] (server.cpp: routing, connection loop, accounting).
    - [Standalone]: the abstract specification of a node on its own, a function on
      a [Dictionary], the proof that server and command layer implement it over any
      engine that [Implements] the dictionary, and the two engines that implement a
      finite map.  [Bounded]: the cache with a capacity, which implements the
      one-list LRU reference.  [Shards]: a router and its shards, over connections
      that may break at any point.  [Concurrent]: the same with any number of clients
      at once, against an atomic map with calls, effects and answers as events.
    - [Web] (web.cpp): reading an HTTP request, bridging POST /cmd to the store,
      the JSON answer; with the HTTP and JSON readers of a browser.  [Stack]:
      browser, gateway, router and shards in a row.  [Page]: the script of the page
      the gateway serves (web.cpp [kIndexPage]).
    - [Replication]: leader engine, one link, its sender loop, the connection
      and the follower as one transition system; [ReplicaReads]: the same with the
      log of all writes beside it; [CatchUp]: its progress;
      [Handshake]: the bytes of the handshake, against a node of any role.
    - [ThreadPool] (thread_pool.cpp).
    - [Startup] (main.cpp, server.cpp [run] and [setup_*]): the command line, the
      set-up of a node, and a whole server killed and started again; [Running]:
      the types of a server in service, and the same on the on-disk engine;
      [Durable]: the specification of [Standalone] across any number of crashes.
    - [Sockets] (net.h, and the code that opens connections and listeners): the
      table of open descriptors under a script of system call results.  [Accept]
      (server.cpp's accept loop and [ConnectionScope]) and [Listener] (the
      threads of the gateway and of the metrics endpoint) run on it.  [Process]
      (net.h): the process, its disposition of SIGPIPE and its error code.
    - [Scrape] (metrics.cpp [MetricsHttp::loop], server.cpp [setup_metrics]): the
      endpoint's response, read back by a scraper.
    - [WebMain] (web_main.cpp), [Client] (client_main.cpp) and [Bench]
      (redon_bench.cpp): the other programs; the last two against the server.

    ** What the theorems show

    Durability.  [main_survives_crash]: a server that is no replica, started from a
    command line on a clean log whose data fits, whatever its threads do and whatever
    writes fail and tear their record, killed and started again, holds the data it
    held (the part that fits); [disk_main_survives_crash] is the same with [--disk],
    on any data file whose unreadable end can be cut off;
    [durable_map], [durable_log]: over any number of lives such a server, on the
    on-disk engine or on the log, is one map.  Under them,
    for the engines alone, [wal_crash_recovery] and [disk_crash_recovery].
    [wal_replay_records] is the round trip underneath.  Two theorems mark where
    the guarantee ends: a log opened with a torn tail
    ([torn_tail_hides_acknowledged_write]) and unlogged trims
    ([trimmed_key_returns]).

    The cache.  [storage_invariant] (list and index agree), refinement of a
    one-list LRU reference ([storage_refines_lru]; [bounded_node_is_lru] for the whole
    node, and what a client loses by the bound), the capacity bound, what an
    acknowledgement means, and that the records forwarded to the replicator are
    exactly the changes ([storage_forwards]).

    Raft.  [raft_election_safety]: at most one winner per term, for any RPCs
    from anyone and any interleaving; one vote per term; monotone terms; a
    quorum of votes makes a leader.  [one_writer_per_term]: with the command layer
    on top, all writes admitted in a term are executed by one node, and a node that
    has executed none keeps its data; [deposed_leader_writes]: a write admitted in
    one term may be executed in a later one, after another leader's.  Votes are not persisted:
    [raft_restart_two_leaders] shows what a restart within a term does, and is
    why safety is stated for runs without restarts.

    Replication.  [replication_converges]: at every point of every run, what is
    queued and in flight turns the follower's data into the leader's, each on the
    cache or on the on-disk engine, whose values the leader reads while the file
    is being written.
    [replica_shows_past]: what a synchronized replica answers is the leader's data
    after some first part of its writes, which never shrinks on a connection.
    [replication_catches_up]: every step of the sender and the follower leaves less
    to do, and one is possible until they agree.  A sender streams only into a
    replica that has reset itself ([stream_only_into_reset_replica]).
    The system keeps the connections the leader has given up: the follower goes on
    executing what it was sent on them.  The three theorems hold for runs in which it
    has finished with them when it executes the next handshake; [stale_link_diverges]
    shows what a line executed later does, in any run.  [bounded_replica_diverges]
    shows why the replica is unbounded, and [unopened_snapshot_diverges] why the
    leader must be able to open its file.

    Protocol and serving.  [standalone_is_a_map]: a client of a node on its own,
    however its bytes are cut, reads the replies of a finite map.
    [sharded_store_at_most_once]: so does a client of a router, whose shards are one
    map; a line on which the network fails is executed once or not at all;
    [sharded_store_linearizable]: so do any number of clients at once;
    [browser_to_shards]: so does a browser, through the gateway and the router.
    [failed_disk_hides_keys] marks a limit.  [execute_data_spec]: the reply and the
    change of each data command, on either engine, are the reference's, given whether
    log or data file takes the record.  Framing of replies, of which only the last of
    a connection can be cut short ([connection_framing]), read-only
    followers ([follower_read_only]), refusal by non-leaders, chunking-independence of a connection,
    agreement of the router's and the shard's tokenizers, exact counters,
    which a scraper of the metrics endpoint reads back ([metrics_scraped]);
    [server_well_typed]: every field of a running server stays in the range of its
    type and consistent with the others, up to the one step C++ leaves undefined, the
    overflow of the Raft term, which any client can bring about
    ([client_overflows_term]).

    Resources.  [sockets_balanced]: no path leaks a descriptor or closes one twice;
    [connections_closed_once]: so the connections between accept loop, queue and
    workers, although the system reuses descriptors; [listener_stops]: the
    listener threads end after [stop] with nothing left open, unless the system keeps
    one waiting in [accept], which it may do for ever ([stop_can_wait]);
    [gateway_starts];
    [init_survives_broken_peer]: with SIGPIPE ignored, a [send] to a peer that is gone
    returns, as the rest of the development takes it to.

    Clients.  [client_in_step]: terminal client and server agree on what was sent,
    answered and when the session ends.  [bench_clean_run]: the benchmark finds no
    fault with a correct server, in any interleaving of its connections, and its
    report says so.

    Gateway.  [web_end_to_end]: a posted command is served once, as one line, and
    its reply is what the browser reads; no bytes of a browser reach the store as
    two commands ([web_no_smuggling]); every answer is well-formed HTTP and JSON.
    A body cut short is executed all the same ([web_truncated_body_executed]).
    [page_in_step]: the page's console, key list and statistics show what the store
    holds and answers; [page_forgets_key] is an exception behind a router or in a
    Raft cluster.

    Command line.  Accepted configurations are in range and name one role
    ([parse_args_sound]); every such configuration can be spelled
    ([parse_args_roundtrip]).

    Thread pool.  FIFO start order, exactly-once execution, bounded queue; no wake-up
    is lost although workers sleep on the condition variable and [submit] notifies
    after it has released the lock; shutdown terminates with every accepted task
    done.

    ** Conventions, bounds and fuel

    Integers are [Z] kept at the width of the source (LP64); [size_t]
    arithmetic that may wrap is written with [wrap64].  Readers of a file take
    as fuel the length of the file, and every record read consumes a byte; the
    loop that serves buffered lines takes the length of the buffer, and every
    line consumes its newline; [evict_loop] takes the size of the index, which
    each eviction reduces.  The lemmas about these loops hold for any fuel that
    covers the input, so the amount chosen does not matter.  The iteration order of
    [std::unordered_map] is unspecified: the class [UnorderedIter] stands for
    any enumeration, and [list_iter] instantiates it in the witnesses.  I/O
    outcomes, clock readings and random draws are inputs, quantified over.

    ** Assumptions and what is left out

    - A failing flush has written a prefix of the record.  A later flush of the
      bytes an [ofstream] still buffers (when it is destroyed) is not modelled:
      crash theorems are about the process ending at that point.
    - The loop of a connection is modelled alone ([handle_client]); several
      connections interleave line by line ([Startup], [Running], [Bench]).  The
      engine's operations are atomic, which its mutex makes them; in
      [Replication], the leader's operations interleave with the sender's at
      critical sections.
    - The follower of [Replication] has an unbounded cache, with a log that does
      not fail or none, or the on-disk engine on a disk that does not fail; the lines
      of abandoned connections are executed before the next handshake ([allowed]).
    - An election whose term would overflow a [long] is the outcome [TermOverflow] of
      [begin_election]; nothing is said of a program that has gone through it.
    - In [Concurrent] the shards execute one line at a time each, and an exchange is
      the events of its request, its execution and its answer.
    - In [Page] commands are run one after the other and typed in ASCII; a user who
      submits a command before the last one is answered may see the answers of the
      two overtake each other.
    - [Shards] and [Durable] take the lines within the server's limit of 64 KB;
      INFO, which reports the metrics, is outside the map specification.
    - Raft safety assumes each node is configured under the name it campaigns
      with and lists all the others.
    - The text of the gateway's page is a parameter of [Web]; its script is modelled
      in [Page].
    - In [Listener] a thread that waits in [accept] when another closes the socket is
      in the hands of the operating system: [accept] may fail, return a client, or not
      return.
    - [setsockopt] may fail in [Sockets], and its callers do not look.
    - [CatchUp] counts steps and not time; heartbeats on an idle link are left
      out of the count.
    - Not modelled: the Windows branches of net.h, the texts of [strerror] (a
      parameter), the server's banner and most of its log messages, exceptions of the
      allocator (which end the process), the delays between reconnections, and of
      the page its markup, its style sheet and the drawing of its graph.

    ** What is left

    Every component is modelled.  Beyond this, [Stack] could be stated for several
    browsers at once on top of [Concurrent], and [ReplicaReads] for several
    replicas. *)

From Stdlib Require Export Ascii ZArith Lia.
From stdpp Require Export base tactics numbers gmap strings fin_maps.
From stdpp Require Export list.

(** ** Byte strings

    A C++ [std::string] (and the contents of a file) is a list of bytes; a byte
    is an [ascii], whose eight booleans are its bits.  String literals of the
    source are written [lit "SET "]. *)

Abbreviation bytes := (list ascii).

Definition lit (s : string) : bytes := String.list_ascii_of_string s.

Declare Scope redon_scope.
Delimit Scope redon_scope with redon.
Notation "x =?b y" := (bool_decide (x = y)) (at level 70, no associativity) : redon_scope.
Open Scope redon_scope.

(** ** Machine integers

    [size_t], [uint64_t] are 64-bit unsigned; [int] is 32-bit and [long],
    [long long] are 64-bit signed (the LP64 data model of the supported POSIX
    builds). *)

Definition two64 : Z := 18446744073709551616.
Definition wrap64 (z : Z) : Z := (z mod two64)%Z.
Definition INT_MIN : Z := -2147483648.
Definition INT_MAX : Z := 2147483647.
Definition LONG_MIN : Z := -9223372036854775808.
Definition LONG_MAX : Z := 9223372036854775807.

Definition blen (s : bytes) : Z := Z.of_nat (length s).

Lemma wrap64_range z : (0 <= wrap64 z < two64)%Z.
Proof. unfold wrap64. apply Z.mod_pos_bound. reflexivity. Qed.

Lemma wrap64_small z : (0 <= z < two64)%Z -> wrap64 z = z.
Proof. apply Z.mod_small. Qed.

(** ** Outcomes of fallible input/output

    The environment decides whether a write or an open succeeds.  Components
    that do I/O carry a script of the outcomes to come; an exhausted script
    means success.  A failing flush has handed the operating system some
    proper prefix of what was to be written ([IoFail n]: at most [n] bytes). *)

Inductive io := IoOk | IoFail (n : nat).

#[export] Instance io_eq_dec : EqDecision io.
Proof. solve_decision. Defined.

Definition next_io (env : list io) : io * list io :=
  match env with
  | [] => (IoOk, [])
  | o :: env' => (o, env')
  end.

(** The bytes that reach the file, and whether the stream is still good. *)
Definition io_write (o : io) (data : bytes) : bytes * bool :=
  match o with
  | IoOk => (data, true)
  | IoFail n => (take (Nat.min n (length data - 1)) data, false)
  end.

(** ** Automation *)

Create HintDb redon discriminated.
#[export] Hint Constants Opaque : redon.

(** Turns boolean tests of the code into propositions. *)
Ltac bool_simpl :=
  repeat match goal with
  | H : _ && _ = true |- _ => apply andb_true_iff in H as [? ?]
  | H : _ || _ = false |- _ => apply orb_false_iff in H as [? ?]
  | H : negb _ = true |- _ => apply negb_true_iff in H
  | H : negb _ = false |- _ => apply negb_false_iff in H
  | H : bool_decide _ = true |- _ => apply bool_decide_eq_true in H
  | H : bool_decide _ = false |- _ => apply bool_decide_eq_false in H
  | H : (_ <? _)%Z = true |- _ => apply Z.ltb_lt in H
  | H : (_ <? _)%Z = false |- _ => apply Z.ltb_ge in H
  | H : (_ <=? _)%Z = true |- _ => apply Z.leb_le in H
  | H : (_ <=? _)%Z = false |- _ => apply Z.leb_gt in H
  | H : (_ =? _)%Z = true |- _ => apply Z.eqb_eq in H
  | H : (_ =? _)%Z = false |- _ => apply Z.eqb_neq in H
  end.

(** Case analysis on the next test of the goal, with its equation. *)
Ltac case_test :=
  match goal with
  | |- context [if ?b then _ else _] => let E := fresh "E" in destruct b eqn:E
  | |- context [match ?x with _ => _ end] => let E := fresh "E" in destruct x eqn:E
  end; bool_simpl; simplify_eq/=.

(** The same on a hypothesis. *)
Ltac case_test_in H :=
  match type of H with
  | context [if ?b then _ else _] => let E := fresh "E" in destruct b eqn:E
  | context [match ?x with _ => _ end] => let E := fresh "E" in destruct x eqn:E
  end; bool_simpl; simplify_eq/=.

(** Right-associates concatenations, with the literals in front unfolded. *)
Ltac app_norm := repeat first [rewrite <- (assoc_L (++)) | progress simpl].

(** Evaluates the lengths of literals. *)
Ltac lit_lengths :=
  repeat match goal with |- context [length (lit ?s)] =>
    let n := eval vm_compute in (length (lit s)) in change (length (lit s)) with n end.

(** ** Splitting a list at the first element that fails a test *)

Section span.
Context {A : Type}.

Fixpoint span (p : A -> bool) (l : list A) : list A * list A :=
  match l with
  | [] => ([], [])
  | x :: l' => if p x then let '(a, r) := span p l' in (x :: a, r) else ([], l)
  end.

Fixpoint drop_while (p : A -> bool) (l : list A) : list A :=
  match l with
  | [] => []
  | x :: l' => if p x then drop_while p l' else l
  end.

Definition stops (p : A -> bool) (l : list A) : Prop :=
  match l with [] => True | x :: _ => p x = false end.

Lemma span_app p l r :
  Forall (fun x => p x = true) l -> stops p r -> span p (l ++ r) = (l, r).
Proof.
  induction 1 as [|x l Hx _ IH]; intros Hr; simpl.
  - destruct r as [|y r]; [done|]. simpl in *. by rewrite Hr.
  - by rewrite Hx, IH.
Qed.

Lemma span_eq p l : (span p l).1 ++ (span p l).2 = l.
Proof.
  induction l as [|x l IH]; simpl; [done|]. destruct (p x); [|done].
  destruct (span p l); simpl in *. by rewrite IH.
Qed.

Lemma span_fst_all p l : Forall (fun x => p x = true) (span p l).1.
Proof.
  induction l as [|x l IH]; simpl; [constructor|].
  destruct (p x) eqn:E; simpl; [|constructor].
  destruct (span p l); simpl in *. by constructor.
Qed.

Lemma span_snd_stops p l : stops p (span p l).2.
Proof.
  induction l as [|x l IH]; simpl; [done|].
  destruct (p x) eqn:E; simpl; [|done]. by destruct (span p l).
Qed.

Lemma drop_while_snd p l : drop_while p l = (span p l).2.
Proof.
  induction l as [|x l IH]; simpl; [done|].
  destruct (p x); [|done]. by destruct (span p l).
Qed.

Lemma drop_while_app p l r :
  Forall (fun x => p x = true) l -> stops p r -> drop_while p (l ++ r) = r.
Proof. intros Hl Hr. by rewrite drop_while_snd, span_app. Qed.

Lemma drop_while_stops p l : stops p l -> drop_while p l = l.
Proof. destruct l as [|x l]; simpl; [done|]. by intros ->. Qed.

Lemma drop_while_stops_all p l : stops p (drop_while p l).
Proof. rewrite drop_while_snd. apply span_snd_stops. Qed.

Lemma drop_while_suffix p l : exists l', l = l' ++ drop_while p l /\ Forall (fun x => p x = true) l'.
Proof.
  exists (span p l).1. rewrite drop_while_snd, span_eq. split; [done|]. apply span_fst_all.
Qed.

Lemma length_span p l : length (span p l).1 + length (span p l).2 = length l.
Proof. by rewrite <- length_app, span_eq. Qed.

Lemma length_drop_while p l : length (drop_while p l) <= length l.
Proof. rewrite drop_while_snd, <- (length_span p l). lia. Qed.

End span.

#[export] Hint Resolve span_fst_all span_snd_stops drop_while_stops_all : redon.

(** ** Locality of a scan

    A scan that stopped at an element depends on nothing after that element:
    the lemmas that make a torn record recognisable. *)

Lemma span_local {A} (p : A -> bool) l a c r :
  span p l = (a, c :: r) -> l = a ++ c :: r /\ forall r', span p (a ++ c :: r') = (a, c :: r').
Proof.
  intros E. pose proof (span_eq p l) as Hl. pose proof (span_fst_all p l) as Ha.
  pose proof (span_snd_stops p l) as Hc. rewrite E in *. simpl in *.
  split; [done|]. intros r'. by apply span_app.
Qed.

Lemma drop_while_local {A} (p : A -> bool) l c r :
  drop_while p l = c :: r ->
  exists a, l = a ++ c :: r /\ forall r', drop_while p (a ++ c :: r') = c :: r'.
Proof.
  rewrite drop_while_snd. destruct (span p l) as [a r0] eqn:E. simpl. intros ->.
  apply span_local in E as [-> E]. exists a. split; [done|].
  intros r'. by rewrite drop_while_snd, E.
Qed.
