(* ===== verification/Stream.v ===== *)
(** * Characters, decimal numbers and input streams

    What the sources use of the C++ standard library on bytes: the whitespace
    set, [std::toupper] of the "C" locale, decimal output ([operator<<] and
    [std::to_string]), [strtol]-style conversion ([std::stol], [std::stoi],
    [std::stoll]) and the extraction operations of [std::istream].

    An input stream is the list of the bytes not yet consumed; extraction
    returns [None] where C++ sets [failbit].  [eofbit] needs no state of its
    own: it is set only by an attempt to look past the last byte, and then the
    list of remaining bytes is empty, on which every extraction of the sources
    fails. *)

From S2P Require Import Prelude.

Local Open Scope Z_scope.

(** ** Characters *)

(** The tokenizer's whitespace set; also [std::isspace] of the "C" locale. *)
Definition is_space (c : ascii) : bool :=
  Ascii.eqb c " " || Ascii.eqb c "009" || Ascii.eqb c "013" || Ascii.eqb c "010" ||
  Ascii.eqb c "011" || Ascii.eqb c "012".

Definition newline : ascii := "010".

Definition code (c : ascii) : Z := Z.of_N (N_of_ascii c).
Definition chr (z : Z) : ascii := ascii_of_N (Z.to_N z).

Lemma chr_code c : chr (code c) = c.
Proof. unfold chr, code. by rewrite N2Z.id, ascii_N_embedding. Qed.

Lemma code_chr z : 0 <= z < 256 -> code (chr z) = z.
Proof.
  intros Hz. unfold chr, code.
  rewrite N_ascii_embedding by lia. lia.
Qed.

Lemma code_range c : 0 <= code c < 256.
Proof. unfold code. pose proof (N_ascii_bounded c). lia. Qed.

(** [std::toupper] of the "C" locale. *)
Definition toupper (c : ascii) : ascii :=
  if (97 <=? code c) && (code c <=? 122) then chr (code c - 32) else c.

Definition is_digit (c : ascii) : bool := (48 <=? code c) && (code c <=? 57).
Definition digit_val (c : ascii) : Z := code c - 48.
Definition digit (d : Z) : ascii := chr (48 + d).

Lemma is_digit_digit d : 0 <= d < 10 -> is_digit (digit d) = true.
Proof. intros Hd. unfold is_digit, digit. rewrite code_chr by lia. lia. Qed.

Lemma digit_val_digit d : 0 <= d < 10 -> digit_val (digit d) = d.
Proof. intros Hd. unfold digit_val, digit. rewrite code_chr by lia. lia. Qed.

(** A fact about all bytes, by enumeration of the 256 cases. *)
Ltac all_bytes := intros [[] [] [] [] [] [] [] []]; vm_compute; try done.

Lemma digit_not_space c : is_digit c = true -> is_space c = false.
Proof. revert c. all_bytes. Qed.

Lemma digit_not_sign c : is_digit c = true -> c <> "-"%char /\ c <> "+"%char.
Proof. intros Hc. split; intros ->; revert Hc; by vm_compute. Qed.

Lemma toupper_space c : is_space (toupper c) = is_space c.
Proof. revert c. all_bytes. Qed.

(** ** Decimal output *)

Fixpoint decimal_aux (fuel : nat) (n : Z) (acc : bytes) : bytes :=
  match fuel with
  | O => acc
  | S f =>
      let acc' := digit (n mod 10) :: acc in
      if n <? 10 then acc' else decimal_aux f (n / 10) acc'
  end.

(** The digits of a nonnegative number: [out << n] for a [size_t]. *)
Definition decimal (n : Z) : bytes :=
  decimal_aux (S (Z.to_nat (Z.log2_up (n + 1)))) n [].

(** [std::to_string] of a signed integer. *)
Definition to_string (n : Z) : bytes :=
  if n <? 0 then "-"%char :: decimal (- n) else decimal n.

(** The number a list of digits denotes, after the digits of [acc]. *)
Fixpoint digits_val (acc : Z) (s : bytes) : Z :=
  match s with
  | [] => acc
  | c :: s' => digits_val (10 * acc + digit_val c) s'
  end.

Lemma digits_val_decimal_aux f n acc :
  0 <= n < 2 ^ Z.of_nat f -> (f <> 0)%nat ->
  digits_val 0 (decimal_aux f n acc) = digits_val n acc.
Proof.
  revert n acc. induction f as [|f IH]; [done|]. intros n acc Hn _. simpl.
  assert (0 <= n mod 10 < 10) by (apply Z.mod_pos_bound; lia).
  destruct (Z.ltb_spec n 10).
  - simpl. rewrite digit_val_digit by done. f_equal.
    rewrite Z.mod_small by lia. lia.
  - assert (n / 10 < 2 ^ Z.of_nat f).
    { rewrite Nat2Z.inj_succ, Z.pow_succ_r in Hn by lia.
      apply Z.div_lt_upper_bound; lia. }
    assert (0 < n / 10) by (apply Z.div_str_pos; lia).
    rewrite IH; [| lia |].
    + simpl. rewrite digit_val_digit by done. f_equal.
      pose proof (Z.div_mod n 10). lia.
    + intros ->. change (2 ^ Z.of_nat 0) with 1 in *. lia.
Qed.

Lemma decimal_aux_digits f n acc :
  0 <= n -> Forall (fun c => is_digit c = true) acc ->
  Forall (fun c => is_digit c = true) (decimal_aux f n acc).
Proof.
  revert n acc. induction f as [|f IH]; [done|]. intros n acc Hn Hacc. simpl.
  assert (is_digit (digit (n mod 10)) = true)
    by (apply is_digit_digit, Z.mod_pos_bound; lia).
  destruct (n <? 10); [by constructor|].
  apply IH; [apply Z.div_pos; lia | by constructor].
Qed.

Lemma decimal_aux_nonempty f n acc : (f <> 0)%nat -> decimal_aux f n acc <> [].
Proof.
  assert (forall m (a : bytes), a <> [] -> decimal_aux m n a <> []) as Hne.
  { clear. intros m. revert n. induction m as [|m IH]; intros n a Ha; simpl; [done|].
    destruct (n <? 10); [done|]. by apply IH. }
  destruct f as [|f]; [done|]. intros _. simpl. destruct (n <? 10); [done|].
  clear Hne. revert n acc. induction f as [|f IH]; intros n acc; simpl; [done|].
  destruct (_ <? 10); [done|]. apply (IH (n / 10) (_ :: acc)).
Qed.

Lemma decimal_digits n : 0 <= n -> Forall (fun c => is_digit c = true) (decimal n).
Proof. intros Hn. apply decimal_aux_digits; [done|constructor]. Qed.

Lemma decimal_nonempty n : decimal n <> [].
Proof. by apply decimal_aux_nonempty. Qed.

Lemma digits_val_decimal n : 0 <= n -> digits_val 0 (decimal n) = n.
Proof.
  intros Hn. unfold decimal. rewrite digits_val_decimal_aux; [done| |done].
  split; [done|]. rewrite Nat2Z.inj_succ, Z2Nat.id by apply Z.log2_up_nonneg.
  rewrite Z.pow_succ_r by apply Z.log2_up_nonneg.
  destruct (Z.eq_dec n 0) as [->|]; [done|].
  pose proof (Z.log2_up_spec (n + 1)). lia.
Qed.

(** ** Conversion of text to integers *)

(** Sign, then the longest run of decimal digits: the number, and the rest. *)
Definition scan_sign (s : bytes) : bool * bytes :=
  match s with
  | c :: s' =>
      if Ascii.eqb c "-" then (true, s') else if Ascii.eqb c "+" then (false, s') else (false, s)
  | [] => (false, [])
  end.

Definition scan_number (s : bytes) : option (Z * bytes) :=
  let '(neg, s1) := scan_sign s in
  let '(ds, rest) := span is_digit s1 in
  match ds with
  | [] => None
  | _ => let v := digits_val 0 ds in Some (if neg : bool then - v else v, rest)
  end.

(** [std::stol]/[stoi]/[stoll] with base 10: skip whitespace, read a signed
    number, throw ([None]) when there is none or when it is out of range;
    the second component is [*consumed]. *)
Definition strto (lo hi : Z) (s : bytes) : option (Z * Z) :=
  match scan_number (drop_while is_space s) with
  | None => None
  | Some (v, rest) =>
      if (v <? lo) || (hi <? v) then None else Some (v, blen s - blen rest)
  end.

Definition stoi (s : bytes) : option (Z * Z) := strto INT_MIN INT_MAX s.
Definition stol (s : bytes) : option (Z * Z) := strto LONG_MIN LONG_MAX s.
Definition stoll (s : bytes) : option (Z * Z) := strto LONG_MIN LONG_MAX s.

Lemma scan_sign_digit s : s <> [] -> Forall (fun c => is_digit c = true) s ->
  forall r, scan_sign (s ++ r) = (false, s ++ r).
Proof.
  intros Hne Hd r. destruct Hd as [|c s Hc Hd]; [done|]. simpl.
  destruct (digit_not_sign c Hc) as [? ?].
  destruct (Ascii.eqb_spec c "-"); [done|]. by destruct (Ascii.eqb_spec c "+").
Qed.

Lemma scan_number_decimal n r :
  0 <= n -> stops is_digit r -> scan_number (decimal n ++ r) = Some (n, r).
Proof.
  intros Hn Hr. unfold scan_number.
  rewrite scan_sign_digit by (apply decimal_nonempty || by apply decimal_digits).
  rewrite span_app by (by apply decimal_digits || done).
  rewrite digits_val_decimal by done.
  destruct (decimal n) eqn:E; [by apply decimal_nonempty in E|done].
Qed.

Lemma scan_number_to_string n r :
  stops is_digit r -> scan_number (to_string n ++ r) = Some (n, r).
Proof.
  intros Hr. unfold to_string. destruct (Z.ltb_spec n 0).
  - unfold scan_number. simpl.
    rewrite span_app by ((apply decimal_digits; lia) || done).
    rewrite digits_val_decimal by lia.
    destruct (decimal (- n)) eqn:E; [by apply decimal_nonempty in E|].
    by rewrite Z.opp_involutive.
  - by apply scan_number_decimal.
Qed.

(** Only digits and a sign are printed, and different numbers differently. *)
Lemma to_string_no (c : ascii) n : is_digit c = false -> c <> "-"%char -> c ∉ to_string n.
Proof.
  intros Hd Hm Hin. assert (forall m, 0 <= m -> c ∉ decimal m) as Hdec.
  { intros m Hpos Hc. pose proof (decimal_digits m Hpos) as Hf. rewrite List.Forall_forall in Hf.
    apply list_elem_of_In, Hf in Hc. congruence. }
  unfold to_string in Hin. destruct (Z.ltb_spec n 0).
  - apply elem_of_cons in Hin as [->|Hin]; [done|]. by eapply (Hdec (- n)); [lia|].
  - by eapply (Hdec n).
Qed.

Lemma to_string_inj n m : to_string n = to_string m -> n = m.
Proof.
  intros E. pose proof (scan_number_to_string n [] I) as En. pose proof (scan_number_to_string m [] I) as Em.
  rewrite E in En. congruence.
Qed.

Lemma to_string_not_space n : Forall (fun c => is_space c = false) (to_string n).
Proof.
  assert (forall m, 0 <= m -> Forall (fun c => is_space c = false) (decimal m)) as Hd.
  { intros m Hm. eapply Forall_impl; [by apply decimal_digits|]. exact digit_not_space. }
  unfold to_string. destruct (Z.ltb_spec n 0); [constructor; [done|]|]; apply Hd; lia.
Qed.

Lemma to_string_nonempty n : to_string n <> [].
Proof. unfold to_string. destruct (n <? 0); [done|apply decimal_nonempty]. Qed.

Lemma strto_to_string lo hi n r :
  lo <= n <= hi -> stops is_digit r ->
  strto lo hi (to_string n ++ r) = Some (n, blen (to_string n)).
Proof.
  intros Hn Hr. unfold strto.
  assert (stops is_space (to_string n ++ r)) as Hs.
  { pose proof (to_string_not_space n) as Hns. pose proof (to_string_nonempty n).
    destruct (to_string n) as [|c t]; [done|]. by inversion Hns. }
  rewrite drop_while_stops by done. rewrite scan_number_to_string by done.
  destruct (Z.ltb_spec n lo); [lia|]. destruct (Z.ltb_spec hi n); [lia|]. simpl.
  unfold blen. rewrite length_app. do 2 f_equal. lia.
Qed.

(** ** Extraction from an input stream *)

(** [in >> token] for a [std::string]. *)
Definition extract_token (s : bytes) : option (bytes * bytes) :=
  let '(t, r) := span (fun c => negb (is_space c)) (drop_while is_space s) in
  match t with [] => None | _ => Some (t, r) end.

(** [in >> n] for a [std::size_t]: a minus sign negates modulo 2^64, a
    magnitude above the maximum sets [failbit]. *)
Definition extract_size (s : bytes) : option (Z * bytes) :=
  match scan_number (drop_while is_space s) with
  | None => None
  | Some (v, rest) => if two64 <=? Z.abs v then None else Some (wrap64 v, rest)
  end.

(** [in.get()]. *)
Definition get_char (s : bytes) : option (ascii * bytes) :=
  match s with [] => None | c :: r => Some (c, r) end.

(** [in.read(buf, n)]: all of the [n] bytes, or failure. *)
Fixpoint read_bytes (n : Z) (s : bytes) : option (bytes * bytes) :=
  if n <=? 0 then Some ([], s) else
  match s with
  | [] => None
  | c :: r => match read_bytes (n - 1) r with
              | Some (a, r') => Some (c :: a, r')
              | None => None
              end
  end.

(** [in.seekg(n, cur)]: moving past the end leaves nothing to read. *)
Fixpoint skip_bytes (n : Z) (s : bytes) : bytes :=
  if n <=? 0 then s else match s with [] => [] | _ :: r => skip_bytes (n - 1) r end.

Lemma read_bytes_app k r : read_bytes (blen k) (k ++ r) = Some (k, r).
Proof.
  induction k as [|c k IH]; simpl.
  - by destruct r.
  - unfold blen in *. simpl length. destruct (Z.leb_spec (Z.of_nat (S (length k))) 0); [lia|].
    replace (Z.of_nat (S (length k)) - 1) with (Z.of_nat (length k)) by lia.
    by rewrite IH.
Qed.

Lemma read_bytes_Some n s a r :
  read_bytes n s = Some (a, r) -> s = a ++ r /\ blen a = Z.max 0 n.
Proof.
  revert n a r. induction s as [|c s IH]; intros n a r; simpl.
  - destruct (Z.leb_spec n 0); [|done]. intros [= <- <-]. unfold blen. simpl. split; [done|lia].
  - destruct (Z.leb_spec n 0).
    + intros [= <- <-]. unfold blen. simpl. split; [done|lia].
    + destruct (read_bytes (n - 1) s) as [[a' r']|] eqn:E; [|done].
      intros [= <- <-]. destruct (IH _ _ _ E) as [-> Hl]. split; [done|].
      unfold blen in *. simpl. lia.
Qed.

Lemma read_bytes_short n s : blen s < n -> read_bytes n s = None.
Proof.
  intros Hs. destruct (read_bytes n s) as [[a r]|] eqn:E; [|done].
  apply read_bytes_Some in E as [-> Hl]. unfold blen in *. rewrite length_app in Hs. lia.
Qed.

Lemma skip_bytes_app v r : skip_bytes (blen v) (v ++ r) = r.
Proof.
  induction v as [|c v IH]; simpl.
  - by destruct r.
  - unfold blen in *. simpl length. destruct (Z.leb_spec (Z.of_nat (S (length v))) 0); [lia|].
    replace (Z.of_nat (S (length v)) - 1) with (Z.of_nat (length v)) by lia. apply IH.
Qed.

Lemma skip_bytes_read n s a r : read_bytes n s = Some (a, r) -> skip_bytes n s = r.
Proof.
  revert n a r. induction s as [|c s IH]; intros n a r; simpl.
  - destruct (n <=? 0); [|done]. by intros [= <- <-].
  - destruct (n <=? 0); [by intros [= <- <-]|].
    destruct (read_bytes (n - 1) s) as [[a' r']|] eqn:E; [|done].
    intros [= <- <-]. by eapply IH.
Qed.

Lemma skip_bytes_short n s : read_bytes n s = None -> skip_bytes n s = [].
Proof.
  revert n. induction s as [|c s IH]; intros n; simpl.
  - by destruct (n <=? 0).
  - destruct (n <=? 0); [done|].
    destruct (read_bytes (n - 1) s) as [[a' r']|] eqn:E; [done|]. intros _. by apply IH.
Qed.

Lemma extract_token_app ws t r :
  Forall (fun c => is_space c = true) ws -> t <> [] ->
  Forall (fun c => is_space c = false) t ->
  stops (fun c => negb (is_space c)) r ->
  extract_token (ws ++ t ++ r) = Some (t, r).
Proof.
  intros Hws Ht Hns Hr. unfold extract_token.
  rewrite drop_while_app; [|done|].
  - rewrite span_app; [by destruct t| |done].
    eapply Forall_impl; [done|]. by intros c ->.
  - destruct t as [|c t]; [done|]. by inversion Hns.
Qed.

Lemma extract_size_decimal ws n r :
  Forall (fun c => is_space c = true) ws -> 0 <= n < two64 -> stops is_digit r ->
  extract_size (ws ++ decimal n ++ r) = Some (n, r).
Proof.
  intros Hws Hn Hr. unfold extract_size.
  rewrite drop_while_app; [|done|].
  - rewrite scan_number_decimal by (done || lia).
    destruct (Z.leb_spec two64 (Z.abs n)); [lia|]. by rewrite wrap64_small.
  - pose proof (decimal_digits n ltac:(lia)) as Hd. pose proof (decimal_nonempty n).
    destruct (decimal n) as [|c t]; [done|]. inversion Hd; subst.
    by apply digit_not_space.
Qed.

(** Every extraction consumes: the rest is a suffix, shorter where it must be. *)

Lemma scan_number_shorter s v r : scan_number s = Some (v, r) -> (length r < length s)%nat.
Proof.
  unfold scan_number. destruct (scan_sign s) as [neg s1] eqn:Es.
  assert (length s1 <= length s)%nat.
  { destruct s as [|c s]; simpl in *; [by simplify_eq|].
    repeat case_match; simplify_eq/=; lia. }
  pose proof (length_span is_digit s1). destruct (span is_digit s1) as [[|d ds] rest]; [done|].
  intros [= <- <-]. simpl in *. lia.
Qed.

Lemma extract_token_shorter s t r : extract_token s = Some (t, r) -> (length r < length s)%nat.
Proof.
  unfold extract_token. pose proof (length_drop_while is_space s).
  pose proof (length_span (fun c => negb (is_space c)) (drop_while is_space s)).
  destruct (span _ _) as [[|c t'] r']; [done|]. intros [= <- <-]. simpl in *. lia.
Qed.

Lemma extract_size_shorter s v r : extract_size s = Some (v, r) -> (length r < length s)%nat.
Proof.
  unfold extract_size. pose proof (length_drop_while is_space s).
  destruct (scan_number _) as [[v' r']|] eqn:E; [|done].
  apply scan_number_shorter in E. destruct (two64 <=? Z.abs v'); [done|].
  intros [= <- <-]. lia.
Qed.

Lemma extract_size_range s v r : extract_size s = Some (v, r) -> 0 <= v < two64.
Proof.
  unfold extract_size. destruct (scan_number _) as [[v' r']|]; [|done].
  destruct (two64 <=? Z.abs v'); [done|]. intros [= <- <-]. apply wrap64_range.
Qed.
