(* ===== verification/Records.v ===== *)
(** * The record format shared by the write-ahead log and the data file

    [SET <klen> <vlen> <key><value>\n] and [DEL <klen> <key>\n].  The writers
    are [Wal::append_set]/[append_del] and [DiskStore::set]/[del]/[compact];
    the readers are the loop bodies of [Wal::replay_into] and
    [DiskStore::recover].  This file has the bytes of a record, the two
    readers, their agreement, the encode/decode round trip, and the fact
    crash recovery rests on: a record cut short is never mistaken for a
    record. *)

From S2P Require Import Prelude Stream.

Local Open Scope Z_scope.

Inductive record :=
  | RSet (key value : bytes)
  | RDel (key : bytes).

#[export] Instance record_eq_dec : EqDecision record.
Proof. solve_decision. Defined.

Definition kMaxField : Z := 256 * 1024 * 1024.

(** ** Writing *)

Definition set_record (key value : bytes) : bytes :=
  lit "SET " ++ decimal (blen key) ++ lit " " ++ decimal (blen value) ++ lit " " ++
  key ++ value ++ [newline].

Definition del_record (key : bytes) : bytes :=
  lit "DEL " ++ decimal (blen key) ++ lit " " ++ key ++ [newline].

Definition encode (r : record) : bytes :=
  match r with RSet k v => set_record k v | RDel k => del_record k end.

Definition encode_all (rs : list record) : bytes := mjoin (encode <$> rs).

(** ** Reading: one iteration of the loop of [Wal::replay_into]

    [None] stands for [break]. *)

Definition bad_length (n : Z) : bool := (n =? 0) || (kMaxField <? n).

Definition parse_set_body (s : bytes) : option (record * bytes) :=
  '(key_len, s1) ← extract_size s;
  '(val_len, s2) ← extract_size s1;
  if bad_length key_len || bad_length val_len then None else
  '(c, s3) ← get_char s2;
  if negb (Ascii.eqb c " ") then None else
  '(key, s4) ← read_bytes key_len s3;
  '(val, s5) ← read_bytes val_len s4;
  '(c', s6) ← get_char s5;
  if negb (Ascii.eqb c' newline) then None else Some (RSet key val, s6).

Definition parse_del_body (s : bytes) : option (record * bytes) :=
  '(key_len, s1) ← extract_size s;
  if bad_length key_len then None else
  '(c, s2) ← get_char s1;
  if negb (Ascii.eqb c " ") then None else
  '(key, s3) ← read_bytes key_len s2;
  '(c', s4) ← get_char s3;
  if negb (Ascii.eqb c' newline) then None else Some (RDel key, s4).

Definition parse_record (s : bytes) : option (record * bytes) :=
  '(op, s1) ← extract_token s;
  if op =?b lit "SET" then parse_set_body s1
  else if op =?b lit "DEL" then parse_del_body s1
  else None.

(** The records a reader sees before it stops, and the bytes it leaves. *)
Fixpoint parse_log (fuel : nat) (s : bytes) : list record * bytes :=
  match fuel with
  | O => ([], s)
  | S f => match parse_record s with
           | None => ([], s)
           | Some (r, s') => let '(rs, rest) := parse_log f s' in (r :: rs, rest)
           end
  end.

Definition log_records (s : bytes) : list record := (parse_log (length s) s).1.

(** ** Reading: one iteration of the loop of [DiskStore::recover]

    The value is skipped, not read: only its offset and length are kept.
    [total] is the size of the file, so the stream position ([tellg]) is
    [total] less the bytes that remain. *)

Record Entry := { value_pos : nat; value_len : Z }.

#[export] Instance Entry_eq_dec : EqDecision Entry.
Proof. solve_decision. Defined.

Inductive scanned := SSet (key : bytes) (e : Entry) | SDel (key : bytes).

Definition scan_set_body (total : nat) (s : bytes) : option (scanned * bytes) :=
  '(klen, s1) ← extract_size s;
  '(vlen, s2) ← extract_size s1;
  if bad_length klen || bad_length vlen then None else
  '(c, s3) ← get_char s2;
  if negb (Ascii.eqb c " ") then None else
  '(key, s4) ← read_bytes klen s3;
  let pos := (total - length s4)%nat in
  let s5 := skip_bytes vlen s4 in
  '(c', s6) ← get_char s5;
  if negb (Ascii.eqb c' newline) then None
  else Some (SSet key {| value_pos := pos; value_len := vlen |}, s6).

Definition scan_del_body (s : bytes) : option (scanned * bytes) :=
  '(klen, s1) ← extract_size s;
  if bad_length klen then None else
  '(c, s2) ← get_char s1;
  if negb (Ascii.eqb c " ") then None else
  '(key, s3) ← read_bytes klen s2;
  '(c', s4) ← get_char s3;
  if negb (Ascii.eqb c' newline) then None else Some (SDel key, s4).

Definition scan_record (total : nat) (s : bytes) : option (scanned * bytes) :=
  '(op, s1) ← extract_token s;
  if op =?b lit "SET" then scan_set_body total s1
  else if op =?b lit "DEL" then scan_del_body s1
  else None.

(** ** What the records mean *)

Definition apply_record (m : gmap bytes bytes) (r : record) : gmap bytes bytes :=
  match r with RSet k v => <[k:=v]> m | RDel k => delete k m end.

Definition apply_records (m : gmap bytes bytes) (rs : list record) : gmap bytes bytes :=
  foldl apply_record m rs.

Definition valid_field (s : bytes) : Prop := s <> [] /\ blen s <= kMaxField.

Definition valid_record (r : record) : Prop :=
  match r with RSet k v => valid_field k /\ valid_field v | RDel k => valid_field k end.

#[export] Instance valid_field_dec s : Decision (valid_field s).
Proof. unfold valid_field. apply _. Defined.

#[export] Instance valid_record_dec r : Decision (valid_record r).
Proof. destruct r; simpl; apply _. Defined.

(** ** Round trip *)

Lemma valid_field_length s : valid_field s -> bad_length (blen s) = false /\ 0 <= blen s < two64.
Proof.
  intros [Hne Hlen]. unfold bad_length, blen, kMaxField, two64 in *.
  destruct s as [|c s]; [done|]. simpl length in *. split; [|lia].
  apply orb_false_iff. split; [apply Z.eqb_neq|apply Z.ltb_ge]; lia.
Qed.

Lemma extract_size_field n r :
  0 <= n < two64 -> stops is_digit r -> extract_size (" "%char :: decimal n ++ r) = Some (n, r).
Proof. intros Hn Hr. apply (extract_size_decimal [" "%char]); [by repeat constructor|done..]. Qed.

Lemma parse_set_body_encode k v rest :
  valid_field k -> valid_field v ->
  parse_set_body (lit " " ++ decimal (blen k) ++ lit " " ++ decimal (blen v) ++ lit " " ++
                  k ++ v ++ [newline] ++ rest) = Some (RSet k v, rest).
Proof.
  intros Hk Hv. apply valid_field_length in Hk as [Hk1 Hk2], Hv as [Hv1 Hv2].
  unfold parse_set_body.
  simpl. rewrite extract_size_field by done. simpl. rewrite extract_size_field by done. simpl.
  rewrite Hk1, Hv1. simpl. rewrite read_bytes_app. simpl. by rewrite read_bytes_app.
Qed.

Lemma parse_del_body_encode k rest :
  valid_field k ->
  parse_del_body (lit " " ++ decimal (blen k) ++ lit " " ++ k ++ [newline] ++ rest)
  = Some (RDel k, rest).
Proof.
  intros Hk. apply valid_field_length in Hk as [Hk1 Hk2]. unfold parse_del_body.
  simpl. rewrite extract_size_field by done. simpl. rewrite Hk1. simpl. by rewrite read_bytes_app.
Qed.

Lemma parse_encode r rest :
  valid_record r -> parse_record (encode r ++ rest) = Some (r, rest).
Proof.
  destruct r as [k v|k]; simpl; [intros [Hk Hv]|intros Hk];
    repeat (rewrite <- (assoc_L (++)); simpl).
  - by apply parse_set_body_encode.
  - by apply parse_del_body_encode.
Qed.

(** ** Torn records *)

(** What reading a number, a token or a record consumed determines the result:
    whatever follows is left alone. *)

Lemma scan_sign_local x : (exists neg, forall s', scan_sign (x :: s') = (neg, s')) \/
  (forall s', scan_sign (x :: s') = (false, x :: s')).
Proof.
  simpl. destruct (Ascii.eqb x "-"); [left; by eexists|].
  destruct (Ascii.eqb x "+"); [left; by eexists|by right].
Qed.

Lemma scan_number_local s v c r :
  scan_number s = Some (v, c :: r) ->
  exists x p, s = x :: p ++ c :: r /\ forall r', scan_number (x :: p ++ c :: r') = Some (v, c :: r').
Proof.
  destruct s as [|x s]; [done|]. intros H. unfold scan_number in H.
  destruct (scan_sign_local x) as [[neg Hs]|Hs]; rewrite Hs in H;
    destruct (span is_digit _) as [[|d ds] rest] eqn:E; try done;
    injection H as <- ->; apply span_local in E as [E1 E2].
  - exists x, (d :: ds). split; [by rewrite E1|].
    intros r'. unfold scan_number. by rewrite Hs, E2.
  - injection E1 as -> ->. exists d, ds. split; [done|]. intros r'. unfold scan_number.
    rewrite Hs. by change (d :: ds ++ c :: r') with ((d :: ds) ++ c :: r'); rewrite E2.
Qed.

Lemma extract_size_local s v c r :
  extract_size s = Some (v, c :: r) ->
  exists p, s = p ++ c :: r /\ forall r', extract_size (p ++ c :: r') = Some (v, c :: r').
Proof.
  unfold extract_size. destruct (drop_while is_space s) as [|x0 s0] eqn:Ed; [done|].
  destruct (scan_number (x0 :: s0)) as [[v' r0]|] eqn:E; [|done].
  destruct (two64 <=? Z.abs v') eqn:Ev; [done|]. intros [= <- ->].
  apply scan_number_local in E as (x & p & [= -> ->] & E).
  apply drop_while_local in Ed as (ws & -> & Ed).
  exists (ws ++ x :: p). rewrite <- (assoc_L (++)). split; [done|].
  intros r'. rewrite <- (assoc_L (++)). simpl. by rewrite Ed, E, Ev.
Qed.

Lemma extract_token_local s t c r :
  extract_token s = Some (t, c :: r) ->
  exists p, s = p ++ c :: r /\ forall r', extract_token (p ++ c :: r') = Some (t, c :: r').
Proof.
  unfold extract_token. destruct (drop_while is_space s) as [|x0 s0] eqn:Ed; [done|].
  destruct (span _ (x0 :: s0)) as [[|x t'] r0] eqn:E; [done|]. intros [= <- ->].
  apply span_local in E as [[= -> ->] E].
  apply drop_while_local in Ed as (ws & -> & Ed).
  exists (ws ++ x :: t'). rewrite <- (assoc_L (++)). split; [done|].
  intros r'. rewrite <- (assoc_L (++)). simpl. rewrite Ed.
  change (x :: t' ++ c :: r') with ((x :: t') ++ c :: r'). by rewrite E.
Qed.

Lemma read_bytes_local n s a r :
  read_bytes n s = Some (a, r) -> s = a ++ r /\ forall r', read_bytes n (a ++ r') = Some (a, r').
Proof.
  revert n a r. induction s as [|c s IH]; intros n a r; simpl.
  - destruct (n <=? 0) eqn:E; [|done]. intros [= <- <-]. split; [done|].
    intros r'. destruct r'; simpl; by rewrite E.
  - destruct (n <=? 0) eqn:E.
    + intros [= <- <-]. split; [done|]. intros r'. destruct r'; simpl; by rewrite E.
    + destruct (read_bytes (n - 1) s) as [[a' r']|] eqn:E'; [|done].
      intros [= <- <-]. apply IH in E' as [-> E']. split; [done|].
      intros r''. simpl. by rewrite E, E'.
Qed.

Lemma get_char_Some s c r : get_char s = Some (c, r) -> s = c :: r.
Proof. destruct s; simpl; [done|]. by intros [= <- <-]. Qed.

(** Walks through a successful run of an extraction, naming each step. *)
Ltac opt_case H :=
  match type of H with
  | mbind _ ?x = Some _ =>
      let E := fresh "E" in destruct x as [[? ?]|] eqn:E; simpl in H; [|discriminate H]
  | (if ?b then None else _) = Some _ =>
      let E := fresh "E" in destruct b eqn:E; simpl in H; [discriminate H|]
  end.

Lemma parse_set_body_local s r rest :
  parse_set_body s = Some (r, rest) ->
  exists h k v, r = RSet k v /\ s = h ++ v ++ newline :: rest /\ h <> [] /\
    forall rest', parse_set_body (h ++ v ++ newline :: rest') = Some (r, rest').
Proof.
  unfold parse_set_body. intros H. repeat opt_case H. simplify_eq.
  repeat match goal with Hc : get_char _ = Some _ |- _ => apply get_char_Some in Hc; subst end.
  apply negb_false_iff, Ascii.eqb_eq in E3, E7. subst.
  apply read_bytes_local in E5 as [-> E5], E4 as [-> E4].
  apply extract_size_local in E0 as (p1 & -> & E0).
  destruct p1 as [|c0 p1]; [by specialize (E0 [])|].
  apply extract_size_local in E as (p0 & -> & E).
  match goal with |- context [RSet ?k ?v] => exists (p0 ++ c0 :: p1 ++ " "%char :: k), k, v end.
  split; [done|]. app_norm.
  split; [done|]. split; [by destruct p0|]. intros rest'.
  app_norm. rewrite E. simpl.
  change (c0 :: p1 ++ ?x) with ((c0 :: p1) ++ x). rewrite E0. simpl. rewrite E1. simpl.
  rewrite E4. simpl. by rewrite E5.
Qed.

Lemma parse_del_body_local s r rest :
  parse_del_body s = Some (r, rest) ->
  exists p k, r = RDel k /\ s = p ++ rest /\ p <> [] /\
    forall rest', parse_del_body (p ++ rest') = Some (r, rest').
Proof.
  unfold parse_del_body. intros H. repeat opt_case H. simplify_eq.
  repeat match goal with Hc : get_char _ = Some _ |- _ => apply get_char_Some in Hc; subst end.
  apply negb_false_iff, Ascii.eqb_eq in E2, E5. subst.
  apply read_bytes_local in E3 as [-> E3]. apply extract_size_local in E as (p0 & -> & E).
  match goal with |- context [RDel ?k] => exists (p0 ++ " "%char :: k ++ [newline]), k end.
  app_norm.
  split; [done|]. split; [done|]. split; [by destruct p0|]. intros rest'.
  app_norm. rewrite E. simpl.
  rewrite E0. simpl. by rewrite E3.
Qed.

(** A record is delimited: the bytes [p] it was read from are read as that
    record whatever comes next. *)
Definition delimits (p : bytes) (r : record) : Prop :=
  p <> [] /\ forall rest, parse_record (p ++ rest) = Some (r, rest).

(** The value of a SET record lies just before its terminator. *)
Definition ends_with_value (p : bytes) (r : record) : Prop :=
  match r with RSet k v => exists h, p = h ++ v ++ [newline] | RDel _ => True end.

Lemma parse_record_local s r rest :
  parse_record s = Some (r, rest) ->
  exists p, s = p ++ rest /\ delimits p r /\ ends_with_value p r.
Proof.
  unfold parse_record. intros H. opt_case H. unfold delimits.
  match type of E with _ = Some (?op, ?l) => destruct l as [|c0 l0] end.
  { by repeat case_bool_decide. }
  apply extract_token_local in E as (p0 & -> & E). unfold parse_record.
  repeat case_bool_decide; [| |done].
  - apply parse_set_body_local in H as (h & k & v & -> & Es & Hh & H).
    destruct h as [|c h]; [done|]. injection Es as <- ->.
    exists (p0 ++ (c0 :: h) ++ v ++ [newline]). app_norm. split; [done|]. split; [|exists (p0 ++ c0 :: h)].
    + split; [by destruct p0|]. intros rest'. app_norm. rewrite E. simpl. rewrite bool_decide_true by done. apply H.
    + by app_norm.
  - apply parse_del_body_local in H as (h & k & -> & Es & Hh & H).
    destruct h as [|c h]; [done|]. injection Es as <- ->.
    exists (p0 ++ c0 :: h). app_norm. split; [done|]. split; [|done].
    split; [by destruct p0|]. intros rest'. app_norm. rewrite E. simpl.
    rewrite bool_decide_false, bool_decide_true by done. apply H.
Qed.

(** A proper prefix of a record is not a record: reading it fails. *)
Lemma parse_torn r p q :
  valid_record r -> encode r = p ++ q -> q <> [] -> parse_record p = None.
Proof.
  intros Hr He Hq. destruct (parse_record p) as [[r' rest]|] eqn:E; [|done].
  apply parse_record_local in E as (p' & -> & [_ E] & _). rewrite <- (assoc_L (++)) in He.
  pose proof (parse_encode r [] Hr) as E'. rewrite app_nil_r, He, E in E'. injection E' as _ E'.
  by apply app_eq_nil in E' as [_ ->].
Qed.

(** ** The loop over a whole file *)

Lemma parse_record_shorter s r rest :
  parse_record s = Some (r, rest) -> (length rest < length s)%nat.
Proof.
  assert (forall n x a y, read_bytes n x = Some (a, y) -> (length y <= length x)%nat) as Hrd.
  { intros n x a y Hx. apply read_bytes_Some in Hx as [-> _]. rewrite length_app. lia. }
  unfold parse_record. intros H. opt_case H. apply extract_token_shorter in E.
  repeat case_bool_decide; [unfold parse_set_body in H|unfold parse_del_body in H|done];
    repeat opt_case H; simplify_eq;
    repeat match goal with
    | Hc : get_char _ = Some _ |- _ => apply get_char_Some in Hc
    | Hs : extract_size _ = Some _ |- _ => apply extract_size_shorter in Hs
    | Hs : read_bytes _ _ = Some _ |- _ => apply Hrd in Hs
    end; subst; simpl in *; lia.
Qed.

(** The fuel of [parse_log] does not matter once it covers the input. *)
Lemma parse_log_fuel f g s :
  (length s <= f)%nat -> (length s <= g)%nat -> parse_log f s = parse_log g s.
Proof.
  revert g s. induction f as [|f IH]; intros g s Hf Hg.
  - destruct s; [|simpl in *; lia]. by destruct g.
  - destruct g as [|g]; [destruct s; [done|simpl in *; lia]|]. simpl.
    destruct (parse_record s) as [[r s']|] eqn:E; [|done].
    apply parse_record_shorter in E. by rewrite (IH g s') by lia.
Qed.

Lemma log_records_delimited p r rest :
  delimits p r -> log_records (p ++ rest) = r :: log_records rest.
Proof.
  intros [_ Hp]. specialize (Hp rest). unfold log_records.
  pose proof (parse_record_shorter _ _ _ Hp) as Hlt.
  destruct (length (p ++ rest)) as [|f] eqn:El; [lia|]. simpl. rewrite Hp.
  rewrite (parse_log_fuel f (length rest)) by lia. by destruct (parse_log _ rest).
Qed.

Lemma encode_nonempty r : encode r <> [].
Proof. by destruct r. Qed.

Lemma encode_delimits r : valid_record r -> delimits (encode r) r.
Proof. intros Hr. split; [apply encode_nonempty|]. intros rest. by apply parse_encode. Qed.

(** A log: bytes that read as the records [rs] whatever comes next. *)
Definition is_log (p : bytes) (rs : list record) : Prop :=
  forall rest, log_records (p ++ rest) = rs ++ log_records rest.

Lemma is_log_nil : is_log [] [].
Proof. done. Qed.

Lemma is_log_snoc p q rs r : is_log p rs -> delimits q r -> is_log (p ++ q) (rs ++ [r]).
Proof.
  intros Hp Hq rest. rewrite <- (assoc_L (++)), Hp, (log_records_delimited q r) by done.
  by rewrite <- (assoc_L (++)).
Qed.

Lemma is_log_encode p rs r : is_log p rs -> valid_record r -> is_log (p ++ encode r) (rs ++ [r]).
Proof. intros Hp Hr. apply is_log_snoc; [done|by apply encode_delimits]. Qed.

Lemma encode_all_cons r rs : encode_all (r :: rs) = encode r ++ encode_all rs.
Proof. reflexivity. Qed.

Lemma is_log_encode_all rs : Forall valid_record rs -> is_log (encode_all rs) rs.
Proof.
  induction 1 as [|r rs Hr _ IH]; [apply is_log_nil|]. intros rest.
  rewrite encode_all_cons, <- (assoc_L (++)), (log_records_delimited _ r) by by apply encode_delimits.
  by rewrite IH.
Qed.

Lemma log_records_none s : parse_record s = None -> log_records s = [].
Proof. intros H. unfold log_records. destruct (length s); simpl; [done|]. by rewrite H. Qed.

(** What is left of a record whose write was cut short. *)
Definition torn (s : bytes) : Prop :=
  s = [] \/ exists r q, valid_record r /\ q <> [] /\ encode r = s ++ q.

Lemma torn_no_record s : torn s -> parse_record s = None.
Proof. intros [->|(r & q & Hr & Hq & He)]; [done|]. by eapply parse_torn. Qed.

Lemma torn_log s : torn s -> log_records s = [].
Proof. intros Hs. by apply log_records_none, torn_no_record. Qed.

Lemma is_log_torn p rs tail : is_log p rs -> torn tail -> log_records (p ++ tail) = rs.
Proof. intros Hp Ht. by rewrite Hp, torn_log, app_nil_r. Qed.

Lemma torn_take n r : valid_record r -> torn (take (Nat.min n (length (encode r) - 1)) (encode r)).
Proof.
  intros Hr. right. exists r, (drop (Nat.min n (length (encode r) - 1)) (encode r)).
  rewrite take_drop. split; [done|]. split; [|done].
  intros H%(f_equal length). rewrite length_drop in H. simpl in H.
  pose proof (encode_nonempty r). destruct (encode r); simpl in *; [done|lia].
Qed.

Lemma encode_all_app rs1 rs2 : encode_all (rs1 ++ rs2) = encode_all rs1 ++ encode_all rs2.
Proof. unfold encode_all. by rewrite fmap_app, join_app. Qed.

Lemma encode_all_snoc rs r : encode_all (rs ++ [r]) = encode_all rs ++ encode r.
Proof. rewrite encode_all_app. unfold encode_all at 2. simpl. by rewrite app_nil_r. Qed.

Lemma apply_records_snoc m rs r :
  apply_records m (rs ++ [r]) = apply_record (apply_records m rs) r.
Proof. unfold apply_records. by rewrite foldl_app. Qed.

(** ** The two readers agree

    Skipping the value finds the same records as reading it, with the offset
    and length at which the value lies. *)

Definition scanned_of (total : nat) (r : record) (rest : bytes) : scanned :=
  match r with
  | RSet k v => SSet k {| value_pos := total - (length v + S (length rest)); value_len := blen v |}
  | RDel k => SDel k
  end.

Lemma scan_set_body_parse total s :
  scan_set_body total s =
  '(r, rest) ← parse_set_body s; Some (scanned_of total r rest, rest).
Proof.
  unfold scan_set_body, parse_set_body.
  destruct (extract_size s) as [[kl s1]|]; simpl; [|done].
  destruct (extract_size s1) as [[vl s2]|] eqn:Ev; simpl; [|done].
  apply extract_size_range in Ev.
  destruct (bad_length kl || bad_length vl); simpl; [done|].
  destruct (get_char s2) as [[c s3]|]; simpl; [|done].
  destruct (negb _); simpl; [done|].
  destruct (read_bytes kl s3) as [[k s4]|]; simpl; [|done].
  destruct (read_bytes vl s4) as [[v s5]|] eqn:Er; simpl.
  - rewrite (skip_bytes_read _ _ _ _ Er). apply read_bytes_Some in Er as [-> Hl].
    destruct s5 as [|c' s6]; simpl; [done|]. destruct (negb _); simpl; [done|].
    rewrite length_app. simpl. do 4 f_equal. lia.
  - by rewrite (skip_bytes_short _ _ Er).
Qed.

Lemma scan_record_parse total s :
  scan_record total s =
  '(r, rest) ← parse_record s; Some (scanned_of total r rest, rest).
Proof.
  unfold scan_record, parse_record. destruct (extract_token s) as [[op s1]|]; simpl; [|done].
  case_bool_decide; [apply scan_set_body_parse|]. case_bool_decide; [|done].
  unfold scan_del_body, parse_del_body.
  destruct (extract_size s1) as [[kl s2]|]; simpl; [|done].
  destruct (bad_length kl); simpl; [done|].
  destruct (get_char s2) as [[c s3]|]; simpl; [|done].
  destruct (negb _); simpl; [done|].
  destruct (read_bytes kl s3) as [[k s4]|]; simpl; [|done].
  destruct (get_char s4) as [[c' s5]|]; simpl; [|done]. by destruct (negb _).
Qed.

(** Whatever is read is within the limits the reader checks. *)

Lemma read_valid n s k r : bad_length n = false -> read_bytes n s = Some (k, r) -> 0 <= n -> valid_field k.
Proof.
  unfold bad_length. intros Hb Hr Hn. apply read_bytes_Some in Hr as [_ Hl]. bool_simpl.
  split; [|lia]. intros ->. unfold blen in *. simpl in *. lia.
Qed.

Lemma parse_record_valid s r rest : parse_record s = Some (r, rest) -> valid_record r.
Proof.
  unfold parse_record. intros H. opt_case H.
  repeat case_bool_decide; [unfold parse_set_body in H|unfold parse_del_body in H|done];
    repeat opt_case H; simplify_eq; bool_simpl; simpl;
    repeat match goal with Hs : extract_size _ = Some _ |- _ => apply extract_size_range in Hs end.
  - split; (eapply read_valid; [|eassumption|]; [done|lia]).
  - eapply read_valid; [|eassumption|]; [done|lia].
Qed.

Lemma parse_log_valid f s : Forall valid_record (parse_log f s).1.
Proof.
  revert s. induction f as [|f IH]; intros s; simpl; [constructor|].
  destruct (parse_record s) as [[r s']|] eqn:E; simpl; [|constructor].
  apply parse_record_valid in E. specialize (IH s').
  destruct (parse_log f s'); simpl in *. by constructor.
Qed.

Lemma log_records_valid s : Forall valid_record (log_records s).
Proof. apply parse_log_valid. Qed.

(** Valid records build maps of valid keys and values. *)
Definition valid_map (m : gmap bytes bytes) : Prop :=
  map_Forall (fun k v => valid_field k /\ valid_field v) m.

Lemma apply_records_valid m rs :
  valid_map m -> Forall valid_record rs -> valid_map (apply_records m rs).
Proof.
  intros Hm Hrs. revert m Hm. induction Hrs as [|r rs Hr _ IH]; intros m Hm; [done|].
  apply IH. destruct r as [k v|k]; simpl.
  - by apply map_Forall_insert_2.
  - by apply map_Forall_delete.
Qed.

(** Writing out the bindings of a map, in any order, and reading them back
    yields the map. *)
Lemma apply_records_sets (l : list (bytes * bytes)) m :
  apply_records m ((fun kv => RSet kv.1 kv.2) <$> l) = list_to_map (reverse l) ∪ m.
Proof.
  revert m. induction l as [|[k v] l IH]; intros m; simpl.
  - by rewrite (left_id_L ∅ (∪)).
  - change (apply_records (<[k:=v]> m) ((fun kv => RSet kv.1 kv.2) <$> l) = 
            list_to_map (reverse ((k, v) :: l)) ∪ m).
    rewrite IH, reverse_cons, list_to_map_app. simpl.
    rewrite <- (assoc_L (∪)). by rewrite insert_union_singleton_l.
Qed.

Lemma apply_records_map (l : list (bytes * bytes)) (m : gmap bytes bytes) :
  l ≡ₚ map_to_list m -> apply_records ∅ ((fun kv => RSet kv.1 kv.2) <$> l) = m.
Proof.
  intros Hl. rewrite apply_records_sets, (right_id_L ∅ (∪)).
  rewrite (list_to_map_proper (reverse l) (map_to_list m)).
  - apply list_to_map_to_list.
  - rewrite reverse_Permutation, Hl. apply NoDup_fst_map_to_list.
  - by rewrite reverse_Permutation.
Qed.

Lemma apply_dels_lookup m ks k :
  apply_records m (RDel <$> ks) !! k = m !! k \/ (apply_records m (RDel <$> ks) !! k = None /\ ks <> []).
Proof.
  revert m. induction ks as [|k' ks IH]; intros m; [by left|].
  change (apply_records m (RDel <$> k' :: ks)) with (apply_records (delete k' m) (RDel <$> ks)).
  destruct (IH (delete k' m)) as [->|[-> _]]; [|by right].
  destruct (decide (k = k')) as [->|]; [right; by rewrite lookup_delete_eq|left].
  by rewrite lookup_delete_ne.
Qed.
