(* ===== verification/Interfaces.v ===== *)
(** * What the storage engine asks of its collaborators

    [Storage] holds a pointer to a write-ahead log and one to a replicator and
    calls them inside its critical section.  The classes below are those call
    interfaces, and what the log promises: [Storage]'s theorems are proved
    against them, and the component that implements an interface provides the
    instance (file [Wal] for the log, file [Replicator] for the sink). *)

From S2P Require Import Prelude Stream Records.

(** The operations of a write-ahead log. *)
Class WriteAhead (L : Type) := {
  append_set : bytes -> bytes -> L -> bool * L;
  append_del : bytes -> L -> bool * L;
}.

(** Its contract.  [wa_log] is what a reader of the log would replay; an append
    that reports success has added its record, one that reports failure has
    added nothing a reader can see. *)
Class WriteAheadLaws (L : Type) `{WriteAhead L} := {
  wa_inv : L -> Prop;
  wa_log : L -> list record;
  append_set_ok k v l :
    wa_inv l -> valid_field k -> valid_field v ->
    wa_inv (append_set k v l).2 /\
    wa_log (append_set k v l).2 =
      wa_log l ++ (if (append_set k v l).1 then [RSet k v] else []);
  append_del_ok k l :
    wa_inv l -> valid_field k ->
    wa_inv (append_del k l).2 /\
    wa_log (append_del k l).2 =
      wa_log l ++ (if (append_del k l).1 then [RDel k] else []);
}.

(** A log on a medium that does not fail: no append is refused, now or later. *)
Class ReliableLog (L : Type) `{WriteAhead L} := {
  reliable_log : L -> Prop;
  reliable_set k v l :
    reliable_log l -> (append_set k v l).1 = true /\ reliable_log (append_set k v l).2;
  reliable_del k l :
    reliable_log l -> (append_del k l).1 = true /\ reliable_log (append_del k l).2;
  reliable_refused k l l' : append_del k l = (false, l') -> ~ reliable_log l';
}.

(** The operations of a replication sink, and the effect of a sequence of them. *)
Class ReplicaSink (R : Type) := {
  replicate_set : bytes -> bytes -> R -> R;
  replicate_del : bytes -> R -> R;
}.

Definition replicate_record `{ReplicaSink R} (r : R) (rec : record) : R :=
  match rec with
  | RSet k v => replicate_set k v r
  | RDel k => replicate_del k r
  end.
