(* ===== verification/Wal.v ===== *)
(** * The write-ahead log: appending (src/wal.cpp)

    State of a [Wal] object together with the file it appends to.  The reading
    half, [Wal::replay_into], calls back into the storage engine and is in
    file [Recovery]. *)

From S2P Require Import Prelude Stream Records Interfaces.

(** [log_file] is the file at [path_] ([None]: no such file); [is_open] is
    whether [out_] is open; [env_] the outcomes of the writes to come. *)
Record Wal := {
  log_file : option bytes;
  is_open : bool;
  ok_ : bool;
  env_ : list io;
}.

Definition log_bytes (w : Wal) : bytes := default [] w.(log_file).

(** [Wal::Wal]: nothing is opened. *)
Definition wal_new (file : option bytes) (env : list io) : Wal :=
  {| log_file := file; is_open := false; ok_ := true; env_ := env |}.

(** [Wal::open_for_append]: append mode, creating the file if needed. *)
Definition open_for_append (w : Wal) : bool * Wal :=
  let '(o, env') := next_io w.(env_) in
  let opened := o =?b IoOk in
  (opened, {| log_file := if opened then Some (log_bytes w) else w.(log_file);
              is_open := opened; ok_ := opened; env_ := env' |}).

(** The common tail of [append_set] and [append_del]: write, flush, check.  A
    stream that is not open fails without writing. *)
Definition write_flush (data : bytes) (w : Wal) : bool * Wal :=
  if negb w.(is_open) then
    (false, {| log_file := w.(log_file); is_open := false; ok_ := false; env_ := w.(env_) |})
  else
    let '(o, env') := next_io w.(env_) in
    let '(written, good) := io_write o data in
    (good, {| log_file := Some (log_bytes w ++ written); is_open := true;
              ok_ := good; env_ := env' |}).

Definition wal_append_set (key value : bytes) (w : Wal) : bool * Wal :=
  if negb w.(ok_) then (false, w) else write_flush (set_record key value) w.

Definition wal_append_del (key : bytes) (w : Wal) : bool * Wal :=
  if negb w.(ok_) then (false, w) else write_flush (del_record key) w.

#[export] Instance wal_write_ahead : WriteAhead Wal := {|
  append_set := wal_append_set;
  append_del := wal_append_del;
|}.

(** ** The log keeps its contract *)

(** The file is a sequence of records, followed by at most one torn record,
    and by none while the log is healthy. *)
Definition wal_inv (w : Wal) : Prop :=
  exists p rs tail,
    log_bytes w = p ++ tail /\ is_log p rs /\ torn tail /\ (w.(ok_) = true -> tail = []).

Definition wal_log (w : Wal) : list record := log_records (log_bytes w).

Lemma write_flush_spec r w :
  wal_inv w -> w.(ok_) = true -> valid_record r ->
  wal_inv (write_flush (encode r) w).2 /\
  wal_log (write_flush (encode r) w).2 =
    wal_log w ++ (if (write_flush (encode r) w).1 then [r] else []).
Proof.
  intros (p & rs & tail & E & Hp & Ht & Hok) Hw Hr. specialize (Hok Hw) as ->.
  assert (wal_log w = rs) as El by (unfold wal_log; rewrite E; by apply is_log_torn).
  rewrite app_nil_r in E. unfold write_flush. destruct (is_open w); simpl.
  - destruct (next_io (env_ w)) as [[|n] env']; simpl; rewrite El.
    + assert (is_log (p ++ encode r) (rs ++ [r])) as Hp' by by apply is_log_encode.
      rewrite <- E in Hp'. split.
      * exists (log_bytes w ++ encode r), (rs ++ [r]), []. by rewrite app_nil_r.
      * specialize (Hp' []). by rewrite !app_nil_r in Hp'.
    + set (t := take _ (encode r)). assert (torn t) by by apply torn_take.
      rewrite <- E in Hp. split; [by exists (log_bytes w), rs, t|].
      rewrite app_nil_r. by apply is_log_torn.
  - split; [|by rewrite app_nil_r].
    exists p, rs, []. rewrite app_nil_r. done.
Qed.

Lemma not_ok_spec w : wal_inv w -> wal_inv w /\ wal_log w = wal_log w ++ [].
Proof. by rewrite app_nil_r. Qed.

#[export, refine] Instance wal_laws : WriteAheadLaws Wal := {|
  wa_inv := wal_inv;
  wa_log := wal_log;
|}.
Proof.
  - intros k v w Hw Hk Hv. simpl. unfold wal_append_set.
    destruct (ok_ w) eqn:E; simpl; [by apply (write_flush_spec (RSet k v))|by apply not_ok_spec].
  - intros k w Hw Hk. simpl. unfold wal_append_del.
    destruct (ok_ w) eqn:E; simpl; [by apply (write_flush_spec (RDel k))|by apply not_ok_spec].
Defined.

(** A log that a reader consumes to its last byte may be appended to. *)
Lemma wal_inv_open w rs : is_log (log_bytes w) rs -> wal_inv (open_for_append w).2.
Proof.
  intros Hp. unfold open_for_append. destruct (next_io _) as [o env']. simpl.
  exists (log_bytes w), rs, []. rewrite app_nil_r. repeat split; [|done|by left].
  unfold log_bytes in *. simpl. by destruct (o =?b IoOk).
Qed.

(** An open log with nothing but successes ahead is reliable. *)
Definition wal_reliable (w : Wal) : Prop := w.(is_open) = true /\ w.(ok_) = true /\ w.(env_) = [].

Lemma write_flush_reliable data w :
  wal_reliable w -> (write_flush data w).1 = true /\ wal_reliable (write_flush data w).2.
Proof. intros (Ho & _ & He). unfold write_flush. by rewrite Ho, He. Qed.

(** A log that refuses a record is broken from then on. *)
Lemma wal_del_refused k w w' : wal_append_del k w = (false, w') -> ok_ w' = false.
Proof.
  unfold wal_append_del. destruct (ok_ w) eqn:Eo; simpl; [|by intros [= <-]]. unfold write_flush.
  destruct (is_open w); simpl; [|by intros [= <-]].
  destruct (next_io (env_ w)) as [[|n] e]; simpl; [done|by intros [= <-]].
Qed.

#[export, refine] Instance wal_reliable_log : ReliableLog Wal := {| reliable_log := wal_reliable |}.
Proof.
  - intros k v w Hw. simpl. unfold wal_append_set. rewrite (proj1 (proj2 Hw)). by apply write_flush_reliable.
  - intros k w Hw. simpl. unfold wal_append_del. rewrite (proj1 (proj2 Hw)). by apply write_flush_reliable.
  - intros k w w' E (_ & Hok & _). apply wal_del_refused in E. congruence.
Defined.
