(* ===== verification/DiskStore.v ===== *)
(** * The on-disk engine (src/disk_store.cpp)

    Values live in an append-only data file; memory holds an index from each
    key to the offset and length of its latest value.  The state is that of a
    [DiskStore] object together with the bytes of the file at [path_]. *)

From S2P Require Import Prelude Stream Records.

Local Open Scope Z_scope.

(** The iteration order of [std::unordered_map] is unspecified: any order that
    visits each element once. *)
Class UnorderedIter := {
  iter_order : gmap bytes Entry -> list (bytes * Entry);
  iter_order_perm m : iter_order m ≡ₚ map_to_list m;
}.

Record DiskStore := {
  d_data : bytes;                 (* the file at path_ *)
  d_index : gmap bytes Entry;     (* index_ *)
  d_ok : bool;                    (* ok_ *)
  d_env : list io;                (* outcomes of the I/O to come *)
}.

(** ** Reading and writing *)

(** [read_value]: seek to the value and read it. *)
Definition read_value (file : bytes) (e : Entry) : option bytes :=
  fst <$> read_bytes e.(value_len) (drop e.(value_pos) file).

Definition disk_exists (key : bytes) (d : DiskStore) : bool :=
  bool_decide (is_Some (d.(d_index) !! key)).

Definition disk_size (d : DiskStore) : Z := Z.of_nat (size d.(d_index)).

(** [DiskStore::set]: append the record, flush, then index the value. *)
Definition disk_set (key value : bytes) (d : DiskStore) : bool * DiskStore :=
  if negb d.(d_ok) || (key =?b []) || (value =?b []) then (false, d) else
  let '(o, env') := next_io d.(d_env) in
  let '(written, good) := io_write o (set_record key value) in
  let header := lit "SET " ++ decimal (blen key) ++ lit " " ++ decimal (blen value) ++ lit " " in
  let pos := (length d.(d_data) + length header + length key)%nat in
  let data' := d.(d_data) ++ written in
  if good then
    (true, {| d_data := data';
              d_index := <[key := {| value_pos := pos; value_len := blen value |}]> d.(d_index);
              d_ok := true; d_env := env' |})
  else
    (false, {| d_data := data'; d_index := d.(d_index); d_ok := false; d_env := env' |}).

Definition disk_get (key : bytes) (d : DiskStore) : option bytes :=
  if negb d.(d_ok) then None else
  match d.(d_index) !! key with
  | None => None
  | Some e => read_value d.(d_data) e
  end.

(** [DiskStore::del]: append a tombstone, then drop the key from the index. *)
Definition disk_del (key : bytes) (d : DiskStore) : bool * DiskStore :=
  if negb d.(d_ok) || (key =?b []) then (false, d) else
  match d.(d_index) !! key with
  | None => (false, d)
  | Some _ =>
      let '(o, env') := next_io d.(d_env) in
      let '(written, good) := io_write o (del_record key) in
      let data' := d.(d_data) ++ written in
      if good then
        (true, {| d_data := data'; d_index := delete key d.(d_index);
                  d_ok := true; d_env := env' |})
      else
        (false, {| d_data := data'; d_index := d.(d_index); d_ok := false; d_env := env' |})
  end.

(** [DiskStore::clear]: truncate by reopening, then reopen for reading and
    writing.  A truncation that fails is not noticed. *)
Definition disk_clear (d : DiskStore) : bool * DiskStore :=
  let '(o1, env1) := next_io d.(d_env) in
  let '(o2, env2) := next_io env1 in
  let data' := if o1 =?b IoOk then [] else d.(d_data) in
  let opened := o2 =?b IoOk in
  (opened, {| d_data := data'; d_index := ∅; d_ok := opened; d_env := env2 |}).

(** ** Snapshots *)

Definition snapshot_index `{UnorderedIter} (d : DiskStore) : list (bytes * Entry) :=
  iter_order d.(d_index).

(** The loop of [read_snapshot]: entries that cannot be read are left out. *)
Definition read_entries (file : bytes) (entries : list (bytes * Entry)) : list (bytes * bytes) :=
  omap (fun kv => (fun v => (kv.1, v)) <$> read_value file kv.2) entries.

(** [read_snapshot] reads through a handle of its own, so from whatever the file
    holds by then; when the file cannot be opened ([None]) the snapshot is empty. *)
Definition read_snapshot (file : option bytes) (entries : list (bytes * Entry)) : list (bytes * bytes) :=
  match file with None => [] | Some f => read_entries f entries end.

Definition disk_snapshot `{UnorderedIter} (d : DiskStore) : list (bytes * bytes) :=
  read_snapshot (Some d.(d_data)) (snapshot_index d).

(** ** Recovery and compaction *)

(** The loop of [recover]: the index, and [last_good]. *)
Fixpoint recover_loop (fuel total : nat) (s : bytes) (idx : gmap bytes Entry) (last_good : nat)
  : gmap bytes Entry * nat :=
  match fuel with
  | O => (idx, last_good)
  | S f =>
      match scan_record total s with
      | None => (idx, last_good)
      | Some (SSet key e, s') => recover_loop f total s' (<[key := e]> idx) (total - length s')%nat
      | Some (SDel key, s') => recover_loop f total s' (delete key idx) (total - length s')%nat
      end
  end.

(** The loop of [compact]: the bytes of the new file and its index, or [None]
    when a value cannot be read. *)
Fixpoint compact_loop (file : bytes) (entries : list (bytes * Entry)) (out : bytes)
    (new_index : gmap bytes Entry) : option (bytes * gmap bytes Entry) :=
  match entries with
  | [] => Some (out, new_index)
  | (key, e) :: entries' =>
      match read_value file e with
      | None => None
      | Some value =>
          let header :=
            lit "SET " ++ decimal (blen key) ++ lit " " ++ decimal (blen value) ++ lit " " in
          let pos := (length out + length header + length key)%nat in
          compact_loop file entries' (out ++ set_record key value)
            (<[key := {| value_pos := pos; value_len := blen value |}]> new_index)
      end
  end.

(** [DiskStore::compact]: write the live keys to a temporary file and rename it
    over the data file; any failure keeps the old file and its index.  The I/O
    steps are opening and writing the temporary, the rename and the reopen. *)
Definition compact `{UnorderedIter} (d : DiskStore) : DiskStore :=
  let '(o_tmp, env1) := next_io d.(d_env) in
  if negb (o_tmp =?b IoOk) then
    {| d_data := d.(d_data); d_index := d.(d_index); d_ok := d.(d_ok); d_env := env1 |}
  else
    let '(o_write, env2) := next_io env1 in
    match compact_loop d.(d_data) (iter_order d.(d_index)) [] ∅ with
    | Some (out, new_index) =>
        if o_write =?b IoOk then
          let '(o_ren, env3) := next_io env2 in
          let '(o_open, env4) := next_io env3 in
          let renamed := o_ren =?b IoOk in
          {| d_data := if renamed then out else d.(d_data);
             d_index := if renamed then new_index else d.(d_index);
             d_ok := o_open =?b IoOk; d_env := env4 |}
        else
          {| d_data := d.(d_data); d_index := d.(d_index); d_ok := d.(d_ok); d_env := env2 |}
    | None =>
        {| d_data := d.(d_data); d_index := d.(d_index); d_ok := d.(d_ok); d_env := env2 |}
    end.

(** The estimate of the live bytes, in [size_t] arithmetic. *)
Definition live_bytes `{UnorderedIter} (idx : gmap bytes Entry) : Z :=
  foldl (fun acc kv => wrap64 (acc + wrap64 (wrap64 (blen kv.1 + value_len kv.2) + 24)))
    0 (iter_order idx).

Definition wasteful `{UnorderedIter} (file_size : Z) (idx : gmap bytes Entry) : bool :=
  (0 <? file_size) && (wrap64 (wrap64 (2 * live_bytes idx) + 4096) <? wrap64 file_size).

(** [DiskStore::recover]: rebuild the index, cut off an unreadable tail
    ([resize_file], whose error is ignored, then reopen), compact if wasteful. *)
Definition recover `{UnorderedIter} (d : DiskStore) : DiskStore :=
  let total := length d.(d_data) in
  let '(idx, last_good) := recover_loop total total d.(d_data) d.(d_index) 0 in
  if (last_good <? total)%nat then
    let '(o_resize, env1) := next_io d.(d_env) in
    let '(o_open, env2) := next_io env1 in
    let data' := if o_resize =?b IoOk then take last_good d.(d_data) else d.(d_data) in
    let opened := o_open =?b IoOk in
    let d' := {| d_data := data'; d_index := idx; d_ok := opened; d_env := env2 |} in
    if negb opened then d'
    else if wasteful (Z.of_nat last_good) idx then compact d' else d'
  else
    let d' := {| d_data := d.(d_data); d_index := idx; d_ok := d.(d_ok); d_env := d.(d_env) |} in
    if wasteful (Z.of_nat total) idx then compact d' else d'.

(** [DiskStore::DiskStore] on a file with the given contents ([[]] if it had to
    be created). *)
Definition disk_open `{UnorderedIter} (file : bytes) (env : list io) : DiskStore :=
  let '(o, env') := next_io env in
  let opened := o =?b IoOk in
  let d := {| d_data := file; d_index := ∅; d_ok := opened; d_env := env' |} in
  if opened then recover d else d.

(** ** The index describes the file *)

(** [idx] maps the keys of [m] to places of [file] that hold their values. *)
Definition index_of (file : bytes) (idx : gmap bytes Entry) (m : gmap bytes bytes) : Prop :=
  read_value file <$> idx = Some <$> m.

Lemma read_value_at a v b :
  read_value (a ++ v ++ b) {| value_pos := length a; value_len := blen v |} = Some v.
Proof. unfold read_value. simpl. by rewrite drop_app_length, read_bytes_app. Qed.

(** The file is append-only: what an entry points at does not change. *)
Lemma read_value_app file x e v :
  read_value file e = Some v -> read_value (file ++ x) e = Some v.
Proof.
  unfold read_value. intros H. apply fmap_Some in H as ([v' r] & H & ->).
  pose proof (read_bytes_Some _ _ _ _ H) as [Hd Hl].
  apply read_bytes_local in H as [_ H].
  destruct (decide (value_pos e <= length file)%nat) as [Hle|Hgt].
  - rewrite drop_app_le, Hd, <- (assoc_L (++)), H by done. done.
  - rewrite drop_ge in Hd by lia. symmetry in Hd. apply app_eq_nil in Hd as [-> ->].
    specialize (H (drop (value_pos e) (file ++ x))). simpl in H. by rewrite H.
Qed.

Lemma index_of_empty file : index_of file ∅ ∅.
Proof. unfold index_of. by rewrite !fmap_empty. Qed.

Lemma index_of_set file idx m k e v :
  index_of file idx m -> read_value file e = Some v ->
  index_of file (<[k := e]> idx) (<[k := v]> m).
Proof. unfold index_of. intros H Hv. by rewrite !fmap_insert, H, Hv. Qed.

Lemma index_of_del file idx m k :
  index_of file idx m -> index_of file (delete k idx) (delete k m).
Proof. unfold index_of. intros H. by rewrite !fmap_delete, H. Qed.

Lemma index_of_lookup file idx m k :
  index_of file idx m -> (e ← idx !! k; read_value file e) = m !! k.
Proof.
  intros H. apply (f_equal (fun m' => m' !! k)) in H. rewrite !lookup_fmap in H.
  destruct (idx !! k), (m !! k); simpl in *; congruence.
Qed.

Lemma index_of_dom file idx m : index_of file idx m -> dom idx = dom m.
Proof. intros H. apply (f_equal dom) in H. by rewrite !dom_fmap_L in H. Qed.

Lemma index_of_app file x idx m : index_of file idx m -> index_of (file ++ x) idx m.
Proof.
  unfold index_of. intros H. rewrite <- H. apply map_fmap_ext.
  intros k e Hk. apply (f_equal (fun m' => m' !! k)) in H. rewrite !lookup_fmap, Hk in H.
  destruct (m !! k) as [v|]; simpl in *; [|done]. injection H as H.
  rewrite H. by apply read_value_app.
Qed.

Lemma index_of_get d m k :
  d_ok d = true -> index_of (d_data d) (d_index d) m -> disk_get k d = m !! k.
Proof.
  intros Hok H. unfold disk_get. rewrite Hok. simpl. rewrite <- (index_of_lookup _ _ _ k H).
  by destruct (d_index d !! k).
Qed.

(** ** Recovery finds exactly the readable records *)

(** A prefix of the file that has been scanned: it is a log of the valid
    records [rs], and the index describes it. *)
Definition scanned_prefix (p : bytes) (rs : list record) (idx : gmap bytes Entry) : Prop :=
  is_log p rs /\ Forall valid_record rs /\ index_of p idx (apply_records ∅ rs).

Lemma scanned_prefix_snoc p q rs r rest idx :
  scanned_prefix p rs idx -> valid_record r -> delimits q r -> ends_with_value q r ->
  match scanned_of (length (p ++ q ++ rest)) r rest with
  | SSet k e => scanned_prefix (p ++ q) (rs ++ [r]) (<[k := e]> idx)
  | SDel k => scanned_prefix (p ++ q) (rs ++ [r]) (delete k idx)
  end.
Proof.
  intros (Hl & Hv & Hi) Hr Hq He. apply (index_of_app _ q) in Hi.
  assert (is_log (p ++ q) (rs ++ [r])) by by apply is_log_snoc.
  assert (Forall valid_record (rs ++ [r])) by (apply Forall_app; auto).
  destruct r as [k v|k]; simpl; unfold scanned_prefix; rewrite apply_records_snoc; simpl.
  - split; [done|]. split; [done|]. apply index_of_set; [done|]. destruct He as [h ->].
    assert (length (p ++ (h ++ v ++ [newline]) ++ rest) - (length v + S (length rest))
            = length (p ++ h))%nat as -> by (rewrite !length_app; simpl; lia).
    rewrite (assoc_L (++) p h). apply read_value_at.
  - split; [done|]. split; [done|]. by apply index_of_del.
Qed.

Lemma recover_loop_spec fuel p s rs idx :
  (length s <= fuel)%nat -> scanned_prefix p rs idx ->
  exists p' rest rs' idx',
    recover_loop fuel (length (p ++ s)) s idx (length p) = (idx', length p') /\
    p ++ s = p' ++ rest /\ scanned_prefix p' rs' idx' /\ parse_record rest = None.
Proof.
  revert p s rs idx. induction fuel as [|f IH]; intros p s rs idx Hf Hp; simpl.
  { destruct s; [|simpl in *; lia]. by exists p, [], rs, idx. }
  rewrite scan_record_parse. destruct (parse_record s) as [[r s']|] eqn:E; simpl;
    [|by exists p, s, rs, idx].
  pose proof (parse_record_shorter _ _ _ E). pose proof (parse_record_valid _ _ _ E) as Hv.
  apply parse_record_local in E as (q & -> & Hq & He).
  pose proof (scanned_prefix_snoc p q rs r s' idx Hp Hv Hq He) as Hp'.
  assert (length (p ++ q ++ s') - length s' = length (p ++ q))%nat as ->
    by (rewrite !length_app; lia).
  destruct (scanned_of _ r s'); rewrite !(assoc_L (++)); apply (IH (p ++ q) s' (rs ++ [r])); auto; lia.
Qed.

(** ** The data-file invariant

    The file is a log whose records amount to [m], the index describes it, and
    a torn record may follow only once a write has failed. *)
Definition disk_inv (d : DiskStore) (m : gmap bytes bytes) : Prop :=
  exists p rs tail,
    d_data d = p ++ tail /\ scanned_prefix p rs (d_index d) /\ m = apply_records ∅ rs /\
    torn tail /\ (d_ok d = true -> tail = []).

Lemma disk_inv_index d m : disk_inv d m -> index_of (d_data d) (d_index d) m.
Proof.
  intros (p & rs & tail & -> & (_ & _ & Hi) & -> & _). by apply index_of_app.
Qed.

Lemma disk_inv_log d m : disk_inv d m -> apply_records ∅ (log_records (d_data d)) = m.
Proof.
  intros (p & rs & tail & -> & (Hl & _ & _) & -> & Ht & _). by rewrite (is_log_torn p rs).
Qed.

Lemma disk_inv_valid d m : disk_inv d m -> valid_map m.
Proof.
  intros (p & rs & tail & _ & (_ & Hv & _) & -> & _).
  apply apply_records_valid; [apply map_Forall_empty|done].
Qed.

(** Appending one record: the file after a write that succeeded or was torn. *)
Lemma scanned_prefix_encode p rs idx r :
  scanned_prefix p rs idx -> valid_record r ->
  match r with
  | RSet k v =>
      scanned_prefix (p ++ set_record k v) (rs ++ [r])
        (<[k := {| value_pos := length p +
                     length (lit "SET " ++ decimal (blen k) ++ lit " " ++
                             decimal (blen v) ++ lit " ") + length k;
                   value_len := blen v |}]> idx)
  | RDel k => scanned_prefix (p ++ del_record k) (rs ++ [r]) (delete k idx)
  end.
Proof.
  intros Hp Hr. pose proof (encode_delimits r Hr) as Hd.
  destruct r as [k v|k].
  - set (h := lit "SET " ++ decimal (blen k) ++ lit " " ++ decimal (blen v) ++ lit " ").
    assert (set_record k v = (h ++ k) ++ v ++ [newline]) as Es
      by (unfold h, set_record; app_norm; done).
    change (encode (RSet k v)) with (set_record k v) in Hd. rewrite Es in *.
    pose proof (scanned_prefix_snoc p _ rs (RSet k v) [] idx Hp Hr Hd) as H.
    cbn [scanned_of length] in H. rewrite app_nil_r in H.
    assert (length (p ++ (h ++ k) ++ v ++ [newline]) - (length v + 1)
            = length p + length h + length k)%nat as <- by (rewrite !length_app; simpl; lia).
    apply H. by exists (h ++ k).
  - exact (scanned_prefix_snoc p _ rs (RDel k) [] idx Hp Hr Hd I).
Qed.

(** ** Compaction *)

Lemma compact_loop_spec file entries out rs ni m :
  (forall k e, (k, e) ∈ entries -> exists v, read_value file e = Some v /\ m !! k = Some v) ->
  valid_map m -> scanned_prefix out rs ni ->
  exists out' ni',
    compact_loop file entries out ni = Some (out', ni') /\
    scanned_prefix out'
      (rs ++ ((fun kv => RSet kv.1 kv.2) <$> read_entries file entries)) ni'.
Proof.
  intros He Hm. revert out rs ni. induction entries as [|[k e] entries IH]; intros out rs ni Hs.
  { exists out, ni. by rewrite app_nil_r. }
  destruct (He k e) as (v & Hv & Hk); [by left|]. simpl. rewrite Hv. simpl.
  assert (valid_record (RSet k v)) as Hkv by exact (Hm k v Hk).
  edestruct (IH (ltac:(intros k' e' ?; apply He; by right))) as (out' & ni' & E & Hs').
  { exact (scanned_prefix_encode _ _ _ (RSet k v) Hs Hkv). }
  exists out', ni'. split; [exact E|]. by rewrite <- (assoc_L (++)) in Hs'.
Qed.

Lemma read_entries_keys file (l : list (bytes * Entry)) :
  Forall (fun kv => is_Some (read_value file kv.2)) l -> (read_entries file l).*1 = l.*1.
Proof.
  unfold read_entries. induction 1 as [|[k e] l [v Hv] _ IH]; [done|].
  cbn in Hv |- *. rewrite Hv. cbn. by f_equal.
Qed.

Lemma index_of_readable file idx m :
  index_of file idx m ->
  forall k e, idx !! k = Some e -> exists v, read_value file e = Some v /\ m !! k = Some v.
Proof.
  intros Hi k e Hk. pose proof (index_of_lookup _ _ _ k Hi) as Hl. rewrite Hk in Hl. simpl in Hl.
  assert (is_Some (m !! k)) as [v Hv].
  { apply elem_of_dom. rewrite <- (index_of_dom _ _ _ Hi). by eapply elem_of_dom_2. }
  exists v. by rewrite Hl.
Qed.

Section recovery.
Context `{UnorderedIter}.

(** A snapshot has each key of the map once, with its value. *)
Lemma read_entries_perm file idx m :
  index_of file idx m -> read_entries file (iter_order idx) ≡ₚ map_to_list m.
Proof.
  intros Hi. apply NoDup_Permutation.
  - apply (NoDup_fmap_1 fst). rewrite read_entries_keys.
    + rewrite iter_order_perm. apply NoDup_fst_map_to_list.
    + apply Forall_forall. intros [k e] Hk.
      rewrite iter_order_perm in Hk. apply elem_of_map_to_list in Hk.
      simpl. by destruct (index_of_readable _ _ _ Hi k e Hk) as (v & -> & _).
  - apply NoDup_map_to_list.
  - intros [k v]. unfold read_entries.
    rewrite elem_of_map_to_list, list_elem_of_omap, <- (index_of_lookup _ _ _ k Hi). split.
    + intros ([k' e] & Hk & Hv). rewrite iter_order_perm in Hk.
      apply elem_of_map_to_list in Hk. simpl in *.
      apply fmap_Some in Hv as (v' & Hv & [= -> ->]). by rewrite Hk.
    + intros Hv. destruct (idx !! k) as [e|] eqn:Ek; simpl in Hv; [|done].
      exists (k, e). rewrite iter_order_perm. split; [by apply elem_of_map_to_list|].
      simpl. by rewrite Hv.
Qed.

(** The compacted file is a log of the live bindings. *)
Lemma compact_loop_map file idx m :
  index_of file idx m -> valid_map m ->
  exists out ni rs,
    compact_loop file (iter_order idx) [] ∅ = Some (out, ni) /\
    scanned_prefix out rs ni /\ apply_records ∅ rs = m.
Proof.
  intros Hi Hv. destruct (compact_loop_spec file (iter_order idx) [] [] ∅ m)
    as (out & ni & E & Hs); [|done|split; [apply is_log_nil|split; [constructor|apply index_of_empty]]|].
  - intros k e Hk. rewrite iter_order_perm in Hk. apply elem_of_map_to_list in Hk.
    by eapply index_of_readable.
  - eexists _, _, _. split; [exact E|]. split; [exact Hs|].
    by apply apply_records_map, read_entries_perm.
Qed.

(** Compaction, wherever it fails, leaves the same file and index or replaces
    both by a log of the same map. *)
Lemma compact_cases d m :
  index_of (d_data d) (d_index d) m -> valid_map m ->
  (d_data (compact d) = d_data d /\ d_index (compact d) = d_index d) \/
  (exists rs, scanned_prefix (d_data (compact d)) rs (d_index (compact d)) /\
              apply_records ∅ rs = m).
Proof.
  intros Hi Hv. destruct (compact_loop_map _ _ _ Hi Hv) as (out & ni & rs & E & Hs & Hm).
  unfold compact. destruct (next_io (d_env d)) as [o1 env1].
  destruct (negb (o1 =?b IoOk)); [by left|].
  destruct (next_io env1) as [o2 env2]. rewrite E.
  destruct (o2 =?b IoOk); [|by left].
  destruct (next_io env2) as [o3 env3]. destruct (next_io env3) as [o4 env4].
  destruct (o3 =?b IoOk); [right; by exists rs|by left].
Qed.

Lemma compact_inv d m : disk_inv d m -> d_ok d = true -> disk_inv (compact d) m.
Proof.
  intros Hd Hok.
  destruct (compact_cases d m (disk_inv_index d m Hd) (disk_inv_valid d m Hd))
    as [[Ed Ei]|(rs & Hs & Hm)].
  - destruct Hd as (p & rs & tail & ? & ? & ? & ? & Ht).
    exists p, rs, tail. rewrite Ed, Ei. do 4 (split; [done|]). intros _. by apply Ht.
  - exists (d_data (compact d)), rs, []. rewrite app_nil_r.
    split; [done|]. split; [exact Hs|]. split; [done|]. split; [by left|done].
Qed.

Lemma compact_index d m :
  index_of (d_data d) (d_index d) m -> valid_map m ->
  index_of (d_data (compact d)) (d_index (compact d)) m.
Proof.
  intros Hi Hv. destruct (compact_cases d m Hi Hv) as [[-> ->]|(rs & (_ & _ & Hs) & Hm)]; [done|].
  by rewrite <- Hm.
Qed.

(** ** Opening *)

Lemma recover_loop_file file :
  exists p rest idx,
    recover_loop (length file) (length file) file ∅ 0 = (idx, length p) /\
    file = p ++ rest /\ scanned_prefix p (log_records file) idx /\ log_records rest = [].
Proof.
  destruct (recover_loop_spec (length file) [] file [] ∅)
    as (p & rest & rs & idx & E & Ef & Hs & Hn); [done|..].
  { split; [apply is_log_nil|split; [constructor|apply index_of_empty]]. }
  simpl in E, Ef. exists p, rest, idx. split; [done|]. split; [done|].
  apply log_records_none in Hn. split; [|done].
  assert (log_records file = rs) as ->; [|done].
  rewrite Ef. destruct Hs as (Hl & _). by rewrite Hl, Hn, app_nil_r.
Qed.

(** Whatever the file holds and whatever fails on the way, the index of a store
    that opened describes the readable records of the file. *)
Lemma disk_open_index file env :
  d_ok (disk_open file env) = true ->
  index_of (d_data (disk_open file env)) (d_index (disk_open file env))
    (apply_records ∅ (log_records file)).
Proof.
  unfold disk_open. destruct (next_io env) as [o env'].
  destruct (o =?b IoOk); [|by simpl]. unfold recover. cbn [d_data d_index d_env d_ok].
  destruct (recover_loop_file file) as (p & rest & idx & -> & Ef & (Hl & Hv & Hi) & Hr).
  assert (valid_map (apply_records ∅ (log_records file)))
    by (apply apply_records_valid; [apply map_Forall_empty|done]).
  assert (index_of file idx (apply_records ∅ (log_records file))) as Hfile
    by (rewrite Ef at 1; by apply index_of_app).
  destruct (Nat.ltb_spec (length p) (length file)).
  - destruct (next_io env') as [o1 env1]. destruct (next_io env1) as [o2 env2].
    assert (forall ok e, index_of (d_data {| d_data := if o1 =?b IoOk then take (length p) file else file;
      d_index := idx; d_ok := ok; d_env := e |}) idx (apply_records ∅ (log_records file))) as Hd.
    { intros ok e. simpl. destruct (o1 =?b IoOk); [|done]. rewrite Ef at 1. by rewrite take_app_length. }
    destruct (negb (o2 =?b IoOk)); [intros _; apply Hd|].
    destruct (wasteful _ idx); intros _; [apply compact_index; [apply Hd|done]|apply Hd].
  - destruct (wasteful _ idx); intros _; [by apply compact_index|done].
Qed.

(** Whether the opening cuts off what could not be read, if there is any: the
    second outcome is that of the truncation. *)
Definition heals (env : list io) : Prop := (next_io (next_io env).2).1 = IoOk.

(** Opening then leaves a clean log, so that later appends are readable,
    whatever else fails. *)
Lemma disk_open_healed file env :
  heals env -> d_ok (disk_open file env) = true ->
  disk_inv (disk_open file env) (apply_records ∅ (log_records file)).
Proof.
  unfold heals, disk_open. destruct (next_io env) as [o env']. cbn [snd]. intros Hh.
  destruct (o =?b IoOk); [|by simpl]. unfold recover. cbn [d_data d_index d_env d_ok].
  destruct (recover_loop_file file) as (p & rest & idx & -> & Ef & Hs & Hr).
  assert (forall e, disk_inv {| d_data := p; d_index := idx; d_ok := true; d_env := e |}
            (apply_records ∅ (log_records file))) as Hd.
  { intros e. exists p, (log_records file), []. simpl. rewrite app_nil_r.
    split; [done|]. split; [done|]. split; [done|]. split; [by left|done]. }
  destruct (Nat.ltb_spec (length p) (length file)).
  - destruct (next_io env') as [o1 env1]. cbn [fst] in Hh. subst o1. destruct (next_io env1) as [o2 env2].
    rewrite (bool_decide_eq_true_2 (IoOk = IoOk)) by done.
    assert (take (length p) file = p) as -> by (rewrite Ef; apply take_app_length).
    destruct (o2 =?b IoOk); cbn [negb]; [|done].
    destruct (wasteful _ idx); intros _; [by apply compact_inv|done].
  - assert (rest = []) as -> by (destruct rest; [done|]; rewrite Ef, length_app in *; simpl in *; lia).
    rewrite app_nil_r in Ef. subst p. destruct (wasteful _ idx); intros _; [by apply compact_inv|done].
Qed.

(** With an I/O system that works, it opens. *)
Lemma disk_open_inv file :
  d_ok (disk_open file []) = true /\
  disk_inv (disk_open file []) (apply_records ∅ (log_records file)).
Proof.
  assert (d_ok (disk_open file []) = true) as Hok; [|split; [done|by apply disk_open_healed]].
  assert (forall d, d_env d = [] -> d_ok d = true -> d_ok (compact d) = true) as Hc.
  { intros d He Hd0. unfold compact. rewrite He. simpl. by destruct (compact_loop _ _ _ _) as [[? ?]|]. }
  unfold disk_open, recover. simpl. destruct (recover_loop _ _ _ _ _) as [idx n].
  destruct (n <? length file)%nat; simpl; (destruct (wasteful _ idx); [by apply Hc|done]).
Qed.

Lemma disk_open_env file : d_env (disk_open file []) = [].
Proof.
  assert (forall d, d_env d = [] -> d_env (compact d) = []) as Hc.
  { intros d He. unfold compact. rewrite He. simpl. by destruct (compact_loop _ _ _ _) as [[? ?]|]. }
  unfold disk_open, recover. simpl. destruct (recover_loop _ _ _ _ _) as [idx n].
  destruct (n <? length file)%nat; simpl; (destruct (wasteful _ idx); [by apply Hc|done]).
Qed.

End recovery.

(** ** The operations keep the invariant *)

Lemma disk_inv_torn d m n r env' :
  disk_inv d m -> d_ok d = true -> valid_record r ->
  disk_inv {| d_data := d_data d ++ take (Nat.min n (length (encode r) - 1)) (encode r);
              d_index := d_index d; d_ok := false; d_env := env' |} m.
Proof.
  intros (p & rs & tail & E & Hs & Hm & Ht & Hok) Hd Hr. specialize (Hok Hd) as ->.
  rewrite app_nil_r in E. rewrite E. exists p, rs, (take (Nat.min n (length (encode r) - 1)) (encode r)).
  do 3 (split; [done|]). split; [by apply torn_take|done].
Qed.

(** A write that reports success has stored the value; one that reports failure
    has changed nothing that can be read back. *)
Lemma disk_set_inv d m k v :
  disk_inv d m -> valid_field k -> valid_field v ->
  disk_inv (disk_set k v d).2 (if (disk_set k v d).1 then <[k := v]> m else m).
Proof.
  intros Hd Hk Hv. assert (valid_record (RSet k v)) as Hr by done. unfold disk_set.
  rewrite (bool_decide_false (k = [])), (bool_decide_false (v = []))
    by (apply Hk || apply Hv). rewrite !orb_false_r.
  destruct (d_ok d) eqn:Hok; simpl; [|done].
  destruct (next_io (d_env d)) as [[|n] env']; cbn [io_write].
  - destruct Hd as (p & rs & tail & E & Hs & -> & Ht & Ht'). specialize (Ht' Hok) as ->.
    rewrite app_nil_r in E. cbn [fst snd]. rewrite E.
    exists (p ++ set_record k v), (rs ++ [RSet k v]), []. rewrite app_nil_r.
    split; [done|]. split; [exact (scanned_prefix_encode _ _ _ _ Hs Hr)|].
    split; [by rewrite apply_records_snoc|]. split; [by left|done].
  - exact (disk_inv_torn d m n (RSet k v) env' Hd Hok Hr).
Qed.

Lemma disk_del_inv d m k :
  disk_inv d m -> valid_field k ->
  disk_inv (disk_del k d).2 (if (disk_del k d).1 then delete k m else m).
Proof.
  intros Hd Hk. assert (valid_record (RDel k)) as Hr by done. unfold disk_del.
  rewrite (bool_decide_false (k = [])) by apply Hk. rewrite !orb_false_r.
  destruct (d_ok d) eqn:Hok; simpl; [|done].
  destruct (d_index d !! k); simpl; [|done].
  destruct (next_io (d_env d)) as [[|n] env']; cbn [io_write].
  - destruct Hd as (p & rs & tail & E & Hs & -> & Ht & Ht'). specialize (Ht' Hok) as ->.
    rewrite app_nil_r in E. cbn [fst snd]. rewrite E.
    exists (p ++ del_record k), (rs ++ [RDel k]), []. rewrite app_nil_r.
    split; [done|]. split; [exact (scanned_prefix_encode _ _ _ _ Hs Hr)|].
    split; [by rewrite apply_records_snoc|]. split; [by left|done].
  - exact (disk_inv_torn d m n (RDel k) env' Hd Hok Hr).
Qed.

(** Writes only add to the file. *)
Lemma disk_set_appends k v d : exists x, d_data (disk_set k v d).2 = d_data d ++ x.
Proof.
  unfold disk_set. destruct (_ || _); [exists []; by rewrite app_nil_r|].
  destruct (next_io (d_env d)) as [o env]. destruct (io_write o _) as [w g]. exists w. by destruct g.
Qed.

Lemma disk_del_appends k d : exists x, d_data (disk_del k d).2 = d_data d ++ x.
Proof.
  unfold disk_del. destruct (_ || _); [exists []; by rewrite app_nil_r|].
  destruct (d_index d !! k); [|exists []; by rewrite app_nil_r].
  destruct (next_io (d_env d)) as [o env]. destruct (io_write o _) as [w g]. exists w. by destruct g.
Qed.

(** A tombstone that was written leaves the engine usable. *)
Lemma disk_del_ok d k : (disk_del k d).1 = true -> d_ok (disk_del k d).2 = true.
Proof.
  unfold disk_del. destruct (d_ok d) eqn:Eo; simpl; [|done]. destruct (k =?b []); [done|].
  destruct (d_index d !! k); [|done]. by destruct (next_io (d_env d)) as [[|n] env].
Qed.

Lemma disk_del_result d m k :
  disk_inv d m -> (disk_del k d).1 = true -> is_Some (m !! k).
Proof.
  intros Hd%disk_inv_index. unfold disk_del. destruct (negb _ || _); [done|].
  destruct (d_index d !! k) as [e|] eqn:Ek; [|done]. intros _.
  destruct (index_of_readable _ _ _ Hd k e Ek) as (v & _ & ->). done.
Qed.

(** A truncation that works empties the store, whether or not the file can be opened
    again afterwards. *)
Lemma disk_clear_inv d : (next_io (d_env d)).1 = IoOk -> disk_inv (disk_clear d).2 ∅.
Proof.
  unfold disk_clear. destruct (next_io (d_env d)) as [o1 env1]. cbn [fst]. intros ->.
  destruct (next_io env1) as [o2 env2]. rewrite (bool_decide_eq_true_2 (IoOk = IoOk)) by done. exists [], [], [].
  split; [done|]. split; [split; [apply is_log_nil|split; [constructor|apply index_of_empty]]|].
  split; [done|]. split; [by left|done].
Qed.

(** What a crash leaves of the file: its bytes and, if the process died inside a
    write of a working store, part of one more record. *)
Definition disk_crash_image (d : DiskStore) (file : bytes) : Prop :=
  exists tail, file = d_data d ++ tail /\ torn tail /\ (d_ok d = false -> tail = []).

Lemma disk_crash_image_log d m file :
  disk_inv d m -> disk_crash_image d file -> apply_records ∅ (log_records file) = m.
Proof.
  intros (p & rs & t & E & (Hp & _) & -> & Ht & Hok) (tail & -> & Htail & Hbad). rewrite E. destruct (d_ok d).
  - by rewrite Hok, app_nil_r, (is_log_torn _ _ _ Hp Htail) by done.
  - by rewrite Hbad, app_nil_r, (is_log_torn _ _ _ Hp Ht) by done.
Qed.

(** ** Runs of the engine, under arbitrary write outcomes *)

Inductive disk_op := DSet (k v : bytes) | DDel (k : bytes) | DClear.

Definition valid_op (o : disk_op) : Prop :=
  match o with DSet k v => valid_field k /\ valid_field v | DDel k => valid_field k | DClear => True end.

#[export] Instance valid_op_dec o : Decision (valid_op o).
Proof. destruct o; simpl; apply _. Defined.

(** Runs [ops]; the second component is the map of the acknowledged effects:
    the abstract store a client believes in. *)
Definition disk_step (st : DiskStore * gmap bytes bytes) (o : disk_op)
  : DiskStore * gmap bytes bytes :=
  let '(d, m) := st in
  match o with
  | DSet k v => let '(b, d') := disk_set k v d in (d', if b then <[k := v]> m else m)
  | DDel k => let '(b, d') := disk_del k d in (d', if b then delete k m else m)
  | DClear => ((disk_clear d).2, ∅)
  end.

Definition disk_run (st : DiskStore * gmap bytes bytes) (ops : list disk_op) :=
  foldl disk_step st ops.

(** Every [clear] of the run can truncate the file, whose result it does not check. *)
Fixpoint truncations_work (st : DiskStore * gmap bytes bytes) (ops : list disk_op) : Prop :=
  match ops with
  | [] => True
  | o :: ops' => (o = DClear -> (next_io (d_env st.1)).1 = IoOk) /\ truncations_work (disk_step st o) ops'
  end.

Lemma disk_run_inv st ops :
  disk_inv st.1 st.2 -> Forall valid_op ops -> truncations_work st ops ->
  disk_inv (disk_run st ops).1 (disk_run st ops).2.
Proof.
  intros Hst Hops. revert st Hst. induction Hops as [|o ops Ho _ IH]; intros [d m] Hst Htr; [done|].
  destruct Htr as [Hc Htr]. apply IH; [|done]. destruct o as [k v|k|]; simpl.
  - destruct Ho as [Hk Hv]. pose proof (disk_set_inv d m k v Hst Hk Hv) as H.
    by destruct (disk_set k v d).
  - pose proof (disk_del_inv d m k Hst Ho) as H. by destruct (disk_del k d).
  - by apply disk_clear_inv, Hc.
Qed.

(** ** Properties *)

(** An iteration order, to run the definitions on concrete inputs. *)
Definition list_iter : UnorderedIter :=
  {| iter_order := map_to_list; iter_order_perm m := Permutation_refl _ |}.

(** The store that opened on [file], with the outcomes of its later I/O. *)
Definition opened_on `{UnorderedIter} (file : bytes) (env : list io) : DiskStore :=
  let d := disk_open file [] in
  {| d_data := d_data d; d_index := d_index d; d_ok := d_ok d; d_env := env |}.

Lemma opened_on_inv `{UnorderedIter} file env :
  disk_inv (opened_on file env) (apply_records ∅ (log_records file)).
Proof. destruct (disk_open_inv file) as [_ (p & rs & tail & Hd)]. by exists p, rs, tail. Qed.

(** C13: crash recovery of the on-disk engine.  Open a store on any file, corrupt or
    not, with any failures on the way that leave it open, provided that the operation
    that cuts off an unreadable end works (the second one of the opening).  Run any
    sequence of writes, deletes and clears of non-empty keys and values within the
    field limit, while the environment makes any write or delete fail and tear its
    record; a clear must be able to truncate the file, and has then dropped all keys.
    Lose the process, even inside a write, and reopen what is left, with any failures
    that leave the store open.  Every key has exactly the value of the last
    acknowledged write. *)
Theorem disk_crash_recovery (U : UnorderedIter) file env ops file' env' :
  heals env -> d_ok (disk_open file env) = true -> Forall valid_op ops ->
  truncations_work (disk_open file env, apply_records ∅ (log_records file)) ops ->
  let st := disk_run (disk_open file env, apply_records ∅ (log_records file)) ops in
  disk_crash_image st.1 file' -> d_ok (disk_open file' env') = true ->
  forall k, disk_get k (disk_open file' env') = st.2 !! k.
Proof.
  intros Hh Hok Hops Htr st Hc Hok' k.
  pose proof (disk_run_inv (disk_open file env, _) ops (disk_open_healed file env Hh Hok) Hops Htr) as Hi. fold st in Hi.
  rewrite <- (disk_crash_image_log _ _ _ Hi Hc). by apply index_of_get, disk_open_index.
Qed.

Lemma disk_crash_recovery_witness :
  let ops := [DSet (lit "a") (lit "1"); DClear; DSet (lit "a") (lit "3"); DSet (lit "b") (lit "2"); DDel (lit "a")] in
  let file := lit "SET 1 1 c3" ++ [newline] ++ lit "SET 1 10 dXY" in
  let env := [IoOk; IoOk; IoOk; IoOk; IoOk; IoOk; IoOk; IoFail 5] in
  let st := disk_run (@disk_open list_iter file env, apply_records ∅ (log_records file)) ops in
  d_ok st.1 = false /\ st.2 !! lit "c" = None /\
  @disk_get (lit "a") (@disk_open list_iter (d_data st.1) [IoOk; IoOk]) = Some (lit "3").
Proof.
  intros ops file env st. split; [by vm_compute|]. split; [by vm_compute|].
  assert (Forall valid_op ops) as Hops by (apply (bool_decide_unpack _); by vm_compute).
  assert (truncations_work (@disk_open list_iter file env, apply_records ∅ (log_records file)) ops) as Htr
    by (repeat split; done).
  assert (disk_crash_image st.1 (d_data st.1)) as Hc by (exists []; rewrite app_nil_r; split; [done|]; split; [by left|done]).
  etrans; [apply (disk_crash_recovery list_iter file env ops (d_data st.1) [IoOk; IoOk] eq_refl ltac:(by vm_compute) Hops Htr Hc
    ltac:(by vm_compute) (lit "a"))|].
  by vm_compute.
Defined.

(** Opening never trusts a corrupt file.  For any bytes on disk and any I/O
    failures on the way (healing, compaction, rename, reopen), a store that
    reports it opened serves exactly the map denoted by the complete records
    before the first unreadable byte. *)
Theorem disk_open_view (U : UnorderedIter) file env :
  d_ok (disk_open file env) = true ->
  forall k, disk_get k (disk_open file env) = apply_records ∅ (log_records file) !! k.
Proof. intros Hok k. by apply index_of_get, disk_open_index. Qed.

Lemma disk_open_view_witness :
  let file := lit "SET 1 1 a1" ++ [newline] ++ lit "SET 0 1 b" ++ [newline] ++ lit "SET 1 1 c3" in
  d_ok (@disk_open list_iter file [IoOk; IoFail 0; IoOk]) = true /\
  @disk_get (lit "a") (@disk_open list_iter file [IoOk; IoFail 0; IoOk]) = Some (lit "1").
Proof.
  intros file. assert (d_ok (@disk_open list_iter file [IoOk; IoFail 0; IoOk]) = true) as Hok by by vm_compute.
  split; [done|]. rewrite (disk_open_view list_iter file _ Hok (lit "a")). by vm_compute.
Defined.

(** A snapshot taken from a captured index is the data at the time of the
    cut, however much is written to the file before the values are read: each
    key appears once, with the value it had. *)
Theorem read_snapshot_stable (U : UnorderedIter) d m written :
  disk_inv d m ->
  read_snapshot (Some (d_data d ++ written)) (snapshot_index d) ≡ₚ map_to_list m.
Proof. intros Hd. by apply read_entries_perm, index_of_app, disk_inv_index. Qed.

Lemma read_snapshot_stable_witness :
  let file := lit "SET 1 1 a1" ++ [newline] ++ lit "SET 1 2 b22" ++ [newline] in
  let d := @opened_on list_iter file [] in
  disk_inv d (apply_records ∅ (log_records file)) /\
  read_snapshot (Some (d_data d ++ lit "DEL 1 a")) (@snapshot_index list_iter d) ≡ₚ
    map_to_list (apply_records ∅ (log_records file)).
Proof.
  intros file d. assert (disk_inv d (apply_records ∅ (log_records file))) as Hd by apply opened_on_inv.
  split; [done|]. exact (read_snapshot_stable list_iter d _ (lit "DEL 1 a") Hd).
Defined.

(** What the operations of the on-disk engine do.  A [set] that reports
    success makes the key read back as the value and changes no other key; a
    [del] that reports success removes the key and only it; either one, when it
    fails, leaves the stored data as it was and the store refusing service. *)
Theorem disk_ops_functional (U : UnorderedIter) d m k v :
  disk_inv d m -> d_ok d = true -> valid_field k -> valid_field v ->
  (let '(b, d') := disk_set k v d in
   if b then forall k', disk_get k' d' = <[k := v]> m !! k'
   else d_ok d' = false /\ index_of (d_data d') (d_index d') m) /\
  (let '(b, d') := disk_del k d in
   if b then forall k', disk_get k' d' = delete k m !! k'
   else (d_ok d' = false \/ m !! k = None) /\ index_of (d_data d') (d_index d') m).
Proof.
  intros Hd Hok Hk Hv. pose proof (disk_inv_index _ _ Hd) as Hidx.
  pose proof (disk_set_inv d m k v Hd Hk Hv) as Hs. pose proof (disk_del_inv d m k Hd Hk) as Hr.
  split.
  - unfold disk_set in *. rewrite Hok, bool_decide_false, bool_decide_false in * by (apply Hk || apply Hv).
    simpl in *. destruct (next_io (d_env d)) as [[|n] env']; cbn [io_write fst snd] in *.
    + intros k'. apply index_of_get; [done|by apply disk_inv_index].
    + split; [done|]. exact (disk_inv_index _ _ Hs).
  - unfold disk_del in *. rewrite Hok, bool_decide_false in * by apply Hk.
    simpl in *. destruct (d_index d !! k) eqn:Ek.
    + destruct (next_io (d_env d)) as [[|n] env']; cbn [io_write fst snd] in *.
      * intros k'. apply index_of_get; [done|by apply disk_inv_index].
      * split; [by left|]. exact (disk_inv_index _ _ Hr).
    + split; [|done]. right. rewrite <- (index_of_lookup _ _ _ k Hidx). by rewrite Ek.
Qed.

Lemma disk_ops_functional_witness :
  let d := @opened_on list_iter (lit "SET 1 1 a1" ++ [newline]) [IoOk] in
  disk_inv d (apply_records ∅ (log_records (lit "SET 1 1 a1" ++ [newline]))) /\
  disk_get (lit "b") (disk_set (lit "b") (lit "2") d).2 = Some (lit "2").
Proof.
  intros d.
  assert (disk_inv d (apply_records ∅ (log_records (lit "SET 1 1 a1" ++ [newline])))) as Hd
    by apply opened_on_inv.
  split; [done|].
  destruct (disk_ops_functional list_iter d _ (lit "b") (lit "2") Hd) as [Hset _];
    [by vm_compute|apply (bool_decide_unpack _); by vm_compute..|].
  assert ((disk_set (lit "b") (lit "2") d).1 = true) as Hb by by vm_compute.
  destruct (disk_set (lit "b") (lit "2") d) as [b d']. simpl in Hb. subst b.
  simpl. rewrite Hset. by vm_compute.
Defined.
