(* ===== verification/Address.v ===== *)
(** * Network addresses (src/raft.cpp, src/router.cpp, src/replication.cpp)

    [split_host_port], of which the three files have identical copies. *)

From S2P Require Import Prelude Stream.

Local Open Scope Z_scope.

(** The text before and after the last occurrence of a character ([rfind]). *)
Fixpoint rfind_split (c : ascii) (s : bytes) : option (bytes * bytes) :=
  match s with
  | [] => None
  | x :: s' =>
      match rfind_split c s' with
      | Some (a, b) => Some (x :: a, b)
      | None => if Ascii.eqb x c then Some ([], s') else None
      end
  end.

(** [host:port], split at the last colon; neither part may be empty, and the
    port must start with a number in 1..65535. *)
Definition split_host_port (addr : bytes) : option (bytes * Z) :=
  match rfind_split ":" addr with
  | None => None
  | Some (host, rest) =>
      if (host =?b []) || (rest =?b []) then None else
      match stoi rest with
      | None => None
      | Some (p, _) => if (p <? 1) || (65535 <? p) then None else Some (host, p)
      end
  end.

Lemma rfind_split_app c a b : c ∉ b -> rfind_split c (a ++ c :: b) = Some (a, b).
Proof.
  intros Hb. assert (rfind_split c b = None) as E.
  { induction b as [|x b IH]; [done|]. simpl. apply not_elem_of_cons in Hb as [Hx Hb].
    rewrite (IH Hb). destruct (Ascii.eqb_spec x c); [by subst|done]. }
  induction a as [|x a IH]; simpl.
  - by rewrite E, Ascii.eqb_refl.
  - by rewrite IH.
Qed.

Lemma rfind_split_Some c s a b : rfind_split c s = Some (a, b) -> s = a ++ c :: b /\ c ∉ b.
Proof.
  revert a b. induction s as [|x s IH]; intros a b; simpl; [done|].
  destruct (rfind_split c s) as [[a' b']|] eqn:E.
  - intros [= <- <-]. by destruct (IH a' b') as [-> ?].
  - destruct (Ascii.eqb_spec x c); [|done]. intros [= <- <-]. subst. split; [done|].
    clear IH. induction s as [|y s IH]; [apply not_elem_of_nil|]. simpl in E.
    destruct (rfind_split c s) as [[? ?]|] eqn:E'; [done|].
    destruct (Ascii.eqb_spec y c); [done|]. apply not_elem_of_cons. split; [done|by apply IH].
Qed.

Lemma to_string_no_colon n : ":"%char ∉ to_string n.
Proof. by apply to_string_no. Qed.

(** An address built as [host + ":" + to_string(port)], which is how a node
    names itself, is split back into its parts, whatever the host contains. *)
Theorem split_host_port_roundtrip host port :
  host <> [] -> 1 <= port <= 65535 ->
  split_host_port (host ++ lit ":" ++ to_string port) = Some (host, port).
Proof.
  intros Hh Hp. unfold split_host_port. simpl.
  rewrite rfind_split_app by apply to_string_no_colon.
  rewrite !bool_decide_false by (done || apply to_string_nonempty). simpl.
  assert (stoi (to_string port) = Some (port, blen (to_string port))) as ->.
  { rewrite <- (app_nil_r (to_string port)) at 1. apply strto_to_string; [|done].
    unfold INT_MIN, INT_MAX. lia. }
  destruct (Z.ltb_spec port 1); [lia|]. by destruct (Z.ltb_spec 65535 port); [lia|].
Qed.

Lemma split_host_port_roundtrip_witness :
  lit "127.0.0.1" <> [] /\ split_host_port (lit "127.0.0.1" ++ lit ":" ++ to_string 6380) = Some (lit "127.0.0.1", 6380).
Proof. split; [done|]. apply split_host_port_roundtrip; [done|lia]. Defined.

Lemma split_host_port_range addr host port :
  split_host_port addr = Some (host, port) -> host <> [] /\ 1 <= port <= 65535.
Proof.
  unfold split_host_port. destruct (rfind_split ":" addr) as [[h r]|]; [|done].
  destruct (h =?b []) eqn:Eh; [done|]. simpl. destruct (r =?b []); [done|]. simpl.
  destruct (stoi r) as [[p c]|]; [|done].
  destruct (Z.ltb_spec p 1); [done|]. destruct (Z.ltb_spec 65535 p); [done|].
  intros [= <- <-]. bool_simpl. split; [done|lia].
Qed.

(** The port is read as [std::stoi] reads it: what follows the digits is
    ignored, so distinct texts name the same address. *)
Lemma split_host_port_alias :
  split_host_port (lit "127.0.0.1:6380x") = split_host_port (lit "127.0.0.1:6380").
Proof. by vm_compute. Qed.
