(* ===== verification/Replicator.v ===== *)
(** * The leader's side of replication: queues (src/replication.cpp)

    The state shared between the storage engine, which enqueues, and the
    sender threads, which drain: one [Link] per follower. *)

From S2P Require Import Prelude Stream Records Interfaces Address.

Local Open Scope Z_scope.

Definition kMaxQueue : Z := 100000.

(** [Replicator::Link], without the thread, mutex and condition variable. *)
Record Link := {
  l_host : bytes;
  l_port : Z;
  queue : list bytes;       (* pending wire lines, oldest first *)
  streaming : bool;         (* past the full-sync cut *)
  resync_needed : bool;     (* backlog overflowed *)
  l_stop : bool;
}.

Record Replicator := { links_ : list Link; started_ : bool }.

Definition set_line (key value : bytes) : bytes :=
  lit "SET " ++ key ++ lit " " ++ value ++ [newline].
Definition del_line (key : bytes) : bytes := lit "DEL " ++ key ++ [newline].

Definition wire_line (r : record) : bytes :=
  match r with RSet k v => set_line k v | RDel k => del_line k end.

(** [new Link()], with the address filled in. *)
Definition new_link (host : bytes) (port : Z) : Link :=
  {| l_host := host; l_port := port; queue := []; streaming := false;
     resync_needed := false; l_stop := false |}.

(** [split_host_port] of src/replication.cpp, the text of raft.cpp's. *)
Definition repl_split_host_port (addr : bytes) : option (bytes * Z) := split_host_port addr.

(** [Replicator::Replicator]: addresses that do not parse are ignored. *)
Definition replicator_new (follower_addrs : list bytes) : Replicator :=
  {| links_ := omap (fun a => (fun hp => new_link hp.1 hp.2) <$> repl_split_host_port a) follower_addrs;
     started_ := false |}.

Definition replicator_start (r : Replicator) : Replicator :=
  {| links_ := r.(links_); started_ := true |}.

Definition stop_link (l : Link) : Link :=
  {| l_host := l.(l_host); l_port := l.(l_port); queue := l.(queue);
     streaming := l.(streaming); resync_needed := l.(resync_needed); l_stop := true |}.

Definition replicator_stop (r : Replicator) : Replicator :=
  {| links_ := stop_link <$> r.(links_); started_ := r.(started_) |}.

(** One link's part of [Replicator::enqueue]. *)
Definition enqueue_link (line : bytes) (l : Link) : Link :=
  if negb l.(streaming) then l
  else if kMaxQueue <=? Z.of_nat (length l.(queue)) then
    {| l_host := l.(l_host); l_port := l.(l_port); queue := []; streaming := false;
       resync_needed := true; l_stop := l.(l_stop) |}
  else
    {| l_host := l.(l_host); l_port := l.(l_port); queue := l.(queue) ++ [line];
       streaming := true; resync_needed := l.(resync_needed); l_stop := l.(l_stop) |}.

Definition enqueue (line : bytes) (r : Replicator) : Replicator :=
  {| links_ := enqueue_link line <$> r.(links_); started_ := r.(started_) |}.

Definition repl_set (key value : bytes) (r : Replicator) : Replicator :=
  enqueue (set_line key value) r.
Definition repl_del (key : bytes) (r : Replicator) : Replicator :=
  enqueue (del_line key) r.

#[export] Instance replicator_sink : ReplicaSink Replicator := {|
  replicate_set := repl_set;
  replicate_del := repl_del;
|}.

Lemma replicate_record_enqueue (r : Replicator) rec :
  replicate_record r rec = enqueue (wire_line rec) r.
Proof. by destruct rec. Qed.

(** The backlog of a follower is bounded. *)
Definition link_bounded (l : Link) : Prop := Z.of_nat (length l.(queue)) <= kMaxQueue.

Lemma enqueue_link_bounded line l : link_bounded l -> link_bounded (enqueue_link line l).
Proof.
  unfold link_bounded, enqueue_link. intros H. destruct (streaming l); simpl; [|done].
  destruct (Z.leb_spec kMaxQueue (Z.of_nat (length (queue l)))); simpl; [unfold kMaxQueue; lia|].
  rewrite length_app. simpl. lia.
Qed.
