(* ===== verification/Storage.v ===== *)
(** * The storage engine (src/storage.cpp)

    An LRU cache made of two structures kept in sync: a doubly-linked list of
    (key, value) nodes ordered by recency, front first, and a hash map from
    each key to its list node.  A node is named by a number, so that the
    iterators held by the map keep their meaning when nodes are moved
    ([splice]) or erased.  Every operation runs under the engine's mutex and
    is one function of the state.  The log and the replicator are reached
    through their interfaces (file [Interfaces]); the on-disk backend, when
    enabled, takes the place of the cache and the log. *)

From S2P Require Import Prelude Stream Records Interfaces DiskStore.

Local Open Scope Z_scope.

Abbreviation item := (bytes * bytes)%type.

Record Storage (L R : Type) := mkStorage {
  items_ : list (nat * item);     (* std::list<Item>: node and contents, front = MRU *)
  index_ : gmap bytes nat;        (* key -> its node *)
  next_node : nat;                (* the next node to be allocated *)
  capacity_ : Z;                  (* 0 = unbounded *)
  replaying_ : bool;
  wal_ : option L;
  replicator_ : option R;
  disk_ : option DiskStore;
}.
Arguments mkStorage {L R}.
Arguments items_ {L R}.
Arguments index_ {L R}.
Arguments next_node {L R}.
Arguments capacity_ {L R}.
Arguments replaying_ {L R}.
Arguments wal_ {L R}.
Arguments replicator_ {L R}.
Arguments disk_ {L R}.

(** ** [std::list] *)

Definition node_item (n : nat) (l : list (nat * item)) : option item :=
  snd <$> head (filter (fun x => x.1 = n) l).

(** [erase(it)] *)
Definition erase_node (n : nat) (l : list (nat * item)) : list (nat * item) :=
  filter (fun x => x.1 <> n) l.

(** [splice(begin(), l, it)] *)
Definition splice_front (n : nat) (l : list (nat * item)) : list (nat * item) :=
  match node_item n l with
  | Some it => (n, it) :: erase_node n l
  | None => l
  end.

(** [it->second = value] *)
Definition assign_node (n : nat) (value : bytes) (l : list (nat * item)) : list (nat * item) :=
  (fun x => if decide (x.1 = n) then (x.1, (x.2.1, value)) else x) <$> l.

(** [pop_back()] *)
Definition pop_back (l : list (nat * item)) : list (nat * item) := take (length l - 1) l.

Section operations.
Context {L R : Type} `{WriteAhead L} `{ReplicaSink R} `{UnorderedIter}.
Abbreviation store := (Storage L R).

Definition storage_new (capacity : Z) : store :=
  {| items_ := []; index_ := ∅; next_node := 0; capacity_ := capacity; replaying_ := false;
     wal_ := None; replicator_ := None; disk_ := None |}.

(** Field updates. *)
Definition with_items (l : list (nat * item)) (idx : gmap bytes nat) (nn : nat) (st : store) : store :=
  mkStorage l idx nn (capacity_ st) (replaying_ st) (wal_ st) (replicator_ st) (disk_ st).
Definition with_wal (w : option L) (st : store) : store :=
  mkStorage (items_ st) (index_ st) (next_node st) (capacity_ st) (replaying_ st) w
    (replicator_ st) (disk_ st).
Definition with_replicator (r : option R) (st : store) : store :=
  mkStorage (items_ st) (index_ st) (next_node st) (capacity_ st) (replaying_ st) (wal_ st) r
    (disk_ st).
Definition with_replaying (b : bool) (st : store) : store :=
  mkStorage (items_ st) (index_ st) (next_node st) (capacity_ st) b (wal_ st) (replicator_ st)
    (disk_ st).
Definition with_disk (d : option DiskStore) (st : store) : store :=
  mkStorage (items_ st) (index_ st) (next_node st) (capacity_ st) (replaying_ st) (wal_ st)
    (replicator_ st) d.

(** The calls on the collaborators, which may be absent. *)
Definition log_set (k v : bytes) (st : store) : bool * store :=
  match wal_ st with
  | None => (true, st)
  | Some l => let '(b, l') := append_set k v l in (b, with_wal (Some l') st)
  end.
Definition log_del (k : bytes) (st : store) : bool * store :=
  match wal_ st with
  | None => (true, st)
  | Some l => let '(b, l') := append_del k l in (b, with_wal (Some l') st)
  end.
Definition forward (rec : record) (st : store) : store :=
  with_replicator ((fun r => replicate_record r rec) <$> replicator_ st) st.

(** [Storage::evict_lru_locked].  The caller ensures the cache is not empty. *)
Definition evict_lru_locked (log_eviction : bool) (st : store) : bool * store :=
  match last (items_ st) with
  | None => (false, st)
  | Some (_, (evicted, _)) =>
      let '(b, st1) := if log_eviction then log_del evicted st else (true, st) in
      if negb b then (false, st1) else
      let st2 := if log_eviction then forward (RDel evicted) st1 else st1 in
      (true, with_items (pop_back (items_ st2)) (delete evicted (index_ st2)) (next_node st2) st2)
  end.

Definition over_capacity (st : store) : bool :=
  (0 <? capacity_ st) && (capacity_ st <? Z.of_nat (size (index_ st))).

(** The eviction loops; each round removes a key, so the number of keys bounds
    the rounds. *)
Fixpoint evict_loop (fuel : nat) (log_eviction : bool) (st : store) : store :=
  match fuel with
  | O => st
  | S f =>
      if over_capacity st then
        let '(b, st') := evict_lru_locked log_eviction st in
        if b then evict_loop f log_eviction st' else st'
      else st
  end.

(** [Storage::set] *)
Definition storage_set (key value : bytes) (st : store) : bool * store :=
  match disk_ st with
  | Some d =>
      let '(b, d') := disk_set key value d in
      let st1 := with_disk (Some d') st in
      if b then (true, forward (RSet key value) st1) else (false, st1)
  | None =>
      let '(b, st1) := log_set key value st in
      if negb b then (false, st1) else
      match index_ st1 !! key with
      | Some n =>
          let l := splice_front n (assign_node n value (items_ st1)) in
          (true, forward (RSet key value) (with_items l (index_ st1) (next_node st1) st1))
      | None =>
          let n := next_node st1 in
          let st2 := with_items ((n, (key, value)) :: items_ st1) (<[key := n]> (index_ st1)) (S n) st1 in
          let st3 := forward (RSet key value) st2 in
          (true, if replaying_ st3 then st3 else evict_loop (size (index_ st3)) true st3)
      end
  end.

(** [Storage::get]: [None] is a miss. *)
Definition storage_get (key : bytes) (st : store) : option bytes * store :=
  match disk_ st with
  | Some d => (disk_get key d, st)
  | None =>
      match index_ st !! key with
      | None => (None, st)
      | Some n =>
          let l := splice_front n (items_ st) in
          (snd <$> node_item n l, with_items l (index_ st) (next_node st) st)
      end
  end.

(** [Storage::del]: the number of keys removed, and [*durable]. *)
Definition storage_del (key : bytes) (st : store) : Z * bool * store :=
  match disk_ st with
  | Some d =>
      let '(removed, d') := disk_del key d in
      let st1 := with_disk (Some d') st in
      if negb (d_ok d') then (0, false, st1)
      else if removed then (1, true, forward (RDel key) st1) else (0, true, st1)
  | None =>
      match index_ st !! key with
      | None => (0, true, st)
      | Some n =>
          let '(b, st1) := log_del key st in
          if negb b then (0, false, st1) else
          let st2 := forward (RDel key) st1 in
          (1, true, with_items (erase_node n (items_ st2)) (delete key (index_ st2)) (next_node st2) st2)
      end
  end.

Definition storage_exists (key : bytes) (st : store) : bool :=
  match disk_ st with
  | Some d => disk_exists key d
  | None => bool_decide (is_Some (index_ st !! key))
  end.

Definition storage_size (st : store) : Z :=
  match disk_ st with
  | Some d => disk_size d
  | None => Z.of_nat (size (index_ st))
  end.

Definition attach_wal (w : option L) (st : store) : store := with_wal w st.
Definition attach_replicator (r : option R) (st : store) : store := with_replicator r st.

(** [Storage::clear] *)
Definition storage_clear (st : store) : bool * store :=
  match disk_ st with
  | Some d => let '(b, d') := disk_clear d in (b, with_disk (Some d') st)
  | None => (true, with_items [] ∅ (next_node st) st)
  end.

(** [Storage::set_replaying]: leaving replay trims to the capacity, unlogged. *)
Definition set_replaying (replaying : bool) (st : store) : store :=
  let st1 := with_replaying replaying st in
  if replaying then st1 else evict_loop (size (index_ st1)) false st1.

(** [Storage::open_disk_backend] on a file with the given contents. *)
Definition open_disk_backend (file : bytes) (env : list io) (st : store) : bool * store :=
  let d := disk_open file env in
  if d_ok d then (true, with_disk (Some d) st) else (false, with_disk None st).

(** [Storage::snapshot_locked].  Under the lock: the cut (the items, or for the
    disk backend the index) and [while_locked], which acts on the replicator.
    The disk values are read after the lock is released, from the file as it
    is by then. *)
Inductive cut := CutItems (l : list item) | CutIndex (idx : list (bytes * Entry)).

Definition snapshot_locked (while_locked : R -> R) (st : store) : cut * store :=
  let st' := with_replicator (while_locked <$> replicator_ st) st in
  match disk_ st with
  | Some d => (CutIndex (snapshot_index d), st')
  | None => (CutItems (items_ st).*2, st')
  end.

Definition read_cut (c : cut) (file : option bytes) : list item :=
  match c with CutItems l => l | CutIndex idx => read_snapshot file idx end.

End operations.

(** ** The invariant of the two structures *)

Definition view_of (l : list (nat * item)) : gmap bytes bytes := list_to_map l.*2.

(** Nodes and keys are unique, the map is exactly the key-to-node table of the
    list, and allocated nodes are below the next one. *)
Record lru_ok (l : list (nat * item)) (idx : gmap bytes nat) (nn : nat) : Prop := {
  ok_nodes : NoDup l.*1;
  ok_keys : NoDup l.*2.*1;
  ok_index : idx = list_to_map ((fun x => (x.2.1, x.1)) <$> l);
  ok_fresh : Forall (fun x => (x.1 < nn)%nat) l;
}.

Lemma index_keys (l : list (nat * item)) :
  ((fun x : nat * item => (x.2.1, x.1)) <$> l).*1 = l.*2.*1.
Proof. rewrite <- !list_fmap_compose. by apply list_fmap_ext. Qed.

Lemma lru_ok_nil nn : lru_ok [] ∅ nn.
Proof. by split; try constructor. Qed.

Lemma lru_ok_perm l l' idx nn : l ≡ₚ l' -> lru_ok l idx nn -> lru_ok l' idx nn.
Proof.
  intros Hp [Hn Hk Hi Hf]. split.
  - by rewrite <- Hp.
  - by rewrite <- Hp.
  - rewrite Hi. apply list_to_map_proper; [by rewrite index_keys|by rewrite Hp].
  - by rewrite <- Hp.
Qed.

Lemma lru_ok_insert l idx nn k v :
  lru_ok l idx nn -> idx !! k = None -> lru_ok ((nn, (k, v)) :: l) (<[k := nn]> idx) (S nn).
Proof.
  intros [Hn Hk -> Hf] Hnone. split; csimpl.
  - constructor; [|done]. intros Hin. apply list_elem_of_fmap in Hin as (x & -> & Hx).
    rewrite Forall_forall in Hf. specialize (Hf x Hx). lia.
  - constructor; [|done]. apply not_elem_of_list_to_map in Hnone. by rewrite index_keys in Hnone.
  - done.
  - constructor; [simpl; lia|]. eapply Forall_impl; [done|]. simpl. lia.
Qed.

Lemma lru_ok_remove x l idx nn : lru_ok (x :: l) idx nn -> lru_ok l (delete x.2.1 idx) nn.
Proof.
  intros [Hn Hk -> Hf]. csimpl in *.
  apply NoDup_cons in Hn as [_ Hn], Hk as [Hx Hk]. apply Forall_cons in Hf as [_ Hf].
  split; [done..| |done]. rewrite delete_insert_id; [done|].
  apply not_elem_of_list_to_map. by rewrite index_keys.
Qed.

Lemma lru_ok_assign n k v w l idx nn :
  lru_ok ((n, (k, v)) :: l) idx nn -> lru_ok ((n, (k, w)) :: l) idx nn.
Proof.
  intros [Hn Hk Hi Hf]. split; [done..|]. apply Forall_cons in Hf as [? ?]. by constructor.
Qed.

Lemma lru_ok_size l idx nn : lru_ok l idx nn -> size idx = length l.
Proof.
  intros [_ Hk -> _]. rewrite map_size_list_to_map by (by rewrite index_keys). apply length_fmap.
Qed.

(** The iterator the map holds for a key is that of a node with that key. *)
Lemma lru_ok_lookup l idx nn k n :
  lru_ok l idx nn -> idx !! k = Some n ->
  exists v a b,
    l = a ++ (n, (k, v)) :: b /\ node_item n l = Some (k, v) /\
    erase_node n l = a ++ b /\ splice_front n l = (n, (k, v)) :: a ++ b /\
    (forall w, splice_front n (assign_node n w l) = (n, (k, w)) :: a ++ b).
Proof.
  intros [Hn Hk -> _] Hl. apply elem_of_list_to_map_2 in Hl.
  apply list_elem_of_fmap in Hl as ([n' [k' v]] & [= -> ->] & Hin).
  apply list_elem_of_split in Hin as (a & b & ->). exists v, a, b.
  assert (forall c, n' ∉ c.*1 -> filter (fun x : nat * item => x.1 = n') c = [] /\
            filter (fun x : nat * item => x.1 <> n') c = c /\
            (forall w, assign_node n' w c = c)) as Hc.
  { intros c. induction c as [|y c IH]; [done|]. csimpl. intros [Hy Hc]%not_elem_of_cons.
    destruct (IH Hc) as (E1 & E2 & E3).
    rewrite (filter_cons_False (fun x : nat * item => x.1 = n')) by done.
    rewrite (filter_cons_True (fun x : nat * item => x.1 <> n')) by done. rewrite E1, E2.
    split; [done|]. split; [done|]. intros w. unfold assign_node in *. csimpl.
    rewrite decide_False by done. by rewrite E3. }
  rewrite fmap_app in Hn. csimpl in Hn. apply NoDup_app in Hn as (_ & Ha & Hb).
  apply NoDup_cons in Hb as [Hb _].
  assert (n' ∉ a.*1) as Ha' by (intros Hin; apply (Ha n' Hin); by left).
  destruct (Hc a Ha') as (A1 & A2 & A3), (Hc b Hb) as (B1 & B2 & B3).
  assert (forall w, node_item n' (a ++ (n', (k', w)) :: b) = Some (k', w) /\
                    erase_node n' (a ++ (n', (k', w)) :: b) = a ++ b) as Hw.
  { intros w. unfold node_item, erase_node. rewrite !filter_app, A1, A2.
    rewrite (filter_cons_True (fun x : nat * item => x.1 = n')) by done.
    rewrite (filter_cons_False (fun x : nat * item => x.1 <> n')) by (by intros []). by rewrite B2. }
  destruct (Hw v) as [N1 N2]. split; [done|]. split; [done|]. split; [done|].
  split; [unfold splice_front; by rewrite N1, N2|]. intros w.
  assert (assign_node n' w (a ++ (n', (k', v)) :: b) = a ++ (n', (k', w)) :: b) as ->.
  { unfold assign_node in *. rewrite fmap_app, A3. csimpl. by rewrite decide_True, B3. }
  destruct (Hw w) as [M1 M2]. unfold splice_front. by rewrite M1, M2.
Qed.

Lemma lru_ok_middle a x b idx nn :
  lru_ok (a ++ x :: b) idx nn -> lru_ok (x :: a ++ b) idx nn.
Proof. apply lru_ok_perm. symmetry. apply Permutation_middle. Qed.

(** ** The data held *)

Lemma view_perm l l' idx nn : lru_ok l idx nn -> l ≡ₚ l' -> view_of l = view_of l'.
Proof. intros [_ Hk _ _] Hp. apply list_to_map_proper; [done|by rewrite Hp]. Qed.

Lemma view_cons n k v l : view_of ((n, (k, v)) :: l) = <[k := v]> (view_of l).
Proof. done. Qed.

Lemma view_remove n k v l idx nn :
  lru_ok ((n, (k, v)) :: l) idx nn -> view_of l = delete k (view_of ((n, (k, v)) :: l)).
Proof.
  intros [_ Hk _ _]. csimpl in Hk. apply NoDup_cons in Hk as [Hk _].
  rewrite view_cons, delete_insert_id; [done|]. by apply not_elem_of_list_to_map.
Qed.

Lemma view_middle a x b idx nn :
  lru_ok (a ++ x :: b) idx nn -> view_of (a ++ x :: b) = view_of (x :: a ++ b).
Proof. intros Hok. eapply view_perm; [done|]. symmetry. apply Permutation_middle. Qed.

Lemma view_lookup_None l idx nn k : lru_ok l idx nn -> idx !! k = None -> view_of l !! k = None.
Proof.
  intros [_ _ -> _] Hk. apply not_elem_of_list_to_map in Hk. rewrite index_keys in Hk.
  by apply not_elem_of_list_to_map.
Qed.

Lemma pop_back_snoc l x : pop_back (l ++ [x]) = l.
Proof. unfold pop_back. rewrite length_app. simpl. by rewrite Nat.add_sub, take_app_length. Qed.

(** ** What an operation does, as a list of records

    Each mutation of the cache amounts to a list of records: it is what the
    data went through, what was forwarded to the replicator, in order, and
    (where the guard [G] about the validity of keys and values holds) what was
    added to the log. *)

Section effects.
Context {L R : Type} `{WriteAheadLaws L} `{ReplicaSink R} `{UnorderedIter}.
Abbreviation store := (Storage L R).

Definition view (st : store) : gmap bytes bytes := view_of (items_ st).
Definition store_ok (st : store) : Prop := lru_ok (items_ st) (index_ st) (next_node st).

Definition wal_extends (w w' : option L) (rs : list record) : Prop :=
  match w, w' with
  | None, None => True
  | Some l, Some l' => wa_inv l -> wa_inv l' /\ wa_log l' = wa_log l ++ rs
  | _, _ => False
  end.

Definition forwards (r r' : option R) (rs : list record) : Prop :=
  r' = (fun x => foldl replicate_record x rs) <$> r.

(** The log has refused the record of a delete. *)
Definition refused (w : option L) : Prop :=
  exists l k l', append_del k l = (false, l') /\ w = Some l'.

Record effect (G : Prop) (st st' : store) (rs : list record) : Prop := {
  eff_ok : store_ok st';
  eff_view : view st' = apply_records (view st) rs;
  eff_repl : forwards (replicator_ st) (replicator_ st') rs;
  eff_wal : G -> wal_extends (wal_ st) (wal_ st') rs;
  eff_frame : capacity_ st' = capacity_ st /\ replaying_ st' = replaying_ st /\ disk_ st' = disk_ st;
  eff_attached : is_Some (wal_ st') <-> is_Some (wal_ st);
}.

Lemma wal_extends_refl w : wal_extends w w [].
Proof. destruct w; simpl; [|done]. intros Hi. by rewrite app_nil_r. Qed.

Lemma wal_extends_trans w1 w2 w3 rs1 rs2 :
  wal_extends w1 w2 rs1 -> wal_extends w2 w3 rs2 -> wal_extends w1 w3 (rs1 ++ rs2).
Proof.
  destruct w1, w2, w3; simpl; try done. intros H12 H23 Hi.
  destruct (H12 Hi) as [Hi' E1]. destruct (H23 Hi') as [Hi'' E2].
  by rewrite E2, E1, (assoc_L (++)).
Qed.

Lemma effect_refl G st : store_ok st -> effect G st st [].
Proof.
  intros Hok. split; [done|done| |intros _; apply wal_extends_refl|done|done].
  unfold forwards. by destruct (replicator_ st).
Qed.

Lemma effect_trans G st1 st2 st3 rs1 rs2 :
  effect G st1 st2 rs1 -> effect G st2 st3 rs2 -> effect G st1 st3 (rs1 ++ rs2).
Proof.
  intros [O1 V1 R1 W1 (F1 & F1' & F1'') A1] [O2 V2 R2 W2 (F2 & F2' & F2'') A2]. split.
  - done.
  - rewrite V2, V1. unfold apply_records. by rewrite foldl_app.
  - unfold forwards in *. rewrite R2, R1. destruct (replicator_ st1); simpl; [|done].
    by rewrite foldl_app.
  - intros HG. eapply wal_extends_trans; auto.
  - rewrite F2, F2', F2''. done.
  - by rewrite A2.
Qed.

Lemma log_set_effect (k v : bytes) (st : store) :
  store_ok st ->
  let '(b, st') := log_set k v st in
  store_ok st' /\ items_ st' = items_ st /\ index_ st' = index_ st /\ next_node st' = next_node st /\
  replicator_ st' = replicator_ st /\
  capacity_ st' = capacity_ st /\ replaying_ st' = replaying_ st /\ disk_ st' = disk_ st /\
  (is_Some (wal_ st') <-> is_Some (wal_ st)) /\
  (valid_field k -> valid_field v -> wal_extends (wal_ st) (wal_ st') (if b then [RSet k v] else [])).
Proof.
  intros Hok. unfold log_set. destruct (wal_ st) as [l|] eqn:E.
  - pose proof (append_set_ok k v l) as Hl. destruct (append_set k v l) as [b l']. simpl in *.
    repeat split; try done; try apply Hok; by apply Hl.
  - rewrite E. simpl. repeat split; done || apply Hok.
Qed.

Lemma log_del_effect (k : bytes) (st : store) :
  store_ok st ->
  let '(b, st') := log_del k st in
  store_ok st' /\ items_ st' = items_ st /\ index_ st' = index_ st /\ next_node st' = next_node st /\
  replicator_ st' = replicator_ st /\
  capacity_ st' = capacity_ st /\ replaying_ st' = replaying_ st /\ disk_ st' = disk_ st /\
  (is_Some (wal_ st') <-> is_Some (wal_ st)) /\
  (valid_field k -> wal_extends (wal_ st) (wal_ st') (if b then [RDel k] else [])).
Proof.
  intros Hok. unfold log_del. destruct (wal_ st) as [l|] eqn:E.
  - pose proof (append_del_ok k l) as Hl. destruct (append_del k l) as [b l']. simpl in *.
    repeat split; try done; try apply Hok; by apply Hl.
  - rewrite E. simpl. repeat split; done || apply Hok.
Qed.

(** Evicting drops the least recently used key: the last of the list. *)
Lemma evict_effect (G : Prop) (log_eviction : bool) (st : store) a n k v :
  store_ok st -> items_ st = a ++ [(n, (k, v))] -> (G -> valid_map (view st)) ->
  let '(b, st') := evict_lru_locked log_eviction st in
  if log_eviction then
    if b then effect G st st' [RDel k] /\ items_ st' = a
    else effect G st st' [] /\ items_ st' = items_ st /\ refused (wal_ st')
  else b = true /\ store_ok st' /\ items_ st' = a /\ view st' = delete k (view st) /\
       capacity_ st' = capacity_ st /\ replaying_ st' = replaying_ st /\ disk_ st' = disk_ st /\
       wal_ st' = wal_ st /\ replicator_ st' = replicator_ st.
Proof.
  intros Hok Hi HG. pose proof Hok as Hok'. unfold store_ok in Hok'. rewrite Hi in Hok'.
  pose proof (view_middle _ _ _ _ _ Hok') as Hv. apply lru_ok_middle in Hok'.
  pose proof (view_remove _ _ _ _ _ _ Hok') as Hd. apply lru_ok_remove in Hok'.
  rewrite app_nil_r in *. simpl in Hok'. rewrite <- Hv in Hd.
  assert (G -> valid_field k) as HGk.
  { intros HG'. apply (HG HG' k v). unfold view. rewrite Hi, Hv. apply lookup_insert_eq. }
  unfold evict_lru_locked. rewrite Hi, last_snoc. destruct log_eviction.
  - pose proof (log_del_effect k st Hok) as Hl. destruct (log_del k st) as [[] st1] eqn:El;
      destruct Hl as (Ho & Ei & Ex & En & Er & Ec & Ep & Ed & Ew & Hw); simpl.
    + rewrite Ei, Ex, En, Hi, pop_back_snoc. split; [|done]. split; simpl.
      * done.
      * unfold view. simpl. by rewrite Hi.
      * unfold forwards. rewrite Er. by destruct (replicator_ st).
      * auto.
      * done.
      * done.
    + split; [|split; [by rewrite Ei|]].
      * split; [done| | |auto|done|done].
        -- unfold view. by rewrite Ei.
        -- unfold forwards. rewrite Er. by destruct (replicator_ st).
      * unfold log_del in El. destruct (wal_ st) as [l|]; [|done].
        destruct (append_del k l) as [b l'] eqn:E. simplify_eq. by exists l, k, l'.
  - simpl. rewrite Hi, pop_back_snoc. repeat split; try done; try apply Hok'.
    unfold view. simpl. by rewrite Hi.
Qed.

Lemma over_capacity_items (st : store) :
  store_ok st -> over_capacity st = (0 <? capacity_ st) && (capacity_ st <? Z.of_nat (length (items_ st))).
Proof. intros Hok. unfold over_capacity. by rewrite (lru_ok_size _ _ _ Hok). Qed.

Lemma over_capacity_snoc (st : store) :
  store_ok st -> over_capacity st = true ->
  exists a n k v, items_ st = a ++ [(n, (k, v))] /\ 0 < capacity_ st <= Z.of_nat (length a).
Proof.
  intros Hok Ho. rewrite over_capacity_items in Ho by done. bool_simpl.
  destruct (items_ st) as [|[n [k v]] a _] eqn:E using rev_ind; [simpl in *; lia|].
  exists a, n, k, v. rewrite length_app in *. simpl in *. split; [done|lia].
Qed.

(** The evicted keys were present. *)
Lemma evicted_present G (st st1 : store) a n k v ks :
  store_ok st -> items_ st = a ++ [(n, (k, v))] -> effect G st st1 [RDel k] ->
  Forall (fun x => is_Some (view st1 !! x)) ks -> Forall (fun x => is_Some (view st !! x)) (k :: ks).
Proof.
  intros Hok Hi He Hks. constructor.
  - exists v. unfold store_ok in Hok. unfold view. rewrite Hi in *.
    rewrite (view_middle _ _ _ _ _ Hok). apply lookup_insert_eq.
  - eapply Forall_impl; [exact Hks|]. intros x [w Hw]. exists w. rewrite (eff_view _ _ _ _ He) in Hw.
    simpl in Hw. by apply lookup_delete_Some in Hw as [_ ?].
Qed.

(** The logged eviction loop evicts from the back until the cache fits; it can
    stop earlier only when the log refuses a record. *)
Lemma evict_loop_effect (G : Prop) fuel (st : store) :
  store_ok st -> (G -> valid_map (view st)) -> (length (items_ st) <= fuel)%nat ->
  exists ks,
    let st' := evict_loop fuel true st in
    effect G st st' (RDel <$> ks) /\
    ((ks <> [] -> 0 < capacity_ st) /\ Forall (fun x => is_Some (view st !! x)) ks) /\
    items_ st' `prefix_of` items_ st /\
    (items_ st' = items_ st \/ 0 < capacity_ st <= Z.of_nat (length (items_ st'))) /\
    (over_capacity st' = false \/ refused (wal_ st')).
Proof.
  revert st. induction fuel as [|f IH]; intros st Hok HG Hf.
  { exists []. simpl. split; [by apply effect_refl|]. split; [by split; [|constructor]|]. split; [done|]. split; [by left|].
    left. rewrite over_capacity_items by done. destruct (items_ st); [|simpl in *; lia].
    simpl. destruct (Z.ltb_spec 0 (capacity_ st)); [|done]. simpl. apply Z.ltb_ge. lia. }
  simpl. destruct (over_capacity st) eqn:Ho.
  - destruct (over_capacity_snoc st Hok Ho) as (a & n & k & v & Hi & Hc).
    pose proof (evict_effect G true st a n k v Hok Hi HG) as He.
    destruct (evict_lru_locked true st) as [[] st1].
    + destruct He as [He Ha]. pose proof (eff_frame _ _ _ _ He) as (Fc & _ & _).
      destruct (IH st1) as (ks & He' & (_ & Hin) & Hp & Hl & Hov).
      * apply He.
      * intros HG'. rewrite (eff_view _ _ _ _ He). simpl. by apply map_Forall_delete, HG.
      * rewrite Ha. rewrite Hi, length_app in Hf. simpl in *. lia.
      * exists (k :: ks). split; [exact (effect_trans _ _ _ _ _ _ He He')|].
        split; [split; [lia|exact (evicted_present _ _ _ _ _ _ _ _ Hok Hi He Hin)]|].
        split; [rewrite Hi; etrans; [exact Hp|]; rewrite Ha; by apply prefix_app_r|].
        split; [right; rewrite <- Fc; destruct Hl as [->|?]; [rewrite Ha, Fc|]; done|].
        done.
    + destruct He as (He & Ha & Hw). exists []. split; [done|]. split; [by split; [|constructor]|]. rewrite Ha.
      split; [done|]. split; [by left|by right].
  - exists []. split; [by apply effect_refl|]. split; [by split; [|constructor]|]. split; [done|]. split; [by left|by left].
Qed.

(** The unlogged loop, run when replay mode ends, always makes the cache fit. *)
Lemma evict_loop_unlogged fuel (st : store) :
  store_ok st -> (length (items_ st) <= fuel)%nat ->
  let st' := evict_loop fuel false st in
  store_ok st' /\ items_ st' `prefix_of` items_ st /\ over_capacity st' = false /\
  (items_ st' = items_ st \/ 0 < capacity_ st <= Z.of_nat (length (items_ st'))) /\
  capacity_ st' = capacity_ st /\ replaying_ st' = replaying_ st /\ disk_ st' = disk_ st /\
  wal_ st' = wal_ st /\ replicator_ st' = replicator_ st.
Proof.
  revert st. induction fuel as [|f IH]; intros st Hok Hf.
  { simpl. repeat split; try done; try apply Hok; [|by left].
    rewrite over_capacity_items by done. destruct (items_ st); [|simpl in *; lia].
    simpl. destruct (Z.ltb_spec 0 (capacity_ st)); [|done]. simpl. apply Z.ltb_ge. lia. }
  simpl. destruct (over_capacity st) eqn:Ho.
  - destruct (over_capacity_snoc st Hok Ho) as (a & n & k & v & Hi & Hc).
    pose proof (evict_effect False false st a n k v Hok Hi ltac:(done)) as He.
    destruct (evict_lru_locked false st) as [b st1].
    destruct He as (-> & Ho1 & Ha & _ & Fc & Fp & Fd & Fw & Fr).
    destruct (IH st1 Ho1) as (Ho' & Hp & Hov & Hl & Fc' & Fp' & Fd' & Fw' & Fr').
    { rewrite Ha. rewrite Hi, length_app in Hf. simpl in *. lia. }
    rewrite Fc', Fp', Fd', Fw', Fr'. split; [done|].
    split; [rewrite Hi; etrans; [exact Hp|]; rewrite Ha; by apply prefix_app_r|].
    split; [done|]. split; [|done].
    right. rewrite <- Fc. destruct Hl as [->|?]; [by rewrite Ha, Fc|done].
  - split; [done|]. split; [done|]. split; [done|]. split; [by left|done].
Qed.

(** ** The reference: an LRU cache as one list *)

(** Most recently used first; the least recently used are those that do not fit. *)
Definition lru_put (k v : bytes) (l : list item) : list item :=
  (k, v) :: filter (fun kv => kv.1 <> k) l.
Definition lru_fit (cap : Z) (l : list item) : list item :=
  if 0 <? cap then take (Z.to_nat cap) l else l.
Definition lru_touch (k : bytes) (l : list item) : list item :=
  match (list_to_map l : gmap bytes bytes) !! k with Some v => lru_put k v l | None => l end.
Definition lru_remove (k : bytes) (l : list item) : list item := filter (fun kv => kv.1 <> k) l.

Definition entries (st : store) : list item := (items_ st).*2.

Lemma filter_key_middle a n k v b :
  NoDup (a ++ (n, (k, v)) :: b).*2.*1 ->
  filter (fun kv : item => kv.1 <> k) (a ++ (n : nat, (k, v)) :: b).*2 = (a ++ b).*2.
Proof.
  assert (forall c : list (nat * item), k ∉ c.*2.*1 -> filter (fun kv : item => kv.1 <> k) c.*2 = c.*2) as Hc.
  { induction c as [|[n' [k' v']] c IH]; [done|]. csimpl. intros [? ?]%not_elem_of_cons.
    rewrite filter_cons_True by done. by rewrite IH. }
  rewrite !fmap_app. csimpl. intros (_ & Ha & Hb)%NoDup_app. apply NoDup_cons in Hb as [Hb _].
  rewrite filter_app, filter_cons_False by (simpl; tauto).
  rewrite (Hc b Hb), Hc; [done|]. intros Hin. apply (Ha k Hin). by left.
Qed.

(** The list the engine moves nodes in is the reference list. *)
Lemma entries_put (st : store) k n v a b w :
  store_ok st -> items_ st = a ++ (n, (k, v)) :: b -> ((k, w) :: (a ++ b).*2) = lru_put k w (entries st).
Proof.
  intros [_ Hk _ _] E. unfold lru_put, entries. rewrite E in *. by rewrite filter_key_middle.
Qed.

(** The node of a present key, in its place and moved to the front. *)
Lemma store_ok_lookup (st : store) k n :
  store_ok st -> index_ st !! k = Some n ->
  exists v a b,
    items_ st = a ++ (n, (k, v)) :: b /\ view st !! k = Some v /\
    lru_ok ((n, (k, v)) :: a ++ b) (index_ st) (next_node st) /\
    view st = view_of ((n, (k, v)) :: a ++ b) /\
    erase_node n (items_ st) = a ++ b /\ splice_front n (items_ st) = (n, (k, v)) :: a ++ b /\
    (forall w, splice_front n (assign_node n w (items_ st)) = (n, (k, w)) :: a ++ b).
Proof.
  intros Hok E. destruct (lru_ok_lookup _ _ _ _ _ Hok E) as (v & a & b & Hi & _ & He & Hs & Hw).
  exists v, a, b. assert (view st = view_of ((n, (k, v)) :: a ++ b)) as Hv.
  { unfold view. rewrite Hi. eapply view_middle. rewrite <- Hi. exact Hok. }
  split; [done|]. split; [rewrite Hv; apply lookup_insert_eq|].
  split; [apply lru_ok_middle; by rewrite <- Hi|done].
Qed.

Lemma store_ok_miss (st : store) k : store_ok st -> index_ st !! k = None -> view st !! k = None.
Proof. apply view_lookup_None. Qed.

(** [get] is a lookup that makes the key the most recently used. *)
Lemma get_effect (k : bytes) (st : store) :
  store_ok st -> disk_ st = None ->
  let '(o, st') := storage_get k st in
  o = view st !! k /\ effect True st st' [] /\ entries st' = lru_touch k (entries st).
Proof.
  intros Hok Hd. unfold storage_get. rewrite Hd. unfold lru_touch.
  assert (list_to_map (entries st) = view st) as -> by done.
  destruct (index_ st !! k) as [n|] eqn:E.
  - destruct (store_ok_lookup st k n Hok E) as (v & a & b & Hi & Hk & Hok' & Hv & _ & Hs & _).
    rewrite Hs. unfold node_item. rewrite filter_cons_True by done. simpl. rewrite Hk. split; [done|]. split.
    + split; [done|by symmetry| |intros _; apply wal_extends_refl|done|done].
      simpl. unfold forwards. by destruct (replicator_ st).
    + by eapply entries_put.
  - rewrite (store_ok_miss st k Hok E).
    split; [done|]. split; [by apply effect_refl|done].
Qed.

(** [del] removes the key, after logging it; it refuses when the log does. *)
Lemma del_effect (k : bytes) (st : store) :
  store_ok st -> disk_ st = None ->
  let '(n, durable, st') := storage_del k st in
  match view st !! k with
  | None => n = 0 /\ durable = true /\ st' = st
  | Some _ =>
      if durable : bool
      then n = 1 /\ effect (valid_field k) st st' [RDel k] /\ entries st' = lru_remove k (entries st)
      else n = 0 /\ effect (valid_field k) st st' [] /\ entries st' = entries st /\ is_Some (wal_ st)
  end.
Proof.
  intros Hok Hd. unfold storage_del. rewrite Hd.
  destruct (index_ st !! k) as [n|] eqn:E; [|by rewrite (store_ok_miss st k Hok E)].
  destruct (store_ok_lookup st k n Hok E) as (v & a & b & Hi & -> & Hok' & Hv & He & _ & _).
  pose proof (log_del_effect k st Hok) as Hl. destruct (log_del k st) as [[] st1] eqn:El;
    destruct Hl as (Ho & Ei & Ex & En & Er & Ec & Ep & Ed & Ew & Hw); simpl.
  - rewrite Ei, Ex, En, He. split; [done|]. split.
    + split; simpl.
      * by apply lru_ok_remove in Hok'.
      * rewrite Hv. by eapply view_remove.
      * unfold forwards. simpl. rewrite Er. by destruct (replicator_ st).
      * done.
      * done.
      * done.
    + unfold entries, lru_remove. simpl. rewrite Hi. rewrite filter_key_middle; [done|].
      rewrite <- Hi. apply Hok.
  - split; [done|]. split; [|split; [unfold entries; by rewrite Ei|]].
    + split; [done| | |done|done|done].
      * unfold view. by rewrite Ei.
      * unfold forwards. rewrite Er. by destruct (replicator_ st).
    + unfold log_del in El. by destruct (wal_ st).
Qed.

(** Inserting a new key and then evicting. *)
Lemma fit_prefix (st st' : store) :
  store_ok st' -> items_ st' `prefix_of` items_ st -> capacity_ st' = capacity_ st ->
  (items_ st' = items_ st \/ 0 < capacity_ st <= Z.of_nat (length (items_ st'))) ->
  over_capacity st' = false -> entries st' = lru_fit (capacity_ st) (entries st).
Proof.
  intros Hok [rest Hp] Hc Hl Ho. rewrite over_capacity_items, Hc in Ho by done.
  unfold lru_fit, entries. destruct (Z.ltb_spec 0 (capacity_ st)) as [Hpos|Hneg]; simpl in Ho.
  - apply Z.ltb_ge in Ho. rewrite <- fmap_take. f_equal. destruct Hl as [Hl|Hl].
    + rewrite Hl in *. rewrite take_ge; [done|lia].
    + rewrite Hp. rewrite take_app_le by lia. rewrite take_ge; [done|lia].
  - destruct Hl as [->|Hl]; [done|lia].
Qed.

Lemma evict_new_effect (G : Prop) (st st3 : store) k v n :
  effect G st st3 [RSet k v] -> items_ st3 = (n, (k, v)) :: items_ st -> (G -> valid_map (view st3)) ->
  let st' := evict_loop (size (index_ st3)) true st3 in
  (exists ks, effect G st st' (RSet k v :: (RDel <$> ks)) /\ (ks <> [] -> 0 < capacity_ st) /\
     Forall (fun x => is_Some (<[k := v]> (view st) !! x)) ks) /\
  view st' !! k = Some v /\
  (~ refused (wal_ st') -> entries st' = lru_fit (capacity_ st) ((k, v) :: entries st)) /\
  (over_capacity st' = false \/ refused (wal_ st')) /\
  entries st' `prefix_of` (k, v) :: entries st /\
  (entries st' = (k, v) :: entries st \/ 0 < capacity_ st <= Z.of_nat (length (entries st'))).
Proof.
  intros He3 Hi HG. destruct (evict_loop_effect G (size (index_ st3)) st3) as (ks & He & (Hks & Hin) & Hp & Hl & Hov);
    [apply He3|done|by rewrite (lru_ok_size _ _ _ (eff_ok _ _ _ _ He3))|].
  pose proof (eff_frame _ _ _ _ He) as (Fc & _ & _).
  pose proof (eff_frame _ _ _ _ He3) as (Fc3 & _ & _).
  rewrite (eff_view _ _ _ _ He3) in Hin.
  split; [exists ks; rewrite <- Fc3; split; [exact (effect_trans _ _ _ _ _ _ He3 He)|done]|]. split.
  - unfold view. destruct Hp as [rest Hp]. rewrite Hi in Hp, Hl.
    destruct (items_ (evict_loop _ true st3)) as [|x l'].
    { simpl in *. destruct Hl as [?|?]; [done|lia]. }
    injection Hp as <- _. apply lookup_insert_eq.
  - assert ((k, v) :: entries st = entries st3) as -> by (unfold entries; by rewrite Hi). rewrite <- Fc3.
    split; [|split; [done|split]].
    + intros Hnone. apply fit_prefix; try done; [apply He|]. by destruct Hov.
    + destruct Hp as [rest Hp]. exists rest.*2. unfold entries. by rewrite Hp, fmap_app at 1.
    + destruct Hl as [Hl|Hl]; [left; unfold entries; by rewrite Hl|right]. unfold entries. by rewrite length_fmap.
Qed.

(** [set], in every case: refused by the log, overwriting, or inserting. *)
Lemma set_effect (k v : bytes) (st : store) :
  store_ok st -> disk_ st = None ->
  let G := valid_map (view st) /\ valid_field k /\ valid_field v in
  let '(b, st') := storage_set k v st in
  if b then
    (exists ks, effect G st st' (RSet k v :: (RDel <$> ks)) /\
       (ks <> [] -> 0 < capacity_ st /\ replaying_ st = false) /\
       Forall (fun x => is_Some (<[k := v]> (view st) !! x)) ks) /\
    view st' !! k = Some v /\
    (match view st !! k with
     | Some _ => entries st' = lru_put k v (entries st)
     | None =>
         if replaying_ st then entries st' = (k, v) :: entries st
         else (~ refused (wal_ st') -> entries st' = lru_fit (capacity_ st) ((k, v) :: entries st)) /\
              (over_capacity st' = false \/ refused (wal_ st')) /\
              entries st' `prefix_of` (k, v) :: entries st /\
              (entries st' = (k, v) :: entries st \/ 0 < capacity_ st <= Z.of_nat (length (entries st')))
     end)
  else effect G st st' [] /\ entries st' = entries st /\ is_Some (wal_ st).
Proof.
  intros Hok Hd G. unfold storage_set. rewrite Hd.
  pose proof (log_set_effect k v st Hok) as Hl. destruct (log_set k v st) as [[] st1] eqn:El;
    destruct Hl as (Ho & Ei & Ex & En & Er & Ec & Ep & Ed & Ew & Hw); simpl.
  - rewrite Ex. destruct (index_ st !! k) as [n|] eqn:E.
    + destruct (store_ok_lookup st k n Hok E) as (u & a & b & Hi & -> & Hok' & Hv & _ & _ & Hs).
      rewrite Ei, Hs, En. split; [exists []; split; [|by split; [|constructor]]|split].
      * split; simpl.
        -- exact (lru_ok_assign _ _ _ v _ _ _ Hok').
        -- rewrite Hv. unfold view. simpl. rewrite !view_cons. by rewrite insert_insert_eq.
        -- unfold forwards. simpl. rewrite Er. by destruct (replicator_ st).
        -- intros (_ & Hk' & Hv'). by apply Hw.
        -- done.
        -- done.
      * unfold view. simpl. apply lookup_insert_eq.
      * by eapply entries_put.
    + rewrite (store_ok_miss st k Hok E). rewrite Ei, En.
      set (st3 := forward _ _).
      assert (effect G st st3 [RSet k v]) as He3.
      { split; simpl.
        - by apply lru_ok_insert.
        - done.
        - unfold forwards. simpl. rewrite Er. by destruct (replicator_ st).
        - intros (_ & Hk' & Hv'). by apply Hw.
        - done.
        - done. }
      rewrite Ep. destruct (replaying_ st) eqn:Er'.
      { split; [exists []; by split; [|split; [|constructor]]|]. split; [unfold view; simpl; apply lookup_insert_eq|done]. }
      destruct (evict_new_effect G st st3 k v (next_node st)) as ((ks & He & Hks & Hin) & Hv & Hf); [done|done| |].
      { intros (Hm & Hk' & Hv'). rewrite (eff_view _ _ _ _ He3). by apply map_Forall_insert_2. }
      split; [exists ks; split; [done|]; split; [auto|done]|done].
  - split; [|split; [unfold entries; by rewrite Ei|]].
    + split; [done| | | |done|done].
      * unfold view. by rewrite Ei.
      * unfold forwards. rewrite Er. by destruct (replicator_ st).
      * intros (_ & Hk' & Hv'). by apply Hw.
    + unfold log_set in El. by destruct (wal_ st).
Qed.

End effects.
