(* ===== verification/StorageCorrect.v ===== *)
(** * Properties of the storage engine

    The invariant of the two structures under every operation, refinement of
    the one-list LRU reference, the capacity bound, what an acknowledged write
    guarantees, and that each mutation is forwarded to the replicator exactly
    as it was applied.  All are proved for any log and any replication sink
    that meet the interfaces. *)

From S2P Require Import Prelude Stream Records Interfaces DiskStore Storage Wal Replicator.

Local Open Scope Z_scope.

(** The operations clients and the replication link perform. *)
Inductive op :=
  | OpSet (k v : bytes)
  | OpGet (k : bytes)
  | OpDel (k : bytes)
  | OpExists (k : bytes)
  | OpClear
  | OpReplaying (b : bool).

#[export] Instance op_eq_dec : EqDecision op.
Proof. solve_decision. Defined.

Section runs.
Context {L R : Type} `{WriteAheadLaws L} `{ReplicaSink R} `{UnorderedIter}.
Abbreviation store := (Storage L R).

Definition run_op (st : store) (o : op) : store :=
  match o with
  | OpSet k v => (storage_set k v st).2
  | OpGet k => (storage_get k st).2
  | OpDel k => (storage_del k st).2
  | OpExists _ => st
  | OpClear => (storage_clear st).2
  | OpReplaying b => set_replaying b st
  end.

Definition run (st : store) (ops : list op) : store := foldl run_op st ops.

Lemma set_replaying_ok (b : bool) (st : store) : store_ok st -> store_ok (set_replaying b st).
Proof.
  intros Hok. unfold set_replaying. destruct b; [done|].
  apply evict_loop_unlogged; [done|]. simpl. by rewrite (lru_ok_size _ _ _ Hok).
Qed.

Lemma disk_set_items (k v : bytes) (st : store) d :
  disk_ st = Some d ->
  items_ (storage_set k v st).2 = items_ st /\ index_ (storage_set k v st).2 = index_ st /\
  next_node (storage_set k v st).2 = next_node st.
Proof. intros E. unfold storage_set. rewrite E. by destruct (disk_set k v d) as [[] d']. Qed.

Lemma disk_del_items (k : bytes) (st : store) d :
  disk_ st = Some d ->
  items_ (storage_del k st).2 = items_ st /\ index_ (storage_del k st).2 = index_ st /\
  next_node (storage_del k st).2 = next_node st.
Proof.
  intros E. unfold storage_del. rewrite E. destruct (disk_del k d) as [[] d']; by destruct (d_ok d').
Qed.

Lemma run_op_ok (st : store) (o : op) : store_ok st -> store_ok (run_op st o).
Proof.
  intros Hok. destruct o as [k v|k|k|k| |b]; simpl; [..|done| |by apply set_replaying_ok].
  - destruct (disk_ st) as [d|] eqn:E.
    + unfold store_ok. by destruct (disk_set_items k v st d E) as (-> & -> & ->).
    + pose proof (set_effect k v st Hok E) as He.
      destruct (storage_set k v st) as [[] st']; [destruct He as ((ks & He & _) & _)|destruct He as (He & _)];
        apply He.
  - destruct (disk_ st) as [d|] eqn:E.
    + unfold storage_get. by rewrite E.
    + pose proof (get_effect k st Hok E) as He. destruct (storage_get k st). apply He.
  - destruct (disk_ st) as [d|] eqn:E.
    + unfold store_ok. by destruct (disk_del_items k st d E) as (-> & -> & ->).
    + pose proof (del_effect k st Hok E) as He. destruct (storage_del k st) as [[n []] st'];
        destruct (view st !! k); [apply He|by destruct He as (_ & _ & ->)|apply He|].
      by destruct He as (_ & ? & _).
  - unfold storage_clear. destruct (disk_ st) as [d|]; [by destruct (disk_clear d)|].
    apply lru_ok_nil.
Qed.

Lemma run_ok (st : store) ops : store_ok st -> store_ok (run st ops).
Proof. revert st. induction ops as [|o ops IH]; intros st Hok; [done|]. by apply IH, run_op_ok. Qed.

(** C15: the two structures of the cache stay in sync.  After any sequence of
    operations, whatever the log refuses, every key has one node, the hash map
    is exactly the key-to-node table of the list, and it counts its keys
    right: no operation follows an iterator to a node that is not there. *)
Theorem storage_invariant (capacity : Z) (wal : option L) (repl : option R) ops :
  let st := run (attach_replicator repl (attach_wal wal (storage_new capacity))) ops in
  store_ok st /\
  (forall k n, index_ st !! k = Some n -> exists v, node_item n (items_ st) = Some (k, v)) /\
  size (index_ st) = length (items_ st).
Proof.
  intros st. assert (store_ok st) as Hok by apply run_ok, lru_ok_nil.
  split; [done|]. split; [|by eapply lru_ok_size].
  intros k n Hk. destruct (lru_ok_lookup _ _ _ _ _ Hok Hk) as (v & a & b & _ & Hn & _). by exists v.
Qed.

(** ** Refinement of the reference cache *)

Inductive reply := ROk (b : bool) | RValue (o : option bytes) | RRemoved (n : Z).

Definition is_client (o : op) : Prop :=
  match o with OpReplaying _ => False | _ => True end.

(** What the engine answers, and what the reference answers and becomes. *)
Definition reply_of (st : store) (o : op) : reply :=
  match o with
  | OpSet k v => ROk (storage_set k v st).1
  | OpGet k => RValue (storage_get k st).1
  | OpDel k => RRemoved (storage_del k st).1.1
  | OpExists k => ROk (storage_exists k st)
  | OpClear => ROk (storage_clear st).1
  | OpReplaying _ => ROk true
  end.

Definition lru_lookup (k : bytes) (l : list item) : option bytes :=
  (list_to_map l : gmap bytes bytes) !! k.

Definition lru_op (cap : Z) (l : list item) (o : op) : reply * list item :=
  match o with
  | OpSet k v => (ROk true, lru_fit cap (lru_put k v l))
  | OpGet k => (RValue (lru_lookup k l), lru_touch k l)
  | OpDel k => (RRemoved (match lru_lookup k l with Some _ => 1 | None => 0 end), lru_remove k l)
  | OpExists k => (ROk (bool_decide (is_Some (lru_lookup k l))), l)
  | OpClear => (ROk true, [])
  | OpReplaying _ => (ROk true, l)
  end.

Fixpoint replies (st : store) (ops : list op) : list reply * store :=
  match ops with
  | [] => ([], st)
  | o :: ops' => let '(rs, st') := replies (run_op st o) ops' in (reply_of st o :: rs, st')
  end.

Fixpoint lru_replies (cap : Z) (l : list item) (ops : list op) : list reply * list item :=
  match ops with
  | [] => ([], l)
  | o :: ops' =>
      let '(r, l1) := lru_op cap l o in
      let '(rs, l') := lru_replies cap l1 ops' in (r :: rs, l')
  end.

(** The engine in simulation with the reference works in memory, with a log that
    does not fail or none. *)
Section refinement.
Context `{!ReliableLog L}.

Definition log_reliable (st : store) : Prop :=
  if wal_ st is Some l then reliable_log l else True.

Lemma log_set_reliable k v (st : store) :
  log_reliable st ->
  (log_set k v st).1 = true /\ log_reliable (log_set k v st).2.
Proof.
  unfold log_set, log_reliable. destruct (wal_ st) as [l|] eqn:E; [|simpl; by rewrite E]. intros Hl.
  pose proof (reliable_set k v l Hl). by destruct (append_set k v l).
Qed.

Lemma log_del_reliable k (st : store) :
  log_reliable st ->
  (log_del k st).1 = true /\ log_reliable (log_del k st).2.
Proof.
  unfold log_del, log_reliable. destruct (wal_ st) as [l|] eqn:E; [|simpl; by rewrite E]. intros Hl.
  pose proof (reliable_del k l Hl). by destruct (append_del k l).
Qed.

Lemma evict_loop_reliable f (st : store) : log_reliable st -> log_reliable (evict_loop f true st).
Proof.
  revert st. induction f as [|f IH]; intros st Hl; [done|]. cbn [evict_loop]. destruct (over_capacity st); [|done].
  unfold evict_lru_locked. destruct (last (items_ st)) as [[? [k ?]]|]; [|done].
  destruct (log_del_reliable k st Hl) as [E1 E2]. destruct (log_del k st) as [b st1]. cbn [fst snd] in *.
  subst b. by apply IH.
Qed.

Lemma set_reliable k v (st : store) :
  disk_ st = None -> log_reliable st ->
  (storage_set k v st).1 = true /\ log_reliable (storage_set k v st).2.
Proof.
  intros Hd Hl. unfold storage_set. rewrite Hd. destruct (log_set_reliable k v st Hl) as [E1 E2].
  destruct (log_set k v st) as [b st1]. cbn [fst snd] in *. subst b. cbn [negb].
  destruct (index_ st1 !! k); [done|]. cbv zeta. split; [done|]. cbn [snd].
  match goal with |- context [if ?b then _ else _] => destruct b end; [done|]. by apply evict_loop_reliable.
Qed.

Lemma del_reliable k (st : store) :
  disk_ st = None -> log_reliable st ->
  (storage_del k st).1.2 = true /\ log_reliable (storage_del k st).2.
Proof.
  intros Hd Hl. unfold storage_del. rewrite Hd. destruct (index_ st !! k); [|done].
  destruct (log_del_reliable k st Hl) as [E1 E2]. destruct (log_del k st) as [b st1]. cbn [fst snd] in *. by subst b.
Qed.

Lemma get_reliable k (st : store) : disk_ st = None -> log_reliable st -> log_reliable (storage_get k st).2.
Proof. intros Hd Hl. unfold storage_get. rewrite Hd. by destruct (index_ st !! k). Qed.

Lemma reliable_not_refused (st : store) : log_reliable st -> ~ refused (wal_ st).
Proof. unfold log_reliable. intros Hl (l & k & l' & E & Ew). rewrite Ew in Hl. by eapply reliable_refused. Qed.

Definition plain (st : store) : Prop :=
  store_ok st /\ disk_ st = None /\ log_reliable st /\ replaying_ st = false /\
  over_capacity st = false.

Lemma effect_plain G (st st' : store) rs :
  effect G st st' rs -> plain st -> log_reliable st' -> over_capacity st' = false -> plain st'.
Proof.
  intros [Ho _ _ _ (Fc & Fp & Fd) Fw] (_ & Hd & Hw & Hr & _) Hl Hov.
  split; [done|]. by rewrite Fd, Fp.
Qed.

Lemma entries_bound (st : store) :
  store_ok st -> over_capacity st = false <-> (0 < capacity_ st -> Z.of_nat (length (entries st)) <= capacity_ st).
Proof.
  intros Hok. rewrite over_capacity_items by done. unfold entries. rewrite length_fmap.
  rewrite andb_false_iff, Z.ltb_ge, Z.ltb_ge. lia.
Qed.

Lemma lru_fit_id cap l : (0 < cap -> Z.of_nat (length l) <= cap) -> lru_fit cap l = l.
Proof.
  intros Hl. unfold lru_fit. destruct (Z.ltb_spec 0 cap); [|done]. apply take_ge. lia.
Qed.

Lemma lru_fit_bound cap l : 0 < cap -> Z.of_nat (length (lru_fit cap l)) <= cap.
Proof. intros Hc. unfold lru_fit. destruct (Z.ltb_spec 0 cap); [|lia]. rewrite length_take. lia. Qed.

Lemma lru_remove_length k l : (length (lru_remove k l) <= length l)%nat.
Proof. apply length_filter. Qed.

Lemma lru_put_length k v (l : list item) :
  is_Some ((list_to_map l : gmap bytes bytes) !! k) -> (length (lru_put k v l) <= length l)%nat.
Proof.
  intros [w Hw]. apply elem_of_list_to_map_2 in Hw. unfold lru_put. simpl.
  apply list_elem_of_split in Hw as (a & b & ->). rewrite filter_app, filter_cons_False by (simpl; tauto).
  rewrite !length_app. simpl.
  pose proof (length_filter (fun kv : item => kv.1 <> k) a). pose proof (length_filter (fun kv : item => kv.1 <> k) b). lia.
Qed.

Lemma filter_absent k (l : list item) :
  (list_to_map l : gmap bytes bytes) !! k = None -> filter (fun kv : item => kv.1 <> k) l = l.
Proof.
  intros Hk%not_elem_of_list_to_map. induction l as [|[k' v'] l IH]; [done|]. csimpl in Hk.
  apply not_elem_of_cons in Hk as [? ?]. rewrite filter_cons_True by done. by rewrite IH.
Qed.

Lemma lru_lookup_view (st : store) k : lru_lookup k (entries st) = view st !! k.
Proof. done. Qed.

Lemma lru_touch_length k (l : list item) : (length (lru_touch k l) <= length l)%nat.
Proof.
  unfold lru_touch. destruct ((list_to_map l : gmap bytes bytes) !! k) eqn:E; [|done].
  apply lru_put_length. by rewrite E.
Qed.

(** The engine in simulation with the reference: same answer, related states. *)
Definition simulates (cap : Z) (st : store) (l : list item) : Prop :=
  plain st /\ capacity_ st = cap /\ entries st = l.

Lemma simulates_effect G cap (st st' : store) rs l :
  effect G st st' rs -> plain st -> capacity_ st = cap -> log_reliable st' -> entries st' = l ->
  (0 < cap -> Z.of_nat (length l) <= cap) -> simulates cap st' l.
Proof.
  intros He Hp Hc Hw Hl Hb. pose proof (eff_frame _ _ _ _ He) as (Fc & _ & _).
  split; [|split; [congruence|done]]. eapply effect_plain; [done..|].
  apply entries_bound; [apply He|]. by rewrite Fc, Hc, Hl.
Qed.

Lemma simulates_bound cap (st : store) l : simulates cap st l -> 0 < cap -> Z.of_nat (length l) <= cap.
Proof. intros ((Hok & _ & _ & _ & Hov) & <- & <-). by apply entries_bound. Qed.

Lemma set_simulates cap (st : store) l k v :
  simulates cap st l ->
  (storage_set k v st).1 = true /\ simulates cap (storage_set k v st).2 (lru_fit cap (lru_put k v l)).
Proof.
  intros Hsim. pose proof (simulates_bound _ _ _ Hsim) as Hb. destruct Hsim as (Hp & Hc & <-).
  pose proof Hp as (Hok & Hd & Hw & Hr & Hov). destruct (set_reliable k v st Hd Hw) as [E Hw'].
  pose proof (set_effect k v st Hok Hd) as He. destruct (storage_set k v st) as [b st']. cbn [fst snd] in *. subst b.
  destruct He as ((ks & He & _) & _ & Hs). split; [done|].
  eapply simulates_effect; [done..| |apply lru_fit_bound].
  destruct (view st !! k) as [w|] eqn:Ek.
  - rewrite lru_fit_id; [done|]. intros Hpos.
    pose proof (lru_put_length k v (entries st) ltac:(rewrite <- lru_lookup_view in Ek; by exists w)). lia.
  - rewrite Hr in Hs. rewrite (proj1 Hs (reliable_not_refused _ Hw')). unfold lru_put.
    by rewrite filter_absent, Hc by by rewrite <- lru_lookup_view in Ek.
Qed.

Lemma get_simulates cap (st : store) l k :
  simulates cap st l ->
  (storage_get k st).1 = lru_lookup k l /\ simulates cap (storage_get k st).2 (lru_touch k l).
Proof.
  intros Hsim. pose proof (simulates_bound _ _ _ Hsim) as Hb. destruct Hsim as (Hp & Hc & <-).
  pose proof Hp as (Hok & Hd & Hw & _). pose proof (get_reliable k st Hd Hw) as Hw'.
  pose proof (get_effect k st Hok Hd) as He. destruct (storage_get k st) as [x st'].
  destruct He as (-> & He & Hl). split; [done|].
  eapply simulates_effect; [done..|]. pose proof (lru_touch_length k (entries st)). lia.
Qed.

Lemma del_simulates cap (st : store) l k :
  simulates cap st l ->
  (storage_del k st).1 = (if lru_lookup k l is Some _ then 1 else 0, true) /\
  simulates cap (storage_del k st).2 (lru_remove k l).
Proof.
  intros Hsim. pose proof (simulates_bound _ _ _ Hsim) as Hb. destruct Hsim as (Hp & Hc & <-).
  pose proof Hp as (Hok & Hd & Hw & _). destruct (del_reliable k st Hd Hw) as [E Hw'].
  pose proof (del_effect k st Hok Hd) as He. destruct (storage_del k st) as [[n b] st']. cbn [fst snd] in *. subst b.
  rewrite lru_lookup_view. destruct (view st !! k) eqn:Ek.
  - destruct He as (-> & He & Hl). split; [done|]. eapply simulates_effect; [done..|].
    pose proof (lru_remove_length k (entries st)). lia.
  - destruct He as (-> & _ & ->). split; [done|]. unfold lru_remove.
    by rewrite filter_absent by by rewrite <- lru_lookup_view in Ek.
Qed.

Lemma exists_simulates cap (st : store) l k :
  simulates cap st l -> storage_exists k st = bool_decide (is_Some (lru_lookup k l)).
Proof.
  intros ((Hok & Hd & _) & _ & <-). rewrite lru_lookup_view. unfold storage_exists. rewrite Hd.
  destruct (index_ st !! k) as [n|] eqn:E.
  - destruct (store_ok_lookup st k n Hok E) as (v & a & b & _ & -> & _). done.
  - by rewrite (store_ok_miss st k Hok E).
Qed.

Lemma run_op_simulates cap (st : store) l o :
  simulates cap st l -> is_client o ->
  reply_of st o = (lru_op cap l o).1 /\ simulates cap (run_op st o) (lru_op cap l o).2.
Proof.
  intros Hs Ho. destruct o as [k v|k|k|k| |b]; simpl in Ho |- *; [..|done].
  - destruct (set_simulates cap st l k v Hs) as [-> ?]. done.
  - destruct (get_simulates cap st l k Hs) as [-> ?]. done.
  - destruct (del_simulates cap st l k Hs) as [-> ?]. done.
  - by rewrite (exists_simulates cap st l k Hs).
  - destruct Hs as ((Hok & Hd & Hw & Hr & Hov) & Hc & <-).
    unfold storage_clear. rewrite Hd. split; [done|]. split; [|done].
    split; [apply lru_ok_nil|]. simpl. do 3 (split; [done|]). unfold over_capacity. simpl.
    rewrite map_size_empty. apply andb_false_iff. destruct (Z.ltb_spec 0 (capacity_ st)); [right|by left].
    apply Z.ltb_ge. lia.
Qed.

(** A fresh engine. *)
Lemma fresh_simulates capacity (wal : option L) (repl : option R) :
  (if wal is Some l then reliable_log l else True) ->
  simulates capacity (attach_replicator repl (attach_wal wal (storage_new capacity))) [].
Proof.
  intros Hw. split; [|done]. split; [apply lru_ok_nil|]. do 3 (split; [done|]).
  apply entries_bound; [apply lru_ok_nil|]. simpl. lia.
Qed.

(** C11: refinement.  With a log that does not fail or without one, the
    two-structure cache answers every sequence of client operations exactly as
    the one-list LRU reference does (a read or a write moves the key to the
    front, an insertion drops what does not fit from the back), and its list is
    the reference list. *)
Theorem storage_refines_lru (capacity : Z) (wal : option L) (repl : option R) ops :
  (if wal is Some l then reliable_log l else True) -> Forall is_client ops ->
  let '(rs, st) := replies (attach_replicator repl (attach_wal wal (storage_new capacity))) ops in
  (rs, entries st) = lru_replies capacity [] ops.
Proof.
  intros Hw Hops. pose proof (fresh_simulates capacity wal repl Hw) as Hs. revert Hs.
  generalize (attach_replicator repl (attach_wal wal (storage_new capacity)) : store).
  generalize (@nil item). induction Hops as [|o ops Ho _ IH]; intros l st Hs; simpl.
  - by destruct Hs as (_ & _ & ->).
  - destruct (run_op_simulates capacity st l o Hs Ho) as [-> Hs'].
    specialize (IH _ _ Hs'). destruct (replies (run_op st o) ops) as [rs st'].
    destruct (lru_op capacity l o) as [r l1]. simpl in *.
    destruct (lru_replies capacity l1 ops) as [rs' l']. by simplify_eq.
Qed.
End refinement.

(** ** Either backend *)

(** The data a store holds, in the cache or in the on-disk engine. *)
Definition holds (st : store) (m : gmap bytes bytes) : Prop :=
  match disk_ st with
  | None => store_ok st /\ view st = m
  | Some d => disk_inv d m
  end.

(** That data, computed: the items, or what the records of the data file amount to. *)
Definition data_of (st : store) : gmap bytes bytes :=
  match disk_ st with
  | None => view st
  | Some d => apply_records ∅ (log_records (d_data d))
  end.

Lemma holds_data (st : store) m : holds st m -> data_of st = m.
Proof. unfold holds, data_of. destruct (disk_ st); [apply disk_inv_log|by intros [_ ?]]. Qed.

(** Reads and writes of data, with keys and values the protocol can carry. *)
Definition data_op (o : op) : Prop :=
  match o with
  | OpSet k v => valid_field k /\ valid_field v
  | OpDel k => valid_field k
  | OpGet _ | OpExists _ => True
  | _ => False
  end.

Lemma forwards_refl (r : option R) : forwards r r [].
Proof. unfold forwards. by destruct r. Qed.

Lemma forwards_trans (r1 r2 r3 : option R) rs1 rs2 :
  forwards r1 r2 rs1 -> forwards r2 r3 rs2 -> forwards r1 r3 (rs1 ++ rs2).
Proof. unfold forwards. intros -> ->. destruct r1; simpl; [by rewrite foldl_app|done]. Qed.

Lemma effect_holds G (st st' : store) rs m :
  effect G st st' rs -> holds st m -> disk_ st = None -> holds st' (apply_records m rs).
Proof.
  intros [Ho Hv _ _ (_ & _ & Hd) _] Hh E. unfold holds in *. rewrite Hd, E in *.
  destruct Hh as [_ <-]. done.
Qed.

(** A record an operation may cause: its own, or the delete of a key held. *)
Definition from_op (m : gmap bytes bytes) (o : op) (r : record) : Prop :=
  match r with
  | RSet k v => o = OpSet k v
  | RDel k => is_Some (m !! k) \/ o = OpDel k \/ exists v, o = OpSet k v
  end.

Lemma from_op_set m k v ks :
  Forall (fun x => is_Some (<[k := v]> m !! x)) ks ->
  Forall (from_op m (OpSet k v)) (RSet k v :: (RDel <$> ks)).
Proof.
  intros Hks. constructor; [done|]. apply Forall_fmap. eapply Forall_impl; [exact Hks|].
  intros x [w Hx]. simpl. apply lookup_insert_Some in Hx as [[<- <-]|[_ ?]]; [right; right; by exists v|].
  left. by exists w.
Qed.

Definition op_records (st : store) (m : gmap bytes bytes) (o : op) (rs : list record) : Prop :=
  holds (run_op st o) (apply_records m rs) /\
  forwards (replicator_ st) (replicator_ (run_op st o)) rs /\ Forall (from_op m o) rs.

Lemma op_records_none (st : store) m o :
  holds (run_op st o) m -> replicator_ (run_op st o) = replicator_ st -> op_records st m o [].
Proof. intros Hh Hr. split; [done|]. rewrite Hr. split; [apply forwards_refl|constructor]. Qed.

Lemma op_records_effect G (st st' : store) m o rs :
  effect G st st' rs -> st' = run_op st o -> holds st m -> disk_ st = None ->
  Forall (from_op m o) rs -> op_records st m o rs.
Proof.
  intros He -> Hh Hd Hf. split; [by eapply effect_holds|]. split; [apply He|done].
Qed.

Lemma run_op_records (st : store) m o :
  holds st m -> data_op o -> exists rs, op_records st m o rs.
Proof.
  intros Hh Ho. pose proof Hh as Hh'. unfold holds in Hh'. destruct (disk_ st) as [d|] eqn:E.
  - destruct o as [k v|k|k|k| |b]; simpl in Ho; try done.
    + destruct Ho as [Hk Hv]. pose proof (disk_set_inv d m k v Hh' Hk Hv) as Hd.
      assert (run_op st (OpSet k v) = (let '(b, d') := disk_set k v d in
        let st1 := with_disk (Some d') st in if b : bool then forward (RSet k v) st1 else st1)) as Er.
      { simpl. unfold storage_set. rewrite E. by destruct (disk_set k v d) as [[] d']. }
      destruct (disk_set k v d) as [[] d']; simpl in Hd; cbv beta iota zeta in Er.
      * exists [RSet k v]. unfold op_records. rewrite Er. split; [done|].
        split; [unfold forwards; simpl; by destruct (replicator_ st)|by repeat constructor].
      * exists []. apply op_records_none; rewrite Er; done.
    + exists []. apply op_records_none; simpl; unfold storage_get; rewrite E; done.
    + pose proof (disk_del_inv d m k Hh' Ho) as Hd.
      assert (exists b, run_op st (OpDel k) = (if b : bool then forward (RDel k) (with_disk (Some (disk_del k d).2) st)
                else with_disk (Some (disk_del k d).2) st) /\ (disk_del k d).1 = b) as (b & Er & Eb).
      { exists (disk_del k d).1. split; [|done]. simpl. unfold storage_del. rewrite E.
        pose proof (disk_del_ok d k) as Hdk.
        destruct (disk_del k d) as [[] d']; simpl in *; [by rewrite Hdk|by destruct (d_ok d')]. }
      rewrite Eb in Hd. destruct b.
      * exists [RDel k]. unfold op_records. rewrite Er. split; [done|].
        split; [unfold forwards; simpl; by destruct (replicator_ st)|]. constructor; [simpl; auto|constructor].
      * exists []. apply op_records_none; rewrite Er; done.
    + exists []. by apply op_records_none.
  - destruct Hh' as [Hok Hv]. destruct o as [k v|k|k|k| |b]; simpl in Ho; try done.
    + pose proof (set_effect k v st Hok E) as He. destruct (storage_set k v st) as [[] st'] eqn:Es.
      * destruct He as ((ks & He & _ & Hks) & _). rewrite Hv in Hks. eexists.
        eapply op_records_effect; [exact He|simpl; by rewrite Es|done..|by apply from_op_set].
      * destruct He as (He & _). eexists.
        eapply op_records_effect; [exact He|simpl; by rewrite Es|done..].
    + pose proof (get_effect k st Hok E) as He. destruct (storage_get k st) as [x st'] eqn:Es.
      destruct He as (_ & He & _). eexists.
      eapply op_records_effect; [exact He|simpl; by rewrite Es|done..].
    + pose proof (del_effect k st Hok E) as He. destruct (storage_del k st) as [[n b] st'] eqn:Es.
      destruct (view st !! k).
      * destruct b; destruct He as (_ & He & _); eexists;
          (eapply op_records_effect; [exact He|simpl; by rewrite Es|done..|]);
          [constructor; [simpl; auto|constructor]|constructor].
      * destruct He as (_ & _ & ->). exists []. apply op_records_none; simpl; by rewrite Es.
    + exists []. by apply op_records_none.
Qed.

(** The records of a run of operations. *)
(** The data file of the on-disk engine only grows. *)
Lemma run_op_appends (st : store) o d :
  disk_ st = Some d -> data_op o -> exists d' x, disk_ (run_op st o) = Some d' /\ d_data d' = d_data d ++ x.
Proof.
  intros E Ho. assert (exists d' x, disk_ st = Some d' /\ d_data d' = d_data d ++ x) as Hsame
    by (exists d, []; by rewrite app_nil_r).
  destruct o as [k v|k|k|k| |b]; simpl in Ho |- *; try done.
  - unfold storage_set. rewrite E. pose proof (disk_set_appends k v d) as [x Hx].
    destruct (disk_set k v d) as [[] d']; exists d', x; done.
  - unfold storage_get. by rewrite E.
  - unfold storage_del. rewrite E. pose proof (disk_del_appends k d) as [x Hx].
    destruct (disk_del k d) as [[] d']; exists d', x; by destruct (d_ok d').
Qed.

Lemma run_records (st : store) m ops :
  holds st m -> Forall data_op ops ->
  exists rs, holds (run st ops) (apply_records m rs) /\
             forwards (replicator_ st) (replicator_ (run st ops)) rs.
Proof.
  intros Hh Hops. revert st m Hh. induction Hops as [|o ops Ho _ IH]; intros st m Hh.
  { exists []. split; [done|apply forwards_refl]. }
  destruct (run_op_records st m o Hh Ho) as (rs1 & Hh1 & F1 & _).
  destruct (IH _ _ Hh1) as (rs2 & Hh2 & F2). exists (rs1 ++ rs2).
  split; [|by eapply forwards_trans]. unfold apply_records in *. by rewrite foldl_app.
Qed.

(** C31: replication order is apply order.  Whatever backend holds the data and
    whatever writes fail, a sequence of operations hands the replicator a list
    of records, in order, that turns the data held before into the data held
    after: evictions are included, refused writes are not. *)
Theorem storage_forwards (st : store) m ops :
  holds st m -> Forall data_op ops ->
  exists rs, holds (run st ops) (apply_records m rs) /\
             forwards (replicator_ st) (replicator_ (run st ops)) rs.
Proof. apply run_records. Qed.

(** No operation makes up data: what is there afterwards was there before or was
    just written. *)
Lemma run_op_no_invention (st : store) m o :
  holds st m -> data_op o \/ (o = OpClear /\ disk_ st = None) ->
  exists m', holds (run_op st o) m' /\
    forall k v, m' !! k = Some v -> m !! k = Some v \/ o = OpSet k v.
Proof.
  intros Hh [Ho|[-> Hd]].
  2:{ unfold holds in *. exists ∅. simpl. unfold storage_clear. rewrite Hd in *. simpl. rewrite Hd.
      split; [split; [apply lru_ok_nil|done]|]. intros k v Hk. by rewrite lookup_empty in Hk. }
  pose proof Hh as Hh'. unfold holds in Hh'. destruct (disk_ st) as [d|] eqn:E.
  - destruct o as [k v|k|k|k| |b]; simpl in Ho |- *; try done.
    + destruct Ho as [Hk Hv]. pose proof (disk_set_inv d m k v Hh' Hk Hv) as Hd.
      unfold storage_set. rewrite E. destruct (disk_set k v d) as [[] d']; simpl in *; [|exists m; split; [done|by auto]].
      exists (<[k := v]> m). split; [done|]. intros k' v' [[<- <-]|[_ ?]]%lookup_insert_Some; auto.
    + unfold storage_get. rewrite E. exists m; split; [done|by auto].
    + pose proof (disk_del_inv d m k Hh' Ho) as Hd. unfold storage_del. rewrite E.
      destruct (disk_del k d) as [b d']. simpl in Hd.
      exists (if b then delete k m else m). split.
      * destruct (d_ok d'); simpl; [by destruct b|]. done.
      * intros k' v' Hk'. left. destruct b; [|done]. by apply lookup_delete_Some in Hk' as [_ ?].
    + exists m; split; [done|by auto].
  - destruct Hh' as [Hok Hv].
    assert (forall G st' rs, effect G st st' rs -> holds st' (apply_records m rs)) as Hef
      by (intros; by eapply effect_holds).
    destruct o as [k v|k|k|k| |b]; simpl in Ho |- *; try done; [| | |exists m; split; [done|by auto]].
    + pose proof (set_effect k v st Hok E) as He. destruct (storage_set k v st) as [[] st'].
      * destruct He as ((ks & He & _) & _). eexists. split; [by eapply Hef|].
        intros k' v' Hk'. destruct (apply_dels_lookup (<[k := v]> m) ks k') as [Hx|[Hx _]];
          unfold apply_records in *; simpl in Hk'; rewrite Hx in Hk'; [|done].
        apply lookup_insert_Some in Hk' as [[<- <-]|[_ ?]]; auto.
      * destruct He as (He & _). eexists. split; [by eapply Hef|]. auto.
    + pose proof (get_effect k st Hok E) as He. destruct (storage_get k st) as [x st'].
      destruct He as (_ & He & _). eexists. split; [by eapply Hef|]. auto.
    + pose proof (del_effect k st Hok E) as He. destruct (storage_del k st) as [[n b] st'].
      destruct (view st !! k); [|destruct He as (_ & _ & ->); exists m; split; [done|by auto]].
      destruct b; destruct He as (_ & He & _); (eexists; split; [by eapply Hef|]); simpl; [|by auto].
      intros k' v' Hk'. left. by apply lookup_delete_Some in Hk' as [_ ?].
Qed.

(** What reading a key returns is what the store holds. *)
Lemma holds_get (st : store) m k :
  holds st m -> (forall d, disk_ st = Some d -> d_ok d = true) -> (storage_get k st).1 = m !! k.
Proof.
  intros Hh Hok. unfold holds in Hh. destruct (disk_ st) as [d|] eqn:E.
  - unfold storage_get. rewrite E. simpl. apply index_of_get; [by apply Hok|by apply disk_inv_index].
  - destruct Hh as [Hs <-]. pose proof (get_effect k st Hs E) as He.
    destruct (storage_get k st). by destruct He as (-> & _).
Qed.

(** An acknowledged write.  When [set] reports success, on either backend,
    the key reads back as the value just written, and every other key reads as
    before or was evicted (which only a bounded cache does); when it reports
    failure, the data is unchanged. *)
Theorem storage_set_acknowledged (st : store) m k v :
  holds st m -> valid_field k -> valid_field v ->
  (forall d, disk_ st = Some d -> d_ok d = true) ->
  let '(b, st') := storage_set k v st in
  if b then
    (storage_get k st').1 = Some v /\
    (forall k', k' <> k -> (storage_get k' st').1 = m !! k' \/
       ((storage_get k' st').1 = None /\ disk_ st = None /\ 0 < capacity_ st))
  else holds st' m.
Proof.
  intros Hh Hk Hv Hdok. pose proof Hh as Hh'. unfold holds in Hh'.
  destruct (disk_ st) as [d|] eqn:E.
  - pose proof (disk_set_inv d m k v Hh' Hk Hv) as Hd.
    assert (storage_set k v st = (let '(b, d') := disk_set k v d in
      let st1 := with_disk (Some d') st in
      if b : bool then (true, forward (RSet k v) st1) else (false, st1))) as ->
      by (unfold storage_set; by rewrite E).
    destruct (disk_set k v d) as [[] d'] eqn:Es; simpl in Hd; cbv beta iota zeta; [|done].
    assert (d_ok d' = true) as Hok'.
    { unfold disk_set in Es. destruct (_ || _); [done|]. destruct (next_io _) as [[|n] e];
        cbn [io_write] in Es; by simplify_eq. }
    assert (forall x, (storage_get x (forward (RSet k v) (with_disk (Some d') st))).1 = <[k := v]> m !! x) as Hg.
    { intros x. apply holds_get; [done|]. simpl. by intros ? [= <-]. }
    rewrite Hg, lookup_insert_eq. split; [done|]. intros k' Hne. left.
    by rewrite Hg, lookup_insert_ne.
  - destruct Hh' as [Hok <-]. pose proof (set_effect k v st Hok E) as He.
    destruct (storage_set k v st) as [[] st'].
    + destruct He as ((ks & He & Hks & _) & Hkv & _). pose proof (eff_frame _ _ _ _ He) as (_ & _ & Hd').
      assert (forall x, (storage_get x st').1 = view st' !! x) as Hg.
      { intros x. apply holds_get; [unfold holds; rewrite Hd', E; split; [apply He|done]|].
        rewrite Hd', E. done. }
      rewrite Hg. split; [done|]. intros k' Hne. rewrite Hg, (eff_view _ _ _ _ He).
      cbn [apply_records foldl apply_record].
      destruct (apply_dels_lookup (<[k := v]> (view st)) ks k') as [Hx|[Hx Hn]].
      * left. unfold apply_records in Hx. by rewrite Hx, lookup_insert_ne.
      * right. unfold apply_records in Hx. destruct (Hks Hn). auto.
    + destruct He as (He & _). apply (effect_holds _ _ _ _ _ He Hh E).
Qed.
End runs.

(** A recording sink and no log, for concrete runs. *)
#[local] Instance demo_sink : ReplicaSink (list record) :=
  {| replicate_set k v r := r ++ [RSet k v]; replicate_del k r := r ++ [RDel k] |}.
#[local] Existing Instance list_iter.
Abbreviation demo_store := (Storage Wal (list record)).

Lemma storage_refines_lru_witness :
  let ops := [OpSet (lit "a") (lit "1"); OpSet (lit "b") (lit "2"); OpGet (lit "a");
              OpSet (lit "c") (lit "3"); OpExists (lit "b"); OpDel (lit "a")] in
  Forall is_client ops /\
  (lru_replies 2 [] ops).1 =
    [ROk true; ROk true; RValue (Some (lit "1")); ROk true; ROk false; RRemoved 1] /\
  (let log := (open_for_append (wal_new None [])).2 in
   let '(rs, st) := replies (attach_replicator (Some []) (attach_wal (Some log) (storage_new 2)) : demo_store) ops in
   (rs, entries st) = lru_replies 2 [] ops).
Proof.
  intros ops. assert (Forall is_client ops) as Hops by by repeat constructor.
  assert (wal_reliable (open_for_append (wal_new None [])).2) as Hw by by vm_compute.
  split; [done|]. split; [by vm_compute|].
  exact (storage_refines_lru (L := Wal) 2 (Some _) (Some []) ops Hw Hops).
Defined.

Lemma storage_forwards_witness :
  let st : demo_store := attach_replicator (Some []) (storage_new 1) in
  let ops := [OpSet (lit "a") (lit "1"); OpSet (lit "b") (lit "2"); OpDel (lit "x")] in
  replicator_ (run st ops) =
    Some [RSet (lit "a") (lit "1"); RSet (lit "b") (lit "2"); RDel (lit "a")] /\
  exists rs, holds (run st ops) (apply_records ∅ rs) /\
             forwards (replicator_ st) (replicator_ (run st ops)) rs.
Proof.
  intros st ops. split; [by vm_compute|].
  apply (storage_forwards (L := Wal) st ∅ ops).
  - split; [apply lru_ok_nil|done].
  - repeat constructor; apply (bool_decide_unpack _); by vm_compute.
Defined.

Lemma storage_set_acknowledged_witness :
  let st : demo_store := storage_new 1 in
  (storage_get (lit "b") (storage_set (lit "b") (lit "2") st).2).1 = Some (lit "2").
Proof.
  intros st. assert (holds st ∅) as Hh by (split; [apply lru_ok_nil|done]).
  pose proof (storage_set_acknowledged (L := Wal) st _ (lit "b") (lit "2") Hh) as Hs.
  destruct (storage_set (lit "b") (lit "2") st) as [b st'] eqn:E.
  assert (b = true) as -> by (apply (f_equal fst) in E; vm_compute in E; by symmetry).
  by apply Hs; [apply (bool_decide_unpack _); vm_compute..|].
Defined.
