(* ===== verification/Recovery.v ===== *)
(** * Replaying the log, and recovery after a crash
    (src/wal.cpp [Wal::replay_into], src/server.cpp [Server::setup_persistence])

    The durability chain: what the log file holds is what the engine holds, at
    every moment and whatever writes fail; replaying the file into a fresh
    engine rebuilds it. *)

From S2P Require Import Prelude Stream Records Interfaces DiskStore Storage StorageCorrect Wal Replicator.

Local Open Scope Z_scope.

Section recovery.
Context {R : Type} `{ReplicaSink R}.
Abbreviation store := (Storage Wal R).

(** The loop of [Wal::replay_into]: parse a record, apply it, count it. *)
Fixpoint replay_loop (fuel : nat) (s : bytes) (st : store) (applied : Z) : Z * store :=
  match fuel with
  | O => (applied, st)
  | S f =>
      match parse_record s with
      | None => (applied, st)
      | Some (RSet key val, s') => replay_loop f s' (storage_set key val st).2 (applied + 1)
      | Some (RDel key, s') => replay_loop f s' (storage_del key st).2 (applied + 1)
      end
  end.

(** [Wal::replay_into]: nothing to do without a file; otherwise replay in
    replay mode, which [ReplayGuard] leaves on the way out. *)
Definition replay_into (w : Wal) (st : store) : Z * store :=
  match log_file w with
  | None => (0, st)
  | Some file =>
      let '(applied, st') := replay_loop (length file) file (set_replaying true st) 0 in
      (applied, set_replaying false st')
  end.

(** [Server::setup_persistence]: [None] is a fatal error.  [file] is the log on
    disk ([None] if there is none), [env] the outcomes of the I/O on it. *)
Definition setup_persistence (wal_path : bytes) (file : option bytes) (env : list io) (st : store)
  : option store :=
  if (wal_path =?b []) || (wal_path =?b lit "none") || (wal_path =?b lit "-") then Some st
  else
    let wal := wal_new file env in
    let '(replayed, st1) := replay_into wal st in
    let '(opened, wal') := open_for_append wal in
    if negb opened then None else Some (attach_wal (Some wal') st1).

(** ** Replay rebuilds the map the records denote *)

(** An engine being replayed into. *)
Definition replay_mode (st : store) : Prop :=
  store_ok st /\ disk_ st = None /\ wal_ st = None /\ replaying_ st = true.

Lemma effect_replay_mode G (st st' : store) rs :
  effect G st st' rs -> replay_mode st -> replay_mode st' /\ capacity_ st' = capacity_ st.
Proof.
  intros [Ho _ _ _ (Fc & Fp & Fd) Fw] (_ & Hd & Hw & Hr). split; [|done].
  split; [done|]. rewrite Fd, Fp. split; [done|]. split; [|done].
  destruct (wal_ st') eqn:E; [|done]. assert (is_Some (wal_ st)) as [? ?] by (by apply Fw). congruence.
Qed.

Lemma replay_set (st : store) k v :
  replay_mode st ->
  replay_mode (storage_set k v st).2 /\ capacity_ (storage_set k v st).2 = capacity_ st /\
  view (storage_set k v st).2 = <[k := v]> (view st).
Proof.
  intros Hm. pose proof Hm as (Hok & Hd & Hw & Hr). pose proof (set_effect k v st Hok Hd) as He.
  destruct (storage_set k v st) as [[] st'].
  - destruct He as ((ks & He & Hks & _) & _). destruct (effect_replay_mode _ _ _ _ He Hm) as [? ?].
    split; [done|]. split; [done|]. simpl. rewrite (eff_view _ _ _ _ He).
    destruct ks as [|k' ks]; [done|]. destruct Hks as [_ Hks]; [done|]. by rewrite Hr in Hks.
  - destruct He as (_ & _ & Hs). rewrite Hw in Hs. by destruct Hs.
Qed.

Lemma replay_del (st : store) k :
  replay_mode st ->
  replay_mode (storage_del k st).2 /\ capacity_ (storage_del k st).2 = capacity_ st /\
  view (storage_del k st).2 = delete k (view st).
Proof.
  intros Hm. pose proof Hm as (Hok & Hd & Hw & Hr). pose proof (del_effect k st Hok Hd) as He.
  destruct (storage_del k st) as [[n b] st']. destruct (view st !! k) eqn:Ek.
  - destruct b.
    + destruct He as (_ & He & _). destruct (effect_replay_mode _ _ _ _ He Hm) as [? ?].
      split; [done|]. split; [done|]. exact (eff_view _ _ _ _ He).
    + destruct He as (_ & _ & _ & Hs). rewrite Hw in Hs. by destruct Hs.
  - destruct He as (_ & _ & ->). split; [done|]. split; [done|]. simpl. by rewrite delete_id.
Qed.

Lemma replay_loop_spec fuel s (st : store) n :
  (length s <= fuel)%nat -> replay_mode st ->
  let '(n', st') := replay_loop fuel s st n in
  n' = n + Z.of_nat (length (log_records s)) /\ replay_mode st' /\ capacity_ st' = capacity_ st /\
  view st' = apply_records (view st) (log_records s).
Proof.
  revert s st n. induction fuel as [|f IH]; intros s st n Hf Hm; simpl.
  { destruct s; [|simpl in *; lia]. simpl. split; [lia|done]. }
  destruct (parse_record s) as [[r s']|] eqn:E; simpl.
  2:{ rewrite (log_records_none _ E). simpl. split; [lia|done]. }
  pose proof (parse_record_shorter _ _ _ E).
  apply parse_record_local in E as (p & -> & Hp & _).
  rewrite (log_records_delimited _ _ _ Hp). destruct r as [k v|k].
  - destruct (replay_set st k v Hm) as (Hm' & Hc & Hv).
    specialize (IH s' (storage_set k v st).2 (n + 1) ltac:(lia) Hm').
    destruct (replay_loop f s' _ (n + 1)) as [n' st']. destruct IH as (-> & ? & ? & ->).
    rewrite Hv. simpl. split; [lia|]. split; [done|]. split; [congruence|done].
  - destruct (replay_del st k Hm) as (Hm' & Hc & Hv).
    specialize (IH s' (storage_del k st).2 (n + 1) ltac:(lia) Hm').
    destruct (replay_loop f s' _ (n + 1)) as [n' st']. destruct IH as (-> & ? & ? & ->).
    rewrite Hv. simpl. split; [lia|]. split; [done|]. split; [congruence|done].
Qed.

Lemma view_size (st : store) : store_ok st -> size (view st) = length (items_ st).
Proof.
  intros [_ Hk _ _]. unfold view, view_of. rewrite map_size_list_to_map by done. apply length_fmap.
Qed.

(** The number of keys the configuration has room for. *)
Definition fits (cap : Z) (m : gmap bytes bytes) : Prop := 0 < cap -> Z.of_nat (size m) <= cap.

(** Replaying any file into a fresh engine: every readable record is applied,
    in order; leaving replay mode trims what the capacity has no room for. *)
Lemma replay_into_fresh cap w :
  let m := apply_records ∅ (wal_log w) in
  let '(n, st) := replay_into w (storage_new cap) in
  n = Z.of_nat (length (wal_log w)) /\ store_ok st /\ disk_ st = None /\ wal_ st = None /\
  replaying_ st = false /\ capacity_ st = cap /\ over_capacity st = false /\
  view st ⊆ m /\ (fits cap m -> view st = m).
Proof.
  unfold replay_into, wal_log, log_bytes. destruct (log_file w) as [file|]; simpl.
  2:{ split; [done|]. split; [apply lru_ok_nil|]. do 4 (split; [done|]). split; [|done].
      apply entries_bound; [apply lru_ok_nil|]. simpl. lia. }
  assert (replay_mode (set_replaying true (storage_new cap))) as Hm
    by (split; [apply lru_ok_nil|done]).
  pose proof (replay_loop_spec (length file) file _ 0 ltac:(done) Hm) as Hl.
  destruct (replay_loop (length file) file _ 0) as [n st1].
  destruct Hl as (-> & (Hok & Hd & Hw & _) & Hc & Hv). split; [lia|].
  unfold set_replaying. cbv beta iota zeta. set (st2 := with_replaying false st1).
  assert (store_ok st2) as Hok2 by exact Hok.
  assert (length (items_ st2) <= size (index_ st1))%nat as Hfu
    by (by rewrite <- (lru_ok_size _ _ _ Hok2)).
  destruct (evict_loop_unlogged (size (index_ st1)) st2 Hok2 Hfu) as
    (Ho & Hp & Hov & Hl & Fc & Fr & Fd & Fw & _).
  set (st3 := evict_loop _ false st2) in *.
  rewrite Fc, Fr, Fd, Fw, Hov. simpl. rewrite Hc. do 6 (split; [done|]).
  assert (view st2 = apply_records ∅ (log_records file)) as Hv2 by exact Hv.
  rewrite <- Hv2. split.
  - destruct Hp as [rest Hp]. unfold view, view_of. rewrite Hp, fmap_app, list_to_map_app.
    apply map_union_subseteq_l.
  - unfold fits. rewrite (view_size st2 Hok2). intros Hf. destruct Hl as [Hl|Hl].
    + unfold view. by rewrite Hl.
    + destruct Hp as [rest Hp]. assert (capacity_ st2 = cap) as Hc2 by exact Hc.
      rewrite Hp, length_app in Hf. destruct rest; [|simpl in *; lia].
      unfold view. by rewrite Hp, app_nil_r.
Qed.

(** ** A serving engine: the log on disk is the data in memory *)

Definition session_ok (st : store) : Prop :=
  store_ok st /\ disk_ st = None /\
  exists w, wal_ st = Some w /\ wal_inv w /\ apply_records ∅ (wal_log w) = view st.

Lemma effect_session G (st st' : store) rs :
  effect G st st' rs -> session_ok st -> G -> session_ok st'.
Proof.
  intros [Ho Hv _ Hw (_ & _ & Fd) _] (_ & Hd & w & Ew & Hi & Hl) HG.
  split; [done|]. split; [by rewrite Fd|]. specialize (Hw HG). rewrite Ew in Hw.
  destruct (wal_ st') as [w'|]; [|done]. destruct (Hw Hi) as [Hi' Hl'].
  exists w'. split; [done|]. split; [done|].
  change (wa_log w') with (wal_log w') in Hl'. rewrite Hl', Hv, <- Hl.
  unfold apply_records. by rewrite foldl_app.
Qed.

Lemma session_valid (st : store) : session_ok st -> valid_map (view st).
Proof.
  intros (_ & _ & w & _ & _ & <-). apply apply_records_valid; [apply map_Forall_empty|].
  apply log_records_valid.
Qed.

Lemma session_op (st : store) o : session_ok st -> data_op o -> session_ok (run_op st o).
Proof.
  intros Hs Ho. pose proof Hs as (Hok & Hd & _). pose proof (session_valid st Hs) as Hval.
  destruct o as [k v|k|k|k| |b]; simpl in Ho |- *; try done.
  - destruct Ho as [Hk Hv]. pose proof (set_effect k v st Hok Hd) as He.
    destruct (storage_set k v st) as [[] st']; [destruct He as ((ks & He & _) & _)|destruct He as (He & _)];
      by eapply effect_session.
  - pose proof (get_effect k st Hok Hd) as He. destruct (storage_get k st) as [x st'].
    destruct He as (_ & He & _). by eapply effect_session.
  - pose proof (del_effect k st Hok Hd) as He. destruct (storage_del k st) as [[n b] st'].
    destruct (view st !! k); [|by destruct He as (_ & _ & ->)].
    destruct b; destruct He as (_ & He & _); by eapply effect_session.
Qed.

Lemma session_run (st : store) ops : session_ok st -> Forall data_op ops -> session_ok (run st ops).
Proof.
  intros Hs Hops. revert st Hs. induction Hops as [|o ops Ho _ IH]; intros st Hs; [done|].
  by apply IH, session_op.
Qed.

(** Starting on a clean log (one read to its last byte) that fits opens a session. *)
Lemma setup_session path file env cap (st : store) rs :
  path <> [] -> path <> lit "none" -> path <> lit "-" ->
  is_log (default [] file) rs -> fits cap (apply_records ∅ rs) ->
  setup_persistence path file env (storage_new cap) = Some st ->
  session_ok st /\ capacity_ st = cap /\ replaying_ st = false /\ over_capacity st = false /\
  view st = apply_records ∅ rs.
Proof.
  intros Hp1 Hp2 Hp3 Hl Hf. unfold setup_persistence.
  rewrite !bool_decide_false by done. simpl. set (w := wal_new file env).
  assert (wal_log w = rs) as Hw.
  { unfold wal_log. rewrite <- (app_nil_r (log_bytes w)). apply is_log_torn; [done|by left]. }
  pose proof (replay_into_fresh cap w) as Hr. destruct (replay_into w (storage_new cap)) as [n st1].
  destruct Hr as (_ & Hok & Hd & _ & Hr & Hc & Hov & _ & Hv). rewrite Hw in Hv.
  pose proof (wal_inv_open w rs Hl) as Hi.
  assert (wal_log (open_for_append w).2 = wal_log w) as Hw'.
  { unfold wal_log, open_for_append, log_bytes. destruct (next_io (env_ w)) as [o e].
    simpl. by destruct (o =?b IoOk). }
  destruct (open_for_append w) as [[] w']; simpl in *; [|done]. intros [= <-].
  specialize (Hv Hf). split; [|done]. split; [done|]. split; [done|].
  exists w'. split; [done|]. split; [done|]. by rewrite Hw', Hw, <- Hv.
Qed.

(** Replay.  A log holding the records [rs], cut short by a crash anywhere
    inside the next one, replays to exactly [rs]: the count is their number, and
    the engine holds what they denote, trimmed to the capacity and outside
    replay mode; nothing is lost when the data fits. *)
Theorem wal_replay_records cap env rs tail :
  Forall valid_record rs -> torn tail ->
  let '(n, st) := replay_into (wal_new (Some (encode_all rs ++ tail)) env) (storage_new cap) in
  n = Z.of_nat (length rs) /\ store_ok st /\ replaying_ st = false /\ over_capacity st = false /\
  view st ⊆ apply_records ∅ rs /\ (fits cap (apply_records ∅ rs) -> view st = apply_records ∅ rs).
Proof.
  intros Hrs Ht. pose proof (replay_into_fresh cap (wal_new (Some (encode_all rs ++ tail)) env)) as H'.
  assert (wal_log (wal_new (Some (encode_all rs ++ tail)) env) = rs) as E
    by (apply is_log_torn; [by apply is_log_encode_all|done]).
  rewrite E in H'. destruct (replay_into _ _) as [n st].
  by destruct H' as (? & ? & _ & _ & ? & _ & ? & ? & ?).
Qed.

(** What a crash leaves of the log: the bytes already handed over and, if the
    process died inside a write on a healthy log, part of one more record. *)
Definition crash_image (w : Wal) (file : bytes) : Prop :=
  exists tail, file = log_bytes w ++ tail /\ torn tail /\ (ok_ w = false -> tail = []).

Lemma crash_image_log w file : wal_inv w -> crash_image w file -> log_records file = wal_log w.
Proof.
  intros (p & rs & t & E & Hp & Ht & Hok) (tail & -> & Htail & Hbad). unfold wal_log. rewrite E.
  destruct (ok_ w) eqn:Eo.
  - rewrite Hok, app_nil_r by done. rewrite (is_log_torn _ _ _ Hp Htail).
    symmetry. rewrite <- (app_nil_r p). apply is_log_torn; [done|by left].
  - by rewrite Hbad, app_nil_r.
Qed.

Lemma session_crash (st : store) w file env cap :
  session_ok st -> wal_ st = Some w -> crash_image w file ->
  let '(_, st') := replay_into (wal_new (Some file) env) (storage_new cap : store) in
  view st' ⊆ view st /\ (fits cap (view st) -> view st' = view st).
Proof.
  intros (_ & _ & w' & Hw' & Hi & Hv) Hw Hc. rewrite Hw in Hw'. injection Hw' as <-.
  pose proof (crash_image_log w file Hi Hc) as E.
  pose proof (replay_into_fresh cap (wal_new (Some file) env)) as H'.
  change (wal_log (wal_new (Some file) env)) with (log_records file) in H'.
  rewrite E, Hv in H'. destruct (replay_into _ _) as [n st'].
  by destruct H' as (_ & _ & _ & _ & _ & _ & _ & ? & ?).
Qed.

(** Crash recovery.  Serve any sequence of operations on a log that was
    clean at startup, whatever appends the operating system refuses; crash at
    any moment, even inside an append; replay the file that is left into a
    fresh engine.  The new engine holds exactly the data of the old one (the
    part that fits, if it is given less room), so every acknowledged write. *)
Theorem wal_crash_recovery path file env cap st rs ops w file' env' cap' :
  path <> [] -> path <> lit "none" -> path <> lit "-" ->
  is_log (default [] file) rs -> fits cap (apply_records ∅ rs) ->
  setup_persistence path file env (storage_new cap) = Some st ->
  Forall data_op ops -> wal_ (run st ops) = Some w -> crash_image w file' ->
  let '(_, st') := replay_into (wal_new (Some file') env') (storage_new cap' : store) in
  view st' ⊆ view (run st ops) /\ (fits cap' (view (run st ops)) -> view st' = view (run st ops)).
Proof.
  intros Hp1 Hp2 Hp3 Hl Hf Hs Hops Hw Hc.
  destruct (setup_session path file env cap st rs Hp1 Hp2 Hp3 Hl Hf Hs) as [Hses _].
  exact (session_crash _ w file' env' cap' (session_run st ops Hses Hops) Hw Hc).
Qed.

(** ** The capacity bound *)

Lemma refused_unhealthy (st : store) : refused (wal_ st) -> exists w, wal_ st = Some w /\ ok_ w = false.
Proof.
  intros (l & k & l' & E & Ew). exists l'. split; [done|]. by eapply wal_del_refused.
Qed.

(** On a log that has failed, nothing is written any more. *)
Lemma failed_log_frozen (st : store) w o :
  store_ok st -> disk_ st = None -> wal_ st = Some w -> ok_ w = false -> data_op o ->
  wal_ (run_op st o) = Some w /\ view (run_op st o) = view st.
Proof.
  intros Hok Hd Hw Ho Hop. destruct o as [k v|k|k|k| |b]; simpl in *; try done.
  - unfold storage_set, log_set. rewrite Hd, Hw. simpl. unfold wal_append_set. by rewrite Ho.
  - pose proof (get_effect k st Hok Hd) as He. destruct (storage_get k st) as [x st'] eqn:Eg.
    destruct He as (_ & He & _). split; [|exact (eff_view _ _ _ _ He)].
    unfold storage_get in Eg. rewrite Hd in Eg. destruct (index_ st !! k); by simplify_eq.
  - unfold storage_del, log_del. rewrite Hd, Hw. simpl. unfold wal_append_del. rewrite Ho.
    by destruct (index_ st !! k).
Qed.

Definition bounded (st : store) : Prop :=
  0 < capacity_ st ->
  Z.of_nat (size (view st)) <= capacity_ st \/
  (Z.of_nat (size (view st)) <= capacity_ st + 1 /\ exists w, wal_ st = Some w /\ ok_ w = false).

Lemma size_apply_dels (m : gmap bytes bytes) ks :
  (size (apply_records m (RDel <$> ks)) <= size m)%nat.
Proof.
  revert m. induction ks as [|k ks IH]; intros m; [done|].
  change (apply_records m (RDel <$> k :: ks)) with (apply_records (delete k m) (RDel <$> ks)).
  etrans; [apply IH|]. apply map_subseteq_size, delete_subseteq.
Qed.

Lemma bounded_set (st : store) k v :
  store_ok st -> disk_ st = None -> replaying_ st = false ->
  Z.of_nat (size (view st)) <= capacity_ st -> bounded (storage_set k v st).2.
Proof.
  intros Hok Hd Hr Hb. pose proof (set_effect k v st Hok Hd) as He.
  destruct (storage_set k v st) as [[] st']; simpl.
  - destruct He as ((ks & He & _) & _ & Hm). intros Hpos.
    pose proof (eff_frame _ _ _ _ He) as (Fc & _ & _). pose proof (eff_view _ _ _ _ He) as Hv.
    pose proof (size_apply_dels (<[k := v]> (view st)) ks) as Hs.
    change (apply_records (<[k := v]> (view st)) (RDel <$> ks))
      with (apply_records (view st) (RSet k v :: (RDel <$> ks))) in Hs. rewrite <- Hv in Hs.
    destruct (view st !! k) eqn:Ek.
    + rewrite map_size_insert_Some in Hs by done. left. lia.
    + rewrite Hr in Hm. rewrite map_size_insert_None in Hs by done. destruct Hm as (_ & [Hm|Hm] & _).
      * left. apply (entries_bound st' (eff_ok _ _ _ _ He)) in Hm; [|done]. rewrite (view_size st' (eff_ok _ _ _ _ He)).
        unfold entries in Hm. rewrite length_fmap in Hm. exact Hm.
      * right. split; [lia|by apply refused_unhealthy].
  - destruct He as (He & _). intros _. left. rewrite (eff_view _ _ _ _ He). simpl.
    pose proof (eff_frame _ _ _ _ He) as (-> & _ & _). done.
Qed.

Lemma effect_frame G (st st' : store) rs :
  effect G st st' rs -> disk_ st = None ->
  store_ok st' /\ disk_ st' = None /\ replaying_ st' = replaying_ st /\ capacity_ st' = capacity_ st.
Proof. by intros [? _ _ _ (-> & -> & ->) _] ->. Qed.

Lemma op_frame (st : store) o :
  store_ok st -> disk_ st = None -> data_op o ->
  store_ok (run_op st o) /\ disk_ (run_op st o) = None /\ replaying_ (run_op st o) = replaying_ st /\
  capacity_ (run_op st o) = capacity_ st.
Proof.
  intros Hok Hd Ho. destruct o as [k v|k|k|k| |b]; simpl in *; try done.
  - pose proof (set_effect k v st Hok Hd) as He.
    destruct (storage_set k v st) as [[] st']; [destruct He as ((ks & He & _) & _)|destruct He as (He & _)];
      by eapply effect_frame.
  - pose proof (get_effect k st Hok Hd) as He. destruct (storage_get k st) as [x st'].
    destruct He as (_ & He & _). by eapply effect_frame.
  - pose proof (del_effect k st Hok Hd) as He. destruct (storage_del k st) as [[n b] st'].
    destruct (view st !! k) eqn:Ek; [|by destruct He as (_ & _ & ->)].
    destruct b; destruct He as (_ & He & _); by eapply effect_frame.
Qed.

Lemma bounded_op (st : store) o :
  store_ok st -> disk_ st = None -> replaying_ st = false -> data_op o -> bounded st ->
  bounded (run_op st o).
Proof.
  intros Hok Hd Hr Ho Hb Hpos.
  destruct (op_frame st o Hok Hd Ho) as (_ & _ & _ & Hc). rewrite Hc in *.
  assert (match o with OpSet _ _ => True | _ => (size (view (run_op st o)) <= size (view st))%nat end) as Hs.
  { clear Hb Hpos Hc. destruct o as [k v|k|k|k| |b]; simpl in *; try done.
    - pose proof (get_effect k st Hok Hd) as He. destruct (storage_get k st) as [x st'].
      destruct He as (_ & He & _). simpl. by rewrite (eff_view _ _ _ _ He).
    - pose proof (del_effect k st Hok Hd) as He. destruct (storage_del k st) as [[n b] st'].
      destruct (view st !! k) eqn:Ek; [|by destruct He as (_ & _ & ->)].
      destruct b; destruct He as (_ & He & _); simpl; rewrite (eff_view _ _ _ _ He); [|done].
      apply (size_apply_dels (view st) [k]). }
  destruct (Hb Hpos) as [Hle|(Hle & w & Hw & Hf)].
  - destruct o as [k v|k|k|k| |b]; [|left; lia..].
    pose proof (bounded_set st k v Hok Hd Hr Hle) as Hb'.
    change (storage_set k v st).2 with (run_op st (OpSet k v)) in Hb'.
    unfold bounded in Hb'. rewrite Hc in Hb'. by apply Hb'.
  - right. destruct (failed_log_frozen st w o Hok Hd Hw Hf Ho) as [Hw' ->].
    split; [done|by exists w].
Qed.

Lemma bounded_run (st : store) ops :
  store_ok st -> disk_ st = None -> replaying_ st = false -> bounded st -> Forall data_op ops ->
  bounded (run st ops) /\ capacity_ (run st ops) = capacity_ st.
Proof.
  intros Hok Hd Hr Hb Hops. revert st Hok Hd Hr Hb.
  induction Hops as [|o ops Ho _ IH]; intros st Hok Hd Hr Hb; [done|].
  destruct (op_frame st o Hok Hd Ho) as (Hok' & Hd' & Hr' & <-).
  rewrite Hr in Hr'. exact (IH _ Hok' Hd' Hr' (bounded_op st o Hok Hd Hr Ho Hb)).
Qed.

(** C35: the capacity bound.  A bounded engine on a log of any state, healthy or
    failing at any point, never holds more than its capacity, except that an
    eviction the log refuses to record leaves one key too many; no operation
    grows the data after that. *)
Theorem storage_capacity_bound cap w repl ops :
  0 < cap -> Forall data_op ops ->
  let st := run (attach_wal w (attach_replicator repl (storage_new cap)) : store) ops in
  Z.of_nat (size (view st)) <= cap \/
  (Z.of_nat (size (view st)) <= cap + 1 /\ exists l, wal_ st = Some l /\ ok_ l = false).
Proof.
  intros Hcap Hops st.
  destruct (bounded_run (attach_wal w (attach_replicator repl (storage_new cap))) ops)
    as [Hb Hc]; [apply lru_ok_nil|done|done| |done|].
  - intros _. left. change (view _) with (∅ : gmap bytes bytes). rewrite map_size_empty. simpl. lia.
  - specialize (Hb ltac:(rewrite Hc; done)). by rewrite Hc in Hb.
Qed.

End recovery.

(** ** Concrete runs *)

Abbreviation redon := (Storage Wal Replicator).

Lemma wal_replay_records_witness :
  let rs := [RSet (lit "a") (lit "1"); RSet (lit "b") (lit "x y"); RDel (lit "a")] in
  let tail := lit "SET 1 2 cz" in
  let '(n, st) := replay_into (wal_new (Some (encode_all rs ++ tail)) []) (storage_new 0 : redon) in
  n = 3 /\ view st = {[ lit "b" := lit "x y" ]}.
Proof.
  intros rs tail.
  pose proof (wal_replay_records (R := Replicator) 0 [] rs tail) as H.
  destruct (replay_into _ _) as [n st]. destruct H as (-> & _ & _ & _ & _ & Hv).
  - repeat constructor; apply (bool_decide_unpack _); by vm_compute.
  - right. exists (RSet (lit "c") (lit "zz")), (lit "z" ++ [newline]).
    split; [apply (bool_decide_unpack _); by vm_compute|]. split; [done|by vm_compute].
  - split; [done|]. rewrite Hv by (unfold fits; lia). by vm_compute.
Defined.

(** A session on a new log whose third append fails, then a crash. *)
Definition demo_env : list io := [IoOk; IoOk; IoOk; IoFail 5].
Definition demo_ops : list op :=
  [OpSet (lit "a") (lit "1"); OpSet (lit "b") (lit "2"); OpSet (lit "c") (lit "3"); OpDel (lit "a")].
Definition demo_session : redon :=
  default (storage_new 0) (setup_persistence (lit "redon.wal") None demo_env (storage_new 0)).
Definition demo_wal : Wal :=
  default (wal_new None []) (wal_ (run demo_session demo_ops)).

Lemma wal_crash_recovery_witness :
  let '(_, st') := replay_into (wal_new (Some (log_bytes demo_wal)) []) (storage_new 0 : redon) in
  log_bytes demo_wal = encode_all [RSet (lit "a") (lit "1"); RSet (lit "b") (lit "2")] ++ lit "SET 1" /\
  view st' ⊆ view (run demo_session demo_ops) /\
  (fits 0 (view (run demo_session demo_ops)) -> view st' = view (run demo_session demo_ops)).
Proof.
  pose proof (wal_crash_recovery (R := Replicator) (lit "redon.wal") None demo_env 0 demo_session []
    demo_ops demo_wal (log_bytes demo_wal) [] 0) as H.
  destruct (replay_into _ _) as [n st']. split; [by vm_compute|]. apply H; try done.
  - repeat constructor; apply (bool_decide_unpack _); by vm_compute.
  - exists []. rewrite app_nil_r. split; [done|]. split; [by left|done].
Defined.

Lemma storage_capacity_bound_witness :
  let ops := [OpSet (lit "a") (lit "1"); OpSet (lit "b") (lit "2")] in
  let w := (open_for_append (wal_new None [IoOk; IoOk; IoOk; IoFail 0])).2 in
  let st := run (attach_wal (Some w) (attach_replicator None (storage_new 1)) : redon) ops in
  size (view st) = 2%nat /\
  (Z.of_nat (size (view st)) <= 1 \/
   (Z.of_nat (size (view st)) <= 1 + 1 /\ exists l, wal_ st = Some l /\ ok_ l = false)).
Proof.
  intros ops w st. split; [by vm_compute|].
  assert (Forall data_op ops) as Hops
    by (repeat constructor; apply (bool_decide_unpack _); by vm_compute).
  exact (storage_capacity_bound (R := Replicator) 1 (Some w) None ops eq_refl Hops).
Defined.

(** a torn tail is not cut off when the log is opened again.  A crash leaves
    half a record; the restarted server acknowledges a write, appending it after
    the half record; the next restart stops at the half record and the
    acknowledged write is gone. *)
Theorem torn_tail_hides_acknowledged_write :
  let file := encode_all [RSet (lit "a") (lit "1")] ++ lit "SET 1" in
  exists st1 : redon,
    setup_persistence (lit "redon.wal") (Some file) [] (storage_new 0) = Some st1 /\
    (storage_set (lit "b") (lit "2") st1).1 = true /\
    exists w, wal_ (storage_set (lit "b") (lit "2") st1).2 = Some w /\ ok_ w = true /\
    view (replay_into (wal_new (Some (log_bytes w)) []) (storage_new 0 : redon)).2 =
      {[ lit "a" := lit "1" ]}.
Proof.
  intros file. eexists. split; [by vm_compute|]. split; [by vm_compute|].
  eexists. split; [by vm_compute|]. split; [done|by vm_compute].
Qed.

(** Trims after a replay are not logged.  A log of three keys is opened with
    room for two, which trims the oldest; a key is then deleted, so there is
    room; at the next restart the trimmed key is back. *)
Theorem trimmed_key_returns :
  let file := encode_all [RSet (lit "a") (lit "1"); RSet (lit "b") (lit "2"); RSet (lit "c") (lit "3")] in
  exists st1 : redon,
    setup_persistence (lit "redon.wal") (Some file) [] (storage_new 2) = Some st1 /\
    (storage_get (lit "a") st1).1 = None /\
    exists w, wal_ (storage_del (lit "b") st1).2 = Some w /\ ok_ w = true /\
    view (storage_del (lit "b") st1).2 = {[ lit "c" := lit "3" ]} /\
    view (replay_into (wal_new (Some (log_bytes w)) []) (storage_new 2 : redon)).2 =
      {[ lit "a" := lit "1"; lit "c" := lit "3" ]}.
Proof.
  intros file. eexists. split; [by vm_compute|]. split; [by vm_compute|].
  eexists. split; [by vm_compute|]. split; [done|]. split; by vm_compute.
Qed.
