(* ===== verification/Net.v ===== *)
(** * Socket loops (src/raft.cpp, src/router.cpp, src/replication.cpp)

    [send_all] and the [recv_line]s, over what the operating system does:
    a script of the results of [send], and the chunks [recv] delivers before
    the peer closes, fails or times out. *)

From S2P Require Import Prelude Stream.

Local Open Scope Z_scope.

(** [send_all]: [results] are the return values of the successive [send]s, each
    of which takes that many bytes of what it was given; an exhausted script is
    an error.  Returns the bytes the socket accepted, in order. *)
Fixpoint send_all (data : bytes) (results : list Z) (accepted : bytes) : bool * bytes :=
  match data with
  | [] => (true, accepted)
  | _ =>
      match results with
      | [] => (false, accepted)
      | n :: results' =>
          if n <=? 0 then (false, accepted)
          else send_all (drop (Z.to_nat n) data) results' (accepted ++ take (Z.to_nat n) data)
      end
  end.

(** [send_all] of src/server.cpp, src/client_main.cpp and bench/redon_bench.cpp,
    which never asks [send], whose length is an [int], for more than a GiB. *)
Definition kMaxSendChunk : Z := Z.shiftl 1 30.

Definition to_send (remaining : Z) : Z := if kMaxSendChunk <? remaining then kMaxSendChunk else remaining.

Fixpoint send_all_capped (data : bytes) (results : list Z) (accepted : bytes) : bool * bytes :=
  match data with
  | [] => (true, accepted)
  | _ =>
      match results with
      | [] => (false, accepted)
      | n :: results' =>
          if n <=? 0 then (false, accepted)
          else
            let sent := Z.to_nat (Z.min n (to_send (blen data))) in
            send_all_capped (drop sent data) results' (accepted ++ take sent data)
      end
  end.

(** [send_line] of src/server.cpp. *)
Definition send_line (reply : bytes) (results : list Z) : bool * bytes :=
  send_all_capped (reply ++ [newline]) results [].

(** What becomes of a message that is sent in this way: it is taken to its end, or the
    connection fails after some of its bytes, and not the last, have been taken. *)
Inductive sending := AllSent | CutAfter (n : nat).

Definition transmit (o : sending) (data : bytes) : bool * bytes :=
  match o with
  | AllSent => (true, data)
  | CutAfter n => (false, take (Nat.min n (length data - 1)) data)
  end.

(** [recv_line] of src/raft.cpp: byte by byte, at most [kMaxLine] of them
    before the newline.  [input] is what arrives until the connection ends. *)
Definition kMaxLine : Z := 1024.

Fixpoint raft_recv_loop (input line : bytes) : option bytes :=
  match input with
  | [] => None
  | c :: input' =>
      if Ascii.eqb c newline then Some line
      else if kMaxLine <=? blen line then None
      else raft_recv_loop input' (line ++ [c])
  end.

Definition raft_recv_line (input : bytes) : option bytes := raft_recv_loop input [].

(** [recv_line] of src/router.cpp and, with another limit, of src/web.cpp: chunk
    by chunk; a carriage return before the newline is dropped; what follows the
    newline in its chunk is discarded.  A line longer than [max_reply] fails. *)
Definition kMaxReply : Z := 128 * 1024.

Definition strip_cr (line : bytes) : bytes :=
  match last line with
  | Some c => if Ascii.eqb c "013" then take (length line - 1) line else line
  | None => line
  end.

(** One chunk: the line is complete, too long, or goes on. *)
Inductive scan := Done (line : bytes) | TooLong | More (line : bytes).

Fixpoint recv_chunk (max_reply : Z) (chunk line : bytes) : scan :=
  match chunk with
  | [] => More line
  | c :: chunk' =>
      if Ascii.eqb c newline then Done (strip_cr line)
      else if max_reply <? blen (line ++ [c]) then TooLong
      else recv_chunk max_reply chunk' (line ++ [c])
  end.

Fixpoint recv_line (max_reply : Z) (chunks : list bytes) (line : bytes) : option bytes :=
  match chunks with
  | [] => None
  | chunk :: chunks' =>
      match recv_chunk max_reply chunk line with
      | Done l => Some l
      | TooLong => None
      | More l => recv_line max_reply chunks' l
      end
  end.

(** ** The loops do what they are for *)

Lemma send_all_prefix data results acc :
  exists rest, acc ++ data = (send_all data results acc).2 ++ rest /\
               ((send_all data results acc).1 = true -> rest = []).
Proof.
  revert data acc. induction results as [|n rs IH]; intros data acc.
  - destruct data; simpl; [by exists []|]. by eexists.
  - destruct data as [|c data]; [by exists []|]. cbn [send_all].
    destruct (Z.leb_spec n 0); [by eexists|].
    destruct (IH (drop (Z.to_nat n) (c :: data)) (acc ++ take (Z.to_nat n) (c :: data))) as (r & E & Hr).
    exists r. split; [|done]. rewrite <- E, <- (assoc_L (++)). by rewrite take_drop.
Qed.

(** The length handed to [send] fits an [int]. *)
Lemma to_send_int remaining : 0 <= remaining -> 0 <= to_send remaining <= INT_MAX.
Proof. intros Hr. unfold to_send. change kMaxSendChunk with 1073741824. unfold INT_MAX. destruct (Z.ltb_spec 1073741824 remaining); lia. Qed.

(** The cap only bounds what each [send] takes. *)
Lemma send_all_capped_eq data results acc :
  send_all_capped data results acc = send_all data (map (fun n => Z.min n kMaxSendChunk) results) acc.
Proof.
  revert data acc. induction results as [|n rs IH]; intros data acc; (destruct data as [|c data]; [done|]); [done|].
  cbn [send_all_capped send_all map]. change kMaxSendChunk with 1073741824 in *. unfold to_send.
  change kMaxSendChunk with 1073741824. rewrite IH.
  destruct (Z.leb_spec n 0); [by rewrite (proj2 (Z.leb_le _ _)) by lia|]. rewrite (proj2 (Z.leb_gt _ _)) by lia.
  destruct (Z.ltb_spec 1073741824 (blen (c :: data))); [done|].
  destruct (Z.le_gt_cases n (blen (c :: data))); [do 3 f_equal; lia|].
  assert (forall m, blen (c :: data) <= m -> drop (Z.to_nat m) (c :: data) = [] /\ take (Z.to_nat m) (c :: data) = c :: data) as Hall
    by (unfold blen; intros m Hm; split; [apply drop_ge|apply take_ge]; lia).
  destruct (Hall (Z.min n (blen (c :: data)))) as [-> ->]; [lia|].
  by destruct (Hall (Z.min n 1073741824)) as [-> ->]; [lia|].
Qed.

Lemma send_all_failed data results acc :
  (send_all data results acc).1 = false ->
  exists n, (n < length data)%nat /\ (send_all data results acc).2 = acc ++ take n data.
Proof.
  revert data acc. induction results as [|n rs IH]; intros [|c data] acc; cbn [send_all]; try done.
  - intros _. exists 0%nat. split; [simpl; lia|by rewrite app_nil_r].
  - destruct (Z.leb_spec n 0); [intros _; exists 0%nat; split; [simpl; lia|by rewrite app_nil_r]|].
    intros Hf. destruct (IH _ _ Hf) as (k & Hk & E). rewrite length_drop in Hk.
    exists (Z.to_nat n + k)%nat. split; [lia|]. rewrite E, <- (assoc_L (++)). f_equal. by rewrite take_take_drop.
Qed.

(** Whatever the [send]s of [send_line] return, it is one of the outcomes of [transmit]. *)
Lemma send_line_transmits reply results : exists o, send_line reply results = transmit o (reply ++ [newline]).
Proof.
  unfold send_line. rewrite send_all_capped_eq. set (rs := map _ results). pose proof (send_all_prefix (reply ++ [newline]) rs []) as Hp.
  pose proof (send_all_failed (reply ++ [newline]) rs []) as Hf. destruct (send_all (reply ++ [newline]) rs []) as [[] sent]; simpl in *.
  - exists AllSent. destruct Hp as (rest & E & Hr). rewrite Hr, app_nil_r in E by done. by rewrite E.
  - destruct (Hf eq_refl) as (n & Hn & ->). exists (CutAfter n). simpl. do 2 f_equal. lia.
Qed.

(** A message cut short lacks its last byte. *)
Lemma transmit_prefix o a c : (transmit o (a ++ [c])).2 = a ++ [c] \/ (transmit o (a ++ [c])).2 `prefix_of` a.
Proof.
  destruct o as [|n]; [by left|right]. simpl. rewrite length_app. simpl. rewrite Nat.add_sub.
  rewrite take_app_le by lia. apply prefix_take.
Qed.

Lemma raft_recv_loop_line line input acc :
  newline ∉ line -> blen (acc ++ line) <= kMaxLine ->
  raft_recv_loop (line ++ newline :: input) acc = Some (acc ++ line).
Proof.
  revert acc. induction line as [|c line IH]; intros acc Hn Hl; simpl.
  - by rewrite app_nil_r.
  - apply not_elem_of_cons in Hn as [Hc Hn]. destruct (Ascii.eqb_spec c newline); [by subst|].
    destruct (Z.leb_spec kMaxLine (blen acc)).
    { unfold blen in *. rewrite length_app in Hl. simpl in Hl. lia. }
    rewrite IH; [by rewrite <- (assoc_L (++))|done|]. by rewrite <- (assoc_L (++)).
Qed.

Lemma recv_chunk_app mr a b line :
  recv_chunk mr (a ++ b) line =
  match recv_chunk mr a line with More l => recv_chunk mr b l | r => r end.
Proof.
  revert line. induction a as [|c a IH]; intros line; simpl; [done|].
  destruct (Ascii.eqb c newline); [done|]. destruct (_ <? _); [done|]. apply IH.
Qed.

(** How the reply was cut into chunks does not matter. *)
Lemma recv_line_chunks mr chunks line :
  recv_line mr chunks line = recv_line mr [mjoin chunks] line.
Proof.
  revert line. induction chunks as [|c cs IH]; intros line; [done|].
  change (mjoin (c :: cs)) with (c ++ mjoin cs). simpl. rewrite recv_chunk_app.
  destruct (recv_chunk mr c line) as [l| |l]; [done..|]. apply IH.
Qed.

Lemma recv_chunk_line mr line rest acc :
  newline ∉ line -> blen (acc ++ line) <= mr ->
  recv_chunk mr (line ++ newline :: rest) acc = Done (strip_cr (acc ++ line)).
Proof.
  revert acc. induction line as [|c line IH]; intros acc Hn Hl; simpl.
  - by rewrite app_nil_r.
  - apply not_elem_of_cons in Hn as [Hc Hn]. destruct (Ascii.eqb_spec c newline); [by subst|].
    destruct (Z.ltb_spec mr (blen (acc ++ [c]))).
    { unfold blen in *. rewrite !length_app in *. simpl in *. lia. }
    rewrite IH; [by rewrite <- (assoc_L (++))|done|]. by rewrite <- (assoc_L (++)).
Qed.

(** A reply line survives the network.  If [send_all] reports success, the
    bytes accepted are the line and its newline, and the receiver, however they
    are cut into chunks and whatever follows them, reads back that line (less a
    trailing carriage return). *)
Lemma send_all_accepts data results :
  (send_all data results []).1 = true -> (send_all data results []).2 = data.
Proof.
  intros Hs. destruct (send_all_prefix data results []) as (r & E & Hr).
  rewrite (Hr Hs), app_nil_r in E. by rewrite <- E.
Qed.

(** A [send_all] that reports success has sent all of the data and nothing else. *)
Lemma send_all_capped_accepts data results :
  (send_all_capped data results []).1 = true -> (send_all_capped data results []).2 = data.
Proof. rewrite send_all_capped_eq. apply send_all_accepts. Qed.

Lemma recv_line_delivered mr chunks reply rest :
  newline ∉ reply -> blen reply <= mr -> mjoin chunks = reply ++ newline :: rest ->
  recv_line mr chunks [] = Some (strip_cr reply).
Proof. intros Hn Hl Hc. rewrite recv_line_chunks, Hc. cbn [recv_line]. by rewrite recv_chunk_line. Qed.

(** And only a complete line is ever returned. *)
Lemma recv_chunk_done mr chunk acc l :
  recv_chunk mr chunk acc = Done l -> exists a b, chunk = a ++ newline :: b /\ newline ∉ a /\ l = strip_cr (acc ++ a).
Proof.
  revert acc. induction chunk as [|c chunk IH]; intros acc; simpl; [done|].
  destruct (Ascii.eqb_spec c newline) as [->|Hc].
  - intros [= <-]. exists [], chunk. rewrite app_nil_r. split; [done|]. split; [set_solver|done].
  - destruct (_ <? _); [done|]. intros (a & b & -> & Ha & ->)%IH. exists (c :: a), b.
    split; [done|]. split; [set_solver|]. by rewrite <- (assoc_L (++)).
Qed.

Lemma recv_line_complete mr chunks l :
  recv_line mr chunks [] = Some l -> exists a b, mjoin chunks = a ++ newline :: b /\ newline ∉ a /\ l = strip_cr a.
Proof.
  rewrite recv_line_chunks. cbn [recv_line]. destruct (recv_chunk mr (mjoin chunks) []) as [x| |x] eqn:E; [|done..].
  intros [= <-]. exact (recv_chunk_done _ _ _ _ E).
Qed.

Lemma reply_line_delivered mr line results chunks rest :
  newline ∉ line -> blen line <= mr ->
  (send_all (line ++ [newline]) results []).1 = true ->
  mjoin chunks = (send_all (line ++ [newline]) results []).2 ++ rest ->
  recv_line mr chunks [] = Some (strip_cr line).
Proof.
  intros Hn Hl Hs Hc. rewrite (send_all_accepts _ _ Hs), <- (assoc_L (++)) in Hc.
  by eapply recv_line_delivered.
Qed.

(** A line read is within the limit. *)
Lemma recv_chunk_bound mr chunk line :
  blen line <= mr ->
  match recv_chunk mr chunk line with Done l | More l => blen l <= mr | TooLong => True end.
Proof.
  revert line. induction chunk as [|c chunk IH]; intros line Hl; simpl; [done|].
  destruct (Ascii.eqb c newline).
  - unfold strip_cr. destruct (last line); [|done]. destruct (Ascii.eqb _ _); [|done].
    unfold blen in *. rewrite length_take. lia.
  - destruct (Z.ltb_spec mr (blen (line ++ [c]))); [done|]. by apply IH.
Qed.

Lemma recv_line_bound mr chunks line l :
  blen line <= mr -> recv_line mr chunks line = Some l -> blen l <= mr.
Proof.
  revert line. induction chunks as [|c cs IH]; intros line Hl; simpl; [done|].
  pose proof (recv_chunk_bound mr c line Hl). destruct (recv_chunk mr c line); [by intros [= <-]|done|by apply IH].
Qed.
