(* ===== verification/Raft.v ===== *)
(** * Raft leader election: one node (src/raft.cpp, src/raft.h)

    A node's state and every critical section of [RaftNode] as a function of
    it.  The timer thread's [start_election] and [send_heartbeats] alternate
    critical sections and RPCs made without the lock; they are given both as
    their critical sections, which file [RaftCluster] interleaves freely, and
    composed as the code composes them, over a network that may also change
    the node's state while the lock is not held. *)

From S2P Require Import Prelude Stream Address Net.

Local Open Scope Z_scope.

Inductive Role := Follower | Candidate | Leader.

#[export] Instance Role_eq_dec : EqDecision Role.
Proof. solve_decision. Defined.

(** [RaftNode::Config]; times are in milliseconds. *)
Record Config := {
  self_id : bytes;
  peers : list bytes;
  heartbeat_ms : Z;
  election_timeout_min_ms : Z;
  election_timeout_max_ms : Z;
  rpc_timeout_ms : Z;
}.

Record RaftNode := mkRaft {
  config_ : Config;
  role_ : Role;
  current_term_ : Z;
  voted_for_ : bytes;            (* empty: no vote in this term *)
  leader_id_ : bytes;            (* empty: unknown *)
  election_deadline_ : Z;
  last_heartbeat_sent_ : Z;
  running_ : bool;
}.

(** What the clock and the random generator return inside a critical section. *)
Record instant := { now : Z; draw : Z }.

Definition with_election (r : Role) (t : Z) (v l : bytes) (deadline : Z) (n : RaftNode) : RaftNode :=
  mkRaft (config_ n) r t v l deadline (last_heartbeat_sent_ n) (running_ n).
Definition with_heartbeat (t : Z) (n : RaftNode) : RaftNode :=
  mkRaft (config_ n) (role_ n) (current_term_ n) (voted_for_ n) (leader_id_ n)
    (election_deadline_ n) t (running_ n).
Definition with_running (b : bool) (n : RaftNode) : RaftNode :=
  mkRaft (config_ n) (role_ n) (current_term_ n) (voted_for_ n) (leader_id_ n)
    (election_deadline_ n) (last_heartbeat_sent_ n) b.

(** [std::uniform_int_distribution]: a value of the configured range. *)
Definition timeout (c : Config) (i : instant) : Z :=
  Z.max (election_timeout_min_ms c) (Z.min (election_timeout_max_ms c) (draw i)).

Definition reset_election_deadline_locked (i : instant) (n : RaftNode) : RaftNode :=
  with_election (role_ n) (current_term_ n) (voted_for_ n) (leader_id_ n)
    (now i + timeout (config_ n) i) n.

(** The constructor's filter: no self, no duplicates, order kept. *)
Definition filter_peers (self : bytes) (ps : list bytes) : list bytes :=
  foldl (fun acc p => if negb (p =?b self) && negb (bool_decide (p ∈ acc)) then acc ++ [p] else acc)
    [] ps.

Definition raft_new (c : Config) (i : instant) : RaftNode :=
  let c' := {| self_id := self_id c; peers := filter_peers (self_id c) (peers c);
               heartbeat_ms := heartbeat_ms c;
               election_timeout_min_ms := election_timeout_min_ms c;
               election_timeout_max_ms := election_timeout_max_ms c;
               rpc_timeout_ms := rpc_timeout_ms c |} in
  reset_election_deadline_locked i (mkRaft c' Follower 0 [] [] 0 (now i) false).

(** [start] and [stop], without the thread itself; the result says whether
    there is a thread to spawn or to join. *)
Definition raft_start (n : RaftNode) : bool * RaftNode :=
  if running_ n then (false, n) else (true, with_running true n).
Definition raft_stop (n : RaftNode) : bool * RaftNode :=
  if negb (running_ n) then (false, n) else (true, with_running false n).

Definition majority (n : RaftNode) : nat := S ((length (peers (config_ n)) + 1) / 2).

Definition become_follower_locked (i : instant) (term : Z) (n : RaftNode) : RaftNode :=
  reset_election_deadline_locked i
    (with_election Follower term [] [] (election_deadline_ n) n).

(** ** RPC handlers *)

Definition flag (b : bool) : bytes := if b then lit "1" else lit "0".
Definition vote_line (term : Z) (granted : bool) : bytes :=
  lit "__VOTE__ " ++ to_string term ++ lit " " ++ flag granted.
Definition appended_line (term : Z) (success : bool) : bytes :=
  lit "__APPENDED__ " ++ to_string term ++ lit " " ++ flag success.

Definition handle_request_vote (i : instant) (term : Z) (candidate_id : bytes) (n : RaftNode)
  : bytes * RaftNode :=
  let n1 := if current_term_ n <? term then become_follower_locked i term n else n in
  let granted := (term =? current_term_ n1) &&
                 ((voted_for_ n1 =?b []) || (voted_for_ n1 =?b candidate_id)) in
  let n2 := if granted then
              reset_election_deadline_locked i
                (with_election (role_ n1) (current_term_ n1) candidate_id (leader_id_ n1)
                   (election_deadline_ n1) n1)
            else n1 in
  (vote_line (current_term_ n2) granted, n2).

Definition handle_append_entries (i : instant) (term : Z) (leader_id : bytes) (n : RaftNode)
  : bytes * RaftNode :=
  if current_term_ n <=? term then
    let newer := current_term_ n <? term in
    let n1 := with_election Follower (if newer then term else current_term_ n)
                (if newer then [] else voted_for_ n) leader_id (election_deadline_ n) n in
    let n2 := reset_election_deadline_locked i n1 in
    (appended_line (current_term_ n2) true, n2)
  else (appended_line (current_term_ n) false, n).

(** ** RPC calls *)

(** [while (iss >> tok)]: the whitespace-separated tokens. *)
Fixpoint tokens_loop (fuel : nat) (s : bytes) : list bytes :=
  match fuel with
  | O => []
  | S f => match extract_token s with
           | Some (t, r) => t :: tokens_loop f r
           | None => []
           end
  end.
Definition tokens (s : bytes) : list bytes := tokens_loop (length s) s.

(** [rpc], given what arrives in answer to the request ([None]: no connection,
    or the request could not be sent). *)
Definition rpc (answer : option bytes) : option (list bytes) :=
  input ← answer; line ← raft_recv_line input; Some (tokens line).

Definition vote_request (term : Z) (self : bytes) : bytes :=
  lit "__RAFT_VOTE__ " ++ to_string term ++ lit " " ++ self ++ [newline].
Definition append_request (term : Z) (self : bytes) : bytes :=
  lit "__RAFT_APPEND__ " ++ to_string term ++ lit " " ++ self ++ [newline].

(** The common reading of a reply: three tokens, the tag, a term, a flag. *)
Definition read_reply (tag : bytes) (tok : list bytes) : option (Z * bool) :=
  match tok with
  | t0 :: t1 :: t2 :: _ =>
      if negb (t0 =?b tag) then None else
      match stol t1 with
      | None => None
      | Some (reply_term, _) => Some (reply_term, t2 =?b lit "1")
      end
  | _ => None
  end.

Definition send_request_vote (peer : bytes) (answer : option bytes) : option (Z * bool) :=
  _ ← split_host_port peer; tok ← rpc answer; read_reply (lit "__VOTE__") tok.
Definition send_append_entries (peer : bytes) (answer : option bytes) : option (Z * bool) :=
  _ ← split_host_port peer; tok ← rpc answer; read_reply (lit "__APPENDED__") tok.

(** ** The timer thread *)

Inductive todo := Nothing | DoHeartbeat | DoElection.

(** The critical section of [tick_loop]; [None] ends the thread. *)
Definition tick (i : instant) (n : RaftNode) : option todo * RaftNode :=
  if negb (running_ n) then (None, n)
  else if role_ n =?b Leader then
    if heartbeat_ms (config_ n) <=? now i - last_heartbeat_sent_ n
    then (Some DoHeartbeat, with_heartbeat (now i) n) else (Some Nothing, n)
  else if election_deadline_ n <=? now i then (Some DoElection, n) else (Some Nothing, n).

(** First section of [start_election].  [current_term_ += 1] is an addition on a
    [long]: at the largest one it overflows, and what the program does then C++
    leaves undefined. *)
Inductive begun := Begun (term : Z) (n : RaftNode) | TermOverflow.

Definition begin_election (i : instant) (n : RaftNode) : begun :=
  let term := current_term_ n + 1 in
  if LONG_MAX <? term then TermOverflow
  else Begun term (reset_election_deadline_locked i
                     (with_election Candidate term (self_id (config_ n)) [] (election_deadline_ n) n)).

(** The section that handles one vote reply. *)
Inductive outcome := Superseded | Won | Continue (votes : nat).

(** [Clock::time_point{}], the clock's epoch. *)
Definition epoch : Z := 0.

Definition count_vote (i : instant) (term : Z) (votes : nat) (reply : Z * bool) (n : RaftNode)
  : outcome * RaftNode :=
  let '(reply_term, granted) := reply in
  if negb (current_term_ n =? term) || negb (role_ n =?b Candidate) then (Superseded, n)
  else if current_term_ n <? reply_term then (Superseded, become_follower_locked i reply_term n)
  else if granted then
    if (majority n <=? S votes)%nat then
      (Won, with_heartbeat epoch
              (with_election Leader (current_term_ n) (voted_for_ n) (self_id (config_ n))
                 (election_deadline_ n) n))
    else (Continue (S votes), n)
  else (Continue votes, n).

(** First section of [send_heartbeats]: the term, if still leader. *)
Definition begin_heartbeats (i : instant) (n : RaftNode) : option (Z * RaftNode) :=
  if role_ n =?b Leader then Some (current_term_ n, with_heartbeat (now i) n) else None.

(** The section that handles one heartbeat reply; [true] goes on. *)
Definition heartbeat_reply (i : instant) (term : Z) (reply : Z * bool) (n : RaftNode)
  : bool * RaftNode :=
  if negb (role_ n =?b Leader) || negb (current_term_ n =? term) then (false, n)
  else if current_term_ n <? reply.1 then (false, become_follower_locked i reply.1 n)
  else (true, n).

(** The network, and the other threads, as one RPC sees them: the answer to a
    request for [peer], the instant of the next critical section, and the
    node as that section finds it. *)
Definition network := bytes -> bytes -> RaftNode -> option bytes * instant * RaftNode.

Fixpoint heartbeat_loop (net : network) (term : Z) (ps : list bytes) (n : RaftNode) : RaftNode :=
  match ps with
  | [] => n
  | peer :: ps' =>
      let '(answer, i, n1) := net peer (append_request term (self_id (config_ n))) n in
      match send_append_entries peer answer with
      | None => heartbeat_loop net term ps' n1
      | Some reply =>
          let '(go_on, n2) := heartbeat_reply i term reply n1 in
          if go_on then heartbeat_loop net term ps' n2 else n2
      end
  end.

Definition send_heartbeats (net : network) (i : instant) (n : RaftNode) : RaftNode :=
  match begin_heartbeats i n with
  | None => n
  | Some (term, n1) => heartbeat_loop net term (peers (config_ n1)) n1
  end.

Fixpoint election_loop (net : network) (term : Z) (ps : list bytes) (votes : nat) (n : RaftNode)
  : bool * RaftNode :=
  match ps with
  | [] => (false, n)
  | peer :: ps' =>
      let '(answer, i, n1) := net peer (vote_request term (self_id (config_ n))) n in
      match send_request_vote peer answer with
      | None => election_loop net term ps' votes n1
      | Some reply =>
          match count_vote i term votes reply n1 with
          | (Superseded, n2) => (false, n2)
          | (Won, n2) => (true, n2)
          | (Continue votes', n2) => election_loop net term ps' votes' n2
          end
      end
  end.

(** [start_election]; [None] where the term overflows. *)
Definition start_election (net : network) (i i' : instant) (n : RaftNode) : option RaftNode :=
  match begin_election i n with
  | TermOverflow => None
  | Begun term n1 =>
      let '(won, n2) := election_loop net term (peers (config_ n1)) 1 n1 in
      Some (if won : bool then send_heartbeats net i' n2 else n2)
  end.

(** ** Queries *)

Definition is_leader (n : RaftNode) : bool := role_ n =?b Leader.

Definition role_text (r : Role) : bytes :=
  match r with Leader => lit "leader" | Candidate => lit "candidate" | Follower => lit "follower" end.

Definition status_line (n : RaftNode) : bytes :=
  let ldr := if leader_id_ n =?b [] then lit "(none)" else leader_id_ n in
  lit "role=" ++ role_text (role_ n) ++ lit " term=" ++ to_string (current_term_ n) ++
  lit " leader=" ++ ldr.

(** ** The peer list *)

Lemma filter_peers_spec (self : bytes) (ps acc : list bytes) :
  NoDup acc -> self ∉ acc ->
  let l := foldl (fun acc p => if negb (p =?b self) && negb (bool_decide (p ∈ acc))
                               then acc ++ [p] else acc) acc ps in
  NoDup l /\ (self ∉ l) /\ (forall p, p ∈ l <-> p ∈ acc \/ (p ∈ ps /\ p <> self)).
Proof.
  revert acc. induction ps as [|q ps IH]; intros acc Hnd Hself; simpl.
  - split; [done|]. split; [done|]. set_solver.
  - destruct (negb (q =?b self) && negb (bool_decide (q ∈ acc))) eqn:E; bool_simpl.
    + destruct (IH (acc ++ [q])) as (H1 & H2 & H3); [|set_solver|].
      { apply NoDup_app. split; [done|]. split; [set_solver|]. apply NoDup_singleton. }
      split; [done|]. split; [done|]. intros p. rewrite H3. set_solver.
    + destruct (IH acc) as (H1 & H2 & H3); [done..|]. split; [done|]. split; [done|].
      intros p. rewrite H3. apply andb_false_iff in E as [E|E]; bool_simpl; set_solver.
Qed.

Lemma filter_peers_ok self ps :
  NoDup (filter_peers self ps) /\ (self ∉ filter_peers self ps) /\
  (forall p, p ∈ filter_peers self ps <-> p ∈ ps /\ p <> self).
Proof.
  destruct (filter_peers_spec self ps []) as (H1 & H2 & H3); [constructor|set_solver|].
  split; [done|]. split; [done|]. intros p. unfold filter_peers. rewrite H3. set_solver.
Qed.

(** ** Replies on the wire *)

Definition long (z : Z) : Prop := LONG_MIN <= z <= LONG_MAX.

Lemma stol_long t v n : stol t = Some (v, n) -> long v.
Proof.
  unfold stol, strto. destruct (scan_number _) as [[x r]|]; [|done].
  destruct (Z.ltb_spec x LONG_MIN); [done|]. destruct (Z.ltb_spec LONG_MAX x); [done|]. by intros [= <- _].
Qed.

Lemma length_decimal_aux f n acc : (length (decimal_aux f n acc) <= f + length acc)%nat.
Proof.
  revert n acc. induction f as [|f IH]; intros n acc; simpl; [done|].
  destruct (n <? 10); simpl; [lia|]. etrans; [apply IH|]. simpl. lia.
Qed.

Lemma length_to_string t : long t -> (length (to_string t) <= 67)%nat.
Proof.
  assert (forall n, 0 <= n <= 9223372036854775808 -> (length (decimal n) <= 66)%nat) as Hd.
  { intros n Hn. unfold decimal. etrans; [apply length_decimal_aux|]. simpl.
    assert (Z.log2_up (n + 1) <= Z.log2_up (2 ^ 64)) by (apply Z.log2_up_le_mono; lia).
    rewrite Z.log2_up_pow2 in H by lia. lia. }
  unfold long, LONG_MIN, LONG_MAX, to_string. intros Ht. destruct (Z.ltb_spec t 0); simpl.
  - specialize (Hd (- t)). lia.
  - specialize (Hd t). lia.
Qed.

Lemma space_stops (r : bytes) : stops (fun c => negb (is_space c)) (" "%char :: r).
Proof. done. Qed.

Lemma tokens_cons ws t r :
  Forall (fun c => is_space c = true) ws -> t <> [] -> Forall (fun c => is_space c = false) t ->
  stops (fun c => negb (is_space c)) r -> tokens (ws ++ t ++ r) = t :: tokens r.
Proof.
  intros Hws Ht Hns Hr. assert (forall f g s, (length s <= f)%nat -> (length s <= g)%nat ->
    tokens_loop f s = tokens_loop g s) as Hfuel.
  { clear. induction f as [|f IH]; intros g s Hf Hg.
    - destruct s; [|simpl in *; lia]. by destruct g.
    - destruct g as [|g]; [destruct s; [done|simpl in *; lia]|]. simpl.
      destruct (extract_token s) as [[t r]|] eqn:E; [|done].
      apply extract_token_shorter in E. f_equal. apply IH; lia. }
  unfold tokens. pose proof (extract_token_app ws t r Hws Ht Hns Hr) as E.
  pose proof (extract_token_shorter _ _ _ E) as Hl.
  destruct (length (ws ++ t ++ r)) as [|f] eqn:El; [lia|]. simpl. rewrite E. f_equal. apply Hfuel; lia.
Qed.

(** Three tokens separated by single spaces. *)
Lemma tokens_three a b c :
  a <> [] -> b <> [] -> c <> [] ->
  Forall (fun c => is_space c = false) a -> Forall (fun c => is_space c = false) b ->
  Forall (fun c => is_space c = false) c ->
  tokens (a ++ lit " " ++ b ++ lit " " ++ c) = [a; b; c].
Proof.
  intros. assert (Forall (fun c => is_space c = true) (lit " ")) by by repeat constructor.
  etrans; [by apply (tokens_cons [] a)|]. f_equal.
  rewrite (tokens_cons (lit " ") b) by done. f_equal.
  rewrite <- (app_nil_r c) at 1. by rewrite (tokens_cons (lit " ") c []).
Qed.

Lemma flag_token b : flag b <> [] /\ Forall (fun c => is_space c = false) (flag b).
Proof. destruct b; split; try done; by repeat constructor. Qed.

Lemma read_reply_line tag t b :
  tag <> [] -> Forall (fun c => is_space c = false) tag -> long t ->
  read_reply tag (tokens (tag ++ lit " " ++ to_string t ++ lit " " ++ flag b)) = Some (t, b).
Proof.
  intros Htag Hns Ht. destruct (flag_token b) as [Hf Hfs].
  rewrite tokens_three by (done || apply to_string_nonempty || apply to_string_not_space).
  simpl. rewrite bool_decide_true by done. simpl. unfold stol.
  rewrite <- (app_nil_r (to_string t)). rewrite strto_to_string by done. by destruct b.
Qed.

Lemma not_space_no_newline s : Forall (fun c => is_space c = false) s -> newline ∉ s.
Proof.
  intros H Hin. rewrite List.Forall_forall in H. specialize (H newline).
  rewrite <- list_elem_of_In in H. by specialize (H Hin).
Qed.

Lemma reply_received tag t b rest :
  tag <> [] -> Forall (fun c => is_space c = false) tag -> blen tag <= 100 -> long t ->
  raft_recv_line ((tag ++ lit " " ++ to_string t ++ lit " " ++ flag b) ++ newline :: rest) =
  Some (tag ++ lit " " ++ to_string t ++ lit " " ++ flag b).
Proof.
  intros Htag Hns Hl Ht. unfold raft_recv_line. rewrite raft_recv_loop_line; [done| |].
  - pose proof (not_space_no_newline tag Hns). pose proof (not_space_no_newline _ (to_string_not_space t)).
    pose proof (not_space_no_newline _ (proj2 (flag_token b))).
    rewrite !elem_of_app. assert (newline ∉ lit " ") by (apply (bool_decide_unpack _); by vm_compute). tauto.
  - pose proof (length_to_string t Ht). unfold blen in *. simpl. rewrite !length_app. simpl.
    rewrite length_app. simpl. assert (length (flag b) = 1%nat) as -> by by destruct b.
    unfold kMaxLine. lia.
Qed.

Lemma vote_line_received peer t b rest :
  is_Some (split_host_port peer) -> long t ->
  send_request_vote peer (Some (vote_line t b ++ newline :: rest)) = Some (t, b).
Proof.
  intros [hp E] Ht. unfold send_request_vote, rpc. rewrite E. cbn [mbind option_bind].
  pose proof (reply_received (lit "__VOTE__") t b rest) as Hr.
  pose proof (read_reply_line (lit "__VOTE__") t b) as Hp.
  change (vote_line t b) with (lit "__VOTE__" ++ lit " " ++ to_string t ++ lit " " ++ flag b).
  rewrite Hr by (done || by repeat constructor). cbn [mbind option_bind]. apply Hp; [done|by repeat constructor|done].
Qed.

Lemma appended_line_received peer t b rest :
  is_Some (split_host_port peer) -> long t ->
  send_append_entries peer (Some (appended_line t b ++ newline :: rest)) = Some (t, b).
Proof.
  intros [hp E] Ht. unfold send_append_entries, rpc. rewrite E. cbn [mbind option_bind].
  pose proof (reply_received (lit "__APPENDED__") t b rest) as Hr.
  pose proof (read_reply_line (lit "__APPENDED__") t b) as Hp.
  change (appended_line t b) with (lit "__APPENDED__" ++ lit " " ++ to_string t ++ lit " " ++ flag b).
  rewrite Hr by (done || by repeat constructor). cbn [mbind option_bind]. apply Hp; [done|by repeat constructor|done].
Qed.

(** ** Elections *)

(** Handling an RPC never moves the term back, and leaves the configuration. *)
Lemma handle_request_vote_term i t c n :
  let n' := (handle_request_vote i t c n).2 in
  config_ n' = config_ n /\ current_term_ n' = Z.max (current_term_ n) t /\
  (current_term_ n' = current_term_ n -> voted_for_ n' = voted_for_ n \/ (voted_for_ n = [] /\ voted_for_ n' = c)).
Proof.
  unfold handle_request_vote. destruct (Z.ltb_spec (current_term_ n) t); simpl.
  - rewrite Z.eqb_refl. simpl. split; [done|]. split; [lia|]. lia.
  - destruct (Z.eqb_spec t (current_term_ n)); simpl; [|split; [done|]; split; [lia|by left]].
    destruct (voted_for_ n =?b []) eqn:E1; destruct (voted_for_ n =?b c) eqn:E2; simpl;
      bool_simpl; (split; [done|]); (split; [lia|]); naive_solver.
Qed.

(** What a peer answers when nothing interferes. *)
Definition quiet (net : network) : Prop :=
  forall peer req n, (net peer req n).2 = n.
Definition answer_of (net : network) (peer req : bytes) (n : RaftNode) : option bytes :=
  (net peer req n).1.1.
Definition grants (net : network) (term : Z) (n : RaftNode) (peer : bytes) : bool :=
  match send_request_vote peer (answer_of net peer (vote_request term (self_id (config_ n))) n) with
  | Some (_, g) => g
  | None => false
  end.
Definition not_newer (net : network) (term : Z) : Prop :=
  forall peer req n rt g,
    (send_request_vote peer (answer_of net peer req n) = Some (rt, g) \/
     send_append_entries peer (answer_of net peer req n) = Some (rt, g)) -> rt <= term.

Definition count_grants (net : network) (term : Z) (n : RaftNode) (ps : list bytes) : nat :=
  length (List.filter (grants net term n) ps).

Lemma election_loop_wins net term ps votes n :
  quiet net -> not_newer net term -> role_ n = Candidate -> current_term_ n = term ->
  (votes < majority n)%nat -> (majority n <= votes + count_grants net term n ps)%nat ->
  exists n', election_loop net term ps votes n = (true, n') /\ role_ n' = Leader /\
             current_term_ n' = term /\ leader_id_ n' = self_id (config_ n) /\ config_ n' = config_ n.
Proof.
  intros Hq Hnn Hr Ht. revert votes. induction ps as [|p ps IH]; intros votes Hv Hm.
  { unfold count_grants in Hm. simpl in Hm. lia. }
  unfold count_grants in *. cbn [election_loop]. pose proof (Hq p (vote_request term (self_id (config_ n))) n) as Hn.
  destruct (net p (vote_request term (self_id (config_ n))) n) as [[a i] n1] eqn:En. simpl in Hn. subst n1.
  assert (answer_of net p (vote_request term (self_id (config_ n))) n = a) as Ha
    by (unfold answer_of; by rewrite En).
  assert (grants net term n p = match send_request_vote p a with Some (_, g) => g | None => false end)
    as Hg by (unfold grants; by rewrite Ha).
  cbn [List.filter] in Hm. rewrite Hg in Hm.
  destruct (send_request_vote p a) as [[rt g]|] eqn:Es; [|by apply IH].
  assert (rt <= term) as Hrt by (eapply Hnn; left; by rewrite Ha).
  unfold count_vote. rewrite Ht, Hr, Z.eqb_refl, bool_decide_true by done. cbn [negb orb].
  destruct (Z.ltb_spec term rt); [lia|]. destruct g.
  - simpl in Hm. destruct (Nat.leb_spec (majority n) (S votes)); [by eexists|]. apply IH; lia.
  - by apply IH.
Qed.

Lemma heartbeat_loop_leader net term ps n :
  quiet net -> not_newer net term -> role_ n = Leader -> current_term_ n = term ->
  heartbeat_loop net term ps n = n.
Proof.
  intros Hq Hnn Hr Ht. induction ps as [|p ps IH]; [done|]. cbn [heartbeat_loop].
  pose proof (Hq p (append_request term (self_id (config_ n))) n) as Hn.
  destruct (net p (append_request term (self_id (config_ n))) n) as [[a i] n1] eqn:En.
  simpl in Hn. subst n1. destruct (send_append_entries p a) as [[rt g]|] eqn:Es; [|done].
  assert (rt <= term) as Hrt.
  { eapply (Hnn p (append_request term (self_id (config_ n))) n). right.
    unfold answer_of. rewrite En. exact Es. }
  unfold heartbeat_reply. rewrite Hr, Ht, Z.eqb_refl, bool_decide_true by done. simpl.
  by destruct (Z.ltb_spec term rt); [lia|].
Qed.

(** C34: an election with a quorum succeeds.  If nothing interferes, no reply
    carries a newer term and, counting the candidate's own vote, a majority of
    the cluster answers with a granted vote, [start_election] ends with this
    node leading the next term, under its own name.  (A node with no peers
    never counts even its own vote: hence the first hypothesis.) *)
Theorem raft_election_wins net i i' n :
  peers (config_ n) <> [] -> current_term_ n < LONG_MAX ->
  quiet net -> not_newer net (current_term_ n + 1) ->
  (forall m, config_ m = config_ n -> current_term_ m = current_term_ n + 1 ->
     (majority n <= 1 + count_grants net (current_term_ n + 1) m (peers (config_ n)))%nat) ->
  exists n', start_election net i i' n = Some n' /\ is_leader n' = true /\
             current_term_ n' = current_term_ n + 1 /\ leader_id_ n' = self_id (config_ n).
Proof.
  intros Hp Hlt Hq Hnn Hm. unfold start_election, begin_election.
  destruct (Z.ltb_spec LONG_MAX (current_term_ n + 1)); [lia|].
  set (n1 := reset_election_deadline_locked i _).
  assert (1 < majority n1)%nat as Hmaj.
  { change (majority n1) with (majority n). unfold majority.
    destruct (peers (config_ n)) as [|p ps]; [done|]. simpl length.
    assert (1 <= (S (length ps) + 1) / 2)%nat by (apply Nat.div_le_lower_bound; lia). lia. }
  destruct (election_loop_wins net (current_term_ n + 1) (peers (config_ n1)) 1 n1)
    as (n2 & -> & Hr & Ht & Hl & Hc); [done..|by apply Hm|].
  unfold send_heartbeats, begin_heartbeats. rewrite bool_decide_true by done.
  rewrite heartbeat_loop_leader by (done || (simpl; by rewrite Ht) || by rewrite Ht).
  eexists. split; [done|]. unfold is_leader. simpl. by rewrite Hr, Ht, Hl, bool_decide_true.
Qed.

(** a cluster of one never has a leader.  When the constructor's filter
    leaves no peers, [majority()] is 1 and the node's own vote is one, but the
    count is only compared after a peer's reply: no election is ever won. *)
Theorem raft_lone_node_never_leads net i i' n n' :
  peers (config_ n) = [] -> start_election net i i' n = Some n' ->
  majority n = 1%nat /\ is_leader n' = false /\ current_term_ n' = current_term_ n + 1.
Proof.
  intros Hp. unfold start_election, begin_election.
  destruct (LONG_MAX <? current_term_ n + 1); [done|].
  change (config_ (reset_election_deadline_locked i _)) with (config_ n). rewrite Hp.
  intros [= <-]. unfold majority. rewrite Hp. done.
Qed.

(** Three nodes, of which the first stands and everyone votes for it. *)
Definition demo_config : Config :=
  {| self_id := lit "h:1"; peers := [lit "h:2"; lit "h:1"; lit "h:3"; lit "h:2"]; heartbeat_ms := 100;
     election_timeout_min_ms := 400; election_timeout_max_ms := 800; rpc_timeout_ms := 120 |}.
Definition demo_instant : instant := {| now := 0; draw := 500 |}.
Definition demo_net : network :=
  fun _ _ n => (Some (vote_line 1 true ++ [newline]), demo_instant, n).

Lemma raft_election_wins_witness :
  peers (config_ (raft_new demo_config demo_instant)) = [lit "h:2"; lit "h:3"] /\
  exists n', start_election demo_net demo_instant demo_instant (raft_new demo_config demo_instant) = Some n' /\
             is_leader n' = true /\ current_term_ n' = 1 /\ leader_id_ n' = lit "h:1".
Proof.
  split; [by vm_compute|].
  apply (raft_election_wins demo_net demo_instant demo_instant (raft_new demo_config demo_instant)).
  - by vm_compute.
  - by vm_compute.
  - done.
  - intros peer req n rt g. unfold answer_of, demo_net, send_request_vote, send_append_entries. simpl.
    destruct (split_host_port peer); simpl; [|naive_solver].
    intros [H|H]; [|done]. assert ((1, true) = (rt, g)) as [= <- <-] by (injection H; intros; by f_equal).
    by vm_compute.
  - intros m _ _. by vm_compute; lia.
Defined.

Lemma raft_lone_node_never_leads_witness :
  let n := raft_new {| self_id := lit "h:1"; peers := [lit "h:1"]; heartbeat_ms := 100;
     election_timeout_min_ms := 400; election_timeout_max_ms := 800; rpc_timeout_ms := 120 |} demo_instant in
  exists n', start_election demo_net demo_instant demo_instant n = Some n' /\
    (majority n = 1%nat /\ is_leader n' = false /\ current_term_ n' = current_term_ n + 1).
Proof.
  intros n. eexists. split; [reflexivity|].
  apply (raft_lone_node_never_leads demo_net demo_instant demo_instant n); by vm_compute.
Defined.
