(* ===== verification/RaftCluster.v ===== *)
(** * A Raft cluster: at most one leader per term (src/raft.cpp)

    The nodes of a cluster, interleaved at the granularity of their critical
    sections.  Any node may at any moment handle any RPC from anyone, members
    or not; replies may be lost, delayed and delivered again; the timer thread
    of each node advances one critical section at a time. *)

From S2P Require Import Prelude Stream Address Net Raft.

Local Open Scope Z_scope.

(** Where a node's timer thread is: between ticks, about to start an election
    or a round of heartbeats, or inside one with the peers still to be asked. *)
Inductive phase :=
  | PIdle
  | PElect
  | PBeat
  | PVoting (term : Z) (votes : nat) (pending : list bytes)
  | PBeating (term : Z) (pending : list bytes).

Definition phase_of (d : todo) : phase :=
  match d with Nothing => PIdle | DoHeartbeat => PBeat | DoElection => PElect end.

(** [soup]: the vote replies ever sent (voter, term and candidate asked about,
    line).  [ballots] and [wins] record the votes cast and the elections won. *)
Record Cluster := {
  nodes : gmap bytes (RaftNode * phase);
  soup : list (bytes * Z * bytes * bytes);
  ballots : list (bytes * Z * bytes);
  wins : list (Z * bytes);
}.

Definition update (c : Cluster) (id : bytes) (n : RaftNode) (ph : phase)
    (ls : list (bytes * Z * bytes * bytes)) (bs : list (bytes * Z * bytes)) (ws : list (Z * bytes))
  : Cluster :=
  {| nodes := <[id := (n, ph)]> (nodes c); soup := ls ++ soup c;
     ballots := bs ++ ballots c; wins := ws ++ wins c |}.

(** The cluster at start-up: one node per configuration, its thread running. *)
Definition boot (conf : gmap bytes Config) (i : instant) : Cluster :=
  {| nodes := (fun c => ((raft_start (raft_new c i)).2, PIdle)) <$> conf;
     soup := []; ballots := []; wins := [] |}.

Definition after_vote (term : Z) (pending : list bytes) (o : outcome) : phase :=
  match o with
  | Superseded => PIdle
  | Won => PBeat
  | Continue votes => PVoting term votes pending
  end.

(** [restarts]: whether a node may crash and come back with its initial state.  A
    node whose election would overflow its term has no step for it: the program's
    behaviour is undefined from there on. *)
Inductive step (restarts : bool) (c : Cluster) : Cluster -> Prop :=
  | step_tick id n i d n' :
      nodes c !! id = Some (n, PIdle) -> tick i n = (Some d, n') ->
      step restarts c (update c id n' (phase_of d) [] [] [])
  | step_stop id n ph :
      nodes c !! id = Some (n, ph) ->
      step restarts c (update c id (raft_stop n).2 ph [] [] [])
  | step_vote_rpc id n ph i t cand line n' :
      nodes c !! id = Some (n, ph) -> long t -> handle_request_vote i t cand n = (line, n') ->
      step restarts c (update c id n' ph [(id, t, cand, line)]
        (if line =?b vote_line t true then [(id, t, cand)] else []) [])
  | step_append_rpc id n ph i t ldr line n' :
      nodes c !! id = Some (n, ph) -> long t -> handle_append_entries i t ldr n = (line, n') ->
      step restarts c (update c id n' ph [] [] [])
  | step_begin id n i t n' :
      nodes c !! id = Some (n, PElect) -> begin_election i n = Begun t n' ->
      step restarts c (update c id n' (PVoting t 1 (peers (config_ n'))) []
        [(id, t, self_id (config_ n))] [])
  | step_vote_lost id n t k p ps :
      nodes c !! id = Some (n, PVoting t k (p :: ps)) ->
      step restarts c (update c id n (PVoting t k ps) [] [] [])
  | step_vote_reply id n t k p ps line reply i o n' :
      nodes c !! id = Some (n, PVoting t k (p :: ps)) ->
      (p, t, self_id (config_ n), line) ∈ soup c ->
      send_request_vote p (Some (line ++ [newline])) = Some reply ->
      count_vote i t k reply n = (o, n') ->
      step restarts c (update c id n' (after_vote t ps o) [] []
        (match o with Won => [(t, id)] | _ => [] end))
  | step_vote_done id n t k :
      nodes c !! id = Some (n, PVoting t k []) ->
      step restarts c (update c id n PIdle [] [] [])
  | step_beat id n i t n' :
      nodes c !! id = Some (n, PBeat) -> begin_heartbeats i n = Some (t, n') ->
      step restarts c (update c id n' (PBeating t (peers (config_ n'))) [] [] [])
  | step_beat_not id n i :
      nodes c !! id = Some (n, PBeat) -> begin_heartbeats i n = None ->
      step restarts c (update c id n PIdle [] [] [])
  | step_beat_lost id n t p ps :
      nodes c !! id = Some (n, PBeating t (p :: ps)) ->
      step restarts c (update c id n (PBeating t ps) [] [] [])
  | step_beat_reply id n t p ps reply i b n' :
      nodes c !! id = Some (n, PBeating t (p :: ps)) -> long reply.1 ->
      heartbeat_reply i t reply n = (b, n') ->
      step restarts c (update c id n' (if b : bool then PBeating t ps else PIdle) [] [] [])
  | step_beat_done id n t :
      nodes c !! id = Some (n, PBeating t []) ->
      step restarts c (update c id n PIdle [] [] [])
  | step_restart id n ph i :
      restarts = true -> nodes c !! id = Some (n, ph) ->
      step restarts c (update c id (raft_start (raft_new (config_ n) i)).2 PIdle [] [] []).

(** Every node is configured with the addresses of all the others. *)
Definition well_configured (conf : gmap bytes Config) : Prop :=
  map_Forall (fun id c => id <> [] /\ self_id c = id /\
                          {[id]} ∪ list_to_set (peers c) = (dom conf : gset bytes)) conf.

Section safety.
Context (M : gset bytes).

Definition conf_ok (id : bytes) (n : RaftNode) : Prop :=
  id <> [] /\ self_id (config_ n) = id /\ NoDup (peers (config_ n)) /\ (id ∉ peers (config_ n)) /\
  {[id]} ∪ list_to_set (peers (config_ n)) = M.

(** [Q] voted for [id] in term [t]. *)
Definition voters (bs : list (bytes * Z * bytes)) (t : Z) (id : bytes) (Q : gset bytes) : Prop :=
  Q ⊆ M /\ forall v, v ∈ Q -> (v, t, id) ∈ bs.

Definition phase_ok (bs : list (bytes * Z * bytes)) (id : bytes) (n : RaftNode) (ph : phase) : Prop :=
  match ph with
  | PVoting t k ps =>
      exists Q, voters bs t id Q /\ size Q = k /\ NoDup ps /\ list_to_set ps ⊆ M /\ Q ## list_to_set ps
  | _ => True
  end.

Definition soup_ok (bs : list (bytes * Z * bytes)) (m : bytes * Z * bytes * bytes) : Prop :=
  let '(v, t, cand, line) := m in
  exists t' g, line = vote_line t' g /\ long t' /\ (g = true -> (v, t, cand) ∈ bs).

Definition win_ok (bs : list (bytes * Z * bytes)) (w : Z * bytes) : Prop :=
  w.2 <> [] /\ exists Q, voters bs w.1 w.2 Q /\ (size M < 2 * size Q)%nat.

Record node_ok (c : Cluster) (id : bytes) (n : RaftNode) (ph : phase) : Prop := {
  node_conf : conf_ok id n;
  node_term : long (current_term_ n);
  node_ballot t cand : (id, t, cand) ∈ ballots c ->
    t <= current_term_ n /\ (t = current_term_ n -> cand <> [] -> voted_for_ n = cand);
  node_phase : phase_ok (ballots c) id n ph;
  node_leader : role_ n = Leader -> (current_term_ n, id) ∈ wins c;
}.

Record inv (c : Cluster) : Prop := {
  inv_nodes id n ph : nodes c !! id = Some (n, ph) -> node_ok c id n ph;
  inv_members v t cand : (v, t, cand) ∈ ballots c -> is_Some (nodes c !! v);
  inv_once v t a b :
    (v, t, a) ∈ ballots c -> (v, t, b) ∈ ballots c -> a <> [] -> b <> [] -> a = b;
  inv_soup : Forall (soup_ok (ballots c)) (soup c);
  inv_wins : Forall (win_ok (ballots c)) (wins c);
}.

(** More ballots keep what ballots support. *)
Lemma voters_mono bs bs' t id Q : voters bs t id Q -> voters (bs' ++ bs) t id Q.
Proof. intros [? H]. split; [done|]. intros v Hv. apply elem_of_app. right. by apply H. Qed.

Lemma phase_ok_mono bs bs' id n n' ph : phase_ok bs id n ph -> phase_ok (bs' ++ bs) id n' ph.
Proof. destruct ph; try done. intros (Q & ? & ?). exists Q. split; [by apply voters_mono|done]. Qed.

Lemma soup_ok_mono bs bs' m : soup_ok bs m -> soup_ok (bs' ++ bs) m.
Proof.
  destruct m as [[[v t] cand] line]. intros (t' & g & ? & ? & H). exists t', g.
  split; [done|]. split; [done|]. intros Hg. apply elem_of_app. right. by apply H.
Qed.

Lemma win_ok_mono bs bs' w : win_ok bs w -> win_ok (bs' ++ bs) w.
Proof. intros (? & Q & ? & ?). split; [done|]. exists Q. split; [by apply voters_mono|done]. Qed.

(** What a step of one node owes for the invariant to survive. *)
Record moves (c : Cluster) (id : bytes) (n n' : RaftNode) (ph' : phase)
    (ls : list (bytes * Z * bytes * bytes)) (bs : list (bytes * Z * bytes)) (ws : list (Z * bytes)) : Prop := {
  mv_conf : config_ n' = config_ n;
  mv_long : long (current_term_ n');
  mv_term : current_term_ n <= current_term_ n';
  mv_vote : current_term_ n' = current_term_ n -> voted_for_ n <> [] -> voted_for_ n' = voted_for_ n;
  mv_ballots v t cand : (v, t, cand) ∈ bs ->
    v = id /\ t = current_term_ n' /\ (cand <> [] -> voted_for_ n' = cand);
  mv_phase : phase_ok (bs ++ ballots c) id n' ph';
  mv_soup : Forall (soup_ok (bs ++ ballots c)) ls;
  mv_wins : Forall (win_ok (bs ++ ballots c)) ws;
  mv_leader : role_ n' = Leader -> (current_term_ n', id) ∈ ws ++ wins c;
}.

Lemma inv_update c id n ph n' ph' ls bs ws :
  inv c -> nodes c !! id = Some (n, ph) -> moves c id n n' ph' ls bs ws ->
  inv (update c id n' ph' ls bs ws).
Proof.
  intros [In Im Io Is Iw] Hn [Mc Ml Mt Mv Mb Mp Ms Mw Mr].
  pose proof (In _ _ _ Hn) as [Nc Nt Nb Np Nl].
  assert (forall t a, (id, t, a) ∈ bs ++ ballots c ->
    t <= current_term_ n' /\ (t = current_term_ n' -> a <> [] -> voted_for_ n' = a)) as Hb.
  { intros t a [Hin|Hin]%elem_of_app.
    - apply Mb in Hin as (_ & -> & Hv). split; [lia|done].
    - destruct (Nb _ _ Hin) as [Hle Hv]. split; [lia|]. intros -> Ha.
      assert (current_term_ n' = current_term_ n) as E by lia.
      specialize (Hv E Ha). rewrite Mv; [done|done|congruence]. }
  split; simpl.
  - intros id' m ph0. destruct (decide (id' = id)) as [->|Hne].
    + rewrite lookup_insert_eq. intros [= <- <-]. split; simpl; [|done..].
      unfold conf_ok in *. by rewrite Mc.
    + rewrite lookup_insert_ne by done. intros Hm. destruct (In _ _ _ Hm) as [Nc' Nt' Nb' Np' Nl'].
      split; simpl; [done|done| |by eapply phase_ok_mono|].
      * intros t a [Hin|Hin]%elem_of_app; [by apply Mb in Hin as [? _]|by apply Nb'].
      * intros Hr. apply elem_of_app. right. by apply Nl'.
  - intros v t a [Hin|Hin]%elem_of_app.
    + apply Mb in Hin as [-> _]. rewrite lookup_insert_eq. by eexists.
    + apply lookup_insert_is_Some'. right. by eapply Im.
  - intros v t a b Ha Hb' Hna Hnb. pose proof Ha as Ha'. pose proof Hb' as Hb''.
    apply elem_of_app in Ha as [Ha|Ha], Hb' as [Hb'|Hb']; [| | |by eapply Io].
    + apply Mb in Ha as (_ & _ & Ha), Hb' as (_ & _ & Hb'). specialize (Ha Hna). specialize (Hb' Hnb). congruence.
    + apply Mb in Ha as (-> & -> & Ha). specialize (Ha Hna). destruct (Hb _ _ Hb'') as [_ H].
      specialize (H eq_refl Hnb). congruence.
    + apply Mb in Hb' as (-> & -> & Hb'). specialize (Hb' Hnb). destruct (Hb _ _ Ha') as [_ H].
      specialize (H eq_refl Hna). congruence.
  - apply Forall_app. split; [done|]. eapply Forall_impl; [done|]. apply soup_ok_mono.
  - apply Forall_app. split; [done|]. eapply Forall_impl; [done|]. apply win_ok_mono.
Qed.

(** A section that changes neither the term nor the vote, and makes no leader. *)
Lemma moves_same c id n ph n' ph' :
  node_ok c id n ph -> config_ n' = config_ n -> current_term_ n' = current_term_ n ->
  voted_for_ n' = voted_for_ n -> (role_ n' = Leader -> role_ n = Leader) ->
  phase_ok (ballots c) id n' ph' -> moves c id n n' ph' [] [] [].
Proof.
  intros [Nc Nt Nb Np Nl] Hc Ht Hv Hr Hp.
  split; simpl; rewrite ?Ht; try done; [set_solver|]. intros Hl. by apply Nl, Hr.
Qed.

(** One that moves to a newer term as a follower. *)
Lemma moves_newer c id n ph n' ph' :
  node_ok c id n ph -> config_ n' = config_ n -> current_term_ n < current_term_ n' ->
  long (current_term_ n') -> role_ n' <> Leader ->
  phase_ok (ballots c) id n' ph' -> moves c id n n' ph' [] [] [].
Proof. intros [Nc Nt Nb Np Nl] Hc Ht Hl Hr Hp. split; simpl; try done; [lia|lia|set_solver]. Qed.

Lemma phase_ok_node bs id n n' ph : phase_ok bs id n ph -> phase_ok bs id n' ph.
Proof. by destruct ph. Qed.

Lemma moves_append c id n ph i t ldr :
  node_ok c id n ph -> long t ->
  moves c id n (handle_append_entries i t ldr n).2 ph [] [] [].
Proof.
  intros Hn Ht. pose proof (phase_ok_node _ _ _ (handle_append_entries i t ldr n).2 _ (node_phase _ _ _ _ Hn)) as Hp.
  unfold handle_append_entries in *. destruct (Z.leb_spec (current_term_ n) t); simpl in *.
  - destruct (Z.ltb_spec (current_term_ n) t).
    + by apply (moves_newer c id n ph).
    + by apply (moves_same c id n ph).
  - by apply (moves_same c id n ph).
Qed.

Lemma vote_line_inj t g t' g' : vote_line t g = vote_line t' g' -> t = t' /\ g = g'.
Proof.
  unfold vote_line. intros H. apply app_inv_head in H.
  apply (f_equal (fun s => (span (fun c => negb (is_space c)) s))) in H.
  assert (forall t b, span (fun c => negb (is_space c)) (to_string t ++ lit " " ++ flag b) =
                      (to_string t, lit " " ++ flag b)) as Hs.
  { intros t0 b. apply span_app; [|done]. eapply Forall_impl; [apply to_string_not_space|]. by intros c ->. }
  rewrite !Hs in H. injection H as H1 H2. split; [by apply to_string_inj|]. by destruct g, g'.
Qed.

Lemma moves_vote c id n ph i t cand line n' :
  node_ok c id n ph -> long t -> handle_request_vote i t cand n = (line, n') ->
  moves c id n n' ph [(id, t, cand, line)]
    (if line =?b vote_line t true then [(id, t, cand)] else []) [].
Proof.
  intros Hn Ht E. pose proof Hn as [Nc Nt Nb Np Nl].
  destruct (handle_request_vote_term i t cand n) as (Hc & Hm & Hv). rewrite E in Hc, Hm, Hv. simpl in *.
  assert (exists g, line = vote_line (current_term_ n') g /\
                    (g = true -> t = current_term_ n' /\ voted_for_ n' = cand)) as (g & -> & Hg).
  { unfold handle_request_vote in E.
    match type of E with (vote_line _ ?b, _) = _ => exists b; destruct b eqn:Eb end; simplify_eq; [|done].
    split; [done|]. intros _. bool_simpl. done. }
  assert (role_ n' = Leader -> role_ n = Leader /\ current_term_ n' = current_term_ n) as Hr.
  { unfold handle_request_vote in E. destruct (Z.ltb_spec (current_term_ n) t); simplify_eq; simpl.
    - rewrite Z.eqb_refl. done.
    - destruct ((t =? current_term_ n) && _); done. }
  assert (long (current_term_ n')) as Hl by (rewrite Hm; unfold long in *; lia).
  assert (forall bs, soup_ok ((if vote_line (current_term_ n') g =?b vote_line t true
      then [(id, t, cand)] else []) ++ bs) (id, t, cand, vote_line (current_term_ n') g)) as Hs.
  { intros bs. exists (current_term_ n'), g. split; [done|]. split; [done|]. intros ->.
    destruct (Hg eq_refl) as [-> _]. rewrite bool_decide_true by done. by left. }
  split; [done|done|lia| | |exact (phase_ok_mono _ _ _ n _ _ Np)|constructor; [apply Hs|constructor]|constructor|].
  - intros E' Hne. by destruct (Hv E') as [?|[? _]].
  - intros v t' a. case_bool_decide as Eb; [|set_solver]. apply vote_line_inj in Eb as [_ ->].
    destruct (Hg eq_refl) as [-> ?]. rewrite list_elem_of_singleton. by intros [= -> -> ->].
  - intros Hld. destruct (Hr Hld) as [? ->]. by apply Nl.
Qed.

Lemma moves_begin c id n ph i t n' :
  node_ok c id n ph -> id ∈ M -> begin_election i n = Begun t n' ->
  moves c id n n' (PVoting t 1 (peers (config_ n'))) [] [(id, t, self_id (config_ n))] [].
Proof.
  intros [(Hid & Hself & Hnd & Hnin & HM) Nt Nb Np Nl] HidM. unfold begin_election.
  destruct (Z.ltb_spec LONG_MAX (current_term_ n + 1)); [done|]. intros [= <- <-].
  unfold long in *. split; simpl; [done|unfold long; lia|lia|intros; lia| | |constructor|constructor|done].
  - intros v t a. rewrite list_elem_of_singleton. by intros [= -> -> ->].
  - rewrite Hself. exists {[id]}. split; [|split; [apply size_singleton|]].
    + split; [set_solver|]. intros v ->%elem_of_singleton. by left.
    + split; [done|]. set_solver.
Qed.

Lemma majority_quorum id n k :
  conf_ok id n -> (majority n <= k)%nat -> (size M < 2 * k)%nat.
Proof.
  intros (_ & _ & Hnd & Hnin & <-). rewrite size_union by set_solver.
  rewrite size_singleton, size_list_to_set by done. unfold majority.
  pose proof (Nat.div_mod_eq (length (peers (config_ n)) + 1) 2).
  pose proof (Nat.mod_upper_bound (length (peers (config_ n)) + 1) 2). lia.
Qed.

Lemma moves_count c id n t k p ps line reply i o n' :
  inv c -> node_ok c id n (PVoting t k (p :: ps)) ->
  (p, t, self_id (config_ n), line) ∈ soup c ->
  send_request_vote p (Some (line ++ [newline])) = Some reply ->
  count_vote i t k reply n = (o, n') ->
  moves c id n n' (after_vote t ps o) [] [] (match o with Won => [(t, id)] | _ => [] end).
Proof.
  intros Hinv Hn Hin Hs Hcv. pose proof Hn as [Nc Nt Nb Np Nl].
  pose proof Nc as (Hid & Hself & _).
  destruct Np as (Q & [HQ HQv] & HQk & Hnd & HpsM & Hdisj).
  apply NoDup_cons in Hnd as [Hp Hnd]. rewrite list_to_set_cons in HpsM, Hdisj.
  pose proof (inv_soup _ Hinv) as HS. rewrite List.Forall_forall in HS.
  specialize (HS _ (proj1 (list_elem_of_In _ _) Hin)). destruct HS as (t' & g & -> & Hlt & Hg).
  assert (is_Some (split_host_port p)) as Hsp.
  { unfold send_request_vote in Hs. destruct (split_host_port p); [by eexists|done]. }
  rewrite vote_line_received in Hs by done. injection Hs as <-.
  assert (voters (ballots c) t id Q /\ Q ## list_to_set ps) as [HV Hd] by (split; [done|set_solver]).
  assert (g = true -> voters (ballots c) t id ({[p]} ∪ Q) /\ size ({[p]} ∪ Q) = S k /\
            ({[p]} ∪ Q) ## list_to_set ps) as HQ'.
  { intros Hgt. split; [split; [set_solver|]|split].
    - intros v [->%elem_of_singleton|Hv]%elem_of_union; [|by apply HQv].
      rewrite <- Hself. by apply Hg.
    - rewrite size_union, size_singleton by set_solver. lia.
    - set_solver. }
  unfold count_vote in Hcv.
  destruct (negb (current_term_ n =? t) || negb (role_ n =?b Candidate)) eqn:Eg.
  { injection Hcv as <- <-. by eapply moves_same. }
  apply orb_false_iff in Eg as [Et Er]. bool_simpl. rewrite Et in *. destruct (Z.ltb_spec t t').
  { injection Hcv as <- <-. eapply moves_newer; [done|done|simpl; lia|done|done|done]. }
  destruct g; [destruct (HQ' eq_refl) as (HV' & Hk' & Hd')|].
  - destruct (Nat.leb_spec (majority n) (S k)); injection Hcv as <- <-.
    + split; simpl; [done|done|lia|done|set_solver|done|constructor| |intros _; by left].
      constructor; [|constructor]. split; [done|]. exists ({[p]} ∪ Q). split; [done|].
      eapply majority_quorum; [done|]. by rewrite Hk'.
    + eapply moves_same; [done..|]. exists ({[p]} ∪ Q). split; [done|]. split; [done|].
      split; [done|]. split; [set_solver|done].
  - injection Hcv as <- <-. eapply moves_same; [done..|]. exists Q. split; [done|]. split; [done|].
    split; [done|]. split; [set_solver|done].
Qed.

Lemma inv_step c c' : (forall id, is_Some (nodes c !! id) -> id ∈ M) -> inv c -> step false c c' -> inv c'.
Proof.
  intros HM Hinv Hstep. pose proof (inv_nodes _ Hinv) as In.
  inversion Hstep as [id n i d n' Hn Ht|id n ph Hn|id n ph i t cand line n' Hn Ht Hh
    |id n ph i t ldr line n' Hn Ht Hh|id n i t n' Hn Hb|id n t k p ps Hn
    |id n t k p ps line reply i o n' Hn Hin Hs Hc|id n t k Hn|id n i t n' Hn Hb|id n i Hn Hb
    |id n t p ps Hn|id n t p ps reply i b n' Hn Ht Hh|id n t Hn|id n ph i Hr Hn]; subst;
    (eapply inv_update; [done|exact Hn|]); pose proof (In _ _ _ Hn) as Hok.
  - unfold tick in Ht. repeat case_match; simplify_eq; by eapply moves_same.
  - unfold raft_stop. case_match; (eapply moves_same; [done..|]); by destruct Hok.
  - by eapply moves_vote.
  - replace n' with (handle_append_entries i t ldr n).2 by by rewrite Hh. by apply moves_append.
  - eapply moves_begin; [done| |done]. apply HM. by eexists.
  - eapply moves_same; [done..|]. destruct (node_phase _ _ _ _ Hok) as (Q & ? & ? & Hnd & Hsub & ?).
    apply NoDup_cons in Hnd as [_ ?]. exists Q. split; [done|]. split; [done|]. split; [done|]. set_solver.
  - by eapply moves_count.
  - by eapply moves_same.
  - unfold begin_heartbeats in Hb. case_match; [|done]. simplify_eq. by eapply moves_same.
  - by eapply moves_same.
  - by eapply moves_same.
  - unfold heartbeat_reply in Hh. destruct (negb _ || _) eqn:E; [simplify_eq; by eapply moves_same|].
    bool_simpl. destruct (Z.ltb_spec (current_term_ n) reply.1); simplify_eq.
    + eapply moves_newer; [done|done|simpl; lia|done|done|done].
    + by eapply moves_same.
  - by eapply moves_same.
  - done.
Qed.

(** A majority of the members: two of them meet. *)
Lemma quorums_meet (Q1 Q2 : gset bytes) :
  Q1 ⊆ M -> Q2 ⊆ M -> (size M < 2 * size Q1)%nat -> (size M < 2 * size Q2)%nat ->
  exists v, v ∈ Q1 /\ v ∈ Q2.
Proof.
  intros H1 H2 S1 S2. destruct (decide (Q1 ∩ Q2 = ∅)) as [E|E].
  - assert (Q1 ## Q2) as Hd by set_solver. pose proof (size_union _ _ Hd) as Hu.
    assert (Q1 ∪ Q2 ⊆ M) as Hs by set_solver. apply subseteq_size in Hs. lia.
  - apply set_choose_L in E as [v Hv]. exists v. set_solver.
Qed.

Lemma inv_one_winner c t a b : inv c -> (t, a) ∈ wins c -> (t, b) ∈ wins c -> a = b.
Proof.
  intros [_ _ Io _ Iw] Ha Hb. rewrite List.Forall_forall in Iw.
  destruct (Iw _ (proj1 (list_elem_of_In _ _) Ha)) as (Hna & Q1 & [HM1 HQ1] & Hs1).
  destruct (Iw _ (proj1 (list_elem_of_In _ _) Hb)) as (Hnb & Q2 & [HM2 HQ2] & Hs2). simpl in *.
  destruct (quorums_meet Q1 Q2) as (v & H1 & H2); [done..|].
  exact (Io v t a b (HQ1 v H1) (HQ2 v H2) Hna Hnb).
Qed.
End safety.

(** ** Start-up and reachability *)

Lemma inv_boot conf i : well_configured conf -> inv (dom conf) (boot conf i).
Proof.
  intros Hc. split; simpl; [|set_solver|set_solver|constructor|constructor].
  intros id n ph Hn. rewrite lookup_fmap in Hn. destruct (conf !! id) as [c|] eqn:E; [|done].
  injection Hn as <- <-. destruct (Hc id c E) as (Hid & Hself & HM).
  destruct (filter_peers_ok (self_id c) (peers c)) as (Hnd & Hnin & Hin).
  split; simpl; [|done|set_solver|done|done].
  split; [done|]. split; [done|]. split; [done|]. rewrite <- Hself. split; [done|].
  rewrite <- HM, <- Hself. apply set_eq. intros p. rewrite !elem_of_union, !elem_of_list_to_set, elem_of_singleton, Hin.
  destruct (decide (p = self_id c)); tauto.
Qed.

Lemma step_dom b c c' : step b c c' -> dom (nodes c') = dom (nodes c).
Proof.
  intros Hs. inversion Hs; subst; simpl;
    match goal with H : nodes c !! _ = Some _ |- _ => apply elem_of_dom_2 in H end; set_solver.
Qed.

Lemma reachable_inv conf i c :
  well_configured conf -> rtc (step false) (boot conf i) c ->
  inv (dom conf) c /\ dom (nodes c) = dom conf.
Proof.
  intros Hc Hr. revert Hr. apply (rtc_ind_r (fun c => inv (dom conf) c /\ dom (nodes c) = dom conf)).
  - split; [by apply inv_boot|]. simpl. by rewrite dom_fmap_L.
  - intros c1 c2 _ Hs [Hi Hd]. split; [|by rewrite (step_dom _ _ _ Hs)].
    apply (inv_step (dom conf) c1); [|done..]. intros id Hid. rewrite <- Hd. by apply elem_of_dom.
Qed.

(** C2: election safety.  In a cluster where every node lists all the others,
    whatever RPCs arrive from whomever, whatever replies are lost, late or
    repeated, and however the threads interleave: no two nodes ever win an
    election of the same term, and no two nodes are leaders of the same term. *)
Theorem raft_election_safety conf i c :
  well_configured conf -> rtc (step false) (boot conf i) c ->
  (forall t a b, (t, a) ∈ wins c -> (t, b) ∈ wins c -> a = b) /\
  (forall a na pa b nb pb,
     nodes c !! a = Some (na, pa) -> nodes c !! b = Some (nb, pb) ->
     is_leader na = true -> is_leader nb = true -> current_term_ na = current_term_ nb -> a = b).
Proof.
  intros Hc Hr. destruct (reachable_inv conf i c Hc Hr) as [Hi _].
  split; [intros t a b; by apply (inv_one_winner (dom conf))|].
  intros a na pa b nb pb Ha Hb La Lb Ht. unfold is_leader in *. bool_simpl.
  pose proof (node_leader _ _ _ _ _ (inv_nodes _ _ Hi _ _ _ Ha) La) as Wa.
  pose proof (node_leader _ _ _ _ _ (inv_nodes _ _ Hi _ _ _ Hb) Lb) as Wb.
  rewrite Ht in Wa. exact (inv_one_winner (dom conf) c _ a b Hi Wa Wb).
Qed.

(** One vote per term.  A node that has granted its vote to two named
    candidates in one term granted it to the same one twice, and a vote it cast
    in its current term is still the one it remembers. *)
Theorem raft_one_vote_per_term conf i c v t a b :
  well_configured conf -> rtc (step false) (boot conf i) c ->
  (v, t, a) ∈ ballots c -> (v, t, b) ∈ ballots c -> a <> [] -> b <> [] ->
  a = b /\ exists n ph, nodes c !! v = Some (n, ph) /\ t <= current_term_ n /\
                      (t = current_term_ n -> voted_for_ n = a).
Proof.
  intros Hc Hr Ha Hb Hna Hnb. destruct (reachable_inv conf i c Hc Hr) as [Hi _].
  split; [by eapply (inv_once _ _ Hi)|]. destruct (inv_members _ _ Hi _ _ _ Ha) as [[n ph] Hn].
  exists n, ph. split; [done|]. destruct (node_ballot _ _ _ _ _ (inv_nodes _ _ Hi _ _ _ Hn) _ _ Ha).
  auto.
Qed.

Lemma step_term c c' id n ph n' ph' :
  step false c c' -> nodes c !! id = Some (n, ph) -> nodes c' !! id = Some (n', ph') ->
  current_term_ n <= current_term_ n'.
Proof.
  intros Hs Hn Hn'.
  assert (forall id1 m1 p1 m2 p2 ls bs ws, nodes c !! id1 = Some (m1, p1) ->
    current_term_ m1 <= current_term_ m2 -> c' = update c id1 m2 p2 ls bs ws ->
    current_term_ n <= current_term_ n') as Hup.
  { intros id1 m1 p1 m2 p2 ls bs ws H1 Hle ->. simpl in Hn'. destruct (decide (id1 = id)) as [->|].
    - rewrite lookup_insert_eq in Hn'. by simplify_eq.
    - rewrite lookup_insert_ne in Hn' by done. rewrite Hn in Hn'. by simplify_eq. }
  inversion Hs; subst; (eapply Hup; [eassumption| |reflexivity]);
    repeat match goal with
    | H : tick _ _ = _ |- _ => unfold tick in H; repeat case_match; simplify_eq; done
    | |- context [raft_stop ?m] => unfold raft_stop; case_match; done
    | H : handle_request_vote ?i ?t ?a ?m = (_, ?m') |- _ =>
        destruct (handle_request_vote_term i t a m) as (_ & Hm & _); rewrite H in Hm; simpl in Hm; lia
    | H : handle_append_entries _ _ _ _ = _ |- _ =>
        unfold handle_append_entries in H; repeat case_match; simplify_eq/=; bool_simpl; lia
    | H : begin_election _ _ = _ |- _ => unfold begin_election in H; case_match; simplify_eq/=; lia
    | H : count_vote _ _ _ ?r _ = _ |- _ =>
        destruct r; unfold count_vote in H; repeat case_match; simplify_eq/=; bool_simpl; lia
    | H : begin_heartbeats _ _ = _ |- _ => unfold begin_heartbeats in H; case_match; simplify_eq/=; done
    | H : heartbeat_reply _ _ _ _ = _ |- _ =>
        unfold heartbeat_reply in H; repeat case_match; simplify_eq/=; bool_simpl; lia
    end; done.
Qed.

(** Terms never go back.  Over any run without restarts a node's term only
    grows and stays a [long], and within a term its vote, once given to a named
    candidate, does not change. *)
Theorem raft_term_monotone conf i c c' id n ph :
  well_configured conf -> rtc (step false) (boot conf i) c -> step false c c' ->
  nodes c !! id = Some (n, ph) ->
  exists n' ph', nodes c' !! id = Some (n', ph') /\
    current_term_ n <= current_term_ n' <= LONG_MAX /\
    (forall t cand, (id, t, cand) ∈ ballots c -> cand <> [] -> t = current_term_ n' -> voted_for_ n' = cand).
Proof.
  intros Hc Hr Hs Hn. destruct (reachable_inv conf i c Hc Hr) as [Hi Hd].
  destruct (reachable_inv conf i c' Hc (rtc_r _ _ _ Hr Hs)) as [Hi' _].
  assert (exists n' ph', nodes c' !! id = Some (n', ph') /\ current_term_ n <= current_term_ n')
    as (n' & ph' & Hn' & Hle).
  { assert (id ∈ dom (nodes c')) as Hdom by (rewrite (step_dom _ _ _ Hs); by eapply elem_of_dom_2).
    apply elem_of_dom in Hdom as [[n' ph'] Hn']. exists n', ph'. split; [done|].
    by eapply step_term. }
  exists n', ph'. split; [done|]. pose proof (inv_nodes _ _ Hi' _ _ _ Hn') as [_ Hl Hb _ _].
  split; [unfold long in Hl; lia|]. intros t cand Hin Hne ->.
  assert ((id, current_term_ n', cand) ∈ ballots c') as Hin'
    by (inversion Hs; subst; cbn [ballots update]; apply elem_of_app; by right).
  by destruct (Hb _ _ Hin') as [_ ?]; auto.
Qed.

(** ** Running a cluster *)

(** A scheduler's choices, and their effect where they apply. *)
Inductive action :=
  | ATick (id : bytes) (i : instant)
  | ABegin (id : bytes) (i : instant)
  | AVoteRpc (id : bytes) (i : instant) (t : Z) (cand : bytes)
  | AReply (id : bytes) (i : instant) (k : nat)
  | ARestart (id : bytes) (i : instant).

Definition act (restarts : bool) (c : Cluster) (a : action) : option Cluster :=
  match a with
  | ATick id i =>
      match nodes c !! id with
      | Some (n, PIdle) =>
          match tick i n with
          | (Some d, n') => Some (update c id n' (phase_of d) [] [] [])
          | _ => None
          end
      | _ => None
      end
  | ABegin id i =>
      match nodes c !! id with
      | Some (n, PElect) =>
          match begin_election i n with
          | Begun t n' => Some (update c id n' (PVoting t 1 (peers (config_ n'))) [] [(id, t, self_id (config_ n))] [])
          | TermOverflow => None
          end
      | _ => None
      end
  | AVoteRpc id i t cand =>
      match nodes c !! id with
      | Some (n, ph) =>
          if (t <? LONG_MIN) || (LONG_MAX <? t) then None else
          let '(line, n') := handle_request_vote i t cand n in
          Some (update c id n' ph [(id, t, cand, line)]
            (if line =?b vote_line t true then [(id, t, cand)] else []) [])
      | None => None
      end
  | AReply id i k =>
      match nodes c !! id, soup c !! k with
      | Some (n, PVoting t v (p :: ps)), Some (p', t', cand, line) =>
          if (p' =?b p) && (t' =? t) && (cand =?b self_id (config_ n)) then
            reply ← send_request_vote p (Some (line ++ [newline]));
            let '(o, n') := count_vote i t v reply n in
            Some (update c id n' (after_vote t ps o) [] [] (match o with Won => [(t, id)] | _ => [] end))
          else None
      | _, _ => None
      end
  | ARestart id i =>
      match nodes c !! id with
      | Some (n, _) =>
          if restarts then Some (update c id (raft_start (raft_new (config_ n) i)).2 PIdle [] [] []) else None
      | None => None
      end
  end.

Definition acts (restarts : bool) (c : Cluster) (l : list action) : option Cluster :=
  foldl (fun oc a => c ← oc; act restarts c a) (Some c) l.

Lemma act_step b c a c' : act b c a = Some c' -> step b c c'.
Proof.
  destruct a as [id i|id i|id i t cand|id i k|id i]; unfold act; intros H.
  - destruct (nodes c !! id) as [[n []]|] eqn:En; try done.
    destruct (tick i n) as [[d|] n'] eqn:Et; [|done]. injection H as <-. by eapply step_tick.
  - destruct (nodes c !! id) as [[n []]|] eqn:En; try done.
    destruct (begin_election i n) as [t n'|] eqn:Eb; [|done]. injection H as <-. by eapply step_begin.
  - destruct (nodes c !! id) as [[n ph]|] eqn:En; [|done].
    destruct ((t <? LONG_MIN) || (LONG_MAX <? t)) eqn:El; [done|]. bool_simpl.
    destruct (handle_request_vote i t cand n) as [line n'] eqn:Eh. injection H as <-.
    eapply step_vote_rpc; [done|unfold long; lia|done].
  - destruct (nodes c !! id) as [[n []]|] eqn:En; try done.
    destruct pending as [|p ps]; [done|].
    destruct (soup c !! k) as [[[[p' t'] cand] line]|] eqn:Es; [|done].
    destruct ((p' =?b p) && (t' =? term) && (cand =?b self_id (config_ n))) eqn:Eq; [|done].
    bool_simpl. subst. destruct (send_request_vote p (Some (line ++ [newline]))) as [reply|] eqn:Er; [|done].
    cbn [mbind option_bind] in H. destruct (count_vote i term votes reply n) as [o n'] eqn:Ec.
    injection H as <-. eapply step_vote_reply; [done| |done..]. by eapply list_elem_of_lookup_2.
  - destruct (nodes c !! id) as [[n ph]|] eqn:En; [|done]. destruct b; [|done].
    injection H as <-. by eapply step_restart.
Qed.

Lemma acts_steps b c l c' : acts b c l = Some c' -> rtc (step b) c c'.
Proof.
  unfold acts. revert c. induction l as [|a l IH]; intros c; simpl.
  - intros [= <-]. apply rtc_refl.
  - destruct (act b c a) as [c1|] eqn:E.
    + intros H. eapply rtc_l; [by eapply act_step|by apply IH].
    + intros H. assert (foldl (fun oc a => c ← oc; act b c a) None l = None) as Hn
        by (clear; by induction l). by rewrite Hn in H.
Qed.

(** Three nodes; the first one stands and wins term 1 with the vote of the second. *)
Definition demo_member (self : string) (others : list string) : bytes * Config :=
  (lit self, {| self_id := lit self; peers := lit <$> others; heartbeat_ms := 100;
     election_timeout_min_ms := 400; election_timeout_max_ms := 800; rpc_timeout_ms := 120 |}).
Definition demo_conf : gmap bytes Config :=
  list_to_map [demo_member "h:1" ["h:2"; "h:3"]%string; demo_member "h:2" ["h:1"; "h:3"]%string;
               demo_member "h:3" ["h:2"; "h:1"]%string].
Definition at_ms (t : Z) : instant := {| now := t; draw := 500 |}.
Definition demo_election : list action :=
  [ATick (lit "h:1") (at_ms 1000); ABegin (lit "h:1") (at_ms 1000);
   AVoteRpc (lit "h:2") (at_ms 1001) 1 (lit "h:1"); AReply (lit "h:1") (at_ms 1002) 0].
Definition demo_won : Cluster :=
  default (boot demo_conf (at_ms 0)) (acts false (boot demo_conf (at_ms 0)) demo_election).

Lemma demo_configured : well_configured demo_conf.
Proof. apply (bool_decide_unpack _). by vm_compute. Qed.

Lemma demo_reached : rtc (step false) (boot demo_conf (at_ms 0)) demo_won.
Proof. apply (acts_steps false _ demo_election). by vm_compute. Qed.

Lemma raft_election_safety_witness :
  wins demo_won = [(1, lit "h:1")] /\
  ((forall t a b, (t, a) ∈ wins demo_won -> (t, b) ∈ wins demo_won -> a = b) /\
   (forall a na pa b nb pb,
     nodes demo_won !! a = Some (na, pa) -> nodes demo_won !! b = Some (nb, pb) ->
     is_leader na = true -> is_leader nb = true -> current_term_ na = current_term_ nb -> a = b)).
Proof.
  split; [by vm_compute|].
  exact (raft_election_safety demo_conf (at_ms 0) demo_won demo_configured demo_reached).
Defined.

Lemma raft_one_vote_per_term_witness :
  exists n ph, nodes demo_won !! lit "h:2" = Some (n, ph) /\ 1 <= current_term_ n /\
               (1 = current_term_ n -> voted_for_ n = lit "h:1").
Proof.
  assert ((lit "h:2", 1, lit "h:1") ∈ ballots demo_won) as Hin
    by (apply (bool_decide_unpack _); by vm_compute).
  apply (raft_one_vote_per_term demo_conf (at_ms 0) demo_won (lit "h:2") 1 (lit "h:1") (lit "h:1"));
    [apply demo_configured|apply demo_reached|exact Hin|exact Hin|done|done].
Defined.

Lemma raft_term_monotone_witness :
  exists c' n' ph', nodes c' !! lit "h:2" = Some (n', ph') /\
    current_term_ (raft_start (raft_new (demo_member "h:2" ["h:1"; "h:3"]%string).2 (at_ms 0))).2
      <= current_term_ n' <= LONG_MAX /\
    (forall t cand, (lit "h:2", t, cand) ∈ ballots (boot demo_conf (at_ms 0)) -> cand <> [] ->
       t = current_term_ n' -> voted_for_ n' = cand).
Proof.
  eexists. eapply (raft_term_monotone demo_conf (at_ms 0) (boot demo_conf (at_ms 0)) _ (lit "h:2")).
  - apply demo_configured.
  - apply rtc_refl.
  - apply (act_step false _ (AVoteRpc (lit "h:2") (at_ms 1) 7 (lit "h:1"))). by vm_compute.
  - by vm_compute.
Defined.

(** Votes do not survive a crash.  Neither the term nor the vote is kept on
    disk: when the voter restarts within the term, a second candidate can win
    it, and two nodes lead the same term. *)
Theorem raft_restart_two_leaders :
  exists c, rtc (step true) (boot demo_conf (at_ms 0)) c /\
            wins c = [(1, lit "h:3"); (1, lit "h:1")].
Proof.
  set (l := demo_election ++
    [ARestart (lit "h:2") (at_ms 1100); ATick (lit "h:3") (at_ms 1200); ABegin (lit "h:3") (at_ms 1200);
     AVoteRpc (lit "h:2") (at_ms 1201) 1 (lit "h:3"); AReply (lit "h:3") (at_ms 1202) 0]).
  exists (default demo_won (acts true (boot demo_conf (at_ms 0)) l)).
  split; [apply (acts_steps true _ l)|]; by vm_compute.
Qed.
