(* ===== verification/Command.v ===== *)
(** * The command layer (src/command.cpp)

    Tokenizing a line and executing it against the storage engine and the Raft
    node, on every branch. *)

From S2P Require Import Prelude Stream Records Interfaces DiskStore Storage StorageCorrect.
From S2P Require Import Wal Replicator Recovery Address Net Raft.

Local Open Scope Z_scope.

(** ** Tokenizing *)

Definition bom : bytes := [chr 239; chr 187; chr 191].

(** Dropping trailing characters: the loop that decrements [end]. *)
Definition rtrim (s : bytes) : bytes := reverse (drop_while is_space (reverse s)).

Definition trim (s : bytes) : bytes :=
  let s1 := drop_while is_space s in
  let s2 := if take 3 s1 =?b bom then drop_while is_space (drop 3 s1) else s1 in
  rtrim s2.

Definition to_upper (s : bytes) : bytes := toupper <$> s.

(** [next_token]: the token at the position, and the position after it and
    the whitespace that follows, as the text that is left. *)
Definition next_token (s : bytes) : bytes * bytes :=
  let '(token, r) := span (fun c => negb (is_space c)) s in (token, drop_while is_space r).

Definition wrong_args (verb_lower : bytes) : bytes :=
  lit "ERR wrong number of arguments for '" ++ verb_lower ++ lit "' command".

(** Verb, key and rest of a trimmed line. *)
Definition parse_line (s : bytes) : bytes * bytes * bytes :=
  let '(v, s1) := next_token s in
  let '(key, rest) := next_token s1 in
  (to_upper v, key, rest).

(** ** Executing *)

Section execute.
Context {L R : Type} `{WriteAhead L} `{ReplicaSink R} `{UnorderedIter}.

(** What [execute_line] returns and writes through its pointers: the reply,
    [*should_close], [*was_get_hit] ([None]: not written), [*is_replica_link]
    ([None]: a null pointer), the store and the Raft node. *)
Record executed := mkExec {
  reply : bytes;
  should_close : bool;
  was_get_hit : option bool;
  x_link : option bool;
  x_store : Storage L R;
  x_raft : option RaftNode;
}.

Definition is_write (verb : bytes) : bool :=
  (verb =?b lit "SET") || (verb =?b lit "DEL") || (verb =?b lit "DELETE").

(** The [__REPLSYNC__] branch. *)
Definition execute_sync (node_is_follower : bool) (link : option bool) (raft : option RaftNode)
    (st : Storage L R) : executed :=
  if negb node_is_follower then
    mkExec (lit "ERR __REPLSYNC__ is only valid on a read-only replica") false None link st raft
  else if link =?b Some true then
    mkExec (lit "ERR replication sync already in progress on this connection") false None link st raft
  else
    let link' := match link with Some _ => Some true | None => None end in
    let '(b, st') := storage_clear st in
    if b then mkExec (lit "OK") false None link' st' raft
    else mkExec (lit "ERR replica storage failed to reset for sync") false None link' st' raft.

(** The Raft RPC branch. *)
Definition execute_rpc (i : instant) (verb key rest : bytes) (link : option bool)
    (raft : option RaftNode) (st : Storage L R) : executed :=
  match raft with
  | None => mkExec (lit "ERR this node is not part of a Raft cluster") false None link st raft
  | Some n =>
      match stol key with
      | None => mkExec (lit "ERR malformed Raft RPC") false None link st raft
      | Some (term, _) =>
          let '(line, n') := if verb =?b lit "__RAFT_VOTE__" then handle_request_vote i term rest n
                             else handle_append_entries i term rest n in
          mkExec line false None link st (Some n')
      end
  end.

(** The commands on data, once the write guards are passed. *)
Definition execute_data (verb key rest : bytes) (link : option bool) (raft : option RaftNode)
    (st : Storage L R) : executed :=
  let done_ r st' := mkExec r false None link st' raft in
  if verb =?b lit "SET" then
    if (key =?b []) || (rest =?b []) then done_ (wrong_args (lit "set")) st else
    let '(b, st') := storage_set key rest st in
    if negb b then done_ (lit "ERR write failed: data not persisted") st' else done_ (lit "OK") st'
  else if verb =?b lit "GET" then
    if (key =?b []) || negb (rest =?b []) then done_ (wrong_args (lit "get")) st else
    let '(value, st') := storage_get key st in
    match value with
    | Some v => mkExec v false (Some true) link st' raft
    | None => mkExec (lit "(nil)") false (Some false) link st' raft
    end
  else if (verb =?b lit "DEL") || (verb =?b lit "DELETE") then
    if (key =?b []) || negb (rest =?b []) then done_ (wrong_args (lit "del")) st else
    let '(removed, durable, st') := storage_del key st in
    if negb durable then done_ (lit "ERR write failed: data not persisted") st'
    else done_ (lit "(integer) " ++ to_string removed) st'
  else if verb =?b lit "EXISTS" then
    if (key =?b []) || negb (rest =?b []) then done_ (wrong_args (lit "exists")) st else
    done_ (lit "(integer) " ++ to_string (if storage_exists key st then 1 else 0)) st
  else if verb =?b lit "PING" then
    if negb (key =?b []) || negb (rest =?b []) then done_ (wrong_args (lit "ping")) st
    else done_ (lit "PONG") st
  else if (verb =?b lit "QUIT") || (verb =?b lit "EXIT") then
    if negb (key =?b []) || negb (rest =?b []) then done_ (wrong_args (lit "quit")) st
    else mkExec (lit "OK") true None link st raft
  else done_ (lit "ERR unknown command '" ++ verb ++ lit "'") st.

Definition execute_line (line : bytes) (st : Storage L R) (node_is_follower : bool)
    (link : option bool) (raft : option RaftNode) (i : instant) : executed :=
  let s := trim line in
  if s =?b [] then mkExec [] false None link st raft else
  let '(verb, key, rest) := parse_line s in
  if verb =?b lit "__REPLSYNC__" then execute_sync node_is_follower link raft st
  else if (verb =?b lit "__RAFT_VOTE__") || (verb =?b lit "__RAFT_APPEND__") then
    execute_rpc i verb key rest link raft st
  else if verb =?b lit "ROLE" then
    mkExec (match raft with
            | Some n => status_line n
            | None => lit "standalone (not a Raft cluster)"
            end) false None link st raft
  else
    let replica_link := link =?b Some true in
    if node_is_follower && negb replica_link && is_write verb then
      mkExec (lit "ERR READONLY this node is a read-only replica") false None link st raft
    else
      match raft with
      | Some n =>
          if negb (is_leader n) && is_write verb then
            mkExec (lit "ERR NOTLEADER " ++
                      (if leader_id_ n =?b [] then lit "(unknown)" else leader_id_ n))
              false None link st raft
          else execute_data verb key rest link raft st
      | None => execute_data verb key rest link raft st
      end.
End execute.
Arguments executed : clear implicits.

(** ** Words and texts *)

Definition no_space (s : bytes) : Prop := Forall (fun c => is_space c = false) s.

(** A token; and a non-empty text that neither begins nor ends with whitespace. *)
Definition word (s : bytes) : Prop := s <> [] /\ no_space s.
Definition text (s : bytes) : Prop := s <> [] /\ stops is_space s /\ stops is_space (reverse s).

Lemma reverse_snoc_inv (s : bytes) c t : reverse s = c :: t -> s = reverse t ++ [c].
Proof. intros E. apply (f_equal reverse) in E. by rewrite reverse_involutive, reverse_cons in E. Qed.

Lemma stops_reverse_app a b : b <> [] -> stops is_space (reverse (a ++ b)) <-> stops is_space (reverse b).
Proof.
  intros Hb. rewrite reverse_app. destruct (reverse b) as [|c t] eqn:E; [|done].
  apply (f_equal reverse) in E. rewrite reverse_involutive in E. done.
Qed.

Lemma rtrim_id s : stops is_space (reverse s) -> rtrim s = s.
Proof. intros Hs. unfold rtrim. by rewrite drop_while_stops, reverse_involutive. Qed.

Lemma rtrim_prefix s : exists w, s = rtrim s ++ w.
Proof.
  unfold rtrim. destruct (drop_while_suffix is_space (reverse s)) as (l & E & _).
  exists (reverse l). rewrite <- reverse_app, <- E. by rewrite reverse_involutive.
Qed.

Lemma rtrim_end s : stops is_space (reverse (rtrim s)).
Proof. unfold rtrim. rewrite reverse_involutive. apply drop_while_stops_all. Qed.

Lemma rtrim_start s : stops is_space s -> stops is_space (rtrim s).
Proof. destruct (rtrim_prefix s) as [w E]. rewrite E at 1. by destruct (rtrim s). Qed.

(** A trimmed line begins and ends with a character that is not whitespace. *)
Lemma trim_ends s : stops is_space (trim s) /\ stops is_space (reverse (trim s)).
Proof.
  unfold trim. split; [|apply rtrim_end]. apply rtrim_start.
  case_bool_decide; apply drop_while_stops_all.
Qed.

(** Trimming and tokenizing only drop characters. *)
Lemma drop_while_elem (p : ascii -> bool) (s : bytes) (c : ascii) : c ∈ drop_while p s -> c ∈ s.
Proof. destruct (drop_while_suffix p s) as (l & E & _). rewrite E at 2. rewrite elem_of_app. by right. Qed.

Lemma trim_elem (s : bytes) (c : ascii) : c ∈ trim s -> c ∈ s.
Proof.
  unfold trim. set (s1 := drop_while is_space s). set (s2 := if take 3 s1 =?b bom then _ else s1). intros Hc.
  destruct (rtrim_prefix s2) as [w E].
  assert (c ∈ s2) as Hc2 by (rewrite E; apply elem_of_app; by left).
  assert (c ∈ s1) as Hc1.
  { unfold s2 in Hc2. case_bool_decide; [|done]. apply drop_while_elem in Hc2.
    rewrite <- (take_drop 3 s1). apply elem_of_app. by right. }
  by apply drop_while_elem in Hc1.
Qed.

Lemma length_trim s : (length (trim s) <= length s)%nat.
Proof.
  unfold trim. set (s1 := drop_while is_space s). set (s2 := if take 3 s1 =?b bom then _ else s1).
  destruct (rtrim_prefix s2) as [w E]. apply (f_equal length) in E. rewrite length_app in E.
  assert (length s2 <= length s1)%nat.
  { unfold s2. case_bool_decide; [|done]. etrans; [apply length_drop_while|]. rewrite length_drop. lia. }
  pose proof (length_drop_while is_space s). fold s1 in H0. lia.
Qed.

Lemma next_token_split s :
  exists w, s = (next_token s).1 ++ w ++ (next_token s).2 /\ no_space (next_token s).1 /\
            stops is_space (next_token s).2 /\ ((next_token s).2 <> [] -> w <> []).
Proof.
  unfold next_token. pose proof (span_eq (fun c => negb (is_space c)) s) as E.
  pose proof (span_fst_all (fun c => negb (is_space c)) s) as Ha.
  pose proof (span_snd_stops (fun c => negb (is_space c)) s) as Hr.
  destruct (span _ s) as [t r]. simpl in *. destruct (drop_while_suffix is_space r) as (w & Ew & _).
  exists w. rewrite <- Ew, E. split; [done|]. split; [|split; [apply drop_while_stops_all|]].
  - eapply Forall_impl; [exact Ha|]. intros c Hc. by apply negb_true_iff in Hc.
  - intros Hne ->. simpl in Ew. destruct r as [|c r]; [done|]. simpl in Hr.
    simpl in Ew. destruct (is_space c) eqn:Ec; [|done].
    pose proof (length_drop_while is_space r) as Hl. rewrite <- Ew in Hl. simpl in Hl. lia.
Qed.

(** The fields of a line. *)
Lemma parse_line_fields line :
  let '(verb, key, rest) := parse_line (trim line) in
  no_space verb /\ no_space key /\ (rest = [] \/ text rest) /\
  (forall c : ascii, c ∈ key \/ c ∈ rest -> c ∈ line) /\
  (length key <= length line)%nat /\ (length rest <= length line)%nat.
Proof.
  unfold parse_line. pose proof (trim_ends line) as [_ He]. pose proof (trim_elem line) as Hel.
  pose proof (length_trim line) as Hlen.
  destruct (next_token_split (trim line)) as (w1 & E1 & N1 & _).
  destruct (next_token (trim line)) as [v s1]. simpl in *.
  destruct (next_token_split s1) as (w2 & E2 & N2 & S2 & _).
  destruct (next_token s1) as [key rest]. simpl in *.
  assert (trim line = (v ++ w1 ++ key ++ w2) ++ rest) as E by (rewrite E1, E2; by app_norm).
  split; [|split; [done|split; [|split; [|split]]]].
  - unfold no_space, to_upper. rewrite Forall_fmap. eapply Forall_impl; [exact N1|].
    intros c Hc. simpl. by rewrite toupper_space.
  - destruct (decide (rest = [])) as [|Hne]; [by left|right]. split; [done|]. split; [done|].
    rewrite E in He. by apply stops_reverse_app in He.
  - intros c Hc. apply Hel. rewrite E, !elem_of_app. tauto.
  - rewrite E in Hlen. rewrite !length_app in Hlen. lia.
  - rewrite E in Hlen. rewrite !length_app in Hlen. lia.
Qed.

Lemma next_token_word k r :
  no_space k -> stops is_space r -> next_token (k ++ lit " " ++ r) = (k, r).
Proof.
  intros Hk Hr. unfold next_token. rewrite span_app; [| |done].
  - simpl. by rewrite drop_while_stops.
  - eapply Forall_impl; [exact Hk|]. by intros c ->.
Qed.

Lemma next_token_last k : no_space k -> next_token k = (k, []).
Proof.
  intros Hk. unfold next_token. rewrite <- (app_nil_r k) at 1. rewrite span_app; [done| |done].
  eapply Forall_impl; [exact Hk|]. by intros c ->.
Qed.

Lemma word_starts k r : word k -> stops is_space (k ++ r).
Proof. intros [Hne Hk]. destruct Hk; done. Qed.

Lemma word_text k : word k -> text k.
Proof.
  intros [Hne Hk]. split; [done|]. split; [by destruct Hk|].
  assert (no_space (reverse k)) as Hr by (unfold no_space; by rewrite reverse_Permutation).
  by destruct Hr.
Qed.

Lemma trim_id s : text s -> take 3 s <> bom -> trim s = s.
Proof.
  intros (_ & Hs & He) Hb. unfold trim. rewrite drop_while_stops by done.
  rewrite bool_decide_false by done. by apply rtrim_id.
Qed.

(** ** Lines written by programs are read back *)

Definition plain_start (s : bytes) : Prop := head s <> Some (chr 239).

Lemma not_bom s r : s <> [] -> plain_start s -> take 3 (s ++ r) <> bom.
Proof. intros Hne Hp. destruct s as [|c s]; [done|]. simpl. intros [= -> _]. by apply Hp. Qed.

Lemma trim_words v r : word v -> plain_start v -> text (v ++ r) -> trim (v ++ r) = v ++ r.
Proof. intros [Hne _] Hp Ht. apply trim_id; [done|by apply not_bom]. Qed.

Lemma text_app v s r : word v -> text r -> text (v ++ s ++ r).
Proof.
  intros Hv (Hne & _ & He). split; [by destruct Hv as [? _], v|]. split; [by apply word_starts|].
  rewrite (assoc_L (++)). by apply stops_reverse_app.
Qed.

(** Verb, key and a value of any words. *)
Lemma parse_three v k t :
  word v -> plain_start v -> word k -> text t ->
  let line := v ++ lit " " ++ k ++ lit " " ++ t in
  trim line = line /\ line <> [] /\ parse_line line = (to_upper v, k, t).
Proof.
  intros Hv Hp Hk Ht line. split; [|split].
  - apply trim_words; [done..|]. apply text_app; [done|]. by apply (text_app k (lit " ") t).
  - by destruct Hv as [? _], v.
  - unfold parse_line, line. rewrite next_token_word; [|apply Hv|by apply word_starts].
    rewrite next_token_word; [done|apply Hk|apply Ht].
Qed.

(** Verb and key. *)
Lemma parse_two v k :
  word v -> plain_start v -> word k ->
  let line := v ++ lit " " ++ k in
  trim line = line /\ line <> [] /\ parse_line line = (to_upper v, k, []).
Proof.
  intros Hv Hp Hk line. split; [|split].
  - apply trim_words; [done..|]. apply (text_app v (lit " ") k); [done|by apply word_text].
  - by destruct Hv as [? _], v.
  - unfold parse_line, line. rewrite next_token_word; [|apply Hv|by destruct Hk as [? []]].
    by rewrite next_token_last by apply Hk.
Qed.

#[export] Instance word_dec s : Decision (word s).
Proof. unfold word, no_space. apply _. Defined.

Ltac by_word := apply (bool_decide_unpack _); by vm_compute.

(** ** Framing: one line in, one line out *)

Definition one_line (s : bytes) : Prop := newline ∉ s.
Definition clean (m : gmap bytes bytes) : Prop := map_Forall (fun _ v => one_line v) m.
Definition raft_clean (r : option RaftNode) : Prop :=
  match r with Some n => one_line (leader_id_ n) | None => True end.

#[export] Instance one_line_dec s : Decision (one_line s).
Proof. unfold one_line. apply _. Defined.

Lemma one_line_app a b : one_line a -> one_line b -> one_line (a ++ b).
Proof. unfold one_line. rewrite elem_of_app. tauto. Qed.

Lemma one_line_no_space s : no_space s -> one_line s.
Proof. apply not_space_no_newline. Qed.

Lemma one_line_to_string n : one_line (to_string n).
Proof. apply one_line_no_space, to_string_not_space. Qed.

Ltac lines := repeat first
  [ apply one_line_app | apply one_line_to_string | assumption
  | (apply one_line_no_space; assumption)
  | match goal with
    | |- one_line (lit _) => by_word
    | |- one_line [] => by_word
    | |- one_line (flag _) => by_word
    | |- one_line (wrong_args _) => by_word
    end ].

Lemma one_line_reply_lines t b : one_line (vote_line t b) /\ one_line (appended_line t b).
Proof. unfold vote_line, appended_line. destruct b; split; lines. Qed.

Lemma handlers_clean i t id n :
  one_line id -> one_line (leader_id_ n) ->
  one_line (leader_id_ (handle_request_vote i t id n).2) /\
  one_line (leader_id_ (handle_append_entries i t id n).2).
Proof.
  intros Hid Hn. split.
  - unfold handle_request_vote. simpl. destruct (current_term_ n <? t);
      match goal with |- context [if ?b then _ else _] => destruct b end; simpl; by lines.
  - unfold handle_append_entries. by destruct (current_term_ n <=? t).
Qed.

(** ** What a line does to the store *)

Section effects.
Context {L R : Type} `{WriteAheadLaws L} `{ReplicaSink R} `{UnorderedIter}.
Abbreviation store := (Storage L R).

(** An operation the line may ask for: its key is a word and its value a text
    made of characters of the line. *)
Definition asked_by (line : bytes) (node_is_follower : bool) (o : op) : Prop :=
  match o with
  | OpSet k v => word k /\ text v /\ (forall c : ascii, c ∈ k \/ c ∈ v -> c ∈ line) /\
                 blen k <= blen line /\ blen v <= blen line
  | OpDel k | OpGet k => word k /\ (forall c : ascii, c ∈ k -> c ∈ line) /\ blen k <= blen line
  | OpClear => node_is_follower = true
  | _ => False
  end.

Lemma execute_data_ops verb key rest link raft (st : store) line f :
  no_space key -> (rest = [] \/ text rest) ->
  (forall c : ascii, c ∈ key \/ c ∈ rest -> c ∈ line) ->
  blen key <= blen line -> blen rest <= blen line ->
  exists ops, (length ops <= 1)%nat /\ Forall (asked_by line f) ops /\
              x_store (execute_data verb key rest link raft st) = run st ops.
Proof.
  intros Hk Hr Hc Hlk Hlr. unfold execute_data.
  destruct (verb =?b lit "SET") eqn:E1.
  { destruct (key =?b []) eqn:Ek; [by exists []; split; [simpl; lia|]|].
    destruct (rest =?b []) eqn:Er; [by exists []; split; [simpl; lia|]|]. bool_simpl. simpl.
    exists [OpSet key rest]. split; [done|]. split.
    - constructor; [|constructor]. split; [done|]. destruct Hr as [->|Hr]; [done|]. done.
    - simpl. by destruct (storage_set key rest st) as [[] st']. }
  destruct (verb =?b lit "GET").
  { destruct ((key =?b []) || negb (rest =?b [])) eqn:Ek; [by exists []; split; [simpl; lia|]|].
    bool_simpl. exists [OpGet key]. split; [done|]. split.
    - constructor; [|constructor]. split; [done|]. auto.
    - simpl. by destruct (storage_get key st) as [[] st']. }
  destruct ((verb =?b lit "DEL") || (verb =?b lit "DELETE")).
  { destruct ((key =?b []) || negb (rest =?b [])) eqn:Ek; [by exists []; split; [simpl; lia|]|].
    bool_simpl. exists [OpDel key]. split; [done|]. split.
    - constructor; [|constructor]. split; [done|]. auto.
    - simpl. by destruct (storage_del key st) as [[n []] st']. }
  exists []. split; [simpl; lia|]. split; [constructor|]. simpl.
  repeat match goal with |- context [if ?b then _ else _] => destruct b end; done.
Qed.

(** Every line amounts to at most one operation on the store, and one whose
    key is a single word and whose value a trimmed text of the line; only a
    follower's handshake clears it. *)
Lemma execute_line_ops line (st : store) follower link raft i :
  exists ops, (length ops <= 1)%nat /\ Forall (asked_by line follower) ops /\
              x_store (execute_line line st follower link raft i) = run st ops.
Proof.
  pose proof (parse_line_fields line) as Hf. unfold execute_line.
  assert (exists ops, (length ops <= 1)%nat /\ Forall (asked_by line follower) ops /\ st = run st ops)
    as Hnone by (exists []; split; [simpl; lia|by split; [constructor|]]).
  destruct (trim line =?b []); [done|].
  destruct (parse_line (trim line)) as [[verb key] rest].
  destruct Hf as (_ & Hk & Hr & Hc & Hlk & Hlr).
  assert (exists ops, (length ops <= 1)%nat /\ Forall (asked_by line follower) ops /\
            x_store (execute_data verb key rest link raft st) = run st ops) as Hdata
    by (apply execute_data_ops; [done..| |]; unfold blen; lia).
  destruct (verb =?b lit "__REPLSYNC__").
  { unfold execute_sync. destruct follower; [|done]. destruct (link =?b Some true); [done|].
    exists [OpClear]. split; [done|]. split; [by repeat constructor|].
    simpl. by destruct (storage_clear st) as [[] st']. }
  destruct ((verb =?b lit "__RAFT_VOTE__") || (verb =?b lit "__RAFT_APPEND__")).
  { unfold execute_rpc. destruct raft as [n|]; [|done]. destruct (stol key) as [[t ?]|]; [|done].
    by destruct (if verb =?b lit "__RAFT_VOTE__" then _ else _). }
  destruct (verb =?b lit "ROLE"); [done|].
  destruct (follower && _ && _); [done|].
  destruct raft as [n|]; [|done]. by destruct (negb (is_leader n) && is_write verb).
Qed.

Lemma asked_data_op line o :
  blen line <= kMaxField -> asked_by line false o -> data_op o.
Proof.
  intros Hl Ho. destruct o; simpl in *; try done; unfold valid_field.
  - destruct Ho as ([? _] & [? _] & _ & ? & ?). repeat split; try done; lia.
  - destruct Ho as ([? _] & _ & ?). split; [done|lia].
Qed.

(** ** The meaning of the commands on data *)

(** Whether the medium takes the record of a write: the data file of the on-disk
    engine, unless it has failed or fails now; the log, if there is one. *)
Definition takes (st : store) (r : record) : bool :=
  match disk_ st with
  | Some d => d_ok d && (if (next_io (d_env d)).1 is IoOk then true else false)
  | None =>
      match wal_ st with
      | None => true
      | Some l => match r with RSet k v => (append_set k v l).1 | RDel k => (append_del k l).1 end
      end
  end.

(** Whether values can be read: not from a data file that has failed. *)
Definition readable (st : store) : bool := if disk_ st is Some d then d_ok d else true.

(** What a command is to do to the data. *)
Inductive change := Keeps | Touches (k : bytes) | Puts (k v : bytes) | Removes (k : bytes).

(** The reference semantics of one command on a map: the reply and the change. *)
Definition command_spec (reads : bool) (taken : record -> bool) (verb key rest : bytes)
    (m : gmap bytes bytes) : bytes * change :=
  let failed := lit "ERR write failed: data not persisted" in
  let one_key name (r : bytes * change) :=
    if (key =?b []) || negb (rest =?b []) then (wrong_args name, Keeps) else r in
  let no_key name r := if negb (key =?b []) || negb (rest =?b []) then (wrong_args name, Keeps) else (r, Keeps) in
  if verb =?b lit "SET" then
    if (key =?b []) || (rest =?b []) then (wrong_args (lit "set"), Keeps)
    else if taken (RSet key rest) then (lit "OK", Puts key rest) else (failed, Keeps)
  else if verb =?b lit "GET" then
    one_key (lit "get") (default (lit "(nil)") (if reads then m !! key else None), Touches key)
  else if (verb =?b lit "DEL") || (verb =?b lit "DELETE") then
    one_key (lit "del")
      match m !! key with
      | Some _ => if taken (RDel key) then (lit "(integer) 1", Removes key) else (failed, Keeps)
      | None => if reads then (lit "(integer) 0", Keeps) else (failed, Keeps)
      end
  else if verb =?b lit "EXISTS" then
    one_key (lit "exists") (if m !! key is Some _ then lit "(integer) 1" else lit "(integer) 0", Keeps)
  else if verb =?b lit "PING" then no_key (lit "ping") (lit "PONG")
  else if (verb =?b lit "QUIT") || (verb =?b lit "EXIT") then no_key (lit "quit") (lit "OK")
  else (lit "ERR unknown command '" ++ verb ++ lit "'", Keeps).

Definition changed_map (c : change) (m : gmap bytes bytes) : gmap bytes bytes :=
  match c with Puts k v => <[k := v]> m | Removes k => delete k m | _ => m end.

Definition changed_items (c : change) (l : list item) : list item :=
  match c with
  | Keeps => l | Touches k => lru_touch k l | Puts k v => lru_put k v l | Removes k => lru_remove k l
  end.

(** The cache afterwards: the changed list.  Only the insertion of a new key
    evicts: from the back, never below the capacity, and until the cache fits or
    the log refuses the record of an eviction. *)
Definition changed_cache (c : change) (st st' : store) : Prop :=
  let l := changed_items c (entries st) in
  match c with
  | Puts k _ =>
      if replaying_ st || bool_decide (is_Some (view st !! k)) then entries st' = l
      else entries st' `prefix_of` l /\
           (entries st' = l \/ 0 < capacity_ st <= Z.of_nat (length (entries st'))) /\
           (over_capacity st' = false \/ refused (wal_ st'))
  | _ => entries st' = l
  end.

Definition changed_store (c : change) (st st' : store) (m : gmap bytes bytes) : Prop :=
  match disk_ st with
  | Some _ => exists d', disk_ st' = Some d' /\ disk_inv d' (changed_map c m)
  | None => disk_ st' = None /\ store_ok st' /\ changed_cache c st st'
  end.

Lemma memory_holds (st : store) : store_ok st -> disk_ st = None -> holds st (view st).
Proof. intros Hok Hd. unfold holds. by rewrite Hd. Qed.

Lemma changed_keeps (st : store) m : holds st m -> changed_store Keeps st st m.
Proof.
  unfold holds, changed_store. destruct (disk_ st) as [d|] eqn:E; [by exists d|]. by intros [? _].
Qed.

Lemma set_command (st : store) m k v :
  holds st m -> valid_field k -> valid_field v ->
  (storage_set k v st).1 = takes st (RSet k v) /\
  changed_store (if takes st (RSet k v) then Puts k v else Keeps) st (storage_set k v st).2 m.
Proof.
  intros Hh Hk Hv. unfold holds, changed_store, takes in *. destruct (disk_ st) as [d|] eqn:E.
  - pose proof (disk_set_inv d m k v Hh Hk Hv) as Hd.
    assert ((disk_set k v d).1 = d_ok d && (if (next_io (d_env d)).1 is IoOk then true else false)) as Eb.
    { unfold disk_set. rewrite (bool_decide_false (k = [])), (bool_decide_false (v = [])) by (apply Hk || apply Hv).
      destruct (d_ok d); [|done]. by destruct (next_io (d_env d)) as [[] env]. }
    rewrite <- Eb. unfold storage_set. rewrite E. destruct (disk_set k v d) as [[] d']; cbn in *; split; try done; by exists d'.
  - destruct Hh as [Hok <-]. pose proof (set_effect k v st Hok E) as He.
    assert ((storage_set k v st).1 = (log_set k v st).1) as Es.
    { unfold storage_set. rewrite E. destruct (log_set k v st) as [[] st1]; [|done]. by destruct (index_ st1 !! k). }
    assert ((log_set k v st).1 = match wal_ st with None => true | Some l => (append_set k v l).1 end) as El.
    { unfold log_set. destruct (wal_ st) as [l|]; [by destruct (append_set k v l)|done]. }
    rewrite <- El, <- Es. split; [done|]. destruct (storage_set k v st) as [[] st']; cbn [fst snd].
    + destruct He as ((ks & [Ho _ _ _ (_ & _ & Fd) _] & _) & _ & Hm). rewrite Fd. do 2 (split; [done|]).
      unfold changed_cache. cbn [changed_items]. destruct (view st !! k) as [u|] eqn:Ek; [by rewrite orb_true_r|].
      rewrite bool_decide_eq_false_2, orb_false_r by (by intros [? ?]). assert (lru_put k v (entries st) = (k, v) :: entries st) as Hp.
      { unfold lru_put. by rewrite filter_absent by by rewrite <- lru_lookup_view in Ek. }
      rewrite Hp. destruct (replaying_ st); [done|]. by destruct Hm as (_ & ? & ? & ?).
    + destruct He as ([Ho _ _ _ (_ & _ & Fd) _] & He & _). by rewrite Fd.
Qed.

Lemma del_command (st : store) m k :
  holds st m -> valid_field k ->
  let c := match m !! k with
           | Some _ => if takes st (RDel k) then (1, true, Removes k) else (0, false, Keeps)
           | None => if readable st then (0, true, Keeps) else (0, false, Keeps)
           end in
  (storage_del k st).1 = c.1 /\ changed_store c.2 st (storage_del k st).2 m.
Proof.
  intros Hh Hk. unfold holds, changed_store, takes, readable in *. destruct (disk_ st) as [d|] eqn:E.
  - pose proof (disk_del_inv d m k Hh Hk) as Hd. unfold storage_del. rewrite E.
    pose proof (index_of_lookup _ _ _ k (disk_inv_index _ _ Hh)) as Hlk.
    pose proof (index_of_readable _ _ _ (disk_inv_index _ _ Hh) k) as Hrd.
    unfold disk_del in *. rewrite (bool_decide_false (k = [])) in * by apply Hk. destruct (d_ok d) eqn:Eo; cbn in *.
    + destruct (d_index d !! k) as [e|].
      * destruct (Hrd e eq_refl) as (v & _ & ->). destruct (next_io (d_env d)) as [[] env]; cbn in *; split; try done; by eexists.
      * rewrite <- Hlk. cbn. rewrite Eo. cbn. split; [done|]. by exists d.
    + rewrite Eo. destruct (m !! k); cbn; split; try done; by exists d.
  - destruct Hh as [Hok <-]. pose proof (del_effect k st Hok E) as He.
    assert ((storage_del k st).1.2 = match view st !! k with None => true | Some _ => (log_del k st).1 end) as Es.
    { unfold storage_del. rewrite E. destruct (index_ st !! k) as [n|] eqn:Ei.
      - destruct (store_ok_lookup st k n Hok Ei) as (v & a & b & _ & -> & _). by destruct (log_del k st) as [[] ?].
      - by rewrite (store_ok_miss st k Hok Ei). }
    assert ((log_del k st).1 = match wal_ st with None => true | Some l => (append_del k l).1 end) as El.
    { unfold log_del. destruct (wal_ st) as [l|]; [by destruct (append_del k l)|done]. }
    rewrite <- El. destruct (storage_del k st) as [[n b] st']. cbn [fst snd] in *. destruct (view st !! k).
    + rewrite <- Es. destruct b; cbn [fst snd].
      * destruct He as (-> & [Ho _ _ _ (_ & _ & Fd) _] & He). by rewrite Fd.
      * destruct He as (-> & [Ho _ _ _ (_ & _ & Fd) _] & He & _). by rewrite Fd.
    + by destruct He as (-> & -> & ->).
Qed.

Lemma get_command (st : store) m k :
  holds st m ->
  (storage_get k st).1 = (if readable st then m !! k else None) /\ changed_store (Touches k) st (storage_get k st).2 m.
Proof.
  intros Hh. unfold holds, changed_store, readable in *. destruct (disk_ st) as [d|] eqn:E.
  - unfold storage_get. rewrite E. split; [|by exists d]. cbn [fst]. destruct (d_ok d) eqn:Eo.
    + by apply index_of_get, disk_inv_index.
    + unfold disk_get. by rewrite Eo.
  - destruct Hh as [Hok <-]. pose proof (get_effect k st Hok E) as He. destruct (storage_get k st) as [x st'].
    destruct He as (-> & [Ho _ _ _ (_ & _ & Fd) _] & He). cbn [fst snd]. by rewrite Fd.
Qed.

Lemma exists_command (st : store) m k :
  holds st m -> storage_exists k st = if m !! k is Some _ then true else false.
Proof.
  intros Hh. unfold holds, storage_exists, disk_exists in *. destruct (disk_ st) as [d|] eqn:E.
  - pose proof (index_of_lookup _ _ _ k (disk_inv_index _ _ Hh)) as Hlk.
    destruct (d_index d !! k) as [e|] eqn:Ei; cbn in Hlk.
    + destruct (index_of_readable _ _ _ (disk_inv_index _ _ Hh) k e Ei) as (v & _ & ->). by rewrite bool_decide_eq_true_2.
    + rewrite <- Hlk. by rewrite bool_decide_eq_false_2 by (by intros [? ?]).
  - destruct Hh as [Hok <-]. destruct (index_ st !! k) as [n|] eqn:Ei.
    + destruct (store_ok_lookup st k n Hok Ei) as (v & a & b & _ & -> & _). by rewrite bool_decide_eq_true_2.
    + rewrite (store_ok_miss st k Hok Ei). by rewrite bool_decide_eq_false_2 by (by intros [? ?]).
Qed.

(** C18: the data commands do exactly what the reference says.  On a node that
    accepts the command, with either backend, whether or not its log or its data
    file takes the record: the reply and the change are those of [command_spec].
    [SET] answers OK and stores the value exactly when the record is taken, and
    otherwise answers with the write error and changes nothing; likewise [DEL] of a
    key that is held; [GET] answers with the value held or (nil), and always (nil)
    on a data file that has failed; a wrong number of arguments and an unknown verb
    are refused and change nothing.  The cache's list is the reference's, in order;
    only the insertion of a new key evicts, from the back, never below the capacity,
    and until the cache fits or the log refuses the eviction's record. *)
Theorem execute_data_spec verb key rest link raft (st : store) m :
  holds st m -> blen key <= kMaxField -> blen rest <= kMaxField ->
  let x := execute_data verb key rest link raft st in
  let ref := command_spec (readable st) (takes st) verb key rest m in
  reply x = ref.1 /\ changed_store ref.2 st (x_store x) m.
Proof.
  intros Hh Hk Hr. pose proof (changed_keeps st m Hh) as Hkeep. unfold execute_data, command_spec.
  destruct (verb =?b lit "SET").
  { destruct (decide (key = [])) as [->|Hk0]; [done|]. destruct (decide (rest = [])) as [->|Hr0]; [by rewrite orb_true_r|].
    rewrite !bool_decide_eq_false_2 by done. cbn [orb].
    destruct (set_command st m key rest Hh) as [E1 E2]; [by split..|].
    destruct (storage_set key rest st) as [b st']. cbn [fst snd] in *. subst b. by destruct (takes st (RSet key rest)). }
  destruct (verb =?b lit "GET").
  { destruct ((key =?b []) || negb (rest =?b [])); [done|]. destruct (get_command st m key Hh) as [E1 E2].
    destruct (storage_get key st) as [o st']. cbn [fst snd] in *. subst o. by destruct (if readable st then _ else _). }
  destruct ((verb =?b lit "DEL") || (verb =?b lit "DELETE")).
  { destruct (decide (key = [])) as [->|Hk0]; [done|]. rewrite bool_decide_eq_false_2 by done. cbn [orb].
    destruct (negb (rest =?b [])); [done|]. destruct (del_command st m key Hh) as [E1 E2]; [by split|].
    destruct (storage_del key st) as [[n b] st']. cbn [fst snd] in *.
    destruct (m !! key); [destruct (takes st (RDel key))|destruct (readable st)]; by simplify_eq/=. }
  destruct (verb =?b lit "EXISTS").
  { destruct ((key =?b []) || negb (rest =?b [])); [done|]. cbn [reply x_store]. rewrite (exists_command st m key Hh).
    by destruct (m !! key). }
  repeat match goal with |- context [if ?b then _ else _] => destruct b end; done.
Qed.

(** ** Who may write *)

(** A verb that is not a write leaves the data as it was. *)
Lemma execute_data_read verb key rest link raft (st : store) m :
  holds st m -> is_write verb = false -> holds (x_store (execute_data verb key rest link raft st)) m.
Proof.
  intros Hh Ew. unfold is_write in Ew. apply orb_false_iff in Ew as [Ew E3]. apply orb_false_iff in Ew as [E1 E2].
  unfold execute_data. rewrite E1, E2, E3. cbn [orb]. destruct (verb =?b lit "GET").
  - destruct ((key =?b []) || negb (rest =?b [])); [done|].
    assert (holds (storage_get key st).2 m) as Hg.
    { unfold holds in *. destruct (disk_ st) as [d|] eqn:E; [unfold storage_get; rewrite E; simpl; by rewrite E|].
      destruct Hh as [Hok <-]. pose proof (get_effect key st Hok E) as He.
      destruct (storage_get key st) as [x st'].
      destruct He as (_ & [Ho Hvv _ _ (_ & _ & Fd) _] & _). simpl. by rewrite Fd, E. }
    destruct (storage_get key st) as [[] st']; exact Hg.
  - repeat match goal with |- context [if ?b then _ else _] => destruct b end; done.
Qed.

(** C38: a follower is read-only.  On a follower, a line from a connection that
    has not done the replication handshake, and that is not the handshake
    itself, leaves the data of either backend as it was. *)
Theorem follower_read_only line (st : store) m link raft i :
  holds st m -> link <> Some true -> (parse_line (trim line)).1.1 <> lit "__REPLSYNC__" ->
  holds (x_store (execute_line line st true link raft i)) m.
Proof.
  intros Hh Hl Hv. unfold execute_line. destruct (trim line =?b []); [done|].
  destruct (parse_line (trim line)) as [[verb key] rest]. simpl in Hv.
  rewrite (bool_decide_false (verb = lit "__REPLSYNC__")) by done.
  destruct ((verb =?b lit "__RAFT_VOTE__") || (verb =?b lit "__RAFT_APPEND__")).
  { unfold execute_rpc. destruct raft as [n|]; [|done]. destruct (stol key) as [[t ?]|]; [|done].
    by destruct (if verb =?b lit "__RAFT_VOTE__" then _ else _). }
  destruct (verb =?b lit "ROLE"); [done|].
  rewrite (bool_decide_false (link = Some true)) by done. simpl.
  destruct (is_write verb) eqn:Ew; [done|].
  pose proof (execute_data_read verb key rest link raft st m Hh Ew) as Hx.
  destruct raft as [n|]; [|done]. by rewrite andb_false_r.
Qed.

(** Only the leader writes.  In a Raft cluster a node that is not the leader
    answers every [SET], [DEL] and [DELETE] with NOTLEADER and touches nothing. *)
Theorem not_leader_refuses line (st : store) link n i :
  is_leader n = false -> is_write (parse_line (trim line)).1.1 = true ->
  let x := execute_line line st false link (Some n) i in
  x_store x = st /\ x_raft x = Some n /\
  reply x = lit "ERR NOTLEADER " ++ (if leader_id_ n =?b [] then lit "(unknown)" else leader_id_ n).
Proof.
  intros Hn Hw. unfold execute_line.
  destruct (trim line =?b []) eqn:Et. { bool_simpl. by rewrite Et in Hw. }
  destruct (parse_line (trim line)) as [[verb key] rest]. simpl in Hw.
  rewrite Hn, Hw. unfold is_write in Hw.
  assert (verb = lit "SET" \/ verb = lit "DEL" \/ verb = lit "DELETE") as [->|[->| ->]]
    by (rewrite !orb_true_iff, !bool_decide_eq_true in Hw; tauto); done.
Qed.

(** ** Framing of the replies *)

Lemma get_reply_clean (st : store) m k v :
  holds st m -> clean m -> (storage_get k st).1 = Some v -> one_line v.
Proof.
  intros Hh Hc Hg. assert (m !! k = Some v) as Hm; [|exact (Hc _ _ Hm)].
  destruct (disk_ st) as [d|] eqn:E; [destruct (d_ok d) eqn:Ed|].
  - rewrite <- (holds_get st m k Hh); [done|]. rewrite E. by intros ? [= <-].
  - unfold storage_get, disk_get in Hg. rewrite E in Hg. simpl in Hg. by rewrite Ed in Hg.
  - rewrite <- (holds_get st m k Hh); [done|]. by rewrite E.
Qed.

Lemma execute_data_reply verb key rest link raft (st : store) m :
  holds st m -> clean m -> no_space verb -> one_line (reply (execute_data verb key rest link raft st)).
Proof.
  intros Hh Hc Hv. pose proof (get_reply_clean st m key) as Hg. unfold execute_data.
  destruct (verb =?b lit "SET").
  { destruct (_ || _); [cbn [reply negb]; lines|]. destruct (storage_set key rest st) as [[] ?]; cbn [reply negb]; lines. }
  destruct (verb =?b lit "GET").
  { destruct (_ || _); [cbn [reply negb]; lines|]. destruct (storage_get key st) as [[v|] ?]; simpl in Hg; cbn [reply]; [auto|lines]. }
  destruct ((verb =?b lit "DEL") || (verb =?b lit "DELETE")).
  { destruct (_ || _); [cbn [reply negb]; lines|]. destruct (storage_del key st) as [[n []] ?]; simpl negb; cbv iota;
      cbn [reply]; lines. }
  repeat match goal with |- context [if ?b then mkExec _ _ _ _ _ _ else _] => destruct b
    | |- context [if ?b then _ else mkExec _ _ _ _ _ _] => destruct b
    | |- context [if ?b then (if _ then _ else _) else _] => destruct b end; cbn [reply]; lines.
Qed.

Lemma role_text_line r : one_line (role_text r).
Proof. destruct r; by_word. Qed.

Lemma execute_line_reply line (st : store) m follower link raft i :
  holds st m -> clean m -> raft_clean raft ->
  one_line (reply (execute_line line st follower link raft i)).
Proof.
  intros Hh Hc Hr.
  pose proof (parse_line_fields line) as Hp. unfold execute_line.
  destruct (trim line =?b []); [cbn [reply negb]; lines|]. destruct (parse_line (trim line)) as [[verb key] rest].
  destruct Hp as (Hv & _). pose proof (execute_data_reply verb key rest link raft st m Hh Hc Hv) as Hd.
  destruct (verb =?b lit "__REPLSYNC__").
  { unfold execute_sync. destruct follower; cbn [negb reply]; [|lines]. destruct (link =?b Some true); [cbn [reply negb]; lines|].
    destruct (storage_clear st) as [[] ?]; cbn [reply negb]; lines. }
  destruct ((verb =?b lit "__RAFT_VOTE__") || (verb =?b lit "__RAFT_APPEND__")).
  { unfold execute_rpc. destruct raft as [n|]; [|cbn [reply negb]; lines]. destruct (stol key) as [[t ?]|]; [|cbn [reply negb]; lines].
    destruct (verb =?b lit "__RAFT_VOTE__"); [apply one_line_reply_lines|].
    unfold handle_append_entries. destruct (_ <=? _); apply one_line_reply_lines. }
  destruct (verb =?b lit "ROLE").
  { destruct raft as [n|]; [|cbn [reply negb]; lines]. simpl in Hr. cbn [reply]. unfold status_line.
    pose proof (role_text_line (role_ n)). destruct (leader_id_ n =?b []); lines. }
  destruct (follower && _ && _); [cbn [reply negb]; lines|]. destruct raft as [n|]; [|done]. simpl in Hr.
  destruct (negb (is_leader n) && is_write verb); [|done]. cbn [reply].
  destruct (leader_id_ n =?b []); lines.
Qed.

Lemma execute_line_raft_clean line (st : store) follower link raft i :
  raft_clean raft -> one_line line ->
  raft_clean (x_raft (execute_line line st follower link raft i)).
Proof.
  intros Hr Hl.
  pose proof (parse_line_fields line) as Hp. unfold execute_line.
  destruct (trim line =?b []); [done|]. destruct (parse_line (trim line)) as [[verb key] rest].
  destruct Hp as (_ & _ & _ & Hin & _).
  assert (one_line rest) as Hrest by (intros H'; apply Hl, Hin; by right).
  assert (x_raft (execute_data verb key rest link raft st) = raft) as Hd.
  { unfold execute_data. destruct (storage_set key rest st) as [[] ?], (storage_get key st) as [[] ?],
      (storage_del key st) as [[? []] ?];
      repeat match goal with |- context [if ?b then _ else _] => destruct b end; done. }
  destruct (verb =?b lit "__REPLSYNC__").
  { unfold execute_sync. destruct (storage_clear st) as [[] ?];
      repeat match goal with |- context [if ?b then _ else _] => destruct b end; done. }
  destruct ((verb =?b lit "__RAFT_VOTE__") || (verb =?b lit "__RAFT_APPEND__")).
  { unfold execute_rpc. destruct raft as [n|]; [|done]. destruct (stol key) as [[t ?]|]; [|done].
    destruct (handlers_clean i t rest n Hrest Hr) as [H1' H2'].
    destruct (verb =?b lit "__RAFT_VOTE__");
      [destruct (handle_request_vote i t rest n)|destruct (handle_append_entries i t rest n)]; done. }
  destruct (verb =?b lit "ROLE"); [done|]. destruct (follower && _ && _); [done|].
  destruct raft as [n|]; [|by rewrite Hd]. destruct (_ && _); [done|by rewrite Hd].
Qed.

Lemma execute_line_store_clean line (st : store) m follower link raft i :
  holds st m -> clean m -> one_line line -> blen line <= kMaxField ->
  (follower = true -> disk_ st = None) ->
  exists m', holds (x_store (execute_line line st follower link raft i)) m' /\ clean m'.
Proof.
  intros Hh Hc Hl Hlen Hf.
  destruct (execute_line_ops line st follower link raft i) as (ops & Hlo & Hops & ->).
  destruct Hops as [|o ops Ho Hops]; [by exists m|].
  assert (ops = []) as -> by (destruct ops; [done|simpl in Hlo; lia]). simpl.
  destruct (run_op_no_invention st m o Hh) as (m' & Hm' & Hinv).
  { destruct (decide (o = OpClear)) as [->|Hne]; [right; split; [done|by apply Hf]|left].
    apply (asked_data_op line); [done|]. by destruct o. }
  exists m'. split; [done|]. intros k v Hk. destruct (Hinv k v Hk) as [?| ->]; [by eapply Hc|].
  destruct Ho as (_ & _ & Hin & _). intros Hnl. apply Hl, Hin. by right.
Qed.

(** Framing.  A line without a newline is answered by a reply without a
    newline, on every branch, as long as the stored values and the known
    leader's name have none; and executing it keeps that so.  The newline the
    server appends is therefore the only one the client reads. *)
Theorem execute_line_framing line (st : store) m follower link raft i :
  holds st m -> clean m -> raft_clean raft -> one_line line -> blen line <= kMaxField ->
  (follower = true -> disk_ st = None) ->
  let x := execute_line line st follower link raft i in
  one_line (reply x) /\ raft_clean (x_raft x) /\ exists m', holds (x_store x) m' /\ clean m'.
Proof.
  intros Hh Hc Hr Hl Hlen Hf x. unfold x.
  split; [by eapply execute_line_reply|]. split; [by apply execute_line_raft_clean|].
  by eapply execute_line_store_clean.
Qed.

(** ** Lines between nodes *)

(** A record the replication stream can carry: what a client's line can write. *)
Definition wire_ok (r : record) : Prop :=
  match r with RSet k v => word k /\ text v /\ one_line v | RDel k => word k end.

Definition op_of (r : record) : op := match r with RSet k v => OpSet k v | RDel k => OpDel k end.

Lemma asked_wire_ok line follower r : one_line line -> asked_by line follower (op_of r) -> wire_ok r.
Proof.
  intros Hl. destruct r as [k v|k]; simpl; [|by intros (? & _)]. intros (Hk & Hv & Hin & _).
  split; [done|]. split; [done|]. intros Hn. apply Hl, Hin. by right.
Qed.

Lemma replica_executes line verb key rest (st : store) i :
  trim line = line -> line <> [] -> parse_line line = (verb, key, rest) -> is_write verb = true ->
  execute_line line st true (Some true) None i = execute_data verb key rest (Some true) None st.
Proof.
  intros Et Hne Hp Hw. unfold execute_line. rewrite Et, Hp, (bool_decide_false (line = [])) by done.
  unfold is_write in Hw.
  assert (verb = lit "SET" \/ verb = lit "DEL" \/ verb = lit "DELETE") as [->|[->| ->]]
    by (rewrite !orb_true_iff, !bool_decide_eq_true in Hw; tauto); done.
Qed.

Lemma replica_applies r line (st : store) i :
  wire_ok r -> wire_line r = line ++ [newline] ->
  one_line line /\ x_link (execute_line line st true (Some true) None i) = Some true /\
  x_store (execute_line line st true (Some true) None i) = run_op st (op_of r).
Proof.
  assert (word (lit "SET") /\ word (lit "DEL")) as [Hset Hdel] by (split; by_word).
  destruct r as [k v|k]; cbn [wire_ok op_of wire_line run_op].
  - intros (Hk & Hv & Hl) E. unfold set_line in E.
    assert (line = lit "SET" ++ lit " " ++ k ++ lit " " ++ v) as ->.
    { apply (app_inv_tail [newline]). rewrite <- E. by app_norm. }
    destruct (parse_three (lit "SET") k v Hset ltac:(done) Hk Hv) as (Et & Hne & Hp).
    split; [destruct Hk; lines|]. rewrite !(replica_executes _ _ _ _ _ _ Et Hne Hp) by done.
    destruct Hk as [Hk _], Hv as [Hv _]. unfold execute_data.
    rewrite (bool_decide_true (to_upper _ = _)), (bool_decide_false (k = [])), (bool_decide_false (v = [])) by done.
    cbn [orb]. by destruct (storage_set k v st) as [[] ?].
  - intros Hk E. unfold del_line in E.
    assert (line = lit "DEL" ++ lit " " ++ k) as ->.
    { apply (app_inv_tail [newline]). rewrite <- E. by app_norm. }
    destruct (parse_two (lit "DEL") k Hdel ltac:(done) Hk) as (Et & Hne & Hp).
    split; [destruct Hk; lines|]. rewrite !(replica_executes _ _ _ _ _ _ Et Hne Hp) by done.
    destruct Hk as [Hk _]. unfold execute_data.
    change (to_upper (lit "DEL")) with (lit "DEL").
    rewrite !(bool_decide_false (lit "DEL" = _)), (bool_decide_true (lit "DEL" = _)) by done.
    rewrite (bool_decide_false (k = [])) by done. cbn [orb negb].
    by destruct (storage_del k st) as [[? []] ?].
Qed.

(** A replicated write is applied as written.  The line the leader sends for
    a record is one line, and a follower that reads it on the replication link
    performs exactly that operation on its store, whatever spaces the value
    contains. *)
Theorem replicated_line_applied r line (st : store) i :
  wire_ok r -> wire_line r = line ++ [newline] ->
  one_line line /\ x_store (execute_line line st true (Some true) None i) = run_op st (op_of r).
Proof. intros Hr E. by destruct (replica_applies r line st i Hr E) as (? & _ & ?). Qed.

(** Raft requests arrive as sent.  The lines [send_request_vote] and
    [send_append_entries] write are dispatched by the receiving node to the
    handler, with the term and the sender's name they were sent with. *)
Theorem raft_request_delivered t self vote_req append_req n (st : store) link i :
  long t -> text self ->
  vote_request t self = vote_req ++ [newline] -> append_request t self = append_req ++ [newline] ->
  (let '(line, n') := handle_request_vote i t self n in
   execute_line vote_req st false link (Some n) i = mkExec line false None link st (Some n')) /\
  (let '(line, n') := handle_append_entries i t self n in
   execute_line append_req st false link (Some n) i = mkExec line false None link st (Some n')).
Proof.
  intros Ht Hs Ev Ea.
  assert (word (lit "__RAFT_VOTE__") /\ word (lit "__RAFT_APPEND__")) as [Hwv Hwa] by (split; by_word).
  assert (word (to_string t)) as Hwt by (split; [apply to_string_nonempty|apply to_string_not_space]).
  assert (stol (to_string t) = Some (t, blen (to_string t))) as Est.
  { unfold stol. rewrite <- (app_nil_r (to_string t)) at 1. by apply strto_to_string. }
  assert (vote_req = lit "__RAFT_VOTE__" ++ lit " " ++ to_string t ++ lit " " ++ self) as ->.
  { apply (app_inv_tail [newline]). rewrite <- Ev. unfold vote_request. by app_norm. }
  assert (append_req = lit "__RAFT_APPEND__" ++ lit " " ++ to_string t ++ lit " " ++ self) as ->.
  { apply (app_inv_tail [newline]). rewrite <- Ea. unfold append_request. by app_norm. }
  destruct (parse_three _ _ self Hwv ltac:(done) Hwt Hs) as (Et & Hne & Hp).
  destruct (parse_three _ _ self Hwa ltac:(done) Hwt Hs) as (Et' & Hne' & Hp').
  unfold execute_line. rewrite Et, Et', Hp, Hp', !bool_decide_false by done.
  change (to_upper (lit "__RAFT_VOTE__")) with (lit "__RAFT_VOTE__").
  change (to_upper (lit "__RAFT_APPEND__")) with (lit "__RAFT_APPEND__").
  rewrite !(bool_decide_true (_ = _)) by done. cbn [orb]. unfold execute_rpc. rewrite Est.
  split.
  - by destruct (handle_request_vote i t self n).
  - rewrite orb_true_r. by destruct (handle_append_entries i t self n).
Qed.

(** Any client can empty a follower.  The handshake is accepted from every
    fresh connection: one line without any credential clears the replica. *)
Theorem handshake_clears_follower (st : store) raft i :
  disk_ st = None ->
  let x := execute_line (lit "__replsync__") st true (Some false) raft i in
  reply x = lit "OK" /\ x_link x = Some true /\ view (x_store x) = ∅.
Proof. intros Hd. unfold execute_line, execute_sync, storage_clear. by rewrite Hd. Qed.
End effects.

(** ** A server's life on a log *)

Section serving.
Context {R : Type} `{ReplicaSink R} `{UnorderedIter}.
Abbreviation store := (Storage Wal R).

(** A line as it reaches the command layer, with the connection's replica flag,
    the state of the Raft node and the time. *)
Record request := mkRequest {
  q_line : bytes;
  q_link : option bool;
  q_raft : option RaftNode;
  q_now : instant;
}.

Definition serve (st : store) (qs : list request) : store :=
  foldl (fun st q => x_store (execute_line (q_line q) st false (q_link q) (q_raft q) (q_now q))) st qs.

Lemma serve_ops (st : store) qs :
  Forall (fun q => blen (q_line q) <= kMaxField) qs ->
  exists ops, Forall data_op ops /\ serve st qs = run st ops.
Proof.
  intros Hqs. revert st. induction Hqs as [|q qs Hq _ IH]; intros st; [by exists []|].
  simpl. destruct (execute_line_ops (q_line q) st false (q_link q) (q_raft q) (q_now q)) as (ops & _ & Ho & E).
  rewrite E. destruct (IH (run st ops)) as (ops' & Ho' & E'). exists (ops ++ ops').
  split; [|unfold run in *; by rewrite foldl_app]. apply Forall_app. split; [|done].
  eapply Forall_impl; [exact Ho|]. intros o. by apply asked_data_op.
Qed.

(** Durability of the protocol.  Start a leader or standalone server on a
    clean log, execute any lines clients send (up to the length the log can
    record), with any failures of the log; after a crash at any moment the log
    that is left restores exactly the data the commands had produced. *)
Theorem commands_survive_crash path file env cap st rs qs w file' env' :
  path <> [] -> path <> lit "none" -> path <> lit "-" ->
  is_log (default [] file) rs -> fits cap (apply_records ∅ rs) ->
  setup_persistence path file env (storage_new cap) = Some st ->
  Forall (fun q => blen (q_line q) <= kMaxField) qs ->
  wal_ (serve st qs) = Some w -> crash_image w file' -> fits cap (view (serve st qs)) ->
  view (replay_into (wal_new (Some file') env') (storage_new cap : store)).2 = view (serve st qs).
Proof.
  intros Hp1 Hp2 Hp3 Hl Hf Hs Hqs Hw Hc Hfit. destruct (serve_ops st qs Hqs) as (ops & Hops & E).
  rewrite E in *. destruct (setup_session path file env cap st rs Hp1 Hp2 Hp3 Hl Hf Hs) as [Hses _].
  pose proof (session_crash _ w file' env' cap (session_run st ops Hses Hops) Hw Hc) as Hr.
  destruct (replay_into _ _) as [n st']. destruct Hr as [_ Hr]. by apply Hr.
Qed.
End serving.

(** ** Concrete runs *)

#[local] Existing Instance list_iter.

Definition demo_data : redon :=
  (storage_set (lit "a") (lit "x y") (storage_new 0)).2.

Lemma demo_data_ok : store_ok demo_data /\ disk_ demo_data = None /\
  view demo_data = {[ lit "a" := lit "x y" ]}.
Proof.
  pose proof (set_effect (R := Replicator) (lit "a") (lit "x y") (storage_new 0 : redon)
    (lru_ok_nil 0) eq_refl) as He.
  unfold demo_data. destruct (storage_set (lit "a") (lit "x y") (storage_new 0 : redon)) as [b st'] eqn:E.
  assert (b = true) as -> by (apply (f_equal fst) in E; vm_compute in E; by symmetry).
  destruct He as ((ks & [Ho Hv _ _ (_ & _ & Hd) _] & Hks & _) & _). simpl.
  split; [done|]. split; [done|]. rewrite Hv. destruct ks; [done|]. by destruct Hks as [? _].
Qed.

(** A cache of one key whose log takes the record of the write and refuses the
    record of the eviction. *)
Definition demo_empty : redon :=
  attach_wal (Some (open_for_append (wal_new None [IoOk; IoOk; IoOk; IoFail 0])).2) (storage_new 1).
Definition demo_full : redon := (storage_set (lit "a") (lit "1") demo_empty).2.

Lemma execute_data_spec_witness :
  let x := execute_data (lit "SET") (lit "b") (lit "2") None None demo_full in
  holds demo_full (view demo_full) /\ entries (x_store x) = [(lit "b", lit "2"); (lit "a", lit "1")] /\
  reply x = lit "OK" /\ changed_store (Puts (lit "b") (lit "2")) demo_full (x_store x) (view demo_full).
Proof.
  assert (holds demo_full (view demo_full)) as Hh.
  { destruct (set_command (L := Wal) demo_empty ∅ (lit "a") (lit "1")) as [_ (Hd & Hok & _)];
      [split; [apply lru_ok_nil|done]|by_word..|]. exact (memory_holds demo_full Hok Hd). }
  assert (command_spec (readable demo_full) (takes demo_full) (lit "SET") (lit "b") (lit "2") (view demo_full) =
          (lit "OK", Puts (lit "b") (lit "2"))) as Es by by vm_compute.
  split; [exact Hh|]. split; [by vm_compute|].
  pose proof (execute_data_spec (L := Wal) (lit "SET") (lit "b") (lit "2") None None demo_full (view demo_full) Hh
    ltac:(by vm_compute) ltac:(by vm_compute)) as H. cbv zeta in H. rewrite Es in H. exact H.
Defined.

Lemma follower_read_only_witness :
  holds (x_store (execute_line (lit "set a 2") demo_data true (Some false) None demo_instant))
    {[ lit "a" := lit "x y" ]}.
Proof.
  apply (follower_read_only (L := Wal)); [|done|by vm_compute].
  destruct demo_data_ok as (Hok & Hd & <-). exact (memory_holds (L := Wal) _ Hok Hd).
Defined.

Lemma not_leader_refuses_witness :
  let n := raft_new demo_config demo_instant in
  let x := execute_line (lit "del a") demo_data false None (Some n) demo_instant in
  x_store x = demo_data /\ x_raft x = Some n /\ reply x = lit "ERR NOTLEADER (unknown)".
Proof.
  intros n x. apply (not_leader_refuses (L := Wal) (lit "del a") demo_data None n demo_instant); by vm_compute.
Defined.

Lemma execute_line_framing_witness :
  let x := execute_line (lit "GET a") demo_data false None None demo_instant in
  one_line (reply x) /\ raft_clean (x_raft x) /\ exists m', holds (x_store x) m' /\ clean m'.
Proof.
  destruct demo_data_ok as (Hok & Hd & Hv).
  apply (execute_line_framing (L := Wal) (lit "GET a") demo_data {[ lit "a" := lit "x y" ]}).
  - rewrite <- Hv. exact (memory_holds (L := Wal) _ Hok Hd).
  - apply map_Forall_singleton. by_word.
  - done.
  - by_word.
  - by vm_compute.
  - done.
Defined.

Lemma replicated_line_applied_witness :
  one_line (lit "SET a x y") /\
  x_store (execute_line (lit "SET a x y") (storage_new 0 : redon) true (Some true) None demo_instant) =
  run_op (storage_new 0) (OpSet (lit "a") (lit "x y")).
Proof.
  apply (replicated_line_applied (L := Wal) (RSet (lit "a") (lit "x y")) (lit "SET a x y")).
  - split; [by_word|]. split; [by split|by_word].
  - done.
Defined.

Lemma raft_request_delivered_witness :
  let n := raft_new demo_config demo_instant in
  (let '(line, n') := handle_request_vote demo_instant 3 (lit "h:2") n in
   execute_line (lit "__RAFT_VOTE__ 3 h:2") demo_data false None (Some n) demo_instant =
     mkExec line false None None demo_data (Some n')) /\
  (let '(line, n') := handle_append_entries demo_instant 3 (lit "h:2") n in
   execute_line (lit "__RAFT_APPEND__ 3 h:2") demo_data false None (Some n) demo_instant =
     mkExec line false None None demo_data (Some n')).
Proof.
  intros n. apply (raft_request_delivered (L := Wal) 3 (lit "h:2")); [done|by split|by vm_compute..].
Defined.

Lemma handshake_clears_follower_witness :
  let x := execute_line (lit "__replsync__") demo_data true (Some false) None demo_instant in
  reply x = lit "OK" /\ x_link x = Some true /\ view (x_store x) = ∅.
Proof. apply (handshake_clears_follower (L := Wal) demo_data None demo_instant), demo_data_ok. Defined.

Definition demo_requests : list request :=
  [mkRequest (lit "SET a x y") (Some false) None demo_instant;
   mkRequest (lit "set b 2") (Some false) None demo_instant].

Definition demo_started : redon :=
  default (storage_new 0) (setup_persistence (lit "redon.wal") None [] (storage_new 0)).

Definition demo_served_wal : Wal := default (wal_new None []) (wal_ (serve demo_started demo_requests)).

Lemma commands_survive_crash_witness :
  view (replay_into (wal_new (Some (log_bytes demo_served_wal)) []) (storage_new 0 : redon)).2 =
    view (serve demo_started demo_requests).
Proof.
  apply (commands_survive_crash (R := Replicator) (lit "redon.wal") None [] 0 demo_started []
    demo_requests demo_served_wal (log_bytes demo_served_wal) []);
    [done|done|done|exact is_log_nil|unfold fits; lia|by vm_compute| |by vm_compute| |unfold fits; lia].
  - by repeat constructor.
  - exists []. rewrite app_nil_r. split; [reflexivity|]. split; [by left|reflexivity].
Defined.
