(* ===== verification/RaftStore.v ===== *)
(** * Writes in a Raft cluster (src/command.cpp with src/raft.cpp)

    The nodes of [RaftCluster], each with its storage engine, driven by lines of
    text: a line reaches the command layer of a node, which serves Raft requests
    and refuses writes unless the node leads.  The test for leadership takes the
    lock of the Raft node and the command on the data takes the lock of the engine,
    one after the other: they are two steps here, between which the threads of
    other clients, the timers and the replies move as they like. *)

From S2P Require Import Prelude Stream Records Interfaces DiskStore Storage StorageCorrect.
From S2P Require Import Wal Replicator Recovery Address Net Raft RaftCluster Command.

Local Open Scope Z_scope.

(** ** What a line is to the Raft node *)

(** The term and name of a well-formed vote request. *)
Definition vote_request_of (line : bytes) : option (Z * bytes) :=
  let '(verb, key, rest) := parse_line (trim line) in
  if verb =?b lit "__RAFT_VOTE__" then (fun t => (t.1, rest)) <$> stol key else None.

Definition writes (line : bytes) : bool := is_write (parse_line (trim line)).1.1.

Section cluster.
Context {L R : Type} `{WriteAheadLaws L} `{ReplicaSink R} `{UnorderedIter}.
Abbreviation store := (Storage L R).

(** A line changes the Raft node only as a vote or append request does. *)
Lemma execute_line_raft line (st : store) n link i :
  let x := execute_line line st false link (Some n) i in
  exists n', x_raft x = Some n' /\
    match vote_request_of line with
    | Some (t, cand) => long t /\ handle_request_vote i t cand n = (reply x, n')
    | None => n' = n \/ exists t ldr, long t /\ handle_append_entries i t ldr n = (reply x, n')
    end.
Proof.
  cbv zeta. unfold execute_line, vote_request_of. destruct (decide (trim line = [])) as [E|E].
  { rewrite E, bool_decide_eq_true_2 by done. exists n. split; [done|]. by left. }
  rewrite bool_decide_eq_false_2 by done. destruct (parse_line (trim line)) as [[verb key] rest].
  destruct (decide (verb = lit "__RAFT_VOTE__")) as [->|Hv].
  - rewrite bool_decide_eq_false_2, (bool_decide_eq_true_2 (lit "__RAFT_VOTE__" = _)) by done. cbn [orb]. unfold execute_rpc.
    destruct (stol key) as [[t c]|] eqn:Es; simpl; [|exists n; split; [done|by left]].
    eexists. split; [done|]. split; [by eapply stol_long|done].
  - rewrite (bool_decide_eq_false_2 (verb = lit "__RAFT_VOTE__")) by done. cbn [orb].
    destruct (verb =?b lit "__REPLSYNC__"); [exists n; split; [done|by left]|].
    destruct (verb =?b lit "__RAFT_APPEND__").
    { unfold execute_rpc. rewrite (bool_decide_eq_false_2 (verb = lit "__RAFT_VOTE__")) by done.
      destruct (stol key) as [[t c]|] eqn:Es; [|exists n; split; [done|by left]].
      destruct (handle_append_entries i t rest n) as [ln n'] eqn:Eh. exists n'. split; [done|]. right. exists t, rest.
      split; [by eapply stol_long|done]. }
    destruct (verb =?b lit "ROLE"); [exists n; split; [done|by left]|]. cbn [andb].
    destruct (negb (is_leader n) && is_write verb); [exists n; split; [done|by left]|].
    exists n. split; [|by left]. unfold execute_data.
    destruct (storage_set key rest st) as [[] ?], (storage_get key st) as [[] ?], (storage_del key st) as [[? []] ?];
      repeat match goal with |- context [if ?b then _ else _] => destruct b end; done.
Qed.

(** ** The critical sections of a line *)

(** Lines that take at most one lock: blank lines, the handshake (refused by a node
    that is no replica), Raft requests and ROLE. *)
Definition one_section (line : bytes) : bool :=
  let verb := (parse_line (trim line)).1.1 in
  (trim line =?b []) || (verb =?b lit "__REPLSYNC__") || (verb =?b lit "__RAFT_VOTE__") ||
  (verb =?b lit "__RAFT_APPEND__") || (verb =?b lit "ROLE").

(** The first section of the others, [raft->is_leader()]: does the line go on to the
    engine? *)
Definition admitted (line : bytes) (n : RaftNode) : bool := is_leader n || negb (writes line).

(** The second, for a line that does not: [raft->leader_id()]. *)
Definition turned_away (n : RaftNode) : bytes :=
  lit "ERR NOTLEADER " ++ (if leader_id_ n =?b [] then lit "(unknown)" else leader_id_ n).

(** The second, for a line that does: the command on the data. *)
Definition run_data (line : bytes) (link : option bool) (raft : option RaftNode) (st : store) : executed L R :=
  let '(verb, key, rest) := parse_line (trim line) in execute_data verb key rest link raft st.

(** [execute_line] is these sections, one after the other. *)
Lemma execute_line_sections line (st : store) n link i :
  one_section line = false ->
  execute_line line st false link (Some n) i =
    if admitted line n then run_data line link (Some n) st
    else mkExec (turned_away n) false None link st (Some n).
Proof.
  unfold one_section, admitted, writes, run_data, execute_line. destruct (parse_line (trim line)) as [[verb key] rest].
  cbn [fst]. intros E. repeat (apply orb_false_iff in E as [E ?]).
  repeat match goal with H : _ = false |- _ => rewrite H; clear H end. cbn [orb andb].
  by destruct (is_leader n), (is_write verb).
Qed.

(** A line of one section does not touch the data. *)
Lemma one_section_data line (st : store) n link i :
  one_section line = true -> x_store (execute_line line st false link (Some n) i) = st.
Proof.
  unfold one_section, execute_line, execute_rpc. destruct (trim line =?b []); [done|].
  destruct (parse_line (trim line)) as [[verb key] rest]. cbn [fst orb].
  destruct (verb =?b lit "__REPLSYNC__"); [done|].
  destruct ((verb =?b lit "__RAFT_VOTE__") || (verb =?b lit "__RAFT_APPEND__")) eqn:E.
  - intros _. destruct (stol key) as [[t ?]|]; [|done]. by destruct (if verb =?b lit "__RAFT_VOTE__" then _ else _).
  - apply orb_false_iff in E as [-> ->]. cbn [orb]. by destruct (verb =?b lit "ROLE").
Qed.

(** ** The cluster *)

(** A thread between its two sections: the node, the line, and what the first
    section found: the term in which it was admitted, or that it is refused. *)
Inductive waiting := Admitted_in (t : Z) | Refused_.

(** [kv_writes]: the write commands executed, newest first, with the node that
    executed each and its term when it was admitted; [kv_refusals]: the answers to
    the others. *)
Record kv := mkKv {
  kv_raft : Cluster;
  kv_stores : gmap bytes store;
  kv_threads : list (bytes * bytes * waiting);
  kv_writes : list (Z * bytes * bytes);
  kv_refusals : list (bytes * bytes * bytes);
}.

Definition kv_boot (conf : gmap bytes Config) (i : instant) (stores : gmap bytes store) : kv :=
  mkKv (boot conf i) stores [] [] [].

(** A line of one section is served at node [id]. *)
Definition serve_at (id line : bytes) (link : option bool) (i : instant) (k : kv) : option kv :=
  '(n, ph) ← nodes (kv_raft k) !! id;
  st ← kv_stores k !! id;
  let x := execute_line line st false link (Some n) i in
  n' ← x_raft x;
  let '(replies, votes) :=
    match vote_request_of line with
    | Some (t, cand) => ([(id, t, cand, reply x)], if reply x =?b vote_line t true then [(id, t, cand)] else [])
    | None => ([], [])
    end in
  if one_section line then
    Some (mkKv (update (kv_raft k) id n' ph replies votes []) (<[id := x_store x]> (kv_stores k))
            (kv_threads k) (kv_writes k) (kv_refusals k))
  else None.

(** The first section of any other line. *)
Definition check_at (id line : bytes) (k : kv) : option kv :=
  '(n, _) ← nodes (kv_raft k) !! id;
  if one_section line then None
  else
    let w := if admitted line n then Admitted_in (current_term_ n) else Refused_ in
    Some (mkKv (kv_raft k) (kv_stores k) ((id, line, w) :: kv_threads k) (kv_writes k) (kv_refusals k)).

(** The second section of the [j]th waiting thread. *)
Definition resume (j : nat) (link : option bool) (k : kv) : option kv :=
  '(id, line, w) ← kv_threads k !! j;
  '(n, _) ← nodes (kv_raft k) !! id;
  st ← kv_stores k !! id;
  let others := delete j (kv_threads k) in
  match w with
  | Admitted_in t =>
      Some (mkKv (kv_raft k) (<[id := x_store (run_data line link (Some n) st)]> (kv_stores k)) others
              (if writes line then (t, id, line) :: kv_writes k else kv_writes k) (kv_refusals k))
  | Refused_ => Some (mkKv (kv_raft k) (kv_stores k) others (kv_writes k) ((id, line, turned_away n) :: kv_refusals k))
  end.

Inductive kv_step (k : kv) : kv -> Prop :=
  | kv_timer c' :
      step false (kv_raft k) c' -> kv_step k (mkKv c' (kv_stores k) (kv_threads k) (kv_writes k) (kv_refusals k))
  | kv_line id line link i k' : serve_at id line link i k = Some k' -> kv_step k k'
  | kv_check id line k' : check_at id line k = Some k' -> kv_step k k'
  | kv_resume j link k' : resume j link k = Some k' -> kv_step k k'.

Lemma update_same c id n ph : nodes c !! id = Some (n, ph) -> update c id n ph [] [] [] = c.
Proof. intros Hn. unfold update. rewrite insert_id by done. by destruct c. Qed.

(** A line of one section is a step of [RaftCluster], or none, and leaves the data. *)
Lemma serve_at_step id line link i k k' :
  serve_at id line link i k = Some k' ->
  rtc (step false) (kv_raft k) (kv_raft k') /\
  kv_threads k' = kv_threads k /\ kv_writes k' = kv_writes k /\ kv_stores k' = kv_stores k.
Proof.
  unfold serve_at. destruct (nodes (kv_raft k) !! id) as [[n ph]|] eqn:En; [|done]. cbn.
  destruct (kv_stores k !! id) as [st|] eqn:Est; [|done]. cbn.
  pose proof (one_section_data line st n link i) as Hst.
  destruct (execute_line_raft line st n link i) as (n' & En' & Hn'). cbv zeta in *.
  set (x := execute_line line st false link (Some n) i) in *. clearbody x. rewrite En'. cbn.
  destruct (one_section line); [|by destruct (vote_request_of line) as [[??]|]].
  rewrite (Hst eq_refl). destruct (vote_request_of line) as [[t cand]|].
  - destruct Hn' as [Ht Eh]. intros [= <-]. cbn. rewrite insert_id by done. split; [|done]. apply rtc_once.
    exact (step_vote_rpc false _ _ _ _ i t cand _ _ En Ht Eh).
  - intros [= <-]. cbn. rewrite insert_id by done. split; [|done]. destruct Hn' as [->|(t & ldr & Ht & Eh)].
    + by rewrite update_same.
    + apply rtc_once. exact (step_append_rpc false _ _ _ _ i t ldr _ _ En Ht Eh).
Qed.

(** ** Who writes *)

Section run.
Context (conf : gmap bytes Config) (i0 : instant) (stores : gmap bytes store).

Record kv_ok (k : kv) : Prop := {
  ok_reached : rtc (step false) (boot conf i0) (kv_raft k);
  ok_wins t id line : (t, id, line) ∈ kv_writes k -> (t, id) ∈ wins (kv_raft k);
  ok_threads t id line : (id, line, Admitted_in t) ∈ kv_threads k -> writes line = true -> (t, id) ∈ wins (kv_raft k);
  ok_kept id st : kv_stores k !! id = Some st -> (forall t line, (t, id, line) ∉ kv_writes k) ->
    exists st0, stores !! id = Some st0 /\ holds st (data_of st0);
}.

Lemma step_wins c c' w : step false c c' -> w ∈ wins c -> w ∈ wins c'.
Proof. destruct 1; simpl; intros Hw; try done; apply elem_of_app; by right. Qed.

Lemma steps_wins c c' w : rtc (step false) c c' -> w ∈ wins c -> w ∈ wins c'.
Proof. induction 1 as [|c1 c2 c3 Hs _ IH]; [done|]. intros Hw. eapply IH, step_wins; done. Qed.

Lemma check_ok id line k k' : well_configured conf -> kv_ok k -> check_at id line k = Some k' -> kv_ok k'.
Proof.
  intros Hc [Hr Hw Ht Hk] Hs. unfold check_at in Hs.
  destruct (nodes (kv_raft k) !! id) as [[n ph]|] eqn:En; [|done]. cbn in Hs.
  destruct (one_section line); [done|]. injection Hs as <-. split; cbn; [done..| |done].
  intros t id' line' Hin Hwr. apply elem_of_cons in Hin as [E|Hin]; [|by eapply Ht].
  injection E as -> -> Ew. unfold admitted in Ew. rewrite Hwr, orb_false_r in Ew. destruct (is_leader n) eqn:Hl; [|done].
  injection Ew as ->. unfold is_leader in Hl. bool_simpl.
  destruct (reachable_inv conf i0 _ Hc Hr) as [Hi _]. by apply (node_leader _ _ _ _ _ (inv_nodes _ _ Hi _ _ _ En)).
Qed.

Lemma resume_ok j link k k' : kv_ok k -> resume j link k = Some k' -> kv_ok k'.
Proof.
  intros [Hr Hw Ht Hk] Hs. unfold resume in Hs. destruct (kv_threads k !! j) as [[[id line] w]|] eqn:Ej; [|done]. cbn in Hs.
  destruct (nodes (kv_raft k) !! id) as [[n ph]|]; [|done]. cbn in Hs.
  destruct (kv_stores k !! id) as [st|] eqn:Est; [|done]. cbn in Hs.
  assert (forall x, x ∈ delete j (kv_threads k) -> x ∈ kv_threads k) as Hdel
    by (intros x Hx; exact (elem_of_sublist _ _ _ Hx (sublist_delete _ _))).
  apply list_elem_of_lookup_2 in Ej. destruct w as [t|]; injection Hs as <-.
  2:{ split; cbn; [done..| |done]. intros t' id' line' Hin. by eapply Ht, Hdel. }
  split; cbn; [done| |intros t' id' line' Hin; by eapply Ht, Hdel|].
  - intros t' id' line'. destruct (writes line) eqn:Ew; [|by apply Hw].
    intros [E|Hin]%elem_of_cons; [|by eapply Hw]. injection E as -> -> ->. by eapply Ht.
  - intros id' st' Hst' Hno. destruct (decide (id' = id)) as [->|Hne].
    + rewrite lookup_insert_eq in Hst'. injection Hst' as <-. destruct (writes line) eqn:Ew; [edestruct Hno; by left|].
      destruct (Hk id st Est Hno) as (st0 & E0 & Hh). exists st0. split; [done|].
      unfold run_data, writes in *. destruct (parse_line (trim line)) as [[verb key] rest]. by apply execute_data_read.
    + rewrite lookup_insert_ne in Hst' by done. apply Hk; [done|]. intros t' l Hin. apply (Hno t' l).
      destruct (writes line); [by right|done].
Qed.

Lemma kv_step_ok k k' : well_configured conf -> kv_ok k -> kv_step k k' -> kv_ok k'.
Proof.
  intros Hc Hk Hs. destruct Hs as [c' Hs|id line link i k' Hs|id line k' Hs|j link k' Hs].
  - destruct Hk as [Hr Hw Ht Hd]. split; cbn; [by eapply rtc_r| | |done].
    + intros t id line Hin. eapply step_wins, Hw; done.
    + intros t id line Hin Hwr. eapply step_wins, Ht; done.
  - destruct Hk as [Hr Hw Ht Hd]. destruct (serve_at_step _ _ _ _ _ _ Hs) as (Hsteps & Et & Ewr & Est).
    split; rewrite ?Et, ?Ewr, ?Est; [by etrans| | |done].
    + intros t id' line' Hin. eapply steps_wins, Hw; done.
    + intros t id' line' Hin Hwr. eapply steps_wins, Ht; done.
  - by eapply check_ok.
  - by eapply resume_ok.
Qed.

(** C10: one writer per term.  In a Raft cluster driven by any lines at any nodes,
    Raft requests from anyone among them, with the critical sections of all threads,
    the timers and the replies interleaved in any way: two write commands that were
    admitted in the same term were executed by the same node, and the data of a node
    that has executed none is what it was at the start. *)
Theorem one_writer_per_term k :
  well_configured conf -> map_Forall (fun _ st => holds st (data_of st)) stores ->
  rtc kv_step (kv_boot conf i0 stores) k ->
  (forall t a la b lb, (t, a, la) ∈ kv_writes k -> (t, b, lb) ∈ kv_writes k -> a = b) /\
  (forall id st, kv_stores k !! id = Some st -> (forall t line, (t, id, line) ∉ kv_writes k) ->
     exists st0, stores !! id = Some st0 /\ data_of st = data_of st0).
Proof.
  intros Hc Hst Hrun.
  assert (kv_ok k) as [Hr Hw _ Hk].
  { revert Hrun. apply (rtc_ind_r kv_ok); [|intros k1 k2 _ Hs Hk; by eapply kv_step_ok].
    split; cbn; [done|intros t id line Hin; by apply not_elem_of_nil in Hin..|].
    intros id st Hid _. exists st. split; [done|]. by apply (Hst id). }
  split.
  - intros t a la b lb Ha%Hw Hb%Hw. destruct (reachable_inv conf i0 _ Hc Hr) as [Hi _].
    exact (inv_one_winner (dom conf) _ _ a b Hi Ha Hb).
  - intros id st Hid Hno. destruct (Hk id st Hid Hno) as (st0 & E0 & Hh). exists st0. split; [done|]. by apply holds_data.
Qed.
End run.
End cluster.

(** ** A concrete run: an election by lines of text, then a write at each node *)

#[local] Existing Instance list_iter.

Inductive kv_action := KTimer (a : action) | KLine (id line : bytes) (t : Z) | KCheck (id line : bytes) | KResume (j : nat).

Definition kv_act (k : kv (L := Wal) (R := Replicator)) (a : kv_action) : option kv :=
  match a with
  | KTimer a => (fun c => mkKv c (kv_stores k) (kv_threads k) (kv_writes k) (kv_refusals k)) <$> act false (kv_raft k) a
  | KLine id line t => serve_at id line (Some false) (at_ms t) k
  | KCheck id line => check_at id line k
  | KResume j => resume j (Some false) k
  end.

Fixpoint kv_acts (l : list kv_action) (k : kv (L := Wal) (R := Replicator)) : option kv :=
  match l with [] => Some k | a :: l' => k' ← kv_act k a; kv_acts l' k' end.

Lemma kv_acts_run l k k' : kv_acts l k = Some k' -> rtc kv_step k k'.
Proof.
  revert k. induction l as [|a l IH]; intros k; cbn; [by intros [= ->]|].
  destruct (kv_act k a) as [k1|] eqn:E; [|done]. cbn. intros Hl. eapply rtc_l; [|by apply IH].
  destruct a as [a|id line t|id line|j]; cbn in E; [|by eapply kv_line|by eapply kv_check|by eapply kv_resume].
  destruct (act false (kv_raft k) a) as [c|] eqn:Ea; [|done]. injection E as <-. by apply kv_timer, (act_step _ _ a).
Qed.

Definition demo_stores : gmap bytes (Storage Wal Replicator) := (fun _ => storage_new 0) <$> demo_conf.

Definition demo_script : list kv_action :=
  [KTimer (ATick (lit "h:1") (at_ms 1000)); KTimer (ABegin (lit "h:1") (at_ms 1000));
   KLine (lit "h:2") (lit "__RAFT_VOTE__ 1 h:1") 1001; KTimer (AReply (lit "h:1") (at_ms 1002) 0);
   KCheck (lit "h:1") (lit "SET a 1"); KCheck (lit "h:2") (lit "SET a 2"); KResume 0; KResume 0].

Definition demo_kv : kv (L := Wal) (R := Replicator) :=
  default (kv_boot demo_conf (at_ms 0) demo_stores) (kv_acts demo_script (kv_boot demo_conf (at_ms 0) demo_stores)).

Lemma demo_kv_run : rtc kv_step (kv_boot demo_conf (at_ms 0) demo_stores) demo_kv.
Proof. apply (kv_acts_run demo_script). by vm_compute. Qed.

Lemma demo_stores_hold : map_Forall (fun _ st => holds (L := Wal) st (data_of st)) demo_stores.
Proof. intros id st E. apply lookup_fmap_Some in E as (c & <- & _). split; [apply lru_ok_nil|done]. Qed.

Lemma one_writer_per_term_witness :
  kv_writes demo_kv = [(1, lit "h:1", lit "SET a 1")] /\
  kv_refusals demo_kv = [(lit "h:2", lit "SET a 2", lit "ERR NOTLEADER (unknown)")] /\
  ((forall t a la b lb, (t, a, la) ∈ kv_writes demo_kv -> (t, b, lb) ∈ kv_writes demo_kv -> a = b) /\
   (forall id st, kv_stores demo_kv !! id = Some st -> (forall t line, (t, id, line) ∉ kv_writes demo_kv) ->
      exists st0, demo_stores !! id = Some st0 /\ data_of (L := Wal) st = data_of st0)).
Proof.
  split; [by vm_compute|]. split; [by vm_compute|].
  exact (one_writer_per_term (L := Wal) demo_conf (at_ms 0) demo_stores demo_kv demo_configured demo_stores_hold demo_kv_run).
Defined.

(** ** A write of a deposed leader *)

Definition deposed_script : list kv_action :=
  [KTimer (ATick (lit "h:1") (at_ms 1000)); KTimer (ABegin (lit "h:1") (at_ms 1000));
   KLine (lit "h:2") (lit "__RAFT_VOTE__ 1 h:1") 1001; KTimer (AReply (lit "h:1") (at_ms 1002) 0);
   KCheck (lit "h:1") (lit "SET a 1");
   KTimer (ATick (lit "h:2") (at_ms 9000)); KTimer (ABegin (lit "h:2") (at_ms 9000));
   KLine (lit "h:1") (lit "__RAFT_VOTE__ 2 h:2") 9001; KTimer (AReply (lit "h:2") (at_ms 9002) 0);
   KCheck (lit "h:2") (lit "SET a 2"); KResume 0; KResume 0].

Definition deposed_kv : kv (L := Wal) (R := Replicator) :=
  default (kv_boot demo_conf (at_ms 0) demo_stores) (kv_acts deposed_script (kv_boot demo_conf (at_ms 0) demo_stores)).

(** A write may be executed by a node that no longer leads.  The test for leadership
    and the write are two critical sections: a node admits SET a 1 in term 1, then
    votes for another node, which wins term 2 and executes SET a 2; after that the
    first node, now a follower of term 2, executes its write and answers OK.  This
    is why [one_writer_per_term] counts a write under the term that admitted it. *)
Theorem deposed_leader_writes :
  rtc kv_step (kv_boot demo_conf (at_ms 0) demo_stores) deposed_kv /\
  kv_writes deposed_kv = [(1, lit "h:1", lit "SET a 1"); (2, lit "h:2", lit "SET a 2")] /\
  (fun x => (is_leader x.1, current_term_ x.1)) <$> nodes (kv_raft deposed_kv) !! lit "h:1" = Some (false, 2) /\
  (fun st => data_of st !! lit "a") <$> kv_stores deposed_kv !! lit "h:1" = Some (Some (lit "1")).
Proof.
  split; [apply (kv_acts_run deposed_script); by vm_compute|]. by vm_compute.
Qed.
