(* ===== verification/Router.v ===== *)
(** * The sharding router (src/router.cpp)

    The key hash, the choice of a shard, and the forwarding of a line over a
    connection of its own. *)

From S2P Require Import Prelude Stream Address Net.

Local Open Scope Z_scope.

(** [fnv1a]: 64-bit unsigned arithmetic; the basis is the one in the source. *)
Definition fnv_basis : Z := 1469598103934665603.
Definition fnv_prime : Z := 1099511628211.

Definition fnv1a (s : bytes) : Z :=
  foldl (fun h c => wrap64 (Z.lxor h (code c) * fnv_prime)) fnv_basis s.

Definition shard_for (shards : list bytes) (key : bytes) : nat :=
  match shards with
  | [] => 0
  | _ => Z.to_nat (fnv1a key mod Z.of_nat (length shards))
  end.

(** A connection to a shard: the results of the [send]s and the chunks received;
    [None] if the connection is refused. *)
Definition shard_net := bytes -> Z -> option (list Z * list bytes).

(** [split_host_port] of src/router.cpp, the text of raft.cpp's. *)
Definition router_split_host_port (addr : bytes) : option (bytes * Z) := split_host_port addr.

Definition router_forward (net : shard_net) (shards : list bytes) (i : nat) (command_line : bytes) : bytes :=
  match shards !! i with
  | None => lit "ERR ROUTER: no such shard"
  | Some addr =>
      match router_split_host_port addr with
      | None => lit "ERR ROUTER: invalid shard address '" ++ addr ++ lit "'"
      | Some (host, port) =>
          match net host port with
          | None => lit "ERR ROUTER: shard " ++ addr ++ lit " is unreachable"
          | Some (sends, chunks) =>
              let '(ok, _) := send_all (command_line ++ [newline]) sends [] in
              match (if ok then recv_line kMaxReply chunks [] else None) with
              | Some reply => reply
              | None => lit "ERR ROUTER: shard " ++ addr ++ lit " request failed"
              end
          end
      end
  end.

(** ** Properties *)

Lemma lxor_range a b : 0 <= a < two64 -> 0 <= b < two64 -> 0 <= Z.lxor a b < two64.
Proof.
  intros Ha Hb. assert (0 <= Z.lxor a b) by (apply Z.lxor_nonneg; lia). split; [done|].
  destruct (Z.eq_dec (Z.lxor a b) 0) as [->|Hne]; [done|].
  change two64 with (2 ^ 64). apply Z.log2_lt_pow2; [lia|].
  assert (forall x, 0 <= x < two64 -> Z.log2 x < 64) as Hlog.
  { intros x Hx. destruct (Z.eq_dec x 0) as [->|]; [done|]. apply Z.log2_lt_pow2; [lia|].
    change (2 ^ 64) with two64. lia. }
  pose proof (Z.log2_lxor a b). pose proof (Hlog a Ha). pose proof (Hlog b Hb). lia.
Qed.

Lemma fnv1a_range s : 0 <= fnv1a s < two64.
Proof.
  unfold fnv1a. assert (0 <= fnv_basis < two64) as H by done. revert H. generalize fnv_basis.
  induction s as [|c s IH]; intros h Hh; simpl; [done|]. apply IH, wrap64_range.
Qed.

(** The product the code forms never exceeds what [wrap64] takes it modulo: the
    hash is the same as with exact arithmetic reduced once, at each step. *)
Lemma fnv1a_snoc s c : fnv1a (s ++ [c]) = wrap64 (Z.lxor (fnv1a s) (code c) * fnv_prime).
Proof. unfold fnv1a. by rewrite foldl_app. Qed.

Lemma fnv_prime_odd_inverse : wrap64 (fnv_prime * 14886173955864302971) = 1.
Proof. by vm_compute. Qed.

(** A shard is always chosen.  As soon as there is a shard, every key is
    assigned one of them; the choice depends on the key and the number of
    shards only; and appending different last bytes to a key gives different
    hashes (each step of the hash is a bijection). *)
Theorem shard_for_total shards key :
  (shards <> [] -> (shard_for shards key < length shards)%nat) /\
  (forall shards', length shards' = length shards -> shard_for shards' key = shard_for shards key) /\
  (forall c d, fnv1a (key ++ [c]) = fnv1a (key ++ [d]) -> c = d).
Proof.
  split; [|split].
  - intros Hne. unfold shard_for. destruct shards as [|a l]; [done|].
    pose proof (Z.mod_pos_bound (fnv1a key) (Z.of_nat (length (a :: l))) ltac:(simpl; lia)). lia.
  - intros shards' Hl. unfold shard_for. rewrite Hl. by destruct shards, shards'.
  - intros c d. rewrite !fnv1a_snoc. pose proof (fnv1a_range key) as Hh. set (h := fnv1a key) in *.
    intros E. apply (f_equal (fun x => wrap64 (x * 14886173955864302971))) in E.
    assert (forall x, 0 <= x < two64 -> wrap64 (wrap64 (x * fnv_prime) * 14886173955864302971) = x) as Hinv.
    { intros x Hx. unfold wrap64. rewrite Z.mul_mod_idemp_l by done.
      rewrite <- Z.mul_assoc, <- Z.mul_mod_idemp_r by done.
      change ((fnv_prime * 14886173955864302971) mod two64) with 1. rewrite Z.mul_1_r. by apply Z.mod_small. }
    pose proof (code_range c). pose proof (code_range d).
    rewrite !Hinv in E by (apply lxor_range; [done|unfold two64; lia]).
    apply (f_equal (Z.lxor h)) in E. rewrite <- !Z.lxor_assoc, Z.lxor_nilpotent, !Z.lxor_0_l in E.
    rewrite <- (chr_code c), <- (chr_code d). by rewrite E.
Qed.

(** The shard's answer is the router's.  When the shard accepts the whole
    line and answers with one line within the limit, in however many chunks,
    the router hands on that line (less a carriage return). *)
Theorem router_forward_reply net shards key line addr host port sends chunks reply rest :
  shards !! shard_for shards key = Some addr -> split_host_port addr = Some (host, port) ->
  net host port = Some (sends, chunks) ->
  (send_all (line ++ [newline]) sends []).1 = true ->
  mjoin chunks = reply ++ newline :: rest -> newline ∉ reply -> blen reply <= kMaxReply ->
  router_forward net shards (shard_for shards key) line = strip_cr reply.
Proof.
  intros Ha Hs Hn Hsend Hc Hnl Hl. unfold router_forward, router_split_host_port. rewrite Ha, Hs, Hn.
  destruct (send_all (line ++ [newline]) sends []) as [ok acc]. simpl in Hsend. subst ok.
  by rewrite (recv_line_delivered kMaxReply chunks reply rest).
Qed.

Lemma router_forward_reply_witness :
  let shards := [lit "127.0.0.1:7001"; lit "127.0.0.1:7002"] in
  let net : shard_net := fun _ _ => Some ([6], [lit "O"; lit "K" ++ [newline]]) in
  router_forward net shards (shard_for shards (lit "a")) (lit "GET a") = lit "OK".
Proof.
  intros shards net.
  apply (router_forward_reply net shards (lit "a") (lit "GET a") (lit "127.0.0.1:7001") (lit "127.0.0.1") 7001
    [6] [lit "O"; lit "K" ++ [newline]] (lit "OK") []);
    [by vm_compute..|apply (bool_decide_unpack _); by vm_compute|by vm_compute].
Defined.

(** The hash is not standard FNV-1a.  The 64-bit offset basis of FNV-1a is
    14695981039346656037; the constant used lacks its last digit. *)
Lemma fnv_basis_differs :
  fnv_basis <> 14695981039346656037 /\ fnv_basis = 14695981039346656037 / 10 /\
  fnv1a [] <> 14695981039346656037.
Proof. by vm_compute. Qed.

Lemma shard_for_total_witness :
  [lit "h:1"; lit "h:2"; lit "h:3"] <> [] /\
  (shard_for [lit "h:1"; lit "h:2"; lit "h:3"] (lit "a") < 3)%nat.
Proof. split; [done|]. by apply (shard_for_total [lit "h:1"; lit "h:2"; lit "h:3"] (lit "a")). Defined.
