(* ===== verification/Metrics.v ===== *)
(** * Metrics (src/metrics.cpp, src/metrics.h)

    The counters, what each event adds to them, and the two renderings.  The
    averages are IEEE 754 double-precision numbers, computed with the Standard
    Library's specification of binary floating-point arithmetic and printed as
    [std::fixed << std::setprecision(3)] prints them. *)

From Stdlib Require Import SpecFloat.
From S2P Require Import Prelude Stream.

Local Open Scope Z_scope.

(** ** Doubles *)

Definition double := spec_float.
Definition of_integer (z : Z) : double := binary_normalize 53 1024 z 0 false.
Definition double_div (x y : double) : double := SFdiv 53 1024 x y.

(** Rounds [n / d] to the nearest integer, ties to even. *)
Definition round_div (n d : Z) : Z :=
  let q := n / d in
  match (2 * (n mod d) ?= d) with
  | Lt => q
  | Gt => q + 1
  | Eq => if Z.even q then q else q + 1
  end.

Definition pad3 (n : Z) : bytes :=
  [digit (n / 100 mod 10); digit (n / 10 mod 10); digit (n mod 10)].

(** The exact value in thousandths, correctly rounded. *)
Definition thousandths (m : positive) (e : Z) : Z :=
  if 0 <=? e then Z.pos m * 2 ^ e * 1000 else round_div (Z.pos m * 1000) (2 ^ (- e)).

Definition fixed3 (x : double) : bytes :=
  let sign (s : bool) := if s then lit "-" else [] in
  match x with
  | S754_zero s => sign s ++ lit "0.000"
  | S754_infinity s => sign s ++ lit "inf"
  | S754_nan => lit "nan"
  | S754_finite s m e =>
      let t := thousandths m e in sign s ++ decimal (t / 1000) ++ lit "." ++ pad3 (t mod 1000)
  end.

(** ** The counters: atomics of type [long long], which wrap around *)

Definition wrap_ll (z : Z) : Z := (z - LONG_MIN) mod two64 + LONG_MIN.
Definition fetch_add (x d : Z) : Z := wrap_ll (x + d).

Lemma fetch_add_exact x d : 0 <= x + d <= LONG_MAX -> fetch_add x d = x + d.
Proof.
  intros Hx. unfold fetch_add, wrap_ll. rewrite Z.mod_small; [lia|].
  unfold LONG_MIN, LONG_MAX, two64 in *. lia.
Qed.

Record Metrics := mkMetrics {
  commands_ : Z;
  gets_ : Z;
  sets_ : Z;
  dels_ : Z;
  get_hits_ : Z;
  get_misses_ : Z;
  errors_ : Z;
  connections_total_ : Z;
  connected_ : Z;
  latency_ns_total_ : Z;
  latency_count_ : Z;
}.

Definition metrics_new : Metrics := mkMetrics 0 0 0 0 0 0 0 0 0 0 0.

Definition on_connect (m : Metrics) : Metrics :=
  mkMetrics (commands_ m) (gets_ m) (sets_ m) (dels_ m) (get_hits_ m) (get_misses_ m) (errors_ m)
    (fetch_add (connections_total_ m) 1) (fetch_add (connected_ m) 1) (latency_ns_total_ m) (latency_count_ m).

Definition on_disconnect (m : Metrics) : Metrics :=
  mkMetrics (commands_ m) (gets_ m) (sets_ m) (dels_ m) (get_hits_ m) (get_misses_ m) (errors_ m)
    (connections_total_ m) (fetch_add (connected_ m) (-1)) (latency_ns_total_ m) (latency_count_ m).

Definition on_command (verb : bytes) (is_error : bool) (m : Metrics) : Metrics :=
  let inc (b : bool) (x : Z) := if b then fetch_add x 1 else x in
  let get := verb =?b lit "GET" in
  let set := negb get && (verb =?b lit "SET") in
  let del := negb get && negb set && ((verb =?b lit "DEL") || (verb =?b lit "DELETE")) in
  mkMetrics (fetch_add (commands_ m) 1) (inc get (gets_ m)) (inc set (sets_ m)) (inc del (dels_ m))
    (get_hits_ m) (get_misses_ m) (inc is_error (errors_ m))
    (connections_total_ m) (connected_ m) (latency_ns_total_ m) (latency_count_ m).

Definition on_get (hit : bool) (m : Metrics) : Metrics :=
  mkMetrics (commands_ m) (gets_ m) (sets_ m) (dels_ m)
    (if hit then fetch_add (get_hits_ m) 1 else get_hits_ m)
    (if hit then get_misses_ m else fetch_add (get_misses_ m) 1) (errors_ m)
    (connections_total_ m) (connected_ m) (latency_ns_total_ m) (latency_count_ m).

Definition on_latency (ns : Z) (m : Metrics) : Metrics :=
  mkMetrics (commands_ m) (gets_ m) (sets_ m) (dels_ m) (get_hits_ m) (get_misses_ m) (errors_ m)
    (connections_total_ m) (connected_ m) (fetch_add (latency_ns_total_ m) ns)
    (fetch_add (latency_count_ m) 1).

(** ** Rendering; [uptime] is [uptime_seconds()] *)

Definition hit_rate (m : Metrics) : double :=
  let reads := get_hits_ m + get_misses_ m in
  if 0 <? reads then double_div (of_integer (get_hits_ m)) (of_integer reads) else S754_zero false.

Definition avg_us (m : Metrics) : double :=
  if 0 <? latency_count_ m then
    double_div (double_div (of_integer (latency_ns_total_ m)) (of_integer (latency_count_ m))) (of_integer 1000)
  else S754_zero false.

Definition info_text (uptime keys : Z) (m : Metrics) : bytes :=
  lit "uptime_s=" ++ to_string uptime ++ lit " clients=" ++ to_string (connected_ m) ++
  lit " conns_total=" ++ to_string (connections_total_ m) ++ lit " commands=" ++ to_string (commands_ m) ++
  lit " get=" ++ to_string (gets_ m) ++ lit " set=" ++ to_string (sets_ m) ++
  lit " del=" ++ to_string (dels_ m) ++ lit " hits=" ++ to_string (get_hits_ m) ++
  lit " misses=" ++ to_string (get_misses_ m) ++ lit " hit_rate=" ++ fixed3 (hit_rate m) ++
  lit " errors=" ++ to_string (errors_ m) ++ lit " avg_latency_us=" ++ fixed3 (avg_us m) ++
  lit " keys=" ++ to_string keys.

(** One family of the exposition format: help, type and samples. *)
Definition family (name help kind : string) (samples : list (bytes * bytes)) : bytes :=
  lit "# HELP " ++ lit name ++ lit " " ++ lit help ++ [newline] ++
  lit "# TYPE " ++ lit name ++ lit " " ++ lit kind ++ [newline] ++
  mjoin ((fun s => lit name ++ s.1 ++ lit " " ++ s.2 ++ [newline]) <$> samples).

Definition quote : ascii := "034".
Definition cmd_label (cmd : string) : bytes := lit "{cmd=" ++ [quote] ++ lit cmd ++ [quote] ++ lit "}".

Definition prometheus_text (uptime keys : Z) (m : Metrics) : bytes :=
  family "redon_uptime_seconds" "Server uptime in seconds." "gauge" [([], to_string uptime)] ++
  family "redon_connected_clients" "Currently connected clients." "gauge" [([], to_string (connected_ m))] ++
  family "redon_connections_total" "Connections accepted since start." "counter"
    [([], to_string (connections_total_ m))] ++
  family "redon_commands_total" "Commands processed since start." "counter" [([], to_string (commands_ m))] ++
  family "redon_command_total" "Commands processed, by verb." "counter"
    [(cmd_label "get", to_string (gets_ m)); (cmd_label "set", to_string (sets_ m));
     (cmd_label "del", to_string (dels_ m))] ++
  family "redon_keyspace_hits_total" "GET hits." "counter" [([], to_string (get_hits_ m))] ++
  family "redon_keyspace_misses_total" "GET misses." "counter" [([], to_string (get_misses_ m))] ++
  family "redon_errors_total" "Commands that returned an error." "counter" [([], to_string (errors_ m))] ++
  family "redon_command_latency_microseconds_avg" "Mean command latency." "gauge" [([], fixed3 (avg_us m))] ++
  family "redon_keys" "Number of keys stored." "gauge" [([], to_string keys)].

(** The response of the HTTP endpoint to any request ([MetricsHttp::loop]). *)
Definition crlf : bytes := ["013"; newline]%char.
Definition metrics_response (body : bytes) : bytes :=
  lit "HTTP/1.1 200 OK" ++ crlf ++ lit "Content-Type: text/plain; version=0.0.4; charset=utf-8" ++ crlf ++
  lit "Content-Length: " ++ decimal (blen body) ++ crlf ++ lit "Connection: close" ++ crlf ++ crlf ++ body.
