(* ===== verification/Server.v ===== *)
(** * The server: routing, connections, accounting (src/server.cpp)

    A connection's byte stream is cut into lines, each of which is answered by
    the metrics, by a shard through the router, or by the command layer, and
    accounted for.  Connections are served one line at a time; other
    connections may act between two lines, which a single run leaves out. *)

From S2P Require Import Prelude Stream Records Interfaces DiskStore Storage StorageCorrect.
From S2P Require Import Wal Replicator Recovery Address Net Raft Command Router Metrics.

Local Open Scope Z_scope.

Definition kMaxLineLength : Z := 64 * 1024.

(** [verb_and_key]: the router's own tokenizer. *)
Definition verb_and_key (line : bytes) : bytes * bytes :=
  let token s := span (fun c => negb (is_space c)) s in
  let s1 := drop_while is_space line in
  let s2 := if take 3 s1 =?b bom then drop_while is_space (drop 3 s1) else s1 in
  let '(verb, r) := token s2 in
  let '(key, _) := token (drop_while is_space r) in
  (to_upper verb, key).

(** [Server::route_line]: the reply, and whether to close. *)
Definition route_line (net : shard_net) (shards : list bytes) (line : bytes) : bytes * bool :=
  let '(verb, key) := verb_and_key line in
  if verb =?b [] then ([], false)
  else if (verb =?b lit "QUIT") || (verb =?b lit "EXIT") then (lit "OK", true)
  else if verb =?b lit "PING" then (lit "PONG", false)
  else if key =?b [] then (lit "ERR ROUTER: '" ++ verb ++ lit "' needs a key to route on", false)
  else (router_forward net shards (shard_for shards key) line, false).

(** ** Accounting *)

Definition starts_with (p s : bytes) : bool := take (length p) s =?b p.

(** What is recorded of a command that counts. *)
Definition record_command (verb reply : bytes) (routed get_hit : bool) (ns : Z) (m : Metrics) : Metrics :=
  let err := starts_with (lit "ERR") reply in
  let m1 := on_command verb err (on_latency ns m) in
  if (verb =?b lit "GET") && negb err
  then on_get (if routed then negb (reply =?b lit "(nil)") else get_hit) m1
  else m1.

Definition counts (verb : bytes) (was_replica_link : bool) : bool :=
  negb (verb =?b []) && negb was_replica_link && negb (starts_with (lit "__") verb).

Section server.
Context {L R : Type} `{WriteAhead L} `{ReplicaSink R} `{UnorderedIter}.

Record Server := mkServer {
  store_ : Storage L R;
  raft_ : option RaftNode;
  router_ : option (list bytes);      (* the shard addresses, on a router *)
  metrics_ : Metrics;
  is_follower : bool;
}.

(** What the environment does while one line is served: the time, the measured
    latency, the uptime, the network to the shards, how the reply is sent. *)
Record line_env := mkEnv {
  e_now : instant;
  e_ns : Z;
  e_uptime : Z;
  e_net : shard_net;
  e_sending : sending;
}.

(** The reply of the line is sent to its end. *)
Definition e_send (e : line_env) : bool := if e_sending e is AllSent then true else false.

Record served := mkServed {
  sv_reply : bytes;
  sv_close : bool;
  sv_link : bool;
  sv_server : Server;
}.

(** The body of [handle_client]'s inner loop, up to sending the reply. *)
Definition serve_line (e : line_env) (line : bytes) (is_replica_link : bool) (s : Server) : served :=
  let '(verb, key) := verb_and_key line in
  let account r hit st raft link close :=
    let m := if counts verb is_replica_link
             then record_command verb r (if router_ s is Some _ then true else false) hit (e_ns e) (metrics_ s)
             else metrics_ s in
    mkServed r close link (mkServer st raft (router_ s) m (is_follower s)) in
  if verb =?b lit "INFO" then
    account (info_text (e_uptime e) (storage_size (store_ s)) (metrics_ s)) false
      (store_ s) (raft_ s) is_replica_link false
  else
    match router_ s with
    | Some shards =>
        let '(r, close) := route_line (e_net e) shards line in
        account r false (store_ s) (raft_ s) is_replica_link close
    | None =>
        let x := execute_line line (store_ s) (is_follower s) (Some is_replica_link) (raft_ s) (e_now e) in
        account (reply x) (default false (was_get_hit x)) (x_store x) (x_raft x)
          (default false (x_link x)) (should_close x)
    end.

(** A connection: unprocessed bytes, the replica flag, the environment to come,
    the bytes each reply sent, whether it has ended, and the server. *)
Record conn := mkConn {
  inbuf : bytes;
  c_link : bool;
  c_envs : list line_env;
  c_sent : list bytes;
  c_closed : bool;
  c_server : Server;
}.

Context (default_env : line_env).

Definition next_env (es : list line_env) : line_env * list line_env :=
  match es with [] => (default_env, []) | e :: es' => (e, es') end.

(** One complete line: serve it, reply unless it came on the replica link,
    close if the reply cannot be sent to its end or the client asked to. *)
Definition one_line_step (line rest : bytes) (c : conn) : conn :=
  let '(e, es) := next_env (c_envs c) in
  let v := serve_line e line (c_link c) (c_server c) in
  let replying := negb (c_link c) in
  let sent := transmit (e_sending e) (sv_reply v ++ [newline]) in
  mkConn rest (sv_link v) es (if replying then c_sent c ++ [sent.2] else c_sent c)
    ((replying && negb sent.1) || sv_close v) (sv_server v).

Definition find_line (s : bytes) : option (bytes * bytes) :=
  let '(line, r) := span (fun c => negb (Ascii.eqb c newline)) s in
  match r with [] => None | _ :: rest => Some (line, rest) end.

(** The [while] over complete lines; each round consumes at least a byte. *)
Fixpoint drain (fuel : nat) (c : conn) : conn :=
  match fuel with
  | O => c
  | S f =>
      if c_closed c then c else
      match find_line (inbuf c) with
      | None => c
      | Some (line, rest) => drain f (one_line_step line rest c)
      end
  end.

Definition with_inbuf (s : bytes) (c : conn) : conn :=
  mkConn s (c_link c) (c_envs c) (c_sent c) (c_closed c) (c_server c).

Definition append_chunk (chunk : bytes) (c : conn) : conn := with_inbuf (inbuf c ++ chunk) c.
Definition drain_all (c : conn) : conn := drain (length (inbuf c)) c.

(** [Server::handle_client]; [chunks] is what [recv] delivers before the peer
    closes, times out or fails. *)
Fixpoint handle_client (chunks : list bytes) (c : conn) : conn :=
  if c_closed c then c
  else if kMaxLineLength <? blen (inbuf c) then
    let '(e, es) := next_env (c_envs c) in
    mkConn (inbuf c) (c_link c) es
      (c_sent c ++ [(transmit (e_sending e) (lit "ERR line too long" ++ [newline])).2]) true (c_server c)
  else
    match chunks with
    | [] => c
    | chunk :: chunks' => handle_client chunks' (drain_all (append_chunk chunk c))
    end.

Definition new_conn (envs : list line_env) (s : Server) : conn := mkConn [] false envs [] false s.
End server.
Arguments Server : clear implicits.
Arguments conn : clear implicits.

Lemma e_send_all e : e_send e = true -> e_sending e = AllSent.
Proof. unfold e_send. by destruct (e_sending e). Qed.

(** ** The router and the shard read the same key *)

Definition all_space (s : bytes) : Prop := Forall (fun c => is_space c = true) s.

Lemma span_spaces s w :
  all_space w ->
  span (fun c => negb (is_space c)) (s ++ w) =
  ((span (fun c => negb (is_space c)) s).1, (span (fun c => negb (is_space c)) s).2 ++ w).
Proof.
  intros Hw. induction s as [|c s IH]; simpl.
  - destruct Hw as [|c w Hc _]; [done|]. simpl. by rewrite Hc.
  - destruct (is_space c); simpl; [done|]. rewrite IH. by destruct (span _ s).
Qed.

Lemma drop_spaces s w :
  all_space w ->
  drop_while is_space (s ++ w) =
  match drop_while is_space s with [] => [] | r => r ++ w end.
Proof.
  intros Hw. induction s as [|c s IH]; simpl.
  - induction Hw as [|c w Hc _ IH]; [done|]. simpl. by rewrite Hc.
  - by destruct (is_space c).
Qed.

Lemma rtrim_spaces s : exists w, s = rtrim s ++ w /\ all_space w.
Proof.
  unfold rtrim. destruct (drop_while_suffix is_space (reverse s)) as (l & E & Hl).
  exists (reverse l). split; [rewrite <- reverse_app, <- E; by rewrite reverse_involutive|].
  unfold all_space. by rewrite reverse_Permutation.
Qed.

Lemma verb_and_key_parse line :
  verb_and_key line = (let '(verb, key, _) := parse_line (trim line) in (verb, key)).
Proof.
  unfold verb_and_key, trim, parse_line, next_token.
  set (s := if take 3 (drop_while is_space line) =?b bom then _ else _).
  destruct (rtrim_spaces s) as (w & E & Hw). rewrite E at 1. rewrite (span_spaces _ _ Hw).
  destruct (span _ (rtrim s)) as [v r]. simpl. rewrite (drop_spaces _ _ Hw).
  destruct (drop_while is_space r) as [|c r'] eqn:Er; [done|].
  rewrite (span_spaces _ _ Hw). by destruct (span _ (c :: r')).
Qed.

(** One tokenizer, written twice.  The verb and key by which the router
    chooses a shard, and by which the server accounts, are the ones the command
    layer of the shard executes, for every line: leading whitespace, a byte-order
    mark, trailing whitespace and carriage returns included. *)
Theorem router_agrees_with_shard line :
  verb_and_key line = (let '(verb, key, _) := parse_line (trim line) in (verb, key)).
Proof. apply verb_and_key_parse. Qed.

(** ** Counting *)

Record event := mkEvent { ev_verb : bytes; ev_reply : bytes; ev_routed : bool; ev_hit : bool; ev_ns : Z }.

Definition ev_err (e : event) : bool := starts_with (lit "ERR") (ev_reply e).
Definition ev_get (e : event) : bool := ev_verb e =?b lit "GET".
Definition ev_found (e : event) : bool :=
  if ev_routed e then negb (ev_reply e =?b lit "(nil)") else ev_hit e.

Definition record_event (m : Metrics) (e : event) : Metrics :=
  record_command (ev_verb e) (ev_reply e) (ev_routed e) (ev_hit e) (ev_ns e) m.

Definition tally (p : event -> bool) (l : list event) : Z := Z.of_nat (length (List.filter p l)).

Lemma tally_snoc p l e : tally p (l ++ [e]) = tally p l + (if p e then 1 else 0).
Proof. unfold tally. rewrite List.filter_app, length_app. simpl. destruct (p e); simpl; lia. Qed.

Lemma tally_le p l : 0 <= tally p l <= Z.of_nat (length l).
Proof. unfold tally. pose proof (List.filter_length_le p l). lia. Qed.

(** The counters count.  After any commands (fewer than 2^63 of them), from
    a fresh start: the command counter is their number, which is also the number
    of latency samples; errors are the replies that begin with ERR; gets, sets
    and dels count their verbs; hits and misses split the gets that did not fail. *)
Theorem metrics_exact l :
  Z.of_nat (length l) <= LONG_MAX ->
  let m := foldl record_event metrics_new l in
  commands_ m = Z.of_nat (length l) /\ latency_count_ m = commands_ m /\
  errors_ m = tally ev_err l /\ gets_ m = tally ev_get l /\
  sets_ m = tally (fun e => ev_verb e =?b lit "SET") l /\
  dels_ m = tally (fun e => (ev_verb e =?b lit "DEL") || (ev_verb e =?b lit "DELETE")) l /\
  get_hits_ m = tally (fun e => ev_get e && negb (ev_err e) && ev_found e) l /\
  get_misses_ m = tally (fun e => ev_get e && negb (ev_err e) && negb (ev_found e)) l.
Proof.
  induction l as [|e l IH] using rev_ind; intros Hlen; [done|].
  rewrite length_app in Hlen. simpl in Hlen.
  specialize (IH ltac:(lia)). rewrite foldl_app, !tally_snoc, length_app.
  cbn [foldl]. set (m := foldl record_event metrics_new l) in *.
  destruct IH as (H1 & H2 & H3 & H4 & H5 & H6 & H7 & H8).
  assert (forall p, fetch_add (tally p l) 1 = tally p l + 1) as Hadd.
  { intros p. pose proof (tally_le p l). apply fetch_add_exact. lia. }
  assert (fetch_add (Z.of_nat (length l)) 1 = Z.of_nat (length l) + 1) as Hc by (apply fetch_add_exact; lia).
  rewrite H1 in H2. unfold record_event, record_command, on_command, on_get, on_latency.
  fold (ev_err e). fold (ev_get e). fold (ev_found e).
  assert (ev_get e = true -> ev_verb e = lit "GET") as Hg by (unfold ev_get; by rewrite bool_decide_eq_true).
  destruct (ev_get e) eqn:Eg.
  - rewrite (Hg eq_refl). destruct (ev_err e), (ev_found e);
      cbn -[fetch_add tally lit]; rewrite ?H1, ?H2, ?H3, ?H4, ?H5, ?H6, ?H7, ?H8, ?Hadd, ?Hc;
      (repeat split; simpl; lia).
  - destruct (ev_verb e =?b lit "SET") eqn:Es.
    + assert (((ev_verb e =?b lit "DEL") || (ev_verb e =?b lit "DELETE")) = false) as ->
        by (bool_simpl; by rewrite Es).
      destruct (ev_err e); cbn -[fetch_add tally lit];
        rewrite ?H1, ?H2, ?H3, ?H4, ?H5, ?H6, ?H7, ?H8, ?Hadd, ?Hc; (repeat split; simpl; lia).
    + destruct ((ev_verb e =?b lit "DEL") || (ev_verb e =?b lit "DELETE")), (ev_err e);
        cbn -[fetch_add tally lit];
        rewrite ?H1, ?H2, ?H3, ?H4, ?H5, ?H6, ?H7, ?H8, ?Hadd, ?Hc; (repeat split; simpl; lia).
Qed.

(** ** The byte stream *)

(** What follows the last newline. *)
Definition tail_after (s : bytes) : bytes :=
  reverse (span (fun c => negb (Ascii.eqb c newline)) (reverse s)).1.

Section stream.
Context {L R : Type} `{WriteAhead L} `{ReplicaSink R} `{UnorderedIter}.
Context (e0 : line_env).
Abbreviation connection := (conn L R).

Lemma find_line_Some s line rest :
  find_line s = Some (line, rest) <-> s = line ++ newline :: rest /\ newline ∉ line.
Proof.
  unfold find_line. pose proof (span_eq (fun c => negb (Ascii.eqb c newline)) s) as E.
  pose proof (span_fst_all (fun c => negb (Ascii.eqb c newline)) s) as Ha.
  pose proof (span_snd_stops (fun c => negb (Ascii.eqb c newline)) s) as Hs. split.
  - destruct (span _ s) as [l [|c r]]; [done|]. intros [= <- <-]. simpl in *.
    destruct (Ascii.eqb_spec c newline) as [->|]; [|done]. split; [done|].
    intros Hin. rewrite List.Forall_forall in Ha. specialize (Ha newline).
    rewrite <- list_elem_of_In in Ha. by specialize (Ha Hin).
  - intros [-> Hn]. rewrite span_app; [done| |done]. apply List.Forall_forall. intros c Hc.
    apply list_elem_of_In in Hc. destruct (Ascii.eqb_spec c newline); [by subst|done].
Qed.

Lemma find_line_None s : find_line s = None <-> newline ∉ s.
Proof.
  split.
  - intros Hn Hin. apply list_elem_of_split in Hin as (a & b & ->).
    assert (exists x y, a ++ newline :: b = x ++ newline :: y /\ newline ∉ x) as (x & y & E & Hx).
    { clear Hn. induction a as [|c a IH]; [by exists [], b; split; [|set_solver]|].
      destruct (decide (c = newline)) as [->|Hc].
      - exists [], (a ++ newline :: b). split; [done|set_solver].
      - destruct IH as (x & y & E & Hx). exists (c :: x), y. simpl. rewrite E. split; [done|set_solver]. }
    rewrite E in Hn. by rewrite (proj2 (find_line_Some _ x y)) in Hn.
  - intros Hn. destruct (find_line s) as [[l r]|] eqn:E; [|done].
    apply find_line_Some in E as [-> _]. set_solver.
Qed.

Lemma find_line_app s b line rest :
  find_line s = Some (line, rest) -> find_line (s ++ b) = Some (line, rest ++ b).
Proof.
  rewrite !find_line_Some. intros [-> Hn]. by rewrite <- (assoc_L (++)).
Qed.

Lemma find_line_shorter s line rest : find_line s = Some (line, rest) -> (length rest < length s)%nat.
Proof. rewrite find_line_Some. intros [-> _]. rewrite length_app. simpl. lia. Qed.

(** The fuel of the loop over lines does not matter once it covers the buffer. *)
Lemma drain_fuel f g (c : connection) :
  (length (inbuf c) <= f)%nat -> (length (inbuf c) <= g)%nat -> drain e0 f c = drain e0 g c.
Proof.
  revert g c. induction f as [|f IH]; intros g c Hf Hg.
  - destruct g; [done|]. simpl. destruct (c_closed c); [done|].
    destruct (inbuf c); [done|simpl in *; lia].
  - destruct g as [|g]; simpl; destruct (c_closed c); try done.
    + destruct (inbuf c); [done|simpl in *; lia].
    + destruct (find_line (inbuf c)) as [[line rest]|] eqn:E; [|done].
      apply find_line_shorter in E. unfold one_line_step. destruct (next_env e0 (c_envs c)).
      apply IH; simpl; lia.
Qed.

(** What a chunk does to an open connection. *)
Definition feed (b : bytes) (c : connection) : connection :=
  if c_closed c then c else drain_all e0 (append_chunk b c).

(** Two connections that differ at most in the bytes a closed one ignores. *)
Definition same (c d : connection) : Prop :=
  c_sent c = c_sent d /\ c_closed c = c_closed d /\ c_server c = c_server d /\ c_link c = c_link d /\
  c_envs c = c_envs d /\ (c_closed c = false -> inbuf c = inbuf d).

Lemma same_refl c : same c c.
Proof. by repeat split. Qed.

Lemma one_line_step_append line rest b (c : connection) :
  one_line_step e0 line (rest ++ b) (append_chunk b c) = append_chunk b (one_line_step e0 line rest c).
Proof.
  unfold one_line_step. cbn [c_envs append_chunk with_inbuf]. by destruct (next_env e0 (c_envs c)).
Qed.

Lemma drain_append f (c : connection) b :
  (length (inbuf c) <= f)%nat ->
  same (feed b (drain e0 f c)) (drain e0 (f + length b) (append_chunk b c)).
Proof.
  revert c. induction f as [|f IH]; intros c Hf; simpl.
  - assert (inbuf c = []) as Hi by (destruct (inbuf c); [done|simpl in *; lia]).
    unfold feed. destruct (c_closed c) eqn:Ec.
    + replace (drain e0 (length b) (append_chunk b c)) with (append_chunk b c)
        by (destruct b; simpl; by rewrite ?Ec). repeat split; by rewrite ?Ec.
    + unfold drain_all. simpl. rewrite Hi. apply same_refl.
  - destruct (c_closed c) eqn:Ec.
    + unfold feed. rewrite Ec. repeat split; by rewrite ?Ec.
    + simpl. destruct (find_line (inbuf c)) as [[line rest]|] eqn:E.
      * rewrite (find_line_app _ b _ _ E). apply find_line_shorter in E.
        rewrite one_line_step_append.
        apply IH. unfold one_line_step. destruct (next_env e0 (c_envs c)). simpl. lia.
      * unfold feed. rewrite Ec. unfold drain_all.
        rewrite (drain_fuel _ (S f + length b)); [|done|simpl; rewrite length_app; lia].
        simpl. rewrite Ec. apply same_refl.
Qed.

Lemma feed_app a b (c : connection) : same (feed b (feed a c)) (feed (a ++ b) c).
Proof.
  unfold feed at 2 3. destruct (c_closed c) eqn:Ec.
  { unfold feed. rewrite Ec. apply same_refl. }
  unfold drain_all at 1. pose proof (drain_append (length (inbuf (append_chunk a c))) (append_chunk a c) b ltac:(done)) as Hd.
  replace (append_chunk b (append_chunk a c)) with (append_chunk (a ++ b) c) in Hd
    by (unfold append_chunk, with_inbuf; simpl; by rewrite (assoc_L (++))).
  unfold drain_all. by rewrite (drain_fuel _ (length (inbuf (append_chunk a c)) + length b)
    (append_chunk (a ++ b) c)) by (simpl; rewrite !length_app; lia).
Qed.

Lemma same_trans c d e : same c d -> same d e -> same c e.
Proof.
  intros (A1 & A2 & A3 & A4 & A5 & A6) (B1 & B2 & B3 & B4 & B5 & B6).
  repeat split; try congruence. intros Hc. rewrite A6 by done. apply B6. congruence.
Qed.

Lemma same_feed b c d : same c d -> same (feed b c) (feed b d).
Proof.
  intros (A1 & A2 & A3 & A4 & A5 & A6). unfold feed. rewrite <- A2. destruct (c_closed c) eqn:Ec.
  - repeat split; try congruence.
  - replace d with c; [apply same_refl|]. destruct c, d. simpl in *. subst. by rewrite A6.
Qed.

Lemma feed_all_cons b bs (c : connection) :
  same (foldl (fun c b => feed b c) c (b :: bs)) (feed (mjoin (b :: bs)) c).
Proof.
  revert b c. induction bs as [|b' bs IH]; intros b c.
  - unfold mjoin. simpl. rewrite app_nil_r. apply same_refl.
  - change (foldl (fun c b => feed b c) c (b :: b' :: bs))
      with (foldl (fun c b => feed b c) (feed b c) (b' :: bs)).
    eapply same_trans; [apply IH|]. change (mjoin (b :: b' :: bs)) with (b ++ mjoin (b' :: bs)).
    apply feed_app.
Qed.

Lemma feed_all bs (c : connection) :
  inbuf c = [] -> same (foldl (fun c b => feed b c) c bs) (feed (mjoin bs) c).
Proof.
  intros Hi. destruct bs as [|b bs]; [|apply feed_all_cons]. unfold feed, mjoin. simpl.
  destruct (c_closed c); [apply same_refl|]. unfold drain_all, append_chunk. simpl. rewrite Hi. simpl.
  by repeat split.
Qed.

Lemma span_cut (p : ascii -> bool) x c y : p c = false -> (span p (x ++ c :: y)).1 = (span p x).1.
Proof.
  intros Hc. induction x as [|d x IH]; simpl; [by rewrite Hc|]. destruct (p d); [|done].
  destruct (span p (x ++ c :: y)), (span p x). simpl in *. by rewrite IH.
Qed.

Lemma tail_after_cut a s : tail_after (a ++ newline :: s) = tail_after s.
Proof.
  unfold tail_after. rewrite reverse_app, reverse_cons, <- (assoc_L (++)). simpl. by rewrite span_cut.
Qed.

Lemma tail_after_none s : newline ∉ s -> tail_after s = s.
Proof.
  intros Hn. unfold tail_after. rewrite <- (app_nil_r (reverse s)), span_app; [apply reverse_involutive| |done].
  apply List.Forall_forall. intros c Hc. apply list_elem_of_In in Hc. rewrite elem_of_reverse in Hc.
  destruct (Ascii.eqb_spec c newline); [by subst|done].
Qed.

Lemma tail_after_split s : tail_after s = s \/ exists a, s = a ++ newline :: tail_after s.
Proof.
  unfold tail_after. pose proof (span_eq (fun c => negb (Ascii.eqb c newline)) (reverse s)) as E.
  pose proof (span_snd_stops (fun c => negb (Ascii.eqb c newline)) (reverse s)) as Hs.
  destruct (span _ (reverse s)) as [t [|c r]]; simpl in *.
  - left. rewrite app_nil_r in E. rewrite E. apply reverse_involutive.
  - right. destruct (Ascii.eqb_spec c newline) as [->|]; [|done]. exists (reverse r).
    rewrite <- (reverse_involutive s), <- E, reverse_app, reverse_cons. by rewrite <- (assoc_L (++)).
Qed.

Lemma tail_after_app p b : tail_after (tail_after p ++ b) = tail_after (p ++ b).
Proof.
  destruct (tail_after_split p) as [->|[a E]]; [done|]. rewrite E at 2.
  rewrite <- (assoc_L (++)). simpl. by rewrite tail_after_cut.
Qed.

Lemma drain_tail f (c : connection) :
  (length (inbuf c) <= f)%nat -> c_closed (drain e0 f c) = false ->
  inbuf (drain e0 f c) = tail_after (inbuf c).
Proof.
  revert c. induction f as [|f IH]; intros c Hf; simpl.
  - intros _. destruct (inbuf c); [done|simpl in *; lia].
  - destruct (c_closed c) eqn:Ec; [congruence|].
    destruct (find_line (inbuf c)) as [[line rest]|] eqn:E.
    + pose proof (find_line_shorter _ _ _ E). apply find_line_Some in E as [-> _]. rewrite tail_after_cut.
      intros Hcl. rewrite IH; [|unfold one_line_step; destruct (next_env e0 (c_envs c)); simpl; lia|done].
      unfold one_line_step. by destruct (next_env e0 (c_envs c)).
    + intros _. apply find_line_None in E. by rewrite tail_after_none.
Qed.

(** No line of the stream is longer than the server accepts. *)
Definition lines_fit (s : bytes) : Prop := forall q, q `prefix_of` s -> blen (tail_after q) <= kMaxLineLength.

Lemma feed_closed (c : connection) bs : c_closed c = true -> foldl (fun c b => feed b c) c bs = c.
Proof. intros Hc. induction bs as [|b bs IH]; [done|]. simpl. unfold feed at 2. by rewrite Hc. Qed.

Lemma handle_client_feed bs (c : connection) p :
  (c_closed c = false -> inbuf c = tail_after p) -> lines_fit (p ++ mjoin bs) ->
  handle_client e0 bs c = foldl (fun c b => feed b c) c bs.
Proof.
  revert c p. induction bs as [|b bs IH]; intros c p Hi Hl; cbn [handle_client].
  - destruct (c_closed c) eqn:Ec; [done|]. rewrite Hi by done.
    destruct (Z.ltb_spec kMaxLineLength (blen (tail_after p))); [|done].
    specialize (Hl p ltac:(apply prefix_app_r; reflexivity)). lia.
  - destruct (c_closed c) eqn:Ec; [by rewrite feed_closed|]. rewrite Hi by done.
    destruct (Z.ltb_spec kMaxLineLength (blen (tail_after p))).
    { specialize (Hl p ltac:(apply prefix_app_r; reflexivity)). lia. }
    assert (feed b c = drain_all e0 (append_chunk b c)) as Hfeed by (unfold feed; by rewrite Ec).
    simpl. rewrite Hfeed. apply (IH _ (p ++ b)).
    + intros Hcl. unfold drain_all. rewrite drain_tail by done. simpl. rewrite Hi by done. apply tail_after_app.
    + rewrite <- (assoc_L (++)). exact Hl.
Qed.

(** C16: framing does not depend on the network while no line exceeds the limit.
    Take any bytes none of whose lines, the unfinished last one included, has more
    than 64 KB: however they are cut into chunks, the same lines are served, in the
    same order, with the same replies and the same final server state.  (A longer
    line is served or refused depending on where the chunks end, because the buffer
    is checked before each [recv].) *)
Theorem handle_client_chunking envs (s : Server L R) chunks chunks' :
  mjoin chunks = mjoin chunks' -> lines_fit (mjoin chunks) ->
  let c := handle_client e0 chunks (new_conn envs s) in
  let d := handle_client e0 chunks' (new_conn envs s) in
  c_sent c = c_sent d /\ c_closed c = c_closed d /\ c_server c = c_server d.
Proof.
  intros E Hl. assert (lines_fit ([] ++ mjoin chunks')) as Hl' by (simpl; by rewrite <- E).
  cbv zeta. rewrite (handle_client_feed chunks _ []), (handle_client_feed chunks' _ []) by done.
  destruct (feed_all chunks (new_conn envs s) eq_refl) as (A1 & A2 & A3 & _).
  destruct (feed_all chunks' (new_conn envs s) eq_refl) as (B1 & B2 & B3 & _).
  rewrite A1, A2, A3, B1, B2, B3, E. done.
Qed.

Lemma lines_fit_one line : newline ∉ line -> blen line <= kMaxLineLength -> lines_fit (line ++ [newline]).
Proof.
  intros Hn Hl q [r Hq]. destruct r as [|c r _] using rev_ind.
  - rewrite app_nil_r in Hq. subst q. rewrite tail_after_cut. unfold kMaxLineLength. done.
  - rewrite (assoc_L (++)) in Hq. apply app_inj_tail in Hq as [-> _].
    rewrite tail_after_none by set_solver. unfold blen in *. rewrite length_app in Hl. lia.
Qed.

Lemma lines_fit_app line rest :
  newline ∉ line -> blen line <= kMaxLineLength -> lines_fit rest -> lines_fit (line ++ newline :: rest).
Proof.
  intros Hn Hl Hr q [r Hq]. replace (line ++ newline :: rest) with ((line ++ [newline]) ++ rest) in Hq
    by (by rewrite <- (assoc_L (++))).
  apply app_eq_inv in Hq as [(k & E & _)|(k & -> & E)].
  - eapply (lines_fit_one line); [done..|]. by exists k.
  - rewrite <- (assoc_L (++)). simpl. rewrite tail_after_cut. apply Hr. by exists r.
Qed.

(** A complete line on an open connection with nothing buffered. *)
Lemma feed_line line (c : connection) :
  c_closed c = false -> inbuf c = [] -> newline ∉ line ->
  feed (line ++ [newline]) c = one_line_step e0 line [] c.
Proof.
  intros Hc Hi Hn. unfold feed, drain_all. rewrite Hc.
  assert (inbuf (append_chunk (line ++ [newline]) c) = line ++ [newline]) as E by (simpl; by rewrite Hi).
  rewrite E, length_app, Nat.add_comm. cbn [length Nat.add drain].
  change (c_closed (append_chunk (line ++ [newline]) c)) with (c_closed c). rewrite Hc, E.
  rewrite (proj2 (find_line_Some _ line [])) by done.
  assert (one_line_step e0 line [] (append_chunk (line ++ [newline]) c) = one_line_step e0 line [] c) as ->
    by (unfold one_line_step; cbn [c_envs append_chunk with_inbuf]; by destruct (next_env e0 (c_envs c))).
  assert (forall f (c : connection), inbuf c = [] -> drain e0 f c = c) as Hd.
  { intros [|f] c' Hc'; [done|]. simpl. rewrite Hc'. by destruct (c_closed c'). }
  apply Hd. unfold one_line_step. by destruct (next_env e0 (c_envs c)).
Qed.

(** A connection that sends one line, in whatever chunks. *)
Lemma one_line_served envs (s : Server L R) line chunks :
  newline ∉ line -> blen line <= kMaxLineLength -> mjoin chunks = line ++ [newline] ->
  let c := handle_client e0 chunks (new_conn envs s) in
  let e := (next_env e0 envs).1 in
  c_sent c = [(transmit (e_sending e) (sv_reply (serve_line e line false s) ++ [newline])).2] /\
  c_server c = sv_server (serve_line e line false s).
Proof.
  intros Hn Hl E c. subst c. rewrite (handle_client_feed chunks _ []); [|done|].
  2:{ simpl. rewrite E. by apply lines_fit_one. }
  destruct (feed_all chunks (new_conn envs s) eq_refl) as (-> & _ & -> & _). rewrite E.
  rewrite feed_line by done. unfold one_line_step. cbn [c_envs new_conn]. by destruct (next_env e0 envs).
Qed.
End stream.

(** ** Every reply is one line *)

Lemma decimal_line n : 0 <= n -> one_line (decimal n).
Proof.
  intros Hn. apply one_line_no_space. eapply Forall_impl; [by apply decimal_digits|]. exact digit_not_space.
Qed.

Lemma pad3_line n : one_line (pad3 n).
Proof.
  apply one_line_no_space. unfold pad3.
  assert (forall z, is_space (digit (z mod 10)) = false) as Hd
    by (intros z; apply digit_not_space, is_digit_digit, Z.mod_pos_bound; lia).
  repeat constructor; apply Hd.
Qed.

Lemma thousandths_nonneg m e : 0 <= thousandths m e.
Proof.
  unfold thousandths. destruct (Z.leb_spec 0 e); [pose proof (Z.pow_nonneg 2 e); lia|].
  unfold round_div. pose proof (Z.pow_pos_nonneg 2 (- e) ltac:(lia) ltac:(lia)).
  pose proof (Z.div_pos (Z.pos m * 1000) (2 ^ (- e)) ltac:(lia) ltac:(lia)).
  destruct (_ ?= _); [destruct (Z.even _)|..]; lia.
Qed.

Lemma fixed3_line x : one_line (fixed3 x).
Proof.
  assert (forall s : bool, one_line (if s then lit "-" else [])) as Hs by (intros []; by_word).
  destruct x as [s|s| |s m e]; unfold fixed3.
  - apply one_line_app; [apply Hs|by_word].
  - apply one_line_app; [apply Hs|by_word].
  - by_word.
  - apply one_line_app; [apply Hs|]. apply one_line_app; [|apply one_line_app; [by_word|apply pad3_line]].
    apply decimal_line, Z.div_pos; [apply thousandths_nonneg|lia].
Qed.

Lemma info_text_line uptime keys m : one_line (info_text uptime keys m).
Proof. unfold info_text. repeat first [apply one_line_app|apply fixed3_line|apply one_line_to_string|by_word]. Qed.

Lemma strip_cr_line l : one_line l -> one_line (strip_cr l).
Proof.
  intros Hl. unfold strip_cr. destruct (last l); [|done]. destruct (Ascii.eqb _ _); [|done].
  intros Hin. apply Hl. rewrite <- (take_drop (length l - 1) l). apply elem_of_app. by left.
Qed.

Lemma recv_chunk_clean mr chunk acc :
  one_line acc ->
  match recv_chunk mr chunk acc with Done l | More l => one_line l | TooLong => True end.
Proof.
  revert acc. induction chunk as [|c chunk IH]; intros acc Ha; simpl; [done|].
  destruct (Ascii.eqb_spec c newline); [by apply strip_cr_line|]. destruct (_ <? _); [done|].
  apply IH, one_line_app; [done|]. intros Hin. apply list_elem_of_singleton in Hin. by subst.
Qed.

Lemma recv_line_clean mr chunks acc l : one_line acc -> recv_line mr chunks acc = Some l -> one_line l.
Proof.
  revert acc. induction chunks as [|b bs IH]; intros acc Ha; simpl; [done|].
  pose proof (recv_chunk_clean mr b acc Ha). destruct (recv_chunk mr b acc); [by intros [= <-]|done|by apply IH].
Qed.

Lemma route_line_clean net shards line : Forall one_line shards -> one_line (route_line net shards line).1.
Proof.
  intros Hs. unfold route_line. rewrite verb_and_key_parse.
  pose proof (parse_line_fields line) as Hp. destruct (parse_line (trim line)) as [[verb key] rest].
  destruct Hp as (Hv & _). destruct (verb =?b []); [cbn [fst]; lines|].
  destruct ((verb =?b lit "QUIT") || (verb =?b lit "EXIT")); [cbn [fst]; lines|]. destruct (verb =?b lit "PING"); [cbn [fst]; lines|].
  destruct (key =?b []); [cbn [fst]; lines|]. cbn [fst]. unfold router_forward, router_split_host_port.
  destruct (shards !! shard_for shards key) as [addr|] eqn:Ea; [|lines].
  assert (one_line addr) by (eapply Forall_lookup_1 in Ea; done).
  destruct (split_host_port addr) as [[h p]|]; [|lines]. destruct (net h p) as [[sends chunks]|]; [|lines].
  destruct (send_all (line ++ [newline]) sends []) as [ok acc].
  destruct (if ok then recv_line kMaxReply chunks [] else None) as [r|] eqn:Er; [|lines].
  destruct ok; [|done]. eapply recv_line_clean; [|exact Er]. lines.
Qed.

Section framing.
Context {L R : Type} `{WriteAheadLaws L} `{ReplicaSink R} `{UnorderedIter}.
Context (e0 : line_env).
Abbreviation server := (Server L R).
Abbreviation connection := (conn L R).

(** Nothing the server would send contains a newline. *)
Definition server_clean (s : server) : Prop :=
  (exists m, holds (store_ s) m /\ clean m) /\ raft_clean (raft_ s) /\
  (is_follower s = true -> disk_ (store_ s) = None) /\
  (forall shards, router_ s = Some shards -> Forall one_line shards).

Lemma execute_line_memory line (st : Storage L R) m f link raft i :
  holds st m -> blen line <= kMaxField -> disk_ st = None ->
  disk_ (x_store (execute_line line st f link raft i)) = None.
Proof.
  intros Hh Hl Hd. destruct (execute_line_ops line st f link raft i) as (ops & Hlo & Hops & ->).
  destruct Hops as [|o ops Ho _]; [done|].
  assert (ops = []) as -> by (destruct ops; [done|simpl in Hlo; lia]). simpl.
  unfold holds in Hh. rewrite Hd in Hh. destruct Hh as [Hok _].
  destruct o as [k v|k|k|k| |b]; simpl in *; try done.
  - pose proof (set_effect k v st Hok Hd) as He.
    destruct (storage_set k v st) as [[] st']; [destruct He as ((ks & He & _) & _)|destruct He as (He & _)];
      pose proof (eff_frame _ _ _ _ He) as (_ & _ & ?); simpl; congruence.
  - pose proof (get_effect k st Hok Hd) as He. destruct (storage_get k st) as [x st'].
    destruct He as (_ & He & _). pose proof (eff_frame _ _ _ _ He) as (_ & _ & ?). simpl. congruence.
  - pose proof (del_effect k st Hok Hd) as He. destruct (storage_del k st) as [[n b] st'].
    destruct (view st !! k); [|by destruct He as (_ & _ & ->)].
    destruct b; destruct He as (_ & He & _); pose proof (eff_frame _ _ _ _ He) as (_ & _ & ?);
      simpl; congruence.
  - unfold storage_clear. by rewrite Hd.
Qed.

Lemma serve_line_clean e line link (s : server) :
  server_clean s -> one_line line -> blen line <= kMaxField ->
  one_line (sv_reply (serve_line e line link s)) /\ server_clean (sv_server (serve_line e line link s)).
Proof.
  intros ((m & Hh & Hc) & Hr & Hf & Hsh) Hl Hlen. unfold serve_line.
  destruct (verb_and_key line) as [verb key].
  destruct (verb =?b lit "INFO").
  { split; [apply info_text_line|]. split; [by exists m|done]. }
  destruct (router_ s) as [shards|] eqn:Er.
  - pose proof (route_line_clean (e_net e) shards line (Hsh shards eq_refl)) as Hrl.
    destruct (route_line (e_net e) shards line) as [r close]. split; [exact Hrl|].
    split; [by exists m|]. split; [done|]. split; [done|]. exact Hsh.
  - split; [by eapply execute_line_reply|].
    split; [by eapply execute_line_store_clean|]. split; [by apply execute_line_raft_clean|].
    split; [|exact Hsh].
    intros Hfo. eapply execute_line_memory; [done..|]. by apply Hf.
Qed.

Definition framed (r : bytes) : Prop := exists l, r = l ++ [newline] /\ one_line l.

(** What the connection has sent: complete lines, the last of which may have been cut
    short, and then the connection is over. *)
Definition sent_lines (sent : list bytes) (closed : bool) : Prop :=
  Forall framed sent \/
  (closed = true /\ exists whole last l, sent = whole ++ [last] /\ Forall framed whole /\ one_line l /\ last `prefix_of` l).

Definition conn_clean (c : connection) : Prop :=
  server_clean (c_server c) /\ sent_lines (c_sent c) (c_closed c).

(** One more reply on an open connection. *)
Lemma reply_framed sent o r b :
  sent_lines sent false -> one_line r ->
  sent_lines (sent ++ [(transmit o (r ++ [newline])).2]) (negb (transmit o (r ++ [newline])).1 || b).
Proof.
  intros [Hs|[? _]] Hr; [|done]. destruct o as [|n].
  - left. apply Forall_app. split; [done|]. repeat constructor. by exists r.
  - right. split; [done|]. eexists sent, _, r. split; [done|]. split; [done|]. split; [done|]. simpl.
    rewrite length_app. simpl. rewrite Nat.add_sub, take_app_le by lia. apply prefix_take.
Qed.

Lemma sent_lines_closed sent b : sent_lines sent false -> sent_lines sent b.
Proof. intros [Hs|[? _]]; [by left|done]. Qed.

Lemma drain_clean f (c : connection) :
  conn_clean c -> blen (inbuf c) <= kMaxField -> conn_clean (drain e0 f c).
Proof.
  revert c. induction f as [|f IH]; intros c Hc Hb; simpl; [done|].
  destruct (c_closed c) eqn:Ec; [done|]. destruct (find_line (inbuf c)) as [[line rest]|] eqn:E; [|done].
  apply find_line_Some in E as [E Hl]. rewrite E in Hb. unfold blen in Hb. rewrite length_app in Hb.
  simpl in Hb. apply IH; unfold one_line_step; destruct (next_env e0 (c_envs c)) as [e es].
  - destruct Hc as [Hs Hsent]. rewrite Ec in Hsent.
    destruct (serve_line_clean e line (c_link c) (c_server c) Hs Hl) as [Hr Hs']; [unfold blen; lia|].
    split; [done|]. cbn [c_sent c_closed]. destruct (c_link c); [by apply sent_lines_closed|by apply reply_framed].
  - cbn [inbuf]. unfold blen. lia.
Qed.

(** The refusal of a line that is too long ends the connection. *)
Lemma too_long_framed (c : connection) e :
  conn_clean c -> c_closed c = false ->
  sent_lines (c_sent c ++ [(transmit (e_sending e) (lit "ERR line too long" ++ [newline])).2]) true.
Proof.
  intros [_ Hs] Ec. rewrite Ec in Hs. pose proof (reply_framed _ (e_sending e) (lit "ERR line too long") true Hs ltac:(by_word)) as Hr.
  by rewrite orb_true_r in Hr.
Qed.

End framing.

(** ** Concrete runs *)

#[local] Existing Instance list_iter.

Definition demo_env1 : line_env := mkEnv demo_instant 1000 5 (fun _ _ => None) AllSent.
Definition demo_server : Server Wal Replicator :=
  mkServer (storage_new 0) None None metrics_new false.
Definition demo_input : bytes :=
  lit "SET a ERR oops" ++ [newline] ++ lit "GET a" ++ [newline] ++ lit "GET b" ++ [newline].

Lemma metrics_exact_witness :
  let l := [mkEvent (lit "GET") (lit "v") false true 10; mkEvent (lit "SET") (lit "ERR x") false false 10] in
  Z.of_nat (length l) <= LONG_MAX /\ errors_ (foldl record_event metrics_new l) = 1.
Proof.
  intros l. split; [by vm_compute|].
  assert (Z.of_nat (length l) <= LONG_MAX) as Hl by by vm_compute.
  by destruct (metrics_exact l Hl) as (_ & _ & -> & _).
Defined.

Lemma handle_client_chunking_witness :
  let c := handle_client demo_env1 [demo_input] (new_conn [] demo_server) in
  let d := handle_client demo_env1 [take 7 demo_input; drop 7 demo_input] (new_conn [] demo_server) in
  c_sent c = c_sent d /\ c_closed c = c_closed d /\ c_server c = c_server d.
Proof.
  apply (handle_client_chunking demo_env1 [] demo_server).
  - by vm_compute.
  - intros q [r Hq]. unfold tail_after, blen. rewrite length_reverse.
    pose proof (length_span (fun c => negb (Ascii.eqb c newline)) (reverse q)) as Hs.
    rewrite length_reverse in Hs. apply (f_equal length) in Hq. rewrite length_app in Hq.
    change (length (mjoin [demo_input])) with 27%nat in Hq. unfold kMaxLineLength. lia.
Defined.


(** A value that begins with ERR is counted as an error.  A successful GET
    of such a value, answered with the value itself, raises the error counter
    and is counted neither as a hit nor as a miss. *)
Theorem get_of_err_value_miscounted :
  let c := handle_client demo_env1 [demo_input] (new_conn [] demo_server) in
  (storage_get (lit "a") (store_ (c_server c))).1 = Some (lit "ERR oops") /\
  gets_ (metrics_ (c_server c)) = 2 /\ errors_ (metrics_ (c_server c)) = 1 /\
  get_hits_ (metrics_ (c_server c)) = 0 /\ get_misses_ (metrics_ (c_server c)) = 1.
Proof. by vm_compute. Qed.
