(* ===== verification/Standalone.v ===== *)
(** * A standalone node as a map (src/server.cpp, src/command.cpp, src/storage.cpp)

    The abstract specification of a node that is neither a follower, nor part of
    a Raft cluster, nor a router: a function on a dictionary, from the command a
    line asks for to its answer; the proof that the server implements it if its
    engine implements the dictionary; and the engines that implement a finite
    map, the unbounded cache and the on-disk engine. *)

From S2P Require Import Prelude Stream Records Interfaces DiskStore Storage StorageCorrect.
From S2P Require Import Wal Replicator Address Net Raft Command Router Metrics Server.

Local Open Scope Z_scope.

(** ** The specification *)

Inductive command :=
  | Blank
  | Set_ (k v : bytes)
  | Get (k : bytes)
  | Del (k : bytes)
  | Exists (k : bytes)
  | Ping
  | Quit
  | Info
  | Role
  | Refused (why : bytes).

(** The command on data, or the verb without arguments, of a line's fields. *)
Definition data_command (verb key rest : bytes) : command :=
  let none := (key =?b []) && (rest =?b []) in
  let one := negb (key =?b []) && (rest =?b []) in
  let arity (ok : bool) (name : bytes) (c : command) := if ok then c else Refused (wrong_args name) in
  if verb =?b lit "SET" then
    arity (negb (key =?b []) && negb (rest =?b [])) (lit "set") (Set_ key rest)
  else if verb =?b lit "GET" then arity one (lit "get") (Get key)
  else if (verb =?b lit "DEL") || (verb =?b lit "DELETE") then arity one (lit "del") (Del key)
  else if verb =?b lit "EXISTS" then arity one (lit "exists") (Exists key)
  else if verb =?b lit "PING" then arity none (lit "ping") Ping
  else if (verb =?b lit "QUIT") || (verb =?b lit "EXIT") then arity none (lit "quit") Quit
  else Refused (lit "ERR unknown command '" ++ verb ++ lit "'").

(** The command a line asks for. *)
Definition command_of (line : bytes) : command :=
  let '(verb, key, rest) := parse_line (trim line) in
  if verb =?b [] then Blank
  else if verb =?b lit "INFO" then Info
  else if verb =?b lit "__REPLSYNC__" then Refused (lit "ERR __REPLSYNC__ is only valid on a read-only replica")
  else if (verb =?b lit "__RAFT_VOTE__") || (verb =?b lit "__RAFT_APPEND__")
    then Refused (lit "ERR this node is not part of a Raft cluster")
  else if verb =?b lit "ROLE" then Role
  else data_command verb key rest.

(** What the specification keeps; [dict_touch] is what a read leaves. *)
Class Dictionary (A : Type) := {
  dict_lookup : bytes -> A -> option bytes;
  dict_set : bytes -> bytes -> A -> A;
  dict_touch : bytes -> A -> A;
  dict_del : bytes -> A -> A;
  dict_size : A -> nat;
}.

#[export] Instance map_dictionary : Dictionary (gmap bytes bytes) := {|
  dict_lookup k m := m !! k;
  dict_set k v m := <[k := v]> m;
  dict_touch _ m := m;
  dict_del k m := delete k m;
  dict_size m := size m;
|}.

Definition present `{Dictionary A} (a : A) (k : bytes) : bytes :=
  if dict_lookup k a is Some _ then lit "(integer) 1" else lit "(integer) 0".

(** The answer: the reply ([None]: INFO, which reports the metrics) and the
    dictionary after it. *)
Definition answer `{Dictionary A} (c : command) (a : A) : option bytes * A :=
  match c with
  | Blank => (Some [], a)
  | Set_ k v => (Some (lit "OK"), dict_set k v a)
  | Get k => (Some (default (lit "(nil)") (dict_lookup k a)), dict_touch k a)
  | Del k => (Some (present a k), dict_del k a)
  | Exists k => (Some (present a k), a)
  | Ping => (Some (lit "PONG"), a)
  | Quit => (Some (lit "OK"), a)
  | Info => (None, a)
  | Role => (Some (lit "standalone (not a Raft cluster)"), a)
  | Refused why => (Some why, a)
  end.

Definition closes (c : command) : bool := if c is Quit then true else false.

(** The lines programs write for the commands with a key. *)
Lemma command_set k v : word k -> text v -> command_of (lit "SET " ++ k ++ lit " " ++ v) = Set_ k v.
Proof.
  intros Hk Hv. destruct (parse_three (lit "SET") k v) as (Et & _ & Hp); [by_word|done|done|done|].
  change (lit "SET" ++ lit " " ++ k ++ lit " " ++ v) with (lit "SET " ++ k ++ lit " " ++ v) in *.
  unfold command_of. rewrite Et, Hp. destruct Hk as [Hk _], Hv as [Hv _]. unfold data_command.
  by rewrite (bool_decide_eq_false_2 (k = [])), (bool_decide_eq_false_2 (v = [])).
Qed.

Lemma command_get k : word k -> command_of (lit "GET " ++ k) = Get k.
Proof.
  intros Hk. destruct (parse_two (lit "GET") k) as (Et & _ & Hp); [by_word|done|done|].
  change (lit "GET" ++ lit " " ++ k) with (lit "GET " ++ k) in *.
  unfold command_of. rewrite Et, Hp. destruct Hk as [Hk _]. unfold data_command.
  by rewrite (bool_decide_eq_false_2 (k = [])).
Qed.

(** What the fields of the command of a line are. *)
Lemma command_of_fields line :
  match command_of line with
  | Set_ k v => word k /\ text v /\ (forall c : ascii, c ∈ v -> c ∈ line) /\ blen k <= blen line /\ blen v <= blen line
  | Get k | Del k | Exists k => word k /\ blen k <= blen line
  | _ => True
  end.
Proof.
  unfold command_of. pose proof (parse_line_fields line) as Hf.
  destruct (parse_line (trim line)) as [[verb key] rest]. destruct Hf as (_ & Hk & Hr & Hc & Hlk & Hlr).
  assert ((key =?b []) = false -> word key) as Hw by (intros E; split; [|done]; by bool_simpl).
  assert (blen key <= blen line /\ blen rest <= blen line) as [Bk Br] by (unfold blen; lia).
  destruct (verb =?b []); [done|]. destruct (verb =?b lit "INFO"); [done|].
  destruct (verb =?b lit "__REPLSYNC__"); [done|].
  destruct ((verb =?b lit "__RAFT_VOTE__") || _); [done|]. destruct (verb =?b lit "ROLE"); [done|].
  unfold data_command. destruct (verb =?b lit "SET").
  { destruct (key =?b []); [done|]. destruct (rest =?b []) eqn:Er; [done|]. cbn [negb andb].
    split; [auto|]. split; [|auto 6]. destruct Hr as [->|]; [by bool_simpl|done]. }
  destruct (key =?b []); cbn [negb andb].
  - repeat match goal with |- context [if ?b then _ else _] => destruct b end; done.
  - specialize (Hw eq_refl). repeat match goal with |- context [if ?b then _ else _] => destruct b end; done.
Qed.

(** ** The node implements the specification *)

(** An engine that implements a dictionary: [keeps] relates its states to the
    dictionaries they stand for. *)
Class Implements {L R A : Type} `{WriteAhead L} `{ReplicaSink R} `{UnorderedIter} `{Dictionary A}
    (keeps : Storage L R -> A -> Prop) : Prop := {
  impl_set st a k v :
    keeps st a -> valid_field k -> valid_field v ->
    (storage_set k v st).1 = true /\ keeps (storage_set k v st).2 (dict_set k v a);
  impl_get st a k :
    keeps st a -> (storage_get k st).1 = dict_lookup k a /\ keeps (storage_get k st).2 (dict_touch k a);
  impl_del st a k :
    keeps st a -> valid_field k ->
    lit "(integer) " ++ to_string (storage_del k st).1.1 = present a k /\
    (storage_del k st).1.2 = true /\ keeps (storage_del k st).2 (dict_del k a);
  impl_exists st a k :
    keeps st a -> lit "(integer) " ++ to_string (if storage_exists k st then 1 else 0) = present a k;
  impl_size st a : keeps st a -> storage_size st = Z.of_nat (dict_size a);
}.

Section node.
Context {L R A : Type} `{WriteAhead L} `{ReplicaSink R} `{UnorderedIter} `{Dictionary A}.
Context {keeps : Storage L R -> A -> Prop} `{!Implements keeps}.
Context (e0 : line_env).
Abbreviation store := (Storage L R).
Abbreviation server := (Server L R).

(** A standalone node whose engine keeps [a]. *)
Definition node_keeps (s : server) (a : A) : Prop :=
  keeps (store_ s) a /\ router_ s = None /\ raft_ s = None /\ is_follower s = false.

(** The commands of a trimmed line, by the branch that executes them. *)
Lemma trim_verb line : let '(verb, _, _) := parse_line (trim line) in trim line = [] <-> verb = [].
Proof.
  unfold parse_line, next_token. pose proof (trim_ends line) as [Hs _]. destruct (trim line) as [|c s]; [done|].
  simpl in Hs. cbn [span]. rewrite Hs. cbn [negb]. destruct (span _ s) as [t r].
  by destruct (span _ (drop_while is_space r)).
Qed.

(** Executing the data commands, on a store that does not fail. *)
Lemma execute_data_answer verb key rest (st : store) m :
  keeps st m -> no_space key -> (rest = [] \/ text rest) -> blen key <= kMaxField -> blen rest <= kMaxField ->
  let x := execute_data verb key rest (Some false) None st in
  let c := data_command verb key rest in
  (answer c m).1 = Some (reply x) /\ keeps (x_store x) (answer c m).2 /\ should_close x = closes c /\
  x_link x = Some false /\ x_raft x = None.
Proof.
  intros Hu Hk Hr Bk Br. cbv zeta.
  assert ((key =?b []) = false -> valid_field key) as Vk by (intros E; bool_simpl; by split).
  assert ((rest =?b []) = false -> valid_field rest) as Vr by (intros E; bool_simpl; by split).
  unfold execute_data, data_command. destruct (verb =?b lit "SET").
  { destruct (key =?b []); [done|]. destruct (rest =?b []); [done|]. cbn [negb andb orb].
    destruct (impl_set st m key rest Hu (Vk eq_refl) (Vr eq_refl)) as [E1 E2].
    destruct (storage_set key rest st) as [b st']. cbn [fst snd] in *. by subst b. }
  destruct (verb =?b lit "GET").
  { destruct (key =?b []), (rest =?b []); try done. cbn [negb andb orb].
    destruct (impl_get st m key Hu) as [E1 E2]. destruct (storage_get key st) as [o st']. cbn [fst snd] in *.
    subst o. cbn [answer fst snd]. by destruct (dict_lookup key m). }
  destruct ((verb =?b lit "DEL") || (verb =?b lit "DELETE")).
  { destruct (key =?b []), (rest =?b []); try done. cbn [negb andb orb].
    destruct (impl_del st m key Hu (Vk eq_refl)) as (E1 & E2 & E3).
    destruct (storage_del key st) as [[n b] st']. cbn [fst snd] in *. subst b. cbn [negb].
    cbn [answer fst snd]. by rewrite <- E1. }
  destruct (verb =?b lit "EXISTS").
  { destruct (key =?b []), (rest =?b []); try done. cbn [negb andb orb answer fst snd].
    by rewrite <- (impl_exists st m key Hu). }
  destruct (verb =?b lit "PING"); [by destruct (key =?b []), (rest =?b [])|].
  destruct ((verb =?b lit "QUIT") || (verb =?b lit "EXIT")); [by destruct (key =?b []), (rest =?b [])|done].
Qed.

Lemma execute_line_answer line (st : store) m i :
  keeps st m -> blen line <= kMaxField -> command_of line <> Info ->
  let x := execute_line line st false (Some false) None i in
  (answer (command_of line) m).1 = Some (reply x) /\ keeps (x_store x) (answer (command_of line) m).2 /\
  should_close x = closes (command_of line) /\ x_link x = Some false /\ x_raft x = None.
Proof.
  intros Hu Hl. unfold execute_line, command_of.
  pose proof (parse_line_fields line) as Hf. pose proof (trim_verb line) as Ht.
  destruct (parse_line (trim line)) as [[verb key] rest]. destruct Hf as (_ & Hk & Hr & _ & Hlk & Hlr).
  rewrite (bool_decide_ext _ _ Ht). destruct (verb =?b []); [done|].
  destruct (verb =?b lit "INFO"); [done|]. intros _. destruct (verb =?b lit "__REPLSYNC__"); [done|].
  destruct ((verb =?b lit "__RAFT_VOTE__") || _); [done|]. destruct (verb =?b lit "ROLE"); [done|].
  cbn [andb]. apply execute_data_answer; [done..| |]; unfold blen in *; lia.
Qed.

(** The reply to a line, INFO included. *)
Definition node_reply (e : line_env) (line : bytes) (m : A) (ms : Metrics) : bytes :=
  default (info_text (e_uptime e) (Z.of_nat (dict_size m)) ms) (answer (command_of line) m).1.

Lemma command_info line : command_of line = Info <-> (verb_and_key line).1 = lit "INFO".
Proof.
  rewrite verb_and_key_parse. unfold command_of. destruct (parse_line (trim line)) as [[verb key] rest]. cbn [fst].
  destruct (decide (verb = lit "INFO")) as [->|Hn]; [done|]. split; [|done]. intros E. exfalso. revert E.
  rewrite (bool_decide_eq_false_2 (verb = lit "INFO")) by done. unfold data_command.
  repeat match goal with |- context [if ?b then _ else _] => destruct b end; done.
Qed.

Lemma serve_line_answer e line (s : server) m :
  node_keeps s m -> blen line <= kMaxField ->
  let v := serve_line e line false s in
  sv_reply v = node_reply e line m (metrics_ s) /\ sv_close v = closes (command_of line) /\ sv_link v = false /\
  node_keeps (sv_server v) (answer (command_of line) m).2.
Proof.
  intros (Hu & Hr & Hraft & Hf) Hl. cbv zeta. unfold serve_line, node_reply.
  pose proof (command_info line) as Hi. destruct (verb_and_key line) as [verb key]. cbn [fst] in Hi.
  destruct (decide (verb = lit "INFO")) as [->|Hn].
  - rewrite (proj2 Hi) by done. rewrite bool_decide_eq_true_2 by done.
    cbn [sv_reply sv_close sv_link sv_server answer fst snd default closes].
    rewrite (impl_size _ m) by done. done.
  - rewrite bool_decide_eq_false_2, Hr, Hf, Hraft by done.
    destruct (execute_line_answer line (store_ s) m (e_now e) Hu Hl) as (E1 & E2 & E3 & E4 & E5); [tauto|].
    cbn [sv_reply sv_close sv_link sv_server]. rewrite E1, E3, E4. done.
Qed.

(** ** Whole connections *)

(** The conversation of the specification: replies until a line closes it. *)
Fixpoint converse (lines : list bytes) (m : A) : list bytes * A :=
  match lines with
  | [] => ([], m)
  | l :: lines' =>
      let '(r, m') := answer (command_of l) m in
      let '(rs, m'') := if closes (command_of l) then ([], m') else converse lines' m' in
      (default [] r :: rs, m'')
  end.

Definition stream_of (lines : list bytes) : bytes := mjoin ((.++ [newline]) <$> lines).

Definition sane_line (l : bytes) : Prop := one_line l /\ blen l <= kMaxLineLength.

Lemma lines_fit_stream lines : Forall sane_line lines -> lines_fit (stream_of lines).
Proof.
  induction 1 as [|l lines [Hn Hl] _ IH].
  - intros q [r Hq]. symmetry in Hq. apply app_eq_nil in Hq as [-> _]. by vm_compute.
  - change (stream_of (l :: lines)) with ((l ++ [newline]) ++ stream_of lines). rewrite <- (assoc_L (++)).
    by apply lines_fit_app.
Qed.

Lemma feed_closed_one b (c : conn L R) : c_closed c = true -> feed e0 b c = c.
Proof. unfold feed. by intros ->. Qed.

Lemma feed_stream lines (c : conn L R) m :
  e_send e0 = true -> Forall (fun e => e_send e = true) (c_envs c) ->
  Forall sane_line lines -> Forall (fun l => command_of l <> Info) lines ->
  node_keeps (c_server c) m -> c_closed c = false -> inbuf c = [] -> c_link c = false ->
  let d := feed e0 (stream_of lines) c in
  c_sent d = c_sent c ++ ((.++ [newline]) <$> (converse lines m).1) /\ node_keeps (c_server d) (converse lines m).2.
Proof.
  intros He0 Henv Hsane. revert c m Henv. induction Hsane as [|l lines [Hn Hl] _ IH]; intros c m Henv Hi Hs Hc Hb Hk.
  { cbv zeta. unfold feed, drain_all. rewrite Hc. cbn. rewrite Hb. cbn. by rewrite app_nil_r. }
  apply Forall_cons in Hi as [Hil Hi]. cbv zeta.
  change (stream_of (l :: lines)) with ((l ++ [newline]) ++ stream_of lines).
  destruct (feed_app e0 (l ++ [newline]) (stream_of lines) c) as (<- & _ & <- & _).
  rewrite feed_line by done. unfold one_line_step.
  assert (exists e es, next_env e0 (c_envs c) = (e, es) /\ e_send e = true /\ Forall (fun e => e_send e = true) es)
    as (e & es & -> & He & Hes) by (destruct Henv as [|e es]; simpl; eauto 6).
  destruct (serve_line_answer e l (c_server c) m Hs) as (Er & Ec & Ek & Hs');
    [unfold kMaxLineLength, kMaxField in *; lia|].
  rewrite Hk in *. set (v := serve_line e l false (c_server c)) in *. rewrite (e_send_all _ He). cbn [transmit fst snd negb andb orb].
  assert (sv_reply v = default [] (answer (command_of l) m).1) as ->.
  { rewrite Er. unfold node_reply. by destruct (command_of l). }
  rewrite Ec. cbn [converse]. destruct (answer (command_of l) m) as [r m']. cbn [fst snd] in *.
  destruct (closes (command_of l)).
  - by rewrite feed_closed_one.
  - edestruct (IH (mkConn [] (sv_link v) es (c_sent c ++ [default [] r ++ [newline]]) false (sv_server v)) m')
      as [E1 E2]; try done. destruct (converse lines m') as [rs m'']. cbn [fst snd c_sent] in *.
    rewrite E1. by rewrite <- (assoc_L (++)).
Qed.

(** A connection served from beginning to end. *)
Lemma serve_connection lines chunks envs (s : server) m :
  node_keeps s m -> Forall sane_line lines -> Forall (fun l => command_of l <> Info) lines ->
  mjoin chunks = stream_of lines -> e_send e0 = true -> Forall (fun e => e_send e = true) envs ->
  let c := handle_client e0 chunks (new_conn envs s) in
  c_sent c = (.++ [newline]) <$> (converse lines m).1 /\ node_keeps (c_server c) (converse lines m).2.
Proof.
  intros Hs Hl Hi E He0 Henv. cbv zeta. rewrite (handle_client_feed e0 chunks _ []); [|done|].
  2:{ simpl. rewrite E. by apply lines_fit_stream. }
  destruct (feed_all e0 chunks (new_conn envs s) eq_refl) as (-> & _ & -> & _). rewrite E.
  by apply (feed_stream lines (new_conn envs s) m).
Qed.

End node.

(** ** A store that does not fail *)

Section usable.
Context {L R : Type} `{WriteAheadLaws L} `{!ReliableLog L} `{ReplicaSink R} `{UnorderedIter}.
Abbreviation store := (Storage L R).

(** An unbounded cache with a reliable log or none, or a disk engine with no
    failure behind or ahead of it, that holds [m]. *)
Definition usable (st : store) (m : gmap bytes bytes) : Prop :=
  holds st m /\
  match disk_ st with
  | Some d => d_ok d = true /\ d_env d = []
  | None => capacity_ st <= 0 /\ log_reliable st
  end.

Lemma usable_set (st : store) m k v :
  usable st m -> valid_field k -> valid_field v ->
  (storage_set k v st).1 = true /\ usable (storage_set k v st).2 (<[k := v]> m).
Proof.
  intros [Hh Hu] Hk Hv. unfold usable, holds in *. destruct (disk_ st) as [d|] eqn:E.
  - destruct Hu as [Hok He]. pose proof (disk_set_inv d m k v Hh Hk Hv) as Hd.
    assert ((disk_set k v d).1 = true /\ d_ok (disk_set k v d).2 = true /\ d_env (disk_set k v d).2 = []) as (E1 & E2 & E3).
    { unfold disk_set. rewrite Hok, (bool_decide_false (k = [])), (bool_decide_false (v = [])) by (apply Hk || apply Hv).
      by rewrite He. }
    rewrite E1 in Hd. unfold storage_set. rewrite E. destruct (disk_set k v d) as [b d']. cbn [fst snd] in *.
    subst b. by cbn.
  - destruct Hu as [Hc Hw]. destruct Hh as [Hok <-]. destruct (set_reliable k v st E Hw) as [Hs Hw'].
    pose proof (set_effect k v st Hok E) as He. destruct (storage_set k v st) as [b st']. cbn [fst snd] in *. subst b. cbv beta iota zeta in He.
    destruct He as ((ks & [Ho Hview _ _ (Fc & _ & Fd) _] & Hks & _) & _).
    destruct ks as [|x ks]; [|destruct Hks as [? _]; [done|lia]]. rewrite Fd, E, Fc. done.
Qed.

Lemma usable_get (st : store) m k :
  usable st m -> (storage_get k st).1 = m !! k /\ usable (storage_get k st).2 m.
Proof.
  intros [Hh Hu]. split.
  { apply holds_get; [done|]. intros d Hd. rewrite Hd in Hu. apply Hu. }
  unfold usable, holds in *. destruct (disk_ st) as [d|] eqn:E.
  - unfold storage_get. rewrite E. simpl. by rewrite E.
  - destruct Hh as [Hok <-], Hu as [Hc Hw]. pose proof (get_reliable k st E Hw) as Hw'.
    pose proof (get_effect k st Hok E) as He. destruct (storage_get k st) as [o st']. cbn [fst snd] in *.
    destruct He as (_ & [Ho Hview _ _ (Fc & _ & Fd) _] & _). rewrite Fd, E, Fc. done.
Qed.

Lemma usable_del (st : store) m k :
  usable st m -> valid_field k ->
  lit "(integer) " ++ to_string (storage_del k st).1.1 = present m k /\
  (storage_del k st).1.2 = true /\ usable (storage_del k st).2 (delete k m).
Proof.
  intros [Hh Hu] Hk. unfold usable, holds, present in *. cbn [dict_lookup map_dictionary]. destruct (disk_ st) as [d|] eqn:E.
  - destruct Hu as [Hok He]. pose proof (disk_del_inv d m k Hh Hk) as Hd.
    pose proof (index_of_lookup _ _ _ k (disk_inv_index _ _ Hh)) as Hl.
    unfold storage_del. rewrite E. unfold disk_del in *.
    rewrite Hok, (bool_decide_false (k = [])), He in * by apply Hk. cbn [negb orb next_io io_write] in *.
    destruct (d_index d !! k) as [en|] eqn:Ek; cbn [fst snd] in *.
    + destruct (index_of_readable _ _ _ (disk_inv_index _ _ Hh) k en Ek) as (v & _ & Em). rewrite Em. by cbn.
    + assert (m !! k = None) as Em by (by rewrite <- Hl). rewrite Em, Hok. cbn. rewrite delete_id by done. done.
  - destruct Hu as [Hc Hw]. destruct Hh as [Hok <-]. destruct (del_reliable k st E Hw) as [Hs Hw'].
    pose proof (del_effect k st Hok E) as He. destruct (storage_del k st) as [[n b] st']. cbn [fst snd] in *. subst b.
    destruct (view st !! k) as [v|] eqn:Ev.
    + destruct He as (-> & [Ho Hview _ _ (Fc & _ & Fd) _] & _). rewrite Fd, E, Fc. done.
    + destruct He as (-> & _ & ->). rewrite E, delete_id by done. done.
Qed.

Lemma usable_exists (st : store) m k :
  usable st m -> lit "(integer) " ++ to_string (if storage_exists k st then 1 else 0) = present m k.
Proof.
  intros [Hh _]. unfold holds, storage_exists, disk_exists, present in *. cbn [dict_lookup map_dictionary]. destruct (disk_ st) as [d|] eqn:E.
  - pose proof (disk_inv_index _ _ Hh) as Hi. destruct (d_index d !! k) as [en|] eqn:Ek.
    + destruct (index_of_readable _ _ _ Hi k en Ek) as (v & _ & ->). by rewrite bool_decide_eq_true_2.
    + rewrite bool_decide_eq_false_2 by (by intros [? ?]).
      assert (m !! k = None) as -> by (rewrite <- (index_of_lookup _ _ _ k Hi); by rewrite Ek). done.
  - destruct Hh as [Hok <-]. destruct (index_ st !! k) as [n|] eqn:Ek.
    + destruct (store_ok_lookup st k n Hok Ek) as (v & a & b & _ & -> & _). by rewrite bool_decide_eq_true_2.
    + rewrite (store_ok_miss st k Hok Ek). by rewrite bool_decide_eq_false_2 by (by intros [? ?]).
Qed.
(** Both engines count the keys of the map. *)
Lemma usable_size (st : store) m : usable st m -> storage_size st = Z.of_nat (size m).
Proof.
  intros [Hh _]. unfold holds, storage_size, disk_size in *. destruct (disk_ st) as [d|].
  - rewrite <- !(size_dom (D := gset bytes)). by rewrite (index_of_dom _ _ _ (disk_inv_index _ _ Hh)).
  - destruct Hh as [Hok <-]. f_equal. rewrite <- !(size_dom (D := gset bytes)). f_equal.
    apply leibniz_equiv. intros k. rewrite !elem_of_dom. destruct (index_ st !! k) as [n|] eqn:E.
    + by destruct (store_ok_lookup st k n Hok E) as (v & a & b & _ & -> & _).
    + by rewrite (store_ok_miss st k Hok E).
Qed.

#[export] Instance usable_implements : Implements usable.
Proof.
  split; [apply usable_set|apply usable_get|apply usable_del|apply usable_exists|apply usable_size].
Qed.
End usable.

Abbreviation node_holds := (node_keeps (keeps := usable)).

Section map_node.
Context {L R : Type} `{WriteAheadLaws L} `{!ReliableLog L} `{ReplicaSink R} `{UnorderedIter}.
Context (e0 : line_env).
Abbreviation store := (Storage L R).
Abbreviation server := (Server L R).

Lemma execute_line_plain line verb key rest (st : store) link i :
  trim line = line -> line <> [] -> parse_line line = (verb, key, rest) ->
  verb ∉ [lit "__REPLSYNC__"; lit "__RAFT_VOTE__"; lit "__RAFT_APPEND__"; lit "ROLE"] ->
  execute_line line st false link None i = execute_data verb key rest link None st.
Proof.
  intros Et Hne Hp Hv. rewrite !not_elem_of_cons in Hv. destruct Hv as (? & ? & ? & ? & _).
  unfold execute_line. rewrite Et, Hp. rewrite !bool_decide_eq_false_2 by done. reflexivity.
Qed.

(** A failed disk hides its keys.  Once a write to the data file has failed, GET
    answers (nil) for every key, those that are stored included, while EXISTS still
    says that they are there: a client cannot tell a failed disk from an absent key. *)
Theorem failed_disk_hides_keys (st : store) d m k v link i :
  disk_ st = Some d -> disk_inv d m -> d_ok d = false -> m !! k = Some v -> word k ->
  reply (execute_line (lit "GET " ++ k) st false link None i) = lit "(nil)" /\
  reply (execute_line (lit "EXISTS " ++ k) st false link None i) = lit "(integer) 1".
Proof.
  intros Hd Hi Hok Hm Hk. destruct (parse_two (lit "GET") k) as (Et & Hne & Hp); [by_word|done|done|].
  destruct (parse_two (lit "EXISTS") k) as (Et' & Hne' & Hp'); [by_word|done|done|].
  change (lit "GET" ++ lit " " ++ k) with (lit "GET " ++ k) in *.
  change (lit "EXISTS" ++ lit " " ++ k) with (lit "EXISTS " ++ k) in *.
  change (to_upper (lit "GET")) with (lit "GET") in Hp. change (to_upper (lit "EXISTS")) with (lit "EXISTS") in Hp'.
  rewrite (execute_line_plain _ _ _ _ _ _ _ Et Hne Hp), (execute_line_plain _ _ _ _ _ _ _ Et' Hne' Hp') by by_word.
  destruct Hk as [Hk _]. unfold execute_data. rewrite (bool_decide_eq_false_2 (k = [])) by done.
  rewrite !(bool_decide_eq_false_2 (lit "EXISTS" = _)), (bool_decide_eq_false_2 (lit "GET" = _)), !bool_decide_eq_true_2 by done.
  cbn [orb negb]. unfold storage_get, storage_exists, disk_get, disk_exists. rewrite Hd, Hok. split; [done|].
  pose proof (index_of_lookup _ _ _ k (disk_inv_index _ _ Hi)) as Hl. rewrite Hm in Hl.
  destruct (d_index d !! k); [|done]. by rewrite bool_decide_eq_true_2.
Qed.

(** C5: a standalone node is a map.  A client that sends any lines of at most 64 KB,
    other than INFO, in any chunks, to a node that is neither a replica nor a router
    nor in a Raft cluster (with an unbounded cache and a log that does not fail or
    none, or with the on-disk engine on a disk that does not fail), on a connection
    whose replies can all be sent to their end, reads exactly the replies of a finite map to the commands of
    those lines, refusals included, until it quits; and the node then holds the
    map those commands lead to. *)
Theorem standalone_is_a_map lines chunks envs (s : server) m :
  node_holds s m -> Forall sane_line lines -> Forall (fun l => command_of l <> Info) lines ->
  mjoin chunks = stream_of lines -> e_send e0 = true -> Forall (fun e => e_send e = true) envs ->
  let c := handle_client e0 chunks (new_conn envs s) in
  c_sent c = (.++ [newline]) <$> (converse lines m).1 /\ node_holds (c_server c) (converse lines m).2.
Proof. apply serve_connection. Qed.
End map_node.

(** ** Concrete runs *)

#[local] Existing Instance list_iter.

Lemma demo_server_holds : node_holds (demo_server : Server Wal Replicator) ∅.
Proof. split; [|done]. split; [split; [apply lru_ok_nil|done]|done]. Qed.

Definition demo_lines : list bytes :=
  [lit "SET a x  y"; lit " get a "; lit "DEL b"; lit "exists a"; lit "GET"; lit "QUIT"; lit "GET a"].

Lemma demo_lines_sane : Forall sane_line demo_lines /\ Forall (fun l => command_of l <> Info) demo_lines.
Proof. split; repeat constructor; try by_word; by vm_compute. Qed.

Lemma standalone_is_a_map_witness :
  let c := handle_client demo_env1 [stream_of demo_lines] (new_conn [] demo_server) in
  (converse demo_lines ∅).1 =
    [lit "OK"; lit "x  y"; lit "(integer) 0"; lit "(integer) 1"; wrong_args (lit "get"); lit "OK"] /\
  (c_sent c = (.++ [newline]) <$> (converse demo_lines ∅).1 /\ node_holds (c_server c) (converse demo_lines ∅).2).
Proof.
  intros c. split; [by vm_compute|]. destruct demo_lines_sane as [Hs Hi].
  assert (mjoin [stream_of demo_lines] = stream_of demo_lines) as E by by vm_compute.
  exact (standalone_is_a_map (L := Wal) demo_env1 demo_lines [stream_of demo_lines] [] demo_server ∅
    demo_server_holds Hs Hi E eq_refl (Forall_nil_2 _)).
Defined.

(** A key that was stored before a torn write. *)
Definition demo_failing : Storage Wal Replicator :=
  (storage_set (lit "b") (lit "2") (with_disk (Some (opened_on (lit "SET 1 1 a1" ++ [newline]) [IoFail 3])) (storage_new 0))).2.

Lemma failed_disk_hides_keys_witness :
  reply (execute_line (lit "GET a") demo_failing false None None demo_instant) = lit "(nil)" /\
  reply (execute_line (lit "EXISTS a") demo_failing false None None demo_instant) = lit "(integer) 1".
Proof.
  pose (file := lit "SET 1 1 a1" ++ [newline]).
  assert (disk_inv (disk_set (lit "b") (lit "2") (opened_on file [IoFail 3])).2 (apply_records ∅ (log_records file))) as Hi.
  { assert ((disk_set (lit "b") (lit "2") (opened_on file [IoFail 3])).1 = false) as Eb by by vm_compute.
    pose proof (disk_set_inv (opened_on file [IoFail 3]) _ (lit "b") (lit "2") (opened_on_inv file [IoFail 3])
      ltac:(by_word) ltac:(by_word)) as Hi. by rewrite Eb in Hi. }
  assert (d_ok (disk_set (lit "b") (lit "2") (opened_on file [IoFail 3])).2 = false) as Hok by by vm_compute.
  assert (apply_records ∅ (log_records file) !! lit "a" = Some (lit "1")) as Hm by by vm_compute.
  assert (disk_ demo_failing = Some (disk_set (lit "b") (lit "2") (opened_on file [IoFail 3])).2) as Hd by by vm_compute.
  assert (word (lit "a")) as Hw by by_word.
  exact (failed_disk_hides_keys (L := Wal) demo_failing _ _ (lit "a") (lit "1") None demo_instant Hd Hi Hok Hm Hw).
Defined.
