(* ===== verification/Bounded.v ===== *)
(** * A node with a bounded cache (src/server.cpp, src/command.cpp, src/storage.cpp)

    The same server as in [Standalone], with the capacity the command line gives
    it.  Its specification keeps the one-list LRU reference in place of the map:
    the list is a second implementation of the interface [Implements], so the
    whole connection is covered by the theorems proved against it.  What a client
    loses by the bound is then a question about lists and maps alone. *)

From S2P Require Import Prelude Stream Records Interfaces DiskStore Storage StorageCorrect.
From S2P Require Import Wal Replicator Address Net Raft Command Router Metrics Server Standalone.

Local Open Scope Z_scope.

(** ** The reference list as a dictionary *)

Definition lru (cap : Z) : Type := list item.

#[export] Instance lru_dictionary cap : Dictionary (lru cap) := {|
  dict_lookup := lru_lookup;
  dict_set k v l := lru_fit cap (lru_put k v l);
  dict_touch := lru_touch;
  dict_del := lru_remove;
  dict_size l := length l;
|}.

Section bounded.
Context {L R : Type} `{WriteAheadLaws L} `{!ReliableLog L} `{ReplicaSink R} `{UnorderedIter}.
Context (cap : Z).
Abbreviation server := (Server L R).

(** The engine's states that stand for a list: [simulates]. *)
Definition caches (st : Storage L R) (l : lru cap) : Prop := simulates cap st l.

#[export] Instance caches_implements : Implements caches.
Proof.
  split; unfold caches.
  - intros st a k v Hs _ _. by apply set_simulates.
  - intros st a k Hs. by apply get_simulates.
  - intros st a k Hs _. destruct (del_simulates cap st a k Hs) as [-> Hs']. split; [|done].
    unfold present. cbn [dict_lookup lru_dictionary fst snd]. by destruct (lru_lookup k a).
  - intros st a k Hs. rewrite (exists_simulates cap st a k Hs). unfold present. cbn [dict_lookup lru_dictionary].
    destruct (lru_lookup k a); [by rewrite bool_decide_eq_true_2|]. by rewrite bool_decide_eq_false_2 by (by intros [? ?]).
  - intros st a ((Hok & Hd & _) & _ & <-). unfold storage_size. rewrite Hd, (lru_ok_size _ _ _ Hok).
    cbn [dict_size lru_dictionary]. unfold entries. by rewrite length_fmap.
Qed.

(** ** What the bound forgets *)

Abbreviation contents l := (list_to_map l : gmap bytes bytes).

Lemma contents_remove k (l : list item) : contents (lru_remove k l) = delete k (contents l).
Proof.
  induction l as [|[k' v] l IH]; [cbn; by rewrite delete_empty|]. unfold lru_remove in *. destruct (decide (k' = k)) as [->|Hne].
  - rewrite filter_cons_False by (simpl; tauto). rewrite IH. simpl. by rewrite delete_insert_eq.
  - rewrite filter_cons_True by done. simpl. by rewrite IH, delete_insert_ne.
Qed.

Lemma contents_put k v (l : list item) : contents (lru_put k v l) = <[k := v]> (contents l).
Proof. unfold lru_put. simpl. fold (lru_remove k l). by rewrite contents_remove, insert_delete_eq. Qed.

Lemma contents_touch k (l : list item) : contents (lru_touch k l) = contents l.
Proof.
  unfold lru_touch. destruct (contents l !! k) as [v|] eqn:E; [|done]. by rewrite contents_put, insert_id.
Qed.

Lemma contents_fit (l : list item) : contents (lru_fit cap l) ⊆ contents l.
Proof.
  unfold lru_fit. destruct (0 <? cap); [|done]. rewrite <- (take_drop (Z.to_nat cap) l) at 2.
  rewrite list_to_map_app. apply map_union_subseteq_l.
Qed.

(** A reply that differs from the map's only by the absence of the key. *)
Definition forgetful (r r' : bytes) : Prop := r = r' \/ r = lit "(nil)" \/ r = lit "(integer) 0".

Lemma answer_forgetful (c : command) (l : lru cap) (m : gmap bytes bytes) :
  contents l ⊆ m ->
  forgetful (default [] (answer c l).1) (default [] (answer c m).1) /\ contents (answer c l).2 ⊆ (answer c m).2.
Proof.
  intros Hl. assert (forall k v, lru_lookup k l = Some v -> m !! k = Some v) as Hk
    by (intros k v E; eapply lookup_weaken; [exact E|done]).
  assert (forall k, forgetful (present l k) (present m k)) as Hp.
  { intros k. unfold present. cbn [dict_lookup lru_dictionary map_dictionary].
    destruct (lru_lookup k l) as [v|] eqn:E; [|by do 2 right]. rewrite (Hk k v E). by left. }
  destruct c; cbn [answer fst snd default dict_lookup dict_set dict_touch dict_del lru_dictionary map_dictionary];
    try (split; [by left|done]); try (split; [apply Hp|done]).
  - split; [by left|]. etrans; [apply contents_fit|]. rewrite contents_put. by apply insert_mono.
  - rewrite contents_touch. split; [|done]. destruct (lru_lookup k l) as [v|] eqn:E; [|right; by left].
    rewrite (Hk k v E). by left.
  - rewrite contents_remove. split; [apply Hp|by apply delete_mono].
Qed.

Lemma converse_forgetful (lines : list bytes) (l : lru cap) (m : gmap bytes bytes) :
  contents l ⊆ m -> Forall2 forgetful (converse lines l).1 (converse lines m).1.
Proof.
  revert l m. induction lines as [|line lines IH]; intros l m Hl; [constructor|]. cbn [converse].
  destruct (answer_forgetful (command_of line) l m Hl) as [Hr Hsub].
  destruct (answer (command_of line) l) as [r l'], (answer (command_of line) m) as [r' m']. cbn [fst snd] in *.
  specialize (IH l' m' Hsub). destruct (closes _); [by constructor|].
  destruct (converse lines l') as [rs ?], (converse lines m') as [rs' ?]. by constructor.
Qed.

(** ** A working set that fits *)

(** The keys the lines write. *)
Definition written (lines : list bytes) : gset bytes :=
  foldr (fun line ks => if command_of line is Set_ k _ then {[k]} ∪ ks else ks) ∅ lines.

Lemma put_nodup k v (l : list item) : NoDup l.*1 -> NoDup (lru_put k v l).*1.
Proof.
  intros Hl. unfold lru_put. csimpl. constructor.
  - intros (x & -> & Hx)%list_elem_of_fmap. by apply list_elem_of_filter in Hx as [? _].
  - eapply sublist_NoDup; [exact Hl|]. apply fmap_sublist, sublist_filter.
Qed.

(** The list holds exactly the map, each key once. *)
Definition exactly (l : list item) (m : gmap bytes bytes) : Prop := NoDup l.*1 /\ contents l = m.

Lemma exactly_length l m : exactly l m -> length l = size m.
Proof. intros [Hn <-]. rewrite map_size_list_to_map by done. done. Qed.

Lemma answer_exact (c : command) (l : lru cap) (m : gmap bytes bytes) (ks : gset bytes) :
  exactly l m -> Z.of_nat (size ks) <= cap -> dom m ⊆ ks -> (if c is Set_ k _ then k ∈ ks else True) ->
  (answer c l).1 = (answer c m).1 /\ exactly (answer c l).2 (answer c m).2 /\ dom (answer c m).2 ⊆ ks.
Proof.
  intros [Hn <-] Hc Hd Hk.
  destruct c; cbn [answer fst snd dict_lookup dict_set dict_touch dict_del lru_dictionary map_dictionary]; try done.
  - assert (exactly (lru_put k v l) (<[k := v]> (contents l))) as Hp by (split; [by apply put_nodup|apply contents_put]).
    assert (dom (<[k := v]> (contents l)) ⊆ ks) as Hd' by set_solver.
    split; [done|]. rewrite lru_fit_id; [done|]. intros _. rewrite (exactly_length _ _ Hp).
    pose proof (subseteq_size _ _ Hd') as Hs. rewrite size_dom in Hs. lia.
  - split; [done|]. split; [|done]. split; [|apply contents_touch].
    unfold lru_touch. destruct (contents l !! k); [by apply put_nodup|done].
  - split; [done|]. split; [split; [|apply contents_remove]|set_solver].
    eapply sublist_NoDup; [exact Hn|]. apply fmap_sublist, sublist_filter.
Qed.

Lemma converse_exact (lines : list bytes) (l : lru cap) (m : gmap bytes bytes) (ks : gset bytes) :
  exactly l m -> Z.of_nat (size ks) <= cap -> dom m ⊆ ks -> written lines ⊆ ks ->
  (converse lines l).1 = (converse lines m).1.
Proof.
  intros Hl Hc. revert l m Hl. induction lines as [|line lines IH]; intros l m Hl Hd Hw; [done|]. cbn [converse].
  cbn [written foldr] in Hw. change (foldr _ _ lines) with (written lines) in Hw.
  destruct (answer_exact (command_of line) l m ks Hl Hc Hd) as (E & Hl' & Hd'); [destruct (command_of line); set_solver|].
  destruct (answer (command_of line) l) as [r l'], (answer (command_of line) m) as [r' m']. cbn [fst snd] in *.
  subst r'. destruct (closes _); [done|].
  assert (written lines ⊆ ks) as Hw' by (destruct (command_of line); set_solver). specialize (IH l' m' Hl' Hd' Hw').
  destruct (converse lines l') as [rs ?], (converse lines m') as [rs' ?]. cbn [fst] in *. by rewrite IH.
Qed.

(** ** The node *)

Context (e0 : line_env).

Lemma caches_nodup (st : Storage L R) (l : lru cap) : caches st l -> NoDup l.*1.
Proof. intros (([_ Hk _ _] & _) & _ & <-). exact Hk. Qed.

(** C12: a bounded node is an LRU cache of a map.  A client that sends any lines, in
    any chunks, to a standalone node with a cache of any capacity and a log that
    does not fail or none, reads the replies of the one-list LRU reference.  Next to
    a map that held at least what the cache held, these replies are the map's or
    report a key as absent, never an old or a foreign value; and they are the map's
    if the cache held the whole map and the keys of the map and of the lines
    together do not exceed the capacity, which no order of commands changes. *)
Theorem bounded_node_is_lru (lines chunks : list bytes) (envs : list line_env) (s : server) (l : lru cap) (m : gmap bytes bytes) :
  node_keeps (keeps := caches) s l -> Forall sane_line lines -> Forall (fun l => command_of l <> Info) lines ->
  mjoin chunks = stream_of lines -> e_send e0 = true -> Forall (fun e => e_send e = true) envs -> contents l ⊆ m ->
  let c := handle_client e0 chunks (new_conn envs s) in
  c_sent c = (.++ [newline]) <$> (converse lines l).1 /\
  node_keeps (keeps := caches) (c_server c) (converse lines l).2 /\
  Forall2 forgetful (converse lines l).1 (converse lines m).1 /\
  (contents l = m -> Z.of_nat (size (dom m ∪ written lines)) <= cap -> (converse lines l).1 = (converse lines m).1).
Proof.
  intros Hs Hl Hi E He0 Henv Hsub. cbv zeta.
  destruct (serve_connection e0 lines chunks envs s l Hs Hl Hi E He0 Henv) as [E1 E2].
  split; [done|]. split; [done|]. split; [by apply converse_forgetful|]. intros Em Hc.
  apply (converse_exact lines l m (dom m ∪ written lines)); [|done|set_solver..].
  split; [apply (caches_nodup (store_ s)), Hs|done].
Qed.
End bounded.

(** ** A concrete run: two keys fit, the third pushes out the one not read *)

#[local] Existing Instance list_iter.

Definition small_store : Storage Wal Replicator :=
  attach_replicator None (attach_wal (Some (open_for_append (wal_new None [])).2) (storage_new 2)).
Definition small_server : Server Wal Replicator := mkServer small_store None None metrics_new false.
Definition small_lines : list bytes :=
  [lit "SET a 1"; lit "SET b 2"; lit "GET a"; lit "SET c 3"; lit "GET b"; lit "EXISTS a"].

Lemma small_server_caches : node_keeps (keeps := caches 2) small_server ([] : lru 2).
Proof. split; [|done]. apply fresh_simulates. by vm_compute. Qed.

Lemma bounded_node_is_lru_witness :
  let c := handle_client demo_env1 [stream_of small_lines] (new_conn [] small_server) in
  (converse small_lines ([] : lru 2)).1 =
    [lit "OK"; lit "OK"; lit "1"; lit "OK"; lit "(nil)"; lit "(integer) 1"] /\
  (c_sent c = (.++ [newline]) <$> (converse small_lines ([] : lru 2)).1 /\
   node_keeps (keeps := caches 2) (c_server c) (converse small_lines ([] : lru 2)).2 /\
   Forall2 forgetful (converse small_lines ([] : lru 2)).1 (converse small_lines (∅ : gmap bytes bytes)).1 /\
   ((list_to_map [] : gmap bytes bytes) = ∅ ->
    Z.of_nat (size (dom (∅ : gmap bytes bytes) ∪ written small_lines)) <= 2 ->
    (converse small_lines ([] : lru 2)).1 = (converse small_lines (∅ : gmap bytes bytes)).1)).
Proof.
  intros c. split; [by vm_compute|].
  assert (Forall sane_line small_lines) as Hs by (repeat constructor; try by_word; by vm_compute).
  assert (Forall (fun l => command_of l <> Info) small_lines) as Hi by (repeat constructor; by vm_compute).
  assert (mjoin [stream_of small_lines] = stream_of small_lines) as E by by vm_compute.
  exact (bounded_node_is_lru (L := Wal) 2 demo_env1 small_lines [stream_of small_lines] [] small_server [] ∅
    small_server_caches Hs Hi E eq_refl (Forall_nil_2 _) (reflexivity _)).
Defined.
