(* ===== verification/Shards.v ===== *)
(** * A router and its shards as one store (src/router.cpp, src/server.cpp)

    A router node and the standalone nodes its shard list names.  A line with a
    key is forwarded over a connection of its own to the shard its key selects,
    and the shard's reply is handed on.  The connection may be refused, break
    while the line is sent, or break before the reply has arrived. *)

From S2P Require Import Prelude Stream Records Interfaces DiskStore Storage StorageCorrect.
From S2P Require Import Wal Replicator Address Net Raft Command Router Metrics Server Standalone.

Local Open Scope Z_scope.

(** ** Lines the router forwards *)

(** The tests of [route_line], and of INFO before it. *)
Definition routed (line : bytes) : bool :=
  let '(verb, key) := verb_and_key line in
  negb ((verb =?b []) || (verb =?b lit "INFO") || (verb =?b lit "QUIT") || (verb =?b lit "EXIT") ||
        (verb =?b lit "PING") || (key =?b [])).

(** What the router answers by itself ([None]: INFO). *)
Definition router_answer (line : bytes) : option bytes :=
  let '(verb, _) := verb_and_key line in
  if verb =?b [] then Some []
  else if verb =?b lit "INFO" then None
  else if (verb =?b lit "QUIT") || (verb =?b lit "EXIT") then Some (lit "OK")
  else if verb =?b lit "PING" then Some (lit "PONG")
  else Some (lit "ERR ROUTER: '" ++ verb ++ lit "' needs a key to route on").

Lemma routed_serve {L R} `{WriteAhead L} `{ReplicaSink R} `{UnorderedIter} e line (s : Server L R) addrs :
  router_ s = Some addrs ->
  let v := serve_line e line false s in
  store_ (sv_server v) = store_ s /\ router_ (sv_server v) = Some addrs /\
  (if routed line then sv_reply v = router_forward (e_net e) addrs (shard_for addrs (verb_and_key line).2) line
   else forall r, router_answer line = Some r -> sv_reply v = r).
Proof.
  intros Hr. cbv zeta. unfold serve_line, routed, router_answer, route_line. rewrite Hr.
  destruct (verb_and_key line) as [verb key]. cbn [snd].
  destruct (decide (verb = [])) as [->|Hv]; [split; [done|]; split; [done|]; simpl; by intros ? [= <-]|].
  rewrite (bool_decide_eq_false_2 (verb = [])) by done. cbn [orb].
  destruct (verb =?b lit "INFO"); [done|]. cbn [orb].
  destruct (verb =?b lit "QUIT"); [split; [done|]; split; [done|]; simpl; by intros ? [= <-]|].
  destruct (verb =?b lit "EXIT"); [split; [done|]; split; [done|]; simpl; by intros ? [= <-]|]. cbn [orb].
  destruct (verb =?b lit "PING"); [split; [done|]; split; [done|]; simpl; by intros ? [= <-]|]. cbn [orb].
  destruct (key =?b []); [split; [done|]; split; [done|]; cbn; by intros ? [= <-]|done].
Qed.

(** ** The specification is local to a key *)

Definition command_key (c : command) : option bytes :=
  match c with Set_ k _ | Get k | Del k | Exists k => Some k | _ => None end.

Lemma command_key_routed line k : command_key (command_of line) = Some k -> (verb_and_key line).2 = k.
Proof.
  rewrite verb_and_key_parse. unfold command_of. destruct (parse_line (trim line)) as [[verb key] rest]. cbn [snd].
  unfold data_command.
  repeat match goal with |- context [if ?b then _ else _] => destruct b end; cbn; congruence.
Qed.

Lemma answer_local c k m m2 :
  command_key c = Some k -> m !! k = m2 !! k ->
  (answer c m).1 = (answer c m2).1 /\ (answer c m).2 !! k = (answer c m2).2 !! k.
Proof.
  destruct c; simpl; intros [= <-] E; unfold present; cbn [dict_lookup map_dictionary]; rewrite ?E, ?lookup_insert_eq, ?lookup_delete_eq; done.
Qed.

Lemma answer_others c k m k' : command_key c = Some k -> k' <> k -> (answer c m).2 !! k' = m !! k'.
Proof.
  destruct c; simpl; intros [= <-] Hne; rewrite ?lookup_insert_ne, ?lookup_delete_ne; done.
Qed.

Lemma answer_keyless c m m2 : command_key c = None -> (answer c m).1 = (answer c m2).1 /\ (answer c m).2 = m.
Proof. by destruct c. Qed.

(** ** What a shard sends fits the router *)

Definition wire_value (v : bytes) : Prop := text v /\ one_line v /\ blen v <= kMaxLineLength.
Definition wire_map (m : gmap bytes bytes) : Prop := map_Forall (fun _ v => wire_value v) m.

Definition fits_wire (r : bytes) : Prop := one_line r /\ blen r <= kMaxReply /\ strip_cr r = r.

Lemma strip_cr_last r c : c <> chr 13 -> strip_cr (r ++ [c]) = r ++ [c].
Proof.
  intros Hc. unfold strip_cr. rewrite last_snoc. destruct (Ascii.eqb_spec c "013") as [->|]; [|done].
  exfalso. by apply Hc.
Qed.

Lemma text_fits v : wire_value v -> fits_wire v.
Proof.
  intros ((Hne & _ & He) & Hl & Hb). split; [done|]. split; [unfold kMaxLineLength, kMaxReply in *; lia|].
  destruct v as [|c v _] using rev_ind; [done|]. rewrite reverse_snoc in He. simpl in He.
  apply strip_cr_last. by intros ->.
Qed.

Lemma verb_length line : (length (parse_line (trim line)).1.1 <= length line)%nat.
Proof.
  unfold parse_line. pose proof (length_trim line) as Hl. destruct (next_token_split (trim line)) as (w & E & _).
  destruct (next_token (trim line)) as [v s1]. cbn [fst snd] in E. destruct (next_token s1) as [k r]. cbn [fst].
  unfold to_upper. rewrite length_fmap. rewrite E, length_app in Hl. lia.
Qed.

Lemma refused_fits line why : sane_line line -> command_of line = Refused why -> fits_wire why.
Proof.
  intros [Hn Hl]. pose proof (verb_length line) as Hv. pose proof (parse_line_fields line) as Hf.
  unfold command_of, data_command. destruct (parse_line (trim line)) as [[verb key] rest]. cbn [fst] in Hv.
  destruct Hf as (Hvs & _).
  assert (fits_wire (lit "ERR unknown command '" ++ verb ++ lit "'")) as Hunknown.
  { split; [lines|]. split.
    - unfold blen, kMaxLineLength, kMaxReply in *. rewrite !length_app. lit_lengths. lia.
    - rewrite (assoc_L (++)). by apply strip_cr_last. }
  repeat match goal with |- context [if ?b then _ else _] => destruct b end; intros [= <-]; try done;
    (split; [by_word|by vm_compute]).
Qed.

Lemma answer_fits line m r :
  sane_line line -> wire_map m -> (answer (command_of line) m).1 = Some r -> fits_wire r.
Proof.
  intros Hl Hm E. assert (forall b : bool, fits_wire (if b then lit "(integer) 1" else lit "(integer) 0")) as Hint
    by (intros []; (split; [by_word|by vm_compute])).
  pose proof (refused_fits line) as Hr.
  destruct (command_of line) eqn:Ec; simpl in E; simplify_eq; try (split; [by_word|by vm_compute]).
  - destruct (m !! k) as [v|] eqn:Ek; [by apply text_fits, (Hm k)|split; [by_word|by vm_compute]].
  - unfold present. cbn [dict_lookup map_dictionary]. destruct (m !! k); [apply (Hint true)|apply (Hint false)].
  - unfold present. cbn [dict_lookup map_dictionary]. destruct (m !! k); [apply (Hint true)|apply (Hint false)].
  - by apply Hr.
Qed.

Lemma answer_wire line m : sane_line line -> wire_map m -> wire_map (answer (command_of line) m).2.
Proof.
  intros [Hn Hl] Hm. pose proof (command_of_fields line) as Hf. destruct (command_of line); simpl; try done.
  - apply map_Forall_insert_2; [|done]. destruct Hf as (_ & Ht & Hin & _ & Hv). split; [done|]. split; [|lia].
    intros Hc. by apply Hn, Hin.
  - by apply map_Forall_delete.
Qed.

(** ** A line on its way *)

(** A line that does not arrive whole is not executed, and nothing is answered. *)
Lemma partial_line_ignored {L R} `{WriteAhead L} `{ReplicaSink R} `{UnorderedIter} e0 envs (s : Server L R) chunks :
  one_line (mjoin chunks) -> blen (mjoin chunks) <= kMaxLineLength ->
  let c := handle_client e0 chunks (new_conn envs s) in c_sent c = [] /\ c_server c = s.
Proof.
  intros Hn Hl. cbv zeta.
  assert (lines_fit ([] ++ mjoin chunks)) as Hfit.
  { intros q [r Hq]. simpl in Hq. unfold one_line in Hn. rewrite Hq in Hn, Hl. rewrite tail_after_none by set_solver.
    unfold blen in *. rewrite length_app in Hl. lia. }
  rewrite (handle_client_feed e0 chunks _ []) by done.
  destruct (feed_all e0 chunks (new_conn envs s) eq_refl) as (-> & _ & -> & _).
  unfold feed, drain_all. cbn [c_closed new_conn append_chunk with_inbuf inbuf app].
  destruct (length (mjoin chunks)); [done|]. cbn [drain c_closed append_chunk with_inbuf new_conn inbuf app].
  by rewrite (proj2 (find_line_None _)).
Qed.

(** Nor is a reply that does not arrive whole taken for one. *)
Lemma recv_line_partial mr chunks : newline ∉ mjoin chunks -> recv_line mr chunks [] = None.
Proof.
  intros Hn. destruct (recv_line mr chunks []) as [l|] eqn:E; [|done].
  apply recv_line_complete in E as (a & b & E & _). rewrite E in Hn. set_solver.
Qed.

(** A prefix of a line and its newline is all of it or has no newline. *)
Lemma line_prefix q (line : bytes) :
  newline ∉ line -> q `prefix_of` line ++ [newline] -> q = line ++ [newline] \/ (newline ∉ q /\ blen q <= blen line).
Proof.
  intros Hn [r E]. destruct r as [|c r _] using rev_ind; [left; by rewrite app_nil_r in E|right].
  rewrite (assoc_L (++)) in E. apply app_inj_tail in E as [-> _]. unfold blen. rewrite length_app. split; [set_solver|lia].
Qed.

(** ** The cluster *)

Section cluster.
Context {L R : Type} `{WriteAheadLaws L} `{!ReliableLog L} `{ReplicaSink R} `{UnorderedIter}.
Context (e0 : line_env).
Abbreviation server := (Server L R).

Record cluster := mkCluster { front : server; shards : list server }.

(** One connection from the router to a shard: whether it is established, the
    results of the router's [send]s, the chunks the shard receives, those the
    router receives, and the shard's environment. *)
Record hop := mkHop {
  h_up : bool;
  h_sends : list Z;
  h_in : list bytes;
  h_out : list bytes;
  h_env : line_env;
}.

Definition shard_side (h : hop) (s : server) : conn L R := handle_client e0 (h_in h) (new_conn [h_env h] s).

(** What arrives at either end is a prefix of what the other sent. *)
Definition hop_ok (line : bytes) (s : server) (h : hop) : Prop :=
  mjoin (h_in h) `prefix_of` (send_all (line ++ [newline]) (h_sends h) []).2 /\
  mjoin (h_out h) `prefix_of` mjoin (c_sent (shard_side h s)).

Definition lossless (line : bytes) (s : server) (h : hop) : bool :=
  h_up h && (send_all (line ++ [newline]) (h_sends h) []).1 && e_send (h_env h) &&
  (mjoin (h_in h) =?b line ++ [newline]) && (mjoin (h_out h) =?b mjoin (c_sent (shard_side h s))).

(** The [i]th shard is reached at the [i]th address of the list, and the router
    connects nowhere else for this line. *)
Definition connected (addrs : list bytes) (i : nat) (h : hop) : shard_net := fun host port =>
  if h_up h && ((addrs !! i ≫= split_host_port) =?b Some (host, port)) then Some (h_sends h, h_out h) else None.

Definition with_net (net : shard_net) (e : line_env) : line_env :=
  mkEnv (e_now e) (e_ns e) (e_uptime e) net (e_sending e).

(** A line sent to the router: the reply and the cluster after it. *)
Definition cluster_step (e : line_env) (h : hop) (line : bytes) (c : cluster) : bytes * cluster :=
  let addrs := default [] (router_ (front c)) in
  let i := shard_for addrs (verb_and_key line).2 in
  let v := serve_line (with_net (connected addrs i h) e) line false (front c) in
  let shards' := if routed line && h_up h then alter (fun s => c_server (shard_side h s)) i (shards c) else shards c in
  (sv_reply v, mkCluster (sv_server v) shards').

(** The data of the cluster: every key is looked up in its shard. *)
Definition glued (addrs : list bytes) (ms : list (gmap bytes bytes)) (m : gmap bytes bytes) : Prop :=
  forall k, m !! k = ms !! shard_for addrs k ≫= (.!! k).

Definition cluster_holds (c : cluster) (m : gmap bytes bytes) : Prop :=
  exists addrs ms,
    router_ (front c) = Some addrs /\ addrs <> [] /\ Forall (fun a => is_Some (split_host_port a)) addrs /\
    length (shards c) = length addrs /\ Forall2 node_holds (shards c) ms /\ Forall wire_map ms /\ glued addrs ms m.

Lemma glued_update addrs ms m k mi mi' m' :
  glued addrs ms m -> ms !! shard_for addrs k = Some mi ->
  (forall k', k' <> k -> mi' !! k' = mi !! k') -> (forall k', k' <> k -> m' !! k' = m !! k') -> m' !! k = mi' !! k ->
  glued addrs (<[shard_for addrs k := mi']> ms) m'.
Proof.
  intros Hg Hi Hmi Hm Hk k'. pose proof (lookup_lt_Some _ _ _ Hi) as Hlt.
  destruct (decide (shard_for addrs k' = shard_for addrs k)) as [E|E].
  - rewrite E, list_lookup_insert_eq by done. simpl. destruct (decide (k' = k)) as [->|Hne]; [done|].
    rewrite Hm, Hmi by done. by rewrite (Hg k'), E, Hi.
  - rewrite list_lookup_insert_ne by done. rewrite Hm by congruence. apply Hg.
Qed.

(** What a shard does with the line, and what it answers. *)
Lemma shard_side_cases line (s : server) mi h :
  sane_line line -> command_of line <> Info -> node_holds s mi -> hop_ok line s h ->
  (mjoin (h_in h) <> line ++ [newline] /\ c_sent (shard_side h s) = [] /\ c_server (shard_side h s) = s) \/
  (mjoin (h_in h) = line ++ [newline] /\
   (exists r, (answer (command_of line) mi).1 = Some r /\
      c_sent (shard_side h s) = [(transmit (e_sending (h_env h)) (r ++ [newline])).2]) /\
   node_holds (c_server (shard_side h s)) (answer (command_of line) mi).2).
Proof.
  intros [Hn Hl] Hi Hs [Hin _]. unfold shard_side.
  destruct (send_all_prefix (line ++ [newline]) (h_sends h) []) as (rest & E & _).
  assert (mjoin (h_in h) `prefix_of` line ++ [newline]) as Hp by (etrans; [exact Hin|]; by exists rest).
  apply line_prefix in Hp as [Hall|[Hnone Hb]]; [right|left|done].
  - destruct (one_line_served e0 [h_env h] s line (h_in h) Hn Hl Hall) as [Hsent Hserver].
    cbn [next_env fst] in *. rewrite Hsent, Hserver.
    destruct (serve_line_answer (h_env h) line s mi Hs) as (Hr & _ & _ & Hs');
      [unfold kMaxLineLength, kMaxField in *; lia|].
    split; [done|]. split; [|done]. rewrite Hr. unfold node_reply.
    destruct (answer (command_of line) mi).1 as [r|] eqn:Ea; [by exists r|by destruct (command_of line)].
  - split; [|apply partial_line_ignored; [done|]; lia]. intros E2. rewrite E2 in Hnone. destruct Hnone.
    apply elem_of_app. right. by left.
Qed.

(** What the router makes of the connection. *)
Lemma forward_connected addrs i h line a hp :
  addrs !! i = Some a -> split_host_port a = Some hp ->
  let r := router_forward (connected addrs i h) addrs i line in
  (h_up h = true /\ (send_all (line ++ [newline]) (h_sends h) []).1 = true /\ recv_line kMaxReply (h_out h) [] = Some r)
  \/ (starts_with (lit "ERR ROUTER") r = true /\
      (h_up h = false \/ (send_all (line ++ [newline]) (h_sends h) []).1 = false \/ recv_line kMaxReply (h_out h) [] = None)).
Proof.
  intros Ha Hs. destruct hp as [host port]. cbv zeta. unfold router_forward, router_split_host_port, connected. rewrite Ha, Hs. cbn [mbind option_bind].
  rewrite Hs, (bool_decide_eq_true_2 (Some _ = Some _)), andb_true_r by done. destruct (h_up h); [|right; split; [by vm_compute|by left]].
  destruct (send_all (line ++ [newline]) (h_sends h) []) as [[] acc]; [|right; split; [by vm_compute|auto]].
  destruct (recv_line kMaxReply (h_out h) []) as [r|]; [by left|right; split; [by vm_compute|auto]].
Qed.

(** What the router reads of what the shard has sent. *)
Lemma transmitted_prefix o r : mjoin [(transmit o (r ++ [newline])).2] `prefix_of` r ++ [newline].
Proof.
  replace (mjoin [(transmit o (r ++ [newline])).2]) with (transmit o (r ++ [newline])).2 by (unfold mjoin; simpl; by rewrite app_nil_r).
  destruct o; [done|]. apply prefix_take.
Qed.

Lemma reply_of_sent r sent out x :
  fits_wire r -> mjoin sent `prefix_of` r ++ [newline] -> mjoin out `prefix_of` mjoin sent ->
  recv_line kMaxReply out [] = Some x -> x = r.
Proof.
  intros (Hn & Hb & Hcr) Hs Ho Hx. assert (mjoin out `prefix_of` r ++ [newline]) as Hp by (by etrans).
  apply line_prefix in Hp as [E|[E _]]; [|by rewrite recv_line_partial in Hx|done].
  rewrite (recv_line_delivered _ _ r []), Hcr in Hx by done. congruence.
Qed.

(** A reply the router hands on is the shard's, to a line it executed. *)
Lemma forwarded_reply line (s : server) mi h r :
  sane_line line -> command_of line <> Info -> node_holds s mi -> wire_map mi -> hop_ok line s h ->
  recv_line kMaxReply (h_out h) [] = Some r ->
  (answer (command_of line) mi).1 = Some r /\ node_holds (c_server (shard_side h s)) (answer (command_of line) mi).2.
Proof.
  intros Hl Hi Hs Hm Hh Hr. pose proof Hh as [_ Hout].
  destruct (shard_side_cases line s mi h Hl Hi Hs Hh) as [(_ & E & _)|(_ & (rs & Ea & Es) & Hs')].
  - rewrite E in Hout. apply prefix_nil_inv in Hout. by rewrite recv_line_partial in Hr by (rewrite Hout; set_solver).
  - split; [|done]. rewrite Es in Hout. pose proof (answer_fits line mi rs Hl Hm Ea) as Hfit.
    by rewrite (reply_of_sent rs _ (h_out h) r Hfit (transmitted_prefix _ rs) Hout Hr).
Qed.

(** A lossless connection is one on which the reply arrives. *)
Lemma lossless_reply line (s : server) mi h :
  sane_line line -> command_of line <> Info -> node_holds s mi -> wire_map mi ->
  lossless line s h = true -> is_Some (recv_line kMaxReply (h_out h) []).
Proof.
  intros [Hn Hl] Hi Hs Hm E. unfold lossless in E. bool_simpl.
  match goal with H : mjoin (h_in h) = _ |- _ => destruct (one_line_served e0 [h_env h] s line (h_in h) Hn Hl H) as [Hsent _] end.
  cbn [next_env fst] in Hsent.
  assert (e_send (h_env h) = true) as He by done. rewrite (e_send_all _ He) in Hsent. cbn [transmit snd] in Hsent.
  destruct (serve_line_answer (h_env h) line s mi Hs) as (Hr & _); [unfold kMaxLineLength, kMaxField in *; lia|].
  destruct (answer (command_of line) mi).1 as [r|] eqn:Ea; [|by destruct (command_of line)].
  unfold node_reply in Hr. rewrite Ea in Hr. cbn [default] in Hr. rewrite Hr in Hsent.
  destruct (answer_fits line mi r ltac:(done) Hm Ea) as (Hrn & Hb & _).
  rewrite (recv_line_delivered _ _ r []); [done|done|done|].
  match goal with H : mjoin (h_out h) = _ |- _ => rewrite H end. unfold shard_side. rewrite Hsent.
  unfold mjoin. simpl. by rewrite app_nil_r.
Qed.

Lemma routed_not_info line : routed line = true -> command_of line <> Info.
Proof.
  intros Hr Hi. apply command_info in Hi. unfold routed in Hr. destruct (verb_and_key line) as [verb key].
  simpl in Hi. by subst verb.
Qed.

(** One shard's answer is the answer of the whole. *)
Lemma glued_answer addrs ms m line mi :
  glued addrs ms m -> ms !! shard_for addrs (verb_and_key line).2 = Some mi ->
  (answer (command_of line) m).1 = (answer (command_of line) mi).1 /\
  glued addrs (<[shard_for addrs (verb_and_key line).2 := (answer (command_of line) mi).2]> ms) (answer (command_of line) m).2.
Proof.
  intros Hg Hi. destruct (command_key (command_of line)) as [k|] eqn:Ek.
  - apply command_key_routed in Ek as Hk. rewrite Hk in *.
    assert (m !! k = mi !! k) as Em by (by rewrite (Hg k), Hi).
    destruct (answer_local _ k m mi Ek Em) as [E1 E2]. split; [done|].
    apply (glued_update addrs ms m k mi); [done|done|intros k' Hne; by apply answer_others with k..|done].
  - destruct (answer_keyless _ m mi Ek) as [E1 E2]. destruct (answer_keyless _ mi m Ek) as [_ E3].
    rewrite E2, E3. split; [done|]. by rewrite list_insert_id.
Qed.

(** The shard a line is for. *)
Definition target (c : cluster) (line : bytes) : nat := shard_for (default [] (router_ (front c))) (verb_and_key line).2.

Definition arrives (c : cluster) (line : bytes) (h : hop) : bool :=
  if shards c !! target c line is Some s then lossless line s h else false.

Definition hops_ok (c : cluster) (line : bytes) (h : hop) : Prop :=
  forall s, shards c !! target c line = Some s -> hop_ok line s h.

(** The shard of a line exists, and the data of the cluster after a change to it. *)
Lemma cluster_target c m line :
  cluster_holds c m ->
  exists addrs a hp s mi,
    router_ (front c) = Some addrs /\ addrs !! target c line = Some a /\ split_host_port a = Some hp /\
    shards c !! target c line = Some s /\ node_holds s mi /\ wire_map mi /\
    (answer (command_of line) m).1 = (answer (command_of line) mi).1 /\
    forall fr s' (done_ : bool), router_ fr = Some addrs ->
      node_holds s' (if done_ then (answer (command_of line) mi).2 else mi) -> sane_line line ->
      cluster_holds (mkCluster fr (<[target c line := s']> (shards c))) (if done_ then (answer (command_of line) m).2 else m).
Proof.
  intros (addrs & ms & Hr & Hne & Hsp & Hlen & Hn & Hw & Hg). unfold target. rewrite Hr. cbn [from_option id].
  set (i := shard_for addrs (verb_and_key line).2).
  assert (i < length addrs)%nat as Hi by by apply shard_for_total.
  destruct (lookup_lt_is_Some_2 addrs i Hi) as [a Ha]. pose proof (Forall_lookup_1 _ _ _ _ Hsp Ha) as [hp Hhp].
  destruct (lookup_lt_is_Some_2 (shards c) i ltac:(lia)) as [s Hs].
  destruct (Forall2_lookup_l _ _ _ _ _ Hn Hs) as (mi & Hmi & Hnode). pose proof (Forall_lookup_1 _ _ _ _ Hw Hmi) as Hwi.
  destruct (glued_answer addrs ms m line mi Hg Hmi) as [Ea Hg'].
  exists addrs, a, hp, s, mi. do 7 (split; [done|]). intros fr s' done_ Hfr Hs' Hl.
  exists addrs, (<[i := if done_ then (answer (command_of line) mi).2 else mi]> ms). cbn [front shards].
  split; [done|]. split; [done|]. split; [done|]. split; [by rewrite length_insert|].
  split; [by apply Forall2_insert|]. split.
  - apply Forall_insert; [done|]. destruct done_; [by apply answer_wire|done].
  - destruct done_; [exact Hg'|]. by rewrite list_insert_id.
Qed.

(** One line through the router. *)
Lemma cluster_step_spec e h line c m :
  cluster_holds c m -> sane_line line -> routed line = true -> hops_ok c line h ->
  let '(r, c') := cluster_step e h line c in
  ((answer (command_of line) m).1 = Some r /\ cluster_holds c' (answer (command_of line) m).2) \/
  (arrives c line h = false /\ starts_with (lit "ERR ROUTER") r = true /\
   (cluster_holds c' m \/ cluster_holds c' (answer (command_of line) m).2)).
Proof.
  intros Hc Hl Hro Hh. pose proof (routed_not_info line Hro) as Hi.
  destruct (cluster_target c m line Hc) as (addrs & a & hp & s & mi & Hr & Ha & Hsp & Hs & Hn & Hw & Ea & Hnext).
  specialize (Hh s Hs). unfold cluster_step. rewrite Hro, Hr. cbn [from_option id andb]. cbv zeta.
  assert (shard_for addrs (verb_and_key line).2 = target c line) as Et by (unfold target; by rewrite Hr). rewrite Et.
  set (e' := with_net _ e). destruct (routed_serve e' line (front c) addrs Hr) as (_ & Hfr & Hrep).
  rewrite Hro, Et in Hrep. set (v := serve_line e' line false (front c)) in *. rewrite Hrep. unfold e'. cbn [e_net with_net].
  assert (forall f, alter f (target c line) (shards c) = <[target c line := f s]> (shards c)) as Halter
    by (intros f; apply list_eq; intros j; destruct (decide (j = target c line)) as [->|Hne];
        [rewrite list_lookup_alter_eq, Hs, list_lookup_insert_eq by (by eapply lookup_lt_Some)
        |rewrite list_lookup_alter_ne, list_lookup_insert_ne]; done).
  destruct (forward_connected addrs (target c line) h line a hp Ha Hsp) as [(Hup & Hsend & Hrecv)|(Herr & Hwhy)].
  - left. rewrite Hup, Halter. destruct (forwarded_reply line s mi h _ Hl Hi Hn Hw Hh Hrecv) as [Er Hs'].
    split; [by rewrite Ea|]. by apply (Hnext _ _ true).
  - right. split; [|split; [done|]].
    { unfold arrives. rewrite Hs. destruct (lossless line s h) eqn:El; [|done].
      destruct (lossless_reply line s mi h Hl Hi Hn Hw El) as [r Er]. unfold lossless in El.
      destruct Hwhy as [E|[E|E]]; [by rewrite E in El|by rewrite E, andb_false_r in El|congruence]. }
    destruct (h_up h) eqn:Hup.
    + rewrite Halter. destruct (shard_side_cases line s mi h Hl Hi Hn Hh) as [(_ & _ & E)|(_ & _ & Hs')].
      * left. rewrite E. by apply (Hnext _ _ false).
      * right. by apply (Hnext _ _ true).
    + left. rewrite <- (list_insert_id (shards c) (target c line) s) by done. by apply (Hnext _ _ false).
Qed.

(** ** Sessions *)

(** The history a client of the router sees: each line, its reply, and whether
    the network lost nothing of it. *)
Inductive cluster_run : cluster -> list (bytes * bytes * bool) -> cluster -> Prop :=
  | run_end c : cluster_run c [] c
  | run_line c e h line tr c' :
      sane_line line -> hops_ok c line h -> cluster_run (cluster_step e h line c).2 tr c' ->
      cluster_run c ((line, (cluster_step e h line c).1, arrives c line h) :: tr) c'.

(** A map with an unreliable answer: a line the network may lose is executed
    once or not at all, and then the client is told that the router failed. *)
Inductive at_most_once : list (bytes * bytes * bool) -> gmap bytes bytes -> gmap bytes bytes -> Prop :=
  | amo_end m : at_most_once [] m m
  | amo_local line r ok tr m m' :
      routed line = false -> (forall a, router_answer line = Some a -> r = a) ->
      at_most_once tr m m' -> at_most_once ((line, r, ok) :: tr) m m'
  | amo_answered line r ok tr m m' :
      routed line = true -> (answer (command_of line) m).1 = Some r ->
      at_most_once tr (answer (command_of line) m).2 m' -> at_most_once ((line, r, ok) :: tr) m m'
  | amo_not_executed line r tr m m' :
      routed line = true -> starts_with (lit "ERR ROUTER") r = true ->
      at_most_once tr m m' -> at_most_once ((line, r, false) :: tr) m m'
  | amo_executed line r tr m m' :
      routed line = true -> starts_with (lit "ERR ROUTER") r = true ->
      at_most_once tr (answer (command_of line) m).2 m' -> at_most_once ((line, r, false) :: tr) m m'.

Lemma cluster_step_local e h line c m :
  cluster_holds c m -> routed line = false ->
  let '(r, c') := cluster_step e h line c in
  (forall a, router_answer line = Some a -> r = a) /\ cluster_holds c' m.
Proof.
  intros (addrs & ms & Hr & Hrest) Hro. unfold cluster_step. rewrite Hro. cbn [andb].
  set (e' := with_net _ e). destruct (routed_serve e' line (front c) addrs Hr) as (_ & Hfr & Hrep).
  rewrite Hro in Hrep. split; [exact Hrep|]. by exists addrs, ms.
Qed.

(** A router and its shards are one store.  Send any lines to the router of
    standalone nodes; let connections to the shards be refused, break while the
    line is sent or before the reply has arrived, and cut what passes into any
    chunks.  Then the client sees the replies of one map that holds the keys of
    all shards: a line of which the network lost nothing is answered as that map
    answers it; the others are answered so, or with a router error, and then the
    command has been executed once or not at all. *)
Theorem sharded_store_at_most_once c tr c' m :
  cluster_holds c m -> cluster_run c tr c' -> exists m', at_most_once tr m m' /\ cluster_holds c' m'.
Proof.
  intros Hc Hrun. revert m Hc. induction Hrun as [c|c e h line tr c' Hl Hh _ IH]; intros m Hc.
  { exists m. split; [constructor|done]. }
  destruct (routed line) eqn:Hro.
  - pose proof (cluster_step_spec e h line c m Hc Hl Hro Hh) as Hs. destruct (cluster_step e h line c) as [r c1].
    cbn [fst snd] in *. destruct Hs as [[Ha Hc1]|(-> & Herr & [Hc1|Hc1])];
      destruct (IH _ Hc1) as (m' & Hamo & Hm'); exists m'; (split; [|done]);
      [by eapply amo_answered|by eapply amo_not_executed|by eapply amo_executed].
  - pose proof (cluster_step_local e h line c m Hc Hro) as Hs. destruct (cluster_step e h line c) as [r c1].
    destruct Hs as [Ha Hc1]. destruct (IH _ Hc1) as (m' & Hamo & Hm'). exists m'.
    split; [by eapply amo_local|done].
Qed.
End cluster.
Arguments cluster : clear implicits.

(** ** A concrete cluster: two shards, one connection broken after the write *)

#[local] Existing Instance list_iter.

Definition demo_addrs : list bytes := [lit "127.0.0.1:7001"; lit "127.0.0.1:7002"].
Definition demo_router : Server Wal Replicator := mkServer (storage_new 0) None (Some demo_addrs) metrics_new false.
Definition demo_cluster : cluster Wal Replicator := mkCluster demo_router [demo_server; demo_server].

Definition demo_hop (line : bytes) (out : list bytes) : hop := mkHop true [3; 100] [line; [newline]] out demo_env1.

Definition demo_exchanges : list (bytes * list bytes) :=
  [(lit "SET a 1", [lit "O"; lit "K" ++ [newline]]); (lit "SET b 2", []); (lit "GET b", [lit "2" ++ [newline]]);
   (lit "PING", [])].

(** Runs the exchanges, with the shard's side of each from the model. *)
Fixpoint demo_run (xs : list (bytes * list bytes)) (c : cluster Wal Replicator)
  : list (bytes * bytes * bool) * cluster Wal Replicator :=
  match xs with
  | [] => ([], c)
  | (line, out) :: xs' =>
      let h := demo_hop line out in
      let '(r, c1) := cluster_step demo_env1 demo_env1 h line c in
      let '(tr, c') := demo_run xs' c1 in ((line, r, arrives demo_env1 c line h) :: tr, c')
  end.

Fixpoint demo_checked (xs : list (bytes * list bytes)) (c : cluster Wal Replicator) : bool :=
  match xs with
  | [] => true
  | (line, out) :: xs' =>
      let h := demo_hop line out in
      bool_decide (sane_line line) &&
      (if shards c !! target c line is Some s then bool_decide (hop_ok demo_env1 line s h) else true) &&
      demo_checked xs' (cluster_step demo_env1 demo_env1 h line c).2
  end.

Lemma demo_run_ok xs c : demo_checked xs c = true -> cluster_run demo_env1 c (demo_run xs c).1 (demo_run xs c).2.
Proof.
  revert c. induction xs as [|[line out] xs IH]; intros c Hx; cbn [demo_run demo_checked] in *; [constructor|].
  apply andb_true_iff in Hx as [Hx Hrest]. apply andb_true_iff in Hx as [Hl Hh]. specialize (IH _ Hrest).
  set (h := demo_hop line out) in *.
  assert (hops_ok demo_env1 c line h) as Hok by (intros s Hs; rewrite Hs in Hh; by apply bool_decide_eq_true in Hh).
  pose proof (run_line demo_env1 c demo_env1 h line _ _ (bool_decide_eq_true_1 _ Hl) Hok IH) as Hrun.
  revert Hrun. destruct (cluster_step demo_env1 demo_env1 h line c) as [r c1]. cbn [fst snd].
  by destruct (demo_run xs c1).
Qed.

Lemma demo_cluster_holds : cluster_holds demo_cluster ∅.
Proof.
  exists demo_addrs, [∅; ∅]. split; [done|]. split; [done|]. split; [repeat constructor; by_word|].
  split; [done|]. split; [repeat constructor; apply demo_server_holds|].
  split; [do 2 (constructor; [apply map_Forall_empty|]); constructor|]. intros k. rewrite lookup_empty.
  destruct (shard_for demo_addrs k) as [|[|i]]; simpl; by rewrite ?lookup_empty.
Qed.

Lemma sharded_store_at_most_once_witness :
  (demo_run demo_exchanges demo_cluster).1 =
    [(lit "SET a 1", lit "OK", true); (lit "SET b 2", lit "ERR ROUTER: shard 127.0.0.1:7002 request failed", false);
     (lit "GET b", lit "2", true); (lit "PING", lit "PONG", false)] /\
  exists m', at_most_once (demo_run demo_exchanges demo_cluster).1 ∅ m' /\
             cluster_holds (demo_run demo_exchanges demo_cluster).2 m'.
Proof.
  split; [by vm_compute|].
  assert (demo_checked demo_exchanges demo_cluster = true) as Hx by by vm_compute.
  exact (sharded_store_at_most_once (L := Wal) demo_env1 demo_cluster _ _ ∅ demo_cluster_holds (demo_run_ok _ _ Hx)).
Defined.
