(* ===== verification/Concurrent.v ===== *)
(** * Many clients of a sharded store (src/server.cpp, src/router.cpp)

    The router serves each of its clients on a thread of its own: it reads a line,
    exchanges it with the shard over a connection of its own, and answers.  The
    exchanges of different clients overlap, and a shard may execute a line after the
    router has given up on it.  The abstract object is a map whose calls take effect
    at one moment; the theorem is the simulation of the one by the other. *)

From S2P Require Import Prelude Stream Records Interfaces DiskStore Storage StorageCorrect.
From S2P Require Import Wal Replicator Address Net Raft Command Router Metrics Server Standalone Shards.

Local Open Scope Z_scope.

(** ** The abstract object *)

(** What happens to call [n]; a response says whether its exchange lost nothing. *)
Inductive event :=
  | Invoke (n : nat) (line : bytes)
  | Takes_effect (n : nat) (line : bytes)
  | Respond (n : nat) (reply : bytes) (lossless : bool).

(** A call waits for its effect; has had it, with this answer; is over; or has been
    answered with an error and may still have its effect. *)
Inductive call := Waiting (line : bytes) | Effected (line r : bytes) | Over | Lost (line : bytes).

Definition router_error (r : bytes) : Prop := starts_with (lit "ERR ROUTER") r = true.

Inductive atomic_step : gmap nat call * gmap bytes bytes -> event -> gmap nat call * gmap bytes bytes -> Prop :=
  | at_invoke n line calls m :
      calls !! n = None -> atomic_step (calls, m) (Invoke n line) (<[n := Waiting line]> calls, m)
  | at_effect n line r calls m :
      calls !! n = Some (Waiting line) -> (answer (command_of line) m).1 = Some r ->
      atomic_step (calls, m) (Takes_effect n line) (<[n := Effected line r]> calls, (answer (command_of line) m).2)
  | at_late_effect n line calls m :
      calls !! n = Some (Lost line) ->
      atomic_step (calls, m) (Takes_effect n line) (<[n := Over]> calls, (answer (command_of line) m).2)
  | at_reply n line r ok calls m :
      calls !! n = Some (Effected line r) -> atomic_step (calls, m) (Respond n r ok) (<[n := Over]> calls, m)
  | at_error n line r calls m :
      calls !! n = Some (Waiting line) -> router_error r ->
      atomic_step (calls, m) (Respond n r false) (<[n := Lost line]> calls, m)
  | at_error_after n line r r' calls m :
      calls !! n = Some (Effected line r) -> router_error r' ->
      atomic_step (calls, m) (Respond n r' false) (<[n := Over]> calls, m).

Inductive atomic_run (s : gmap nat call * gmap bytes bytes) : list event -> gmap nat call * gmap bytes bytes -> Prop :=
  | atomic_nil : atomic_run s [] s
  | atomic_snoc tr s1 ev s2 : atomic_run s tr s1 -> atomic_step s1 ev s2 -> atomic_run s (tr ++ [ev]) s2.

(** No call takes effect twice. *)
Definition effect_of (n : nat) (ev : event) : bool := if ev is Takes_effect n' _ then Nat.eqb n' n else false.

Definition unaffected (o : option call) : Prop :=
  match o with None | Some (Waiting _) | Some (Lost _) => True | _ => False end.

Lemma atomic_step_effect s ev s' n :
  atomic_step s ev s' ->
  (unaffected (s'.1 !! n) -> unaffected (s.1 !! n)) /\
  (effect_of n ev = true -> unaffected (s.1 !! n) /\ ~ unaffected (s'.1 !! n)).
Proof.
  destruct 1 as [n' line calls m E|n' line r calls m E|n' line calls m E|n' line r ok calls m E
                |n' line r calls m E|n' line r r' calls m E]; cbn [fst effect_of];
    (destruct (decide (n' = n)) as [->|Hne];
     [rewrite lookup_insert_eq, E, ?Nat.eqb_refl|rewrite lookup_insert_ne by done; rewrite ?(proj2 (Nat.eqb_neq n' n) Hne)]);
    cbn; tauto || (split; [done|by intros]).
Qed.

Lemma atomic_once m tr s n :
  atomic_run (∅, m) tr s ->
  (length (List.filter (effect_of n) tr) <= 1)%nat /\ (unaffected (s.1 !! n) -> List.filter (effect_of n) tr = []).
Proof.
  induction 1 as [|tr s1 ev s2 _ [IH1 IH2] Hs]; [cbn; split; [lia|done]|].
  destruct (atomic_step_effect _ _ _ n Hs) as [H1 H2]. rewrite List.filter_app. cbn [List.filter].
  destruct (effect_of n ev); [|rewrite app_nil_r; auto].
  destruct (H2 eq_refl) as [Hu Hn]. by rewrite IH2.
Qed.

(** ** The router, its shards and the calls under way *)

Section concurrent.
Context {L R : Type} `{WriteAheadLaws L} `{!ReliableLog L} `{ReplicaSink R} `{UnorderedIter}.
Context (e0 : line_env).
Abbreviation cluster := (Shards.cluster L R).

(** A call at the router: its line; what the shard has sent back on its connection,
    once the shard has handled it; and whether the client is still waiting. *)
Record op := mkOp { o_line : bytes; o_sent : option (list bytes); o_open : bool }.

Record node := mkNode { n_cluster : cluster; n_ops : gmap nat op }.

(** The exchange loses nothing from the shard to the router. *)
Definition whole (o : op) (h : hop) : bool :=
  h_up h && (send_all (o_line o ++ [newline]) (h_sends h) []).1 &&
  (if o_sent o is Some [x] then (last x =?b Some newline) && (mjoin (h_out h) =?b x) else false).

(** The router's thread ends the exchange and answers. *)
Definition answer_call (e : line_env) (h : hop) (line : bytes) (c : cluster) :=
  serve_line (with_net (connected (default [] (router_ (front c))) (target c line) h) e) line false (front c).

Inductive node_step (x : node) : list event -> node -> Prop :=
  | ns_invoke n line :
      n_ops x !! n = None -> sane_line line -> routed line = true ->
      node_step x [Invoke n line] (mkNode (n_cluster x) (<[n := mkOp line None true]> (n_ops x)))
  | ns_shard n o s h :
      n_ops x !! n = Some o -> o_sent o = None -> shards (n_cluster x) !! target (n_cluster x) (o_line o) = Some s ->
      mjoin (h_in h) `prefix_of` (send_all (o_line o ++ [newline]) (h_sends h) []).2 ->
      node_step x (if mjoin (h_in h) =?b o_line o ++ [newline] then [Takes_effect n (o_line o)] else [])
        (mkNode (mkCluster (front (n_cluster x))
                   (<[target (n_cluster x) (o_line o) := c_server (shard_side e0 h s)]> (shards (n_cluster x))))
           (<[n := mkOp (o_line o) (Some (c_sent (shard_side e0 h s))) (o_open o)]> (n_ops x)))
  | ns_respond n o e h :
      n_ops x !! n = Some o -> o_open o = true ->
      mjoin (h_out h) `prefix_of` mjoin (default [] (o_sent o)) ->
      let v := answer_call e h (o_line o) (n_cluster x) in
      node_step x [Respond n (sv_reply v) (whole o h)]
        (mkNode (mkCluster (sv_server v) (shards (n_cluster x))) (<[n := mkOp (o_line o) (o_sent o) false]> (n_ops x)))
  | ns_local e line :
      routed line = false ->
      node_step x [] (mkNode (mkCluster (sv_server (serve_line e line false (front (n_cluster x)))) (shards (n_cluster x))) (n_ops x)).

Inductive node_run (x : node) : list event -> node -> Prop :=
  | node_nil : node_run x [] x
  | node_snoc tr x1 evs x2 : node_run x tr x1 -> node_step x1 evs x2 -> node_run x (tr ++ evs) x2.

(** ** The simulation *)

(** A call under way and what it stands for. *)
Definition stands_for (o : option op) (k : option call) : Prop :=
  match o with
  | None => k = None
  | Some o =>
      sane_line (o_line o) /\ routed (o_line o) = true /\
      match o_sent o, o_open o with
      | None, true => k = Some (Waiting (o_line o))
      | None, false => k = Some (Lost (o_line o))
      | Some sent, true =>
          (sent = [] /\ k = Some (Waiting (o_line o))) \/
          exists r, k = Some (Effected (o_line o) r) /\ fits_wire r /\ mjoin sent `prefix_of` r ++ [newline]
      | Some _, false => True
      end
  end.

Definition simulated (x : node) (s : gmap nat call * gmap bytes bytes) : Prop :=
  cluster_holds (n_cluster x) s.2 /\ forall n, stands_for (n_ops x !! n) (s.1 !! n).

Lemma stands_insert (ops : gmap nat op) (calls : gmap nat call) n o k :
  (forall n', stands_for (ops !! n') (calls !! n')) -> stands_for (Some o) (Some k) ->
  forall n', stands_for (<[n := o]> ops !! n') (<[n := k]> calls !! n').
Proof.
  intros Hs Ho n'. destruct (decide (n' = n)) as [->|Hne]; [by rewrite !lookup_insert_eq|by rewrite !lookup_insert_ne].
Qed.

Lemma stands_same (ops : gmap nat op) (calls : gmap nat call) n o :
  (forall n', stands_for (ops !! n') (calls !! n')) -> stands_for (Some o) (calls !! n) ->
  forall n', stands_for (<[n := o]> ops !! n') (calls !! n').
Proof. intros Hs Ho n'. destruct (decide (n' = n)) as [->|Hne]; [by rewrite lookup_insert_eq|by rewrite lookup_insert_ne]. Qed.

(** The shard's thread. *)
Lemma shard_simulated n o (x : node) s h calls m :
  n_ops x !! n = Some o -> o_sent o = None -> shards (n_cluster x) !! target (n_cluster x) (o_line o) = Some s ->
  mjoin (h_in h) `prefix_of` (send_all (o_line o ++ [newline]) (h_sends h) []).2 ->
  simulated x (calls, m) ->
  let x' := mkNode (mkCluster (front (n_cluster x))
                      (<[target (n_cluster x) (o_line o) := c_server (shard_side e0 h s)]> (shards (n_cluster x))))
              (<[n := mkOp (o_line o) (Some (c_sent (shard_side e0 h s))) (o_open o)]> (n_ops x)) in
  if mjoin (h_in h) =?b o_line o ++ [newline]
  then exists s', atomic_step (calls, m) (Takes_effect n (o_line o)) s' /\ simulated x' s'
  else simulated x' (calls, m).
Proof.
  intros Hn Ho Hs Hin [Hc Hsim]. cbn [fst snd] in *. pose proof (Hsim n) as Hsn. rewrite Hn in Hsn.
  destruct Hsn as (Hl & Hro & Hk). rewrite Ho in Hk. pose proof (routed_not_info _ Hro) as Hi. cbv zeta.
  destruct (cluster_target (n_cluster x) m (o_line o) Hc) as (addrs & a & hp & s2 & mi & Hr & _ & _ & Hs2 & Hnode & Hw & Ea & Hnext).
  rewrite Hs in Hs2. injection Hs2 as <-.
  assert (hop_ok e0 (o_line o) s (mkHop true (h_sends h) (h_in h) [] (h_env h))) as Hok by (split; [done|apply prefix_nil]).
  pose proof (shard_side_cases e0 (o_line o) s mi _ Hl Hi Hnode Hok) as Hside.
  change (shard_side e0 (mkHop true (h_sends h) (h_in h) [] (h_env h)) s) with (shard_side e0 h s) in Hside. cbn [h_in h_env] in Hside.
  destruct (decide (mjoin (h_in h) = o_line o ++ [newline])) as [E|E].
  - rewrite bool_decide_eq_true_2 by done. destruct Hside as [[? _]|(_ & (r & Er & Esent) & Hs')]; [done|].
    assert (fits_wire r) as Hfit by (by eapply answer_fits). rewrite <- Ea in Er.
    assert (cluster_holds (mkCluster (front (n_cluster x))
      (<[target (n_cluster x) (o_line o) := c_server (shard_side e0 h s)]> (shards (n_cluster x)))) (answer (command_of (o_line o)) m).2)
      as Hc' by (by apply (Hnext _ _ true)).
    destruct (o_open o) eqn:Eo.
    + eexists. split; [by eapply at_effect|]. split; [done|]. cbn [fst n_ops]. apply stands_insert; [done|].
      split; [done|]. split; [done|]. cbn. right. exists r. split; [done|]. split; [done|]. rewrite Esent. apply transmitted_prefix.
    + eexists. split; [by eapply at_late_effect|]. split; [done|]. cbn [fst n_ops]. by apply stands_insert.
  - rewrite bool_decide_eq_false_2 by done. destruct Hside as [(_ & E1 & E2)|(E1 & _)]; [|done]. split.
    + cbn [snd n_cluster]. rewrite E2. by apply (Hnext _ _ false).
    + cbn [fst n_ops]. apply stands_same; [done|]. split; [done|]. split; [done|]. cbn. rewrite E1.
      destruct (o_open o); [by left|done].
Qed.

(** The router's thread. *)
Lemma respond_simulated n o (x : node) e h calls m :
  n_ops x !! n = Some o -> o_open o = true -> mjoin (h_out h) `prefix_of` mjoin (default [] (o_sent o)) ->
  simulated x (calls, m) ->
  let v := answer_call e h (o_line o) (n_cluster x) in
  exists s', atomic_step (calls, m) (Respond n (sv_reply v) (whole o h)) s' /\
    simulated (mkNode (mkCluster (sv_server v) (shards (n_cluster x))) (<[n := mkOp (o_line o) (o_sent o) false]> (n_ops x))) s'.
Proof.
  intros Hn Ho Hout [Hc Hsim]. cbn [fst snd] in *. pose proof (Hsim n) as Hsn. rewrite Hn in Hsn.
  destruct Hsn as (Hl & Hro & Hk). rewrite Ho in Hk. cbv zeta.
  destruct (cluster_target (n_cluster x) m (o_line o) Hc) as (addrs & a & hp & s & mi & Hr & Ha & Hsp & Hs & Hnode & _ & _ & Hnext).
  assert (shard_for addrs (verb_and_key (o_line o)).2 = target (n_cluster x) (o_line o)) as Et by (unfold target; by rewrite Hr).
  unfold answer_call. rewrite Hr. cbn [default]. set (e' := with_net _ e).
  destruct (routed_serve e' (o_line o) (front (n_cluster x)) addrs Hr) as (_ & Hfr & Hrep). rewrite Hro, Et in Hrep.
  set (v := serve_line e' (o_line o) false (front (n_cluster x))) in *. rewrite Hrep. unfold e'. cbn [e_net with_net].
  assert (cluster_holds (mkCluster (sv_server v) (shards (n_cluster x))) m) as Hc'.
  { rewrite <- (list_insert_id (shards (n_cluster x)) (target (n_cluster x) (o_line o)) s) by done. by apply (Hnext _ _ false). }
  assert (forall k, (o_sent o = None -> k = Lost (o_line o)) -> forall n', stands_for (<[n := mkOp (o_line o) (o_sent o) false]> (n_ops x) !! n')
    (<[n := k]> calls !! n')) as Hnew.
  { intros k Hlost. apply stands_insert; [done|]. split; [done|]. split; [done|]. cbn.
    destruct (o_sent o); [done|]. by rewrite Hlost. }
  destruct (forward_connected addrs (target (n_cluster x) (o_line o)) h (o_line o) a hp Ha Hsp) as [(Hup & Hsend & Hrecv)|(Herr & Hwhy)];
    set (r := router_forward _ addrs _ (o_line o)) in *.
  - destruct (o_sent o) as [sent|].
    + destruct Hk as [[-> _]|(r0 & Hk & Hfit & Hsent)].
      * apply prefix_nil_inv in Hout. by rewrite recv_line_partial in Hrecv by (rewrite Hout; set_solver).
      * rewrite (reply_of_sent r0 sent (h_out h) r Hfit Hsent Hout Hrecv).
        eexists. split; [by eapply at_reply|]. split; [done|]. by apply Hnew.
    + apply prefix_nil_inv in Hout. by rewrite recv_line_partial in Hrecv by (rewrite Hout; set_solver).
  - assert (whole o h = false) as ->.
    { unfold whole. destruct Hwhy as [->|[->|Hnone]]; [done|by rewrite andb_false_r|].
      destruct (o_sent o) as [[|y [|]]|]; rewrite ?andb_false_r; try done.
      destruct Hk as [[? _]|(r0 & _ & (Hnl & Hb & _) & Hpre)]; [done|].
      destruct (decide (last y = Some newline)) as [Hlast|]; [|by rewrite bool_decide_eq_false_2, andb_false_r by done].
      rewrite (bool_decide_eq_false_2 (mjoin (h_out h) = y)), !andb_false_r; [done|]. intros E.
      replace (mjoin [y]) with y in Hpre by (unfold mjoin; simpl; by rewrite app_nil_r).
      apply line_prefix in Hpre as [->|[Hny _]]; [|destruct Hny; by apply last_Some_elem_of|done].
      rewrite (recv_line_delivered _ _ r0 []) in Hnone by done. done. }
    assert (calls !! n = Some (Waiting (o_line o)) \/ (exists r0, calls !! n = Some (Effected (o_line o) r0)) /\ o_sent o <> None)
      as [Hw|[[r0 He] Hne]].
    { destruct (o_sent o) as [sent|]; [|by left]. destruct Hk as [[_ ?]|(r0 & ? & _)]; [by left|]. right. split; [by exists r0|done]. }
    + eexists. split; [by eapply at_error|]. split; [done|]. by apply Hnew.
    + eexists. split; [by eapply at_error_after|]. split; [done|]. by apply Hnew.
Qed.

Lemma local_simulated (x : node) e line s :
  routed line = false -> simulated x s ->
  simulated (mkNode (mkCluster (sv_server (serve_line e line false (front (n_cluster x)))) (shards (n_cluster x))) (n_ops x)) s.
Proof.
  intros Hro [(addrs & ms & Hr & Hrest) Hsim]. split; [|done]. exists addrs, ms. cbn [n_cluster front shards].
  split; [|done]. by destruct (routed_serve e line (front (n_cluster x)) addrs Hr) as (_ & ? & _).
Qed.

Lemma step_simulated (x x' : node) evs s :
  node_step x evs x' -> simulated x s -> exists s', atomic_run s evs s' /\ simulated x' s'.
Proof.
  intros Hs Hsim. destruct s as [calls m].
  assert (forall ev s', atomic_step (calls, m) ev s' -> atomic_run (calls, m) [ev] s') as Hone
    by (intros ev s' Hev; apply (atomic_snoc _ [] _ _ _ (atomic_nil _) Hev)).
  destruct Hs as [n line Hn Hl Hro|n o s h Hn Ho Hsh Hin|n o e h Hn Ho Hout|e line Hro].
  - eexists. split; [apply Hone, at_invoke|].
    + destruct Hsim as [_ Hsim]. specialize (Hsim n). by rewrite Hn in Hsim.
    + destruct Hsim as [Hc Hsim]. split; [done|]. cbn [fst n_ops]. by apply stands_insert.
  - pose proof (shard_simulated n o x s h calls m Hn Ho Hsh Hin Hsim) as Hx. cbv zeta in Hx.
    destruct (mjoin (h_in h) =?b o_line o ++ [newline]).
    + destruct Hx as (s' & Hev & Hx). exists s'. split; [by apply Hone|done].
    + exists (calls, m). split; [constructor|done].
  - destruct (respond_simulated n o x e h calls m Hn Ho Hout Hsim) as (s' & Hev & Hx). exists s'. split; [by apply Hone|done].
  - exists (calls, m). split; [constructor|by apply local_simulated].
Qed.

Lemma atomic_run_trans s tr s1 tr' s2 : atomic_run s tr s1 -> atomic_run s1 tr' s2 -> atomic_run s (tr ++ tr') s2.
Proof.
  intros Hrun. induction 1 as [|tr' s2 ev s3 _ IH Hs]; [by rewrite app_nil_r|]. rewrite (assoc_L (++)). by econstructor.
Qed.

End concurrent.

(** ** A concrete run: overlapping writes, one of them given up and executed late *)

#[local] Existing Instance list_iter.
Abbreviation demo_node := (node (L := Wal) (R := Replicator)).

Inductive move := MInvoke (n : nat) (line : bytes) | MShard (n : nat) | MRespond (n : nat) (up : bool) (out : list bytes).

(** The step a move asks for, if it is one. *)
Definition make (mv : move) (x : demo_node) : option (list event * demo_node) :=
  match mv with
  | MInvoke n line =>
      if (n_ops x !! n =?b None) && bool_decide (sane_line line) && routed line
      then Some ([Invoke n line], mkNode (n_cluster x) (<[n := mkOp line None true]> (n_ops x)))
      else None
  | MShard n =>
      o ← n_ops x !! n;
      s ← shards (n_cluster x) !! target (n_cluster x) (o_line o);
      let h := demo_hop (o_line o) [] in
      if (o_sent o =?b None) && bool_decide (mjoin (h_in h) `prefix_of` (send_all (o_line o ++ [newline]) (h_sends h) []).2)
      then Some (if mjoin (h_in h) =?b o_line o ++ [newline] then [Takes_effect n (o_line o)] else [],
        mkNode (mkCluster (front (n_cluster x))
                  (<[target (n_cluster x) (o_line o) := c_server (shard_side demo_env1 h s)]> (shards (n_cluster x))))
          (<[n := mkOp (o_line o) (Some (c_sent (shard_side demo_env1 h s))) (o_open o)]> (n_ops x)))
      else None
  | MRespond n up out =>
      o ← n_ops x !! n;
      let h := mkHop up [100] [] out demo_env1 in
      let v := answer_call demo_env1 h (o_line o) (n_cluster x) in
      if o_open o && bool_decide (mjoin (h_out h) `prefix_of` mjoin (default [] (o_sent o)))
      then Some ([Respond n (sv_reply v) (whole o h)],
        mkNode (mkCluster (sv_server v) (shards (n_cluster x))) (<[n := mkOp (o_line o) (o_sent o) false]> (n_ops x)))
      else None
  end.

Lemma make_step mv x evs x' : make mv x = Some (evs, x') -> node_step demo_env1 x evs x'.
Proof.
  destruct mv as [n line|n|n up out]; cbn [make].
  - destruct (n_ops x !! n =?b None) eqn:E1; [|done]. destruct (bool_decide (sane_line line)) eqn:E2; [|done].
    destruct (routed line) eqn:E3; [|done]. intros [= <- <-]. bool_simpl. by constructor.
  - destruct (n_ops x !! n) as [o|] eqn:En; [|done]. cbn [mbind option_bind].
    destruct (shards (n_cluster x) !! _) as [s|] eqn:Es; [|done]. cbn [mbind option_bind]. cbv zeta.
    generalize (demo_hop (o_line o) []). intros h. destruct (o_sent o =?b None) eqn:E1; [|done]. cbn [andb].
    destruct (bool_decide (_ `prefix_of` _)) eqn:E2; [|done]. intros [= <- <-].
    apply bool_decide_eq_true in E1, E2. by apply ns_shard.
  - destruct (n_ops x !! n) as [o|] eqn:En; [|done]. cbn [mbind option_bind]. cbv zeta.
    generalize (mkHop up [100] [] out demo_env1). intros h. destruct (o_open o) eqn:E1; [|done]. cbn [andb].
    destruct (bool_decide (_ `prefix_of` _)) eqn:E2; [|done]. intros [= <- <-]. apply bool_decide_eq_true in E2.
    by apply ns_respond.
Qed.

Fixpoint make_all (mvs : list move) (tr : list event) (x : demo_node) : option (list event * demo_node) :=
  match mvs with
  | [] => Some (tr, x)
  | mv :: mvs' => '(evs, x') ← make mv x; make_all mvs' (tr ++ evs) x'
  end.

Lemma make_all_run mvs x0 tr x tr' x' :
  node_run demo_env1 x0 tr x -> make_all mvs tr x = Some (tr', x') -> node_run demo_env1 x0 tr' x'.
Proof.
  revert tr x. induction mvs as [|mv mvs IH]; intros tr x Hr; cbn; [by intros [= <- <-]|].
  destruct (make mv x) as [[evs x1]|] eqn:E; [|done]. cbn. apply IH. eapply node_snoc; [done|by apply (make_step mv)].
Qed.

Definition demo_moves : list move :=
  [MInvoke 0 (lit "SET a 1"); MInvoke 1 (lit "SET b 2"); MRespond 1 false []; MInvoke 2 (lit "GET a"); MShard 0; MShard 2;
   MShard 1; MRespond 2 true [lit "1"; [newline]]; MRespond 0 true [lit "OK" ++ [newline]]].

Definition demo_outcome : list event * demo_node :=
  default ([], mkNode demo_cluster ∅) (make_all demo_moves [] (mkNode demo_cluster ∅)).

