(* ===== verification/Web.v ===== *)
(** * The browser gateway (src/web.cpp)

    A small HTTP server: it reads one request, bridges POST /cmd to one line of
    the store's protocol, and answers with JSON.  [recv] delivers the chunks of
    a list until the peer closes, times out or fails; the store is whatever
    accepts the gateway's bytes and answers with some chunks. *)

From S2P Require Import Prelude Stream Records Interfaces DiskStore Storage Wal Replicator.
From S2P Require Import Net Command Metrics Server.

Local Open Scope Z_scope.

Definition kMaxRequest : Z := 1048576.
Definition kMaxWebReply : Z := 256 * 1024.

Definition cr : ascii := "013".
Definition quote : ascii := "034".
Definition backslash : ascii := "092".

(** ** Headers *)

Definition lower (c : ascii) : ascii :=
  if (65 <=? code c) && (code c <=? 90) then chr (code c - 65 + 97) else c.

Definition ascii_lower (s : bytes) : bytes := map lower s.

(** The lines [std::getline] delivers from a string stream. *)
Fixpoint getlines (s line : bytes) : list bytes :=
  match s with
  | [] => if line =?b [] then [] else [line]
  | c :: s' => if Ascii.eqb c newline then line :: getlines s' [] else getlines s' (line ++ [c])
  end.

Definition split_colon (line : bytes) : option (bytes * bytes) :=
  let '(name, r) := span (fun c => negb (Ascii.eqb c ":")) line in
  match r with [] => None | _ :: value => Some (name, value) end.

Fixpoint content_length_of (lines : list bytes) : Z :=
  match lines with
  | [] => 0
  | l :: lines' =>
      match split_colon (strip_cr l) with
      | None => content_length_of lines'
      | Some (name, value) =>
          if ascii_lower name =?b lit "content-length" then
            match stoll value with
            | Some (v, _) => if 0 <? v then v else 0
            | None => 0
            end
          else content_length_of lines'
      end
  end.

Definition parse_content_length (headers : bytes) : Z := content_length_of (getlines headers []).

(** ** The command, and the answer *)

Definition eol (c : ascii) : bool := Ascii.eqb c cr || Ascii.eqb c newline.
Definition blank (c : ascii) : bool := Ascii.eqb c " " || Ascii.eqb c "009".

Definition first_line (s : bytes) : bytes :=
  let out := (span (fun c => negb (eol c)) s).1 in
  reverse (drop_while blank (reverse (drop_while blank out))).

Definition hex_digit (d : Z) : ascii := if d <? 10 then chr (48 + d) else chr (97 + (d - 10)).

Definition escape_char (c : ascii) : bytes :=
  if Ascii.eqb c quote then [backslash; quote]
  else if Ascii.eqb c backslash then [backslash; backslash]
  else if Ascii.eqb c newline then backslash :: lit "n"
  else if Ascii.eqb c cr then backslash :: lit "r"
  else if Ascii.eqb c "009" then backslash :: lit "t"
  else if code c <? 32 then
    backslash :: lit "u00" ++ [hex_digit (Z.land (Z.shiftr (code c) 4) 15); hex_digit (Z.land (code c) 15)]
  else [c].

Definition json_escape (s : bytes) : bytes := mjoin (map escape_char s).

Definition http_response (status ctype body : bytes) : bytes :=
  lit "HTTP/1.1 " ++ status ++ crlf ++
  lit "Content-Type: " ++ ctype ++ crlf ++
  lit "Content-Length: " ++ decimal (blen body) ++ crlf ++
  lit "Access-Control-Allow-Origin: *" ++ crlf ++
  lit "Access-Control-Allow-Methods: GET, POST, OPTIONS" ++ crlf ++
  lit "Cache-Control: no-store" ++ crlf ++
  lit "Connection: close" ++ crlf ++ crlf ++
  body.

(** The JSON bodies, [ok] and [error]. *)
Definition json_reply (reply : bytes) : bytes :=
  [ "{"%char; quote ] ++ lit "ok" ++ [quote] ++ lit ":true," ++ [quote] ++ lit "reply" ++
  [quote; ":"%char; quote] ++ json_escape reply ++ [quote; "}"%char].

Definition json_error (err : bytes) : bytes :=
  [ "{"%char; quote ] ++ lit "ok" ++ [quote] ++ lit ":false," ++ [quote] ++ lit "error" ++
  [quote; ":"%char; quote] ++ err ++ [quote; "}"%char].

(** ** The gateway *)

Record WebGateway := mkGateway {
  redon_host_ : bytes;
  redon_port_ : Z;
  kIndexPage : bytes;     (* the page served at /, whose text plays no part *)
}.

(** What the store does with the gateway's connection: refuse it, or return from
    the successive [send]s and deliver some chunks. *)
Definition redon := option (list Z * list bytes).

(** The reply, and the bytes the store received. *)
(** [recv_line], the router's with the gateway's limit. *)
Definition web_recv_line (chunks : list bytes) : option bytes := recv_line kMaxWebReply chunks [].

Definition forward_to_redon (r : redon) (line : bytes) : option bytes * bytes :=
  match r with
  | None => (None, [])
  | Some (sends, chunks) =>
      let '(ok, accepted) := send_all (line ++ [newline]) sends [] in
      (if ok then web_recv_line chunks else None, accepted)
  end.

Definition route (g : WebGateway) (r : redon) (method path body : bytes) : bytes * bytes :=
  if method =?b lit "OPTIONS" then (http_response (lit "204 No Content") (lit "text/plain") [], [])
  else if (method =?b lit "GET") && ((path =?b lit "/") || (path =?b lit "/index.html")) then
    (http_response (lit "200 OK") (lit "text/html; charset=utf-8") (kIndexPage g), [])
  else if (method =?b lit "GET") && (path =?b lit "/healthz") then
    (http_response (lit "200 OK") (lit "text/plain") (lit "ok"), [])
  else if (method =?b lit "GET") && (path =?b lit "/favicon.ico") then
    (http_response (lit "204 No Content") (lit "text/plain") [], [])
  else if (method =?b lit "POST") && (path =?b lit "/cmd") then
    let cmd := first_line body in
    if cmd =?b [] then
      (http_response (lit "400 Bad Request") (lit "application/json") (json_error (lit "empty command")), [])
    else
      let '(reply, accepted) := forward_to_redon r cmd in
      match reply with
      | None =>
          let err := lit "Redon server unreachable at " ++ redon_host_ g ++ lit ":" ++
                     to_string (redon_port_ g) in
          (http_response (lit "502 Bad Gateway") (lit "application/json") (json_error (json_escape err)), accepted)
      | Some reply =>
          (http_response (lit "200 OK") (lit "application/json") (json_reply reply), accepted)
      end
  else (http_response (lit "404 Not Found") (lit "text/plain") (lit "not found"), []).

(** [buf.find] of the empty line that ends the headers: what is before and after. *)
Fixpoint find_end (s : bytes) : option (bytes * bytes) :=
  if take 4 s =?b crlf ++ crlf then Some ([], drop 4 s) else
  match s with
  | [] => None
  | c :: s' => match find_end s' with Some (a, b) => Some (c :: a, b) | None => None end
  end.

(** The loop that reads the headers. *)
Inductive head_result := Gone | TooLarge | GotHead (head body : bytes) (chunks : list bytes).

Fixpoint read_head (chunks : list bytes) (buf : bytes) : head_result :=
  match find_end buf with
  | Some (head, body) => GotHead head body chunks
  | None =>
      match chunks with
      | [] => Gone
      | chunk :: chunks' =>
          if kMaxRequest <? blen (buf ++ chunk) then TooLarge else read_head chunks' (buf ++ chunk)
      end
  end.

(** The loop that reads the rest of the body. *)
Fixpoint read_body (content_length : Z) (chunks : list bytes) (body : bytes) : bytes :=
  if blen body <? content_length then
    match chunks with
    | [] => body
    | chunk :: chunks' =>
        if kMaxRequest <? blen (body ++ chunk) then body ++ chunk
        else read_body content_length chunks' (body ++ chunk)
    end
  else body.

(** [rl >> method >> path]: a failed extraction leaves the string empty. *)
Definition request_line (head : bytes) : bytes * bytes :=
  match extract_token head with
  | None => ([], [])
  | Some (method, r) =>
      match extract_token r with
      | None => (method, [])
      | Some (path, _) => (method, path)
      end
  end.

(** [handle_connection]: the response handed to [send_all], if any, and the
    bytes the store received. *)
Definition handle_connection (g : WebGateway) (r : redon) (chunks : list bytes) : option bytes * bytes :=
  match read_head chunks [] with
  | Gone => (None, [])
  | TooLarge => (Some (http_response (lit "413 Payload Too Large") (lit "text/plain") (lit "request too large")), [])
  | GotHead head body chunks' =>
      let '(method, path) := request_line head in
      let content_length := parse_content_length head in
      let body' := read_body content_length chunks' body in
      let body'' := if content_length <? blen body' then take (Z.to_nat content_length) body' else body' in
      let '(response, accepted) := route g r method path body'' in
      (Some response, accepted)
  end.

(** ** What a browser does with the answer

    Reading a response as HTTP (RFC 9112: up to the empty line, then as many
    bytes as Content-Length says), and its body as JSON (RFC 8259).  Of the
    [\u] escapes the reader takes those of ASCII characters. *)

Definition hex_val (c : ascii) : option Z :=
  if is_digit c then Some (digit_val c)
  else if (97 <=? code c) && (code c <=? 102) then Some (code c - 97 + 10)
  else if (65 <=? code c) && (code c <=? 70) then Some (code c - 65 + 10)
  else None.

Definition hex4 (a b c d : ascii) : option Z :=
  match hex_val a, hex_val b, hex_val c, hex_val d with
  | Some w, Some x, Some y, Some z => Some (4096 * w + 256 * x + 16 * y + z)
  | _, _, _, _ => None
  end.

Definition unescape (c : ascii) : option ascii :=
  if Ascii.eqb c quote then Some quote
  else if Ascii.eqb c backslash then Some backslash
  else if Ascii.eqb c "/" then Some "/"%char
  else if Ascii.eqb c "b" then Some "008"%char
  else if Ascii.eqb c "f" then Some "012"%char
  else if Ascii.eqb c "n" then Some newline
  else if Ascii.eqb c "r" then Some cr
  else if Ascii.eqb c "t" then Some "009"%char
  else None.

Definition push (c : ascii) (r : option (bytes * bytes)) : option (bytes * bytes) :=
  match r with Some (s, rest) => Some (c :: s, rest) | None => None end.

(** The contents of a string literal, whose opening quote has been read, and
    what follows its closing quote. *)
Fixpoint json_string (s : bytes) : option (bytes * bytes) :=
  match s with
  | [] => None
  | c :: s1 =>
      if Ascii.eqb c quote then Some ([], s1)
      else if Ascii.eqb c backslash then
        match s1 with
        | [] => None
        | x :: s2 =>
            if Ascii.eqb x "u" then
              match s2 with
              | h1 :: h2 :: h3 :: h4 :: s3 =>
                  match hex4 h1 h2 h3 h4 with
                  | Some z => if z <? 128 then push (chr z) (json_string s3) else None
                  | None => None
                  end
              | _ => None
              end
            else match unescape x with Some y => push y (json_string s2) | None => None end
        end
      else if code c <? 32 then None
      else push c (json_string s1)
  end.

Definition strip_prefix (p s : bytes) : option bytes :=
  if starts_with p s then Some (drop (length p) s) else None.

(** The member of a one-string object after a fixed beginning. *)
Definition json_member (start body : bytes) : option bytes :=
  match strip_prefix start body with
  | Some s =>
      match json_string s with
      | Some (v, rest) => if rest =?b lit "}" then Some v else None
      | None => None
      end
  | None => None
  end.

Definition ok_start : bytes :=
  ["{"%char; quote] ++ lit "ok" ++ [quote] ++ lit ":true," ++ [quote] ++ lit "reply" ++ [quote; ":"%char; quote].
Definition error_start : bytes :=
  ["{"%char; quote] ++ lit "ok" ++ [quote] ++ lit ":false," ++ [quote] ++ lit "error" ++ [quote; ":"%char; quote].

(** Status, body and left-over bytes of a response. *)
Definition http_read (s : bytes) : option (bytes * bytes * bytes) :=
  match find_end s with
  | None => None
  | Some (head, rest) =>
      let n := parse_content_length head in
      match strip_prefix (lit "HTTP/1.1 ") head with
      | Some h => if n <=? blen rest then
                    Some ((span (fun c => negb (Ascii.eqb c cr)) h).1,
                          take (Z.to_nat n) rest, drop (Z.to_nat n) rest)
                  else None
      | None => None
      end
  end.

(** ** JSON *)

Lemma json_string_escape c t : json_string (escape_char c ++ t) = push c (json_string t).
Proof. revert c. intros [[] [] [] [] [] [] [] []]; reflexivity. Qed.

Lemma json_escape_read s rest : json_string (json_escape s ++ quote :: rest) = Some (s, rest).
Proof.
  unfold json_escape. induction s as [|c s IH]; [done|].
  change (mjoin (map escape_char (c :: s))) with (escape_char c ++ mjoin (map escape_char s)).
  by rewrite <- (assoc_L (++)), json_string_escape, IH.
Qed.

Lemma starts_with_app p s : starts_with p (p ++ s) = true.
Proof. unfold starts_with. rewrite take_app_length. by apply bool_decide_eq_true. Qed.

Lemma strip_prefix_app p s : strip_prefix p (p ++ s) = Some s.
Proof. unfold strip_prefix. by rewrite starts_with_app, drop_app_length. Qed.

Lemma json_reply_read reply : json_member ok_start (json_reply reply) = Some reply.
Proof.
  unfold json_member. change (json_reply reply) with (ok_start ++ json_escape reply ++ [quote; "}"%char]).
  by rewrite strip_prefix_app, json_escape_read.
Qed.

Lemma json_error_read err : json_member error_start (json_error (json_escape err)) = Some err.
Proof.
  unfold json_member.
  change (json_error (json_escape err)) with (error_start ++ json_escape err ++ [quote; "}"%char]).
  by rewrite strip_prefix_app, json_escape_read.
Qed.

(** ** HTTP framing *)

Definition prepend (a : bytes) (r : option (bytes * bytes)) : option (bytes * bytes) :=
  match r with Some (x, y) => Some (a ++ x, y) | None => None end.

Lemma find_end_cons c s :
  take 4 (c :: s) <> crlf ++ crlf -> find_end (c :: s) = prepend [c] (find_end s).
Proof. intros Hn. simpl. rewrite bool_decide_eq_false_2 by done. by destruct (find_end s) as [[]|]. Qed.

Lemma prepend_app a b r : prepend a (prepend b r) = prepend (a ++ b) r.
Proof. destruct r as [[]|]; [|done]. simpl. by rewrite (assoc_L (++)). Qed.

Lemma find_end_line l s : cr ∉ l -> find_end (l ++ s) = prepend l (find_end s).
Proof.
  induction l as [|c l IH]; intros Hn; [cbn [app]; by destruct (find_end s) as [[]|]|].
  apply not_elem_of_cons in Hn as [Hc Hn]. rewrite <- app_comm_cons, find_end_cons.
  - rewrite IH by done. apply prepend_app.
  - intros E. injection E. intros _ E'. by apply Hc.
Qed.

Lemma find_end_crlf c s : c <> cr -> find_end (crlf ++ c :: s) = prepend crlf (find_end (c :: s)).
Proof.
  intros Hc. unfold crlf. cbn [app]. rewrite find_end_cons.
  - rewrite (find_end_cons newline) by (unfold crlf, newline; intros E; discriminate E). apply prepend_app.
  - intros E. injection E. intros _ E'. by apply Hc.
Qed.

Lemma find_end_next l s :
  l <> [] -> cr ∉ l -> find_end (crlf ++ l ++ s) = prepend crlf (prepend l (find_end s)).
Proof.
  intros Hl Hn. rewrite <- (find_end_line l s) by done.
  destruct l as [|c l]; [done|]. apply find_end_crlf. set_solver.
Qed.

Lemma find_end_here s : find_end (crlf ++ crlf ++ s) = Some ([], s).
Proof. destruct s; reflexivity. Qed.

Lemma find_end_length s a b : find_end s = Some (a, b) -> s = a ++ crlf ++ crlf ++ b.
Proof.
  revert a b. induction s as [|c s IH]; intros a b; simpl; [done|].
  destruct (decide (c :: take 3 s = crlf ++ crlf)) as [E|E].
  - rewrite bool_decide_eq_true_2 by done. intros [= <- <-].
    transitivity ((c :: take 3 s) ++ drop 3 s); [cbn [app]; by rewrite take_drop|]. by rewrite E.
  - rewrite bool_decide_eq_false_2 by done. destruct (find_end s) as [[x y]|]; [|done].
    intros [= <- <-]. simpl. f_equal. by apply IH.
Qed.

(** What is read later does not move the end of the headers. *)
Lemma find_end_app s t a b : find_end s = Some (a, b) -> find_end (s ++ t) = Some (a, b ++ t).
Proof.
  revert a b. induction s as [|c s IH]; intros a b; [done|]. simpl.
  destruct (decide (c :: take 3 s = crlf ++ crlf)) as [E|E].
  - rewrite bool_decide_eq_true_2 by done. intros [= <- <-].
    assert (3 <= length s)%nat by (apply (f_equal length) in E; simpl in E; rewrite length_take in E; lia).
    rewrite take_app_le, drop_app_le by done. by rewrite bool_decide_eq_true_2.
  - rewrite bool_decide_eq_false_2 by done. destruct (find_end s) as [[x y]|] eqn:Es; [|done].
    intros [= <- <-]. pose proof (find_end_length _ _ _ Es) as El.
    assert (3 <= length s)%nat by (rewrite El, !length_app; simpl; lia).
    rewrite take_app_le by done. rewrite bool_decide_eq_false_2 by done. by rewrite (IH x y eq_refl).
Qed.

Lemma getlines_line l s acc :
  newline ∉ l -> getlines (l ++ newline :: s) acc = (acc ++ l) :: getlines s [].
Proof.
  revert acc. induction l as [|c l IH]; intros acc Hn; simpl; [by rewrite app_nil_r|].
  apply not_elem_of_cons in Hn as [Hc Hn]. destruct (Ascii.eqb_spec c newline); [by subst|].
  rewrite IH by done. by rewrite <- (assoc_L (++)).
Qed.

Lemma strip_cr_snoc l : strip_cr (l ++ [cr]) = l.
Proof.
  unfold strip_cr. rewrite last_snoc. simpl. rewrite length_app. simpl.
  by rewrite Nat.add_sub, take_app_length.
Qed.

Lemma split_colon_app name value :
  ":"%char ∉ name -> split_colon (name ++ ":"%char :: value) = Some (name, value).
Proof.
  intros Hn. unfold split_colon. rewrite span_app; [done| |done]. apply List.Forall_forall.
  intros c Hc. apply list_elem_of_In in Hc. destruct (Ascii.eqb_spec c ":"); [by subst|done].
Qed.

(** A header line of another name is passed over. *)
Lemma content_length_skip name value lines :
  ":"%char ∉ name -> ascii_lower name <> lit "content-length" ->
  content_length_of ((name ++ ":"%char :: value ++ [cr]) :: lines) = content_length_of lines.
Proof.
  intros Hn Hne. cbn [content_length_of].
  replace (name ++ ":"%char :: value ++ [cr]) with ((name ++ ":"%char :: value) ++ [cr])
    by (by rewrite <- (assoc_L (++))).
  rewrite strip_cr_snoc, split_colon_app by done. by rewrite bool_decide_eq_false_2.
Qed.

Lemma content_length_here n lines :
  0 <= n <= LONG_MAX ->
  content_length_of ((lit "Content-Length: " ++ decimal n ++ [cr]) :: lines) = n.
Proof.
  intros Hn. cbn [content_length_of].
  replace (lit "Content-Length: " ++ decimal n ++ [cr])
    with ((lit "Content-Length" ++ ":"%char :: " "%char :: decimal n) ++ [cr])
    by (by rewrite <- !(assoc_L (++))).
  rewrite strip_cr_snoc, split_colon_app by (apply (bool_decide_unpack _); by vm_compute).
  rewrite bool_decide_eq_true_2 by done.
  assert (stoll (" "%char :: decimal n) = Some (n, blen (" "%char :: decimal n))) as ->.
  { unfold stoll, strto. pose proof (strto_to_string LONG_MIN LONG_MAX n [] ltac:(unfold LONG_MIN, LONG_MAX in *; lia) I) as E.
    unfold strto in E. rewrite app_nil_r in E. replace (to_string n) with (decimal n) in E.
    2:{ unfold to_string. destruct (Z.ltb_spec n 0); [lia|done]. }
    change (drop_while is_space (" "%char :: decimal n)) with (drop_while is_space (decimal n)).
    destruct (scan_number _) as [[v r]|]; [|done]. destruct (_ || _); [done|].
    injection E as -> E. f_equal. f_equal. unfold blen in *. simpl. lia. }
  destruct (Z.ltb_spec 0 n); lia.
Qed.

(** A header value: it ends neither its line nor the headers. *)
Definition header_text (s : bytes) : Prop := Forall (fun c => eol c = false) s.

#[export] Instance header_text_dec s : Decision (header_text s).
Proof. unfold header_text. apply _. Defined.

Lemma header_text_cr s : header_text s -> cr ∉ s.
Proof. unfold header_text. intros Hs Hin. rewrite List.Forall_forall in Hs. by specialize (Hs cr (proj1 (list_elem_of_In _ _) Hin)). Qed.

Lemma header_text_newline s : header_text s -> newline ∉ s.
Proof. unfold header_text. intros Hs Hin. rewrite List.Forall_forall in Hs. by specialize (Hs newline (proj1 (list_elem_of_In _ _) Hin)). Qed.

Lemma header_text_app a b : header_text a -> header_text b -> header_text (a ++ b).
Proof. intros ??. by apply Forall_app. Qed.

Lemma header_text_decimal n : 0 <= n -> header_text (decimal n).
Proof.
  intros Hn. eapply Forall_impl; [by apply decimal_digits|]. intros c. revert c. all_bytes.
Qed.

(** The headers of a response, without the empty line that ends them. *)
Definition response_head (status ctype : bytes) (n : Z) : bytes :=
  lit "HTTP/1.1 " ++ status ++ crlf ++
  lit "Content-Type: " ++ ctype ++ crlf ++
  lit "Content-Length: " ++ decimal n ++ crlf ++
  lit "Access-Control-Allow-Origin: *" ++ crlf ++
  lit "Access-Control-Allow-Methods: GET, POST, OPTIONS" ++ crlf ++
  lit "Cache-Control: no-store" ++ crlf ++
  lit "Connection: close".

Lemma http_response_head status ctype body :
  http_response status ctype body = response_head status ctype (blen body) ++ crlf ++ crlf ++ body.
Proof. unfold http_response, response_head. by rewrite <- !(assoc_L (++)). Qed.

Lemma response_head_end status ctype n s :
  header_text status -> header_text ctype -> 0 <= n ->
  find_end (response_head status ctype n ++ crlf ++ crlf ++ s) = Some (response_head status ctype n, s).
Proof.
  intros Hs Hc Hn. unfold response_head. rewrite <- !(assoc_L (++)).
  pose proof (header_text_cr _ Hs). pose proof (header_text_cr _ Hc).
  pose proof (header_text_cr _ (header_text_decimal n Hn)).
  repeat first
    [ rewrite find_end_here
    | rewrite find_end_line by (assumption || (apply (bool_decide_unpack _); by vm_compute))
    | rewrite find_end_next by first [done | apply (bool_decide_unpack _); by vm_compute] ].
  cbn [prepend]. by rewrite app_nil_r.
Qed.

Lemma status_line_skip status lines :
  content_length_of ((lit "HTTP/1.1 " ++ status ++ [cr]) :: lines) = content_length_of lines.
Proof.
  cbn [content_length_of]. rewrite (assoc_L (++)), strip_cr_snoc. unfold split_colon. simpl.
  destruct (span _ status) as [a [|c b]]; [done|]. by rewrite bool_decide_eq_false_2.
Qed.

Lemma getlines_header a b t :
  header_text a -> header_text b -> getlines (a ++ b ++ crlf ++ t) [] = (a ++ b ++ [cr]) :: getlines t [].
Proof.
  intros Ha Hb. replace (a ++ b ++ crlf ++ t) with ((a ++ b ++ [cr]) ++ newline :: t)
    by (by rewrite <- !(assoc_L (++))).
  rewrite getlines_line; [done|].
  intros [?%header_text_newline|[?%header_text_newline|?%list_elem_of_singleton]%elem_of_app]%elem_of_app; done.
Qed.

Lemma response_head_length status ctype n :
  header_text status -> header_text ctype -> 0 <= n <= LONG_MAX ->
  parse_content_length (response_head status ctype n) = n.
Proof.
  intros Hs Hc Hn. unfold parse_content_length, response_head.
  rewrite !getlines_header by first [ assumption | (apply header_text_decimal; lia)
    | (apply (bool_decide_unpack _); by vm_compute) ].
  rewrite status_line_skip.
  etrans; [apply (content_length_skip (lit "Content-Type") (" "%char :: ctype));
           [apply (bool_decide_unpack _); by vm_compute|by vm_compute]|].
  by apply content_length_here.
Qed.

(** ** The command sent to the store *)

Lemma drop_while_In (p : ascii -> bool) s c : c ∈ drop_while p s -> c ∈ s.
Proof. intros Hc. destruct (drop_while_suffix p s) as (l & -> & _). set_solver. Qed.

Lemma first_line_text s : header_text (first_line s).
Proof.
  unfold header_text. apply List.Forall_forall. intros c Hc. apply list_elem_of_In in Hc.
  unfold first_line in Hc. rewrite elem_of_reverse in Hc. apply drop_while_In in Hc.
  rewrite elem_of_reverse in Hc. apply drop_while_In in Hc.
  pose proof (span_fst_all (fun c => negb (eol c)) s) as Ha. rewrite List.Forall_forall in Ha.
  apply list_elem_of_In, Ha in Hc. by destruct (eol c).
Qed.

Lemma forward_to_redon_prefix r line : (forward_to_redon r line).2 `prefix_of` line ++ [newline].
Proof.
  unfold forward_to_redon. destruct r as [[sends chunks]|]; [|apply prefix_nil].
  destruct (send_all_prefix (line ++ [newline]) sends []) as (rest & E & _). simpl in E.
  destruct (send_all (line ++ [newline]) sends []) as [ok acc]. simpl in *. by exists rest.
Qed.

(** One line of the protocol, or the beginning of one. *)
Definition one_command (s : bytes) : Prop :=
  s = [] \/ exists cmd, cmd <> [] /\ header_text cmd /\ s `prefix_of` cmd ++ [newline].

Lemma route_one_command g r method path body : one_command (route g r method path body).2.
Proof.
  unfold route. do 4 (case_match; [by left|]). case_match; [|by left].
  destruct (decide (first_line body = [])) as [->|Hne]; [by left|].
  rewrite bool_decide_eq_false_2 by done.
  pose proof (forward_to_redon_prefix r (first_line body)) as Hp.
  right. exists (first_line body). split; [done|]. split; [apply first_line_text|].
  by destruct (forward_to_redon r (first_line body)) as [[reply|] acc].
Qed.

(** C28: a browser cannot smuggle commands.  Whatever bytes arrive on an HTTP
    connection, the store receives nothing, or one command line with one newline
    at its end and no line break inside, or the beginning of such a line. *)
Theorem web_no_smuggling g r chunks : one_command (handle_connection g r chunks).2.
Proof.
  unfold handle_connection. destruct (read_head chunks []) as [| |head body cs]; [by left..|].
  destruct (request_line head) as [method path]. set (b := if _ <? _ then _ else _).
  pose proof (route_one_command g r method path b) as Hr. by destruct (route g r method path b).
Qed.

(** ** Reading a request *)

Lemma read_head_join chunks buf head body :
  find_end (buf ++ mjoin chunks) = Some (head, body) -> blen (buf ++ mjoin chunks) <= kMaxRequest ->
  exists body1 chunks', read_head chunks buf = GotHead head body1 chunks' /\ body = body1 ++ mjoin chunks'.
Proof.
  revert buf. induction chunks as [|chunk chunks IH]; intros buf He Hl; cbn [read_head].
  - unfold mjoin in He. simpl in He. rewrite app_nil_r in He. rewrite He.
    exists body, []. split; [done|]. unfold mjoin. simpl. by rewrite app_nil_r.
  - destruct (find_end buf) as [[h b]|] eqn:Eb.
    + apply (find_end_app _ (mjoin (chunk :: chunks))) in Eb. rewrite Eb in He. injection He as <- <-. by eexists _, _.
    + change (mjoin (chunk :: chunks)) with (chunk ++ mjoin chunks) in *. rewrite (assoc_L (++)) in *.
      destruct (Z.ltb_spec kMaxRequest (blen (buf ++ chunk))); [|by apply IH].
      unfold blen in *. rewrite length_app in Hl. lia.
Qed.

Lemma read_body_join n chunks body :
  n <= blen (body ++ mjoin chunks) -> blen (body ++ mjoin chunks) <= kMaxRequest ->
  n <= blen (read_body n chunks body) /\ exists rest, body ++ mjoin chunks = read_body n chunks body ++ rest.
Proof.
  revert body. induction chunks as [|chunk chunks IH]; intros body Hn Hl; cbn [read_body].
  - unfold mjoin in *. simpl in *. rewrite app_nil_r in *.
    destruct (blen body <? n); (split; [done|exists []; by rewrite app_nil_r]).
  - change (mjoin (chunk :: chunks)) with (chunk ++ mjoin chunks) in *.
    destruct (Z.ltb_spec (blen body) n); [|by split; [|eexists]]. rewrite (assoc_L (++)) in *.
    destruct (Z.ltb_spec kMaxRequest (blen (body ++ chunk))); [|by apply IH].
    unfold blen in *. rewrite length_app in Hl. lia.
Qed.

Lemma content_length_nonneg headers : 0 <= parse_content_length headers.
Proof.
  unfold parse_content_length. induction (getlines headers []) as [|l ls IH]; [done|]. cbn [content_length_of].
  destruct (split_colon (strip_cr l)) as [[name value]|]; [|done]. case_match; [|done].
  destruct (stoll value) as [[v w]|]; [|done]. destruct (Z.ltb_spec 0 v); lia.
Qed.

Lemma handle_connection_request g r chunks head body :
  find_end (mjoin chunks) = Some (head, body) -> blen (mjoin chunks) <= kMaxRequest ->
  parse_content_length head <= blen body ->
  handle_connection g r chunks =
    let x := route g r (request_line head).1 (request_line head).2
               (take (Z.to_nat (parse_content_length head)) body) in (Some x.1, x.2).
Proof.
  intros He Hl Hn. destruct (read_head_join chunks [] head body He Hl) as (b1 & cs & Hr & Eb).
  unfold handle_connection. rewrite Hr. destruct (request_line head) as [method path]. cbn [fst snd].
  pose proof (find_end_length _ _ _ He) as Ej. pose proof (content_length_nonneg head) as H0.
  set (n := parse_content_length head) in *. clearbody n. subst body.
  destruct (read_body_join n cs b1) as [Hlen [rest Er]]; [done| |].
  { rewrite Ej in Hl. unfold blen in *. rewrite !length_app in *. lia. }
  assert ((if n <? blen (read_body n cs b1) then take (Z.to_nat n) (read_body n cs b1)
           else read_body n cs b1) = take (Z.to_nat n) (b1 ++ mjoin cs)) as ->.
  { rewrite Er, take_app_le by (unfold blen in *; lia).
    destruct (Z.ltb_spec n (blen (read_body n cs b1))); [done|].
    rewrite take_ge; [done|]. unfold blen in *. lia. }
  by destruct (route _ _ _ _ _).
Qed.

(** An HTTP request is read as it was sent.  However the bytes of a complete
    request within the size limit are cut into chunks, the response is the one
    for its method, its path and exactly the body Content-Length announces;
    bytes after the body are ignored. *)
Theorem web_request_chunking g r chunks head body :
  find_end (mjoin chunks) = Some (head, body) -> blen (mjoin chunks) <= kMaxRequest ->
  parse_content_length head <= blen body ->
  let x := route g r (request_line head).1 (request_line head).2
             (take (Z.to_nat (parse_content_length head)) body) in
  handle_connection g r chunks = (Some x.1, x.2).
Proof. intros He Hl Hn. exact (handle_connection_request g r chunks head body He Hl Hn). Qed.

(** ** The answer to a command *)

Lemma json_escape_length s : blen (json_escape s) <= 6 * blen s.
Proof.
  unfold json_escape. induction s as [|c s IH]; [done|].
  change (mjoin (map escape_char (c :: s))) with (escape_char c ++ mjoin (map escape_char s)).
  assert (length (escape_char c) <= 6)%nat by (clear; revert c; intros [[] [] [] [] [] [] [] []]; simpl; lia).
  unfold blen in *. rewrite length_app. simpl length. lia.
Qed.

Definition address (g : WebGateway) : bytes := redon_host_ g ++ lit ":" ++ to_string (redon_port_ g).

(** The status of a response, the reply and the error its JSON body carries. *)
Definition read_answer (response : bytes) : option (bytes * option bytes * option bytes) :=
  match http_read response with
  | Some (status, body, []) => Some (status, json_member ok_start body, json_member error_start body)
  | _ => None
  end.

Lemma http_response_read status ctype body :
  header_text status -> header_text ctype -> blen body <= LONG_MAX ->
  http_read (http_response status ctype body) = Some (status, body, []).
Proof.
  intros Hs Hc Hb. assert (0 <= blen body) by (unfold blen; lia).
  unfold http_read. rewrite http_response_head, response_head_end by done.
  rewrite response_head_length by done. unfold response_head at 1. rewrite strip_prefix_app.
  rewrite Z.leb_refl. unfold blen. rewrite Nat2Z.id, take_ge, drop_ge by done.
  rewrite span_app; [done| |done]. eapply Forall_impl; [exact Hs|]. intros c. revert c. all_bytes.
Qed.

Lemma json_ok_only reply : json_member error_start (json_reply reply) = None.
Proof.
  unfold json_member, strip_prefix, starts_with. rewrite bool_decide_eq_false_2; [done|].
  intros E. by vm_compute in E.
Qed.

Lemma json_error_only err : json_member ok_start (json_error err) = None.
Proof.
  unfold json_member, strip_prefix, starts_with. rewrite bool_decide_eq_false_2; [done|].
  intros E. by vm_compute in E.
Qed.

Lemma route_cmd g r body :
  route g r (lit "POST") (lit "/cmd") body =
  if first_line body =?b [] then
    (http_response (lit "400 Bad Request") (lit "application/json") (json_error (lit "empty command")), [])
  else
    let x := forward_to_redon r (first_line body) in
    (match x.1 with
     | Some reply => http_response (lit "200 OK") (lit "application/json") (json_reply reply)
     | None => http_response (lit "502 Bad Gateway") (lit "application/json")
                 (json_error (json_escape (lit "Redon server unreachable at " ++ address g)))
     end, x.2).
Proof.
  unfold route. simpl. case_match; [done|]. by destruct (forward_to_redon r (first_line body)) as [[reply|] acc].
Qed.

Lemma route_cmd_answer g r body :
  blen (address g) <= kMaxRequest ->
  read_answer (route g r (lit "POST") (lit "/cmd") body).1 =
  if first_line body =?b [] then Some (lit "400 Bad Request", None, Some (lit "empty command"))
  else match (forward_to_redon r (first_line body)).1 with
       | Some reply => Some (lit "200 OK", Some reply, None)
       | None => Some (lit "502 Bad Gateway", None, Some (lit "Redon server unreachable at " ++ address g))
       end.
Proof.
  intros Ha. rewrite route_cmd. unfold read_answer.
  destruct (first_line body =?b []); [by vm_compute|].
  destruct (forward_to_redon r (first_line body)) as [[reply|] acc] eqn:Ef; cbn [fst].
  - assert (blen reply <= kMaxWebReply) as Hr.
    { unfold forward_to_redon in Ef. destruct r as [[sends chunks]|]; [|done].
      destruct (send_all _ _ _) as [[] a]; [|done]. injection Ef as Ef _.
      by eapply recv_line_bound; [|exact Ef]. }
    rewrite http_response_read; [by rewrite json_reply_read, json_ok_only|by_word..|].
    pose proof (json_escape_length reply). unfold json_reply, blen, kMaxWebReply, LONG_MAX in *.
    rewrite !length_app. simpl length. lia.
  - rewrite http_response_read; [by rewrite json_error_read, json_error_only|by_word..|].
    pose proof (json_escape_length (lit "Redon server unreachable at " ++ address g)) as Hj.
    unfold json_error, blen, kMaxRequest, LONG_MAX in *. rewrite length_app in Hj. simpl length in Hj.
    rewrite !length_app. simpl length. lia.
Qed.

(** every command gets one well-formed answer.  Whatever the body of a POST
    to /cmd and however the store behaves, the response is a complete HTTP
    message whose JSON body decodes to: the error for an empty command (400),
    the error naming the store's address when it cannot be reached or does not
    answer with a line (502), or the store's reply line, byte for byte (200). *)
Theorem web_cmd_answers g r body :
  blen (address g) <= kMaxRequest ->
  read_answer (route g r (lit "POST") (lit "/cmd") body).1 =
  if first_line body =?b [] then Some (lit "400 Bad Request", None, Some (lit "empty command"))
  else match (forward_to_redon r (first_line body)).1 with
       | Some reply => Some (lit "200 OK", Some reply, None)
       | None => Some (lit "502 Bad Gateway", None, Some (lit "Redon server unreachable at " ++ address g))
       end.
Proof. apply route_cmd_answer. Qed.

(** ** From the browser to the store and back *)

Section end_to_end.
Context {L R : Type} `{WriteAheadLaws L} `{ReplicaSink R} `{UnorderedIter}.
Context (e0 : line_env).

(** A posted command on its way to the server and back. *)
Lemma post_served g (s : Server L R) envs sends chunks server_chunks reply_chunks head body :
  server_clean s -> blen (address g) <= kMaxRequest ->
  find_end (mjoin chunks) = Some (head, body) -> blen (mjoin chunks) <= kMaxRequest ->
  request_line head = (lit "POST", lit "/cmd") -> parse_content_length head <= blen body ->
  let cmd := first_line (take (Z.to_nat (parse_content_length head)) body) in
  cmd <> [] -> blen cmd <= kMaxLineLength ->
  (send_all (cmd ++ [newline]) sends []).1 = true ->
  mjoin server_chunks = (send_all (cmd ++ [newline]) sends []).2 ->
  let e := (next_env e0 envs).1 in
  let served := serve_line e cmd false s in
  e_send e = true -> blen (sv_reply served) <= kMaxWebReply ->
  let c := handle_client e0 server_chunks (new_conn envs s) in
  mjoin reply_chunks = mjoin (c_sent c) ->
  c_server c = sv_server served /\
  exists response,
    handle_connection g (Some (sends, reply_chunks)) chunks = (Some response, cmd ++ [newline]) /\
    read_answer response = Some (lit "200 OK", Some (strip_cr (sv_reply served)), None).
Proof.
  intros Hs Ha He Hl Hr Hn cmd Hne Hlen Hsend Hsc e served Hes Hrep c Hrc.
  pose proof (first_line_text (take (Z.to_nat (parse_content_length head)) body)) as Htext.
  fold cmd in Htext. pose proof (header_text_newline _ Htext) as Hnl.
  rewrite (send_all_accepts _ _ Hsend) in Hsc.
  destruct (one_line_served e0 envs s cmd server_chunks Hnl Hlen Hsc) as [Hsent Hsrv].
  fold e served c in Hsent, Hsrv. rewrite (e_send_all _ Hes) in Hsent. cbn [transmit snd] in Hsent. split; [done|].
  assert (newline ∉ sv_reply served) as Hclean.
  { refine (proj1 (serve_line_clean e cmd false s Hs Hnl _)). unfold kMaxLineLength, kMaxField in *. lia. }
  assert (forward_to_redon (Some (sends, reply_chunks)) cmd =
          (Some (strip_cr (sv_reply served)), cmd ++ [newline])) as Hf.
  { unfold forward_to_redon. pose proof (send_all_accepts _ _ Hsend) as Hacc.
    destruct (send_all (cmd ++ [newline]) sends []) as [ok acc]. simpl in Hsend, Hacc. subst ok acc.
    f_equal. apply (recv_line_delivered _ _ _ []); [done..|]. rewrite Hrc, Hsent. unfold mjoin. simpl.
    by rewrite app_nil_r. }
  rewrite (handle_connection_request g _ chunks head body He Hl Hn), Hr. cbn [fst snd].
  pose proof (route_cmd_answer g (Some (sends, reply_chunks))
                (take (Z.to_nat (parse_content_length head)) body) Ha) as Hans.
  rewrite route_cmd in *. fold cmd in Hans |- *. rewrite bool_decide_eq_false_2 in Hans |- * by done.
  cbv zeta in Hans |- *. rewrite Hf in Hans |- *. cbn [fst snd] in *. by eexists.
Qed.

(** C14: a command posted by a browser is executed once and its reply comes back.
    Take a complete POST to /cmd with a command that fits the server's line
    limit, in any chunks; a server whose data has no newlines, receiving the
    gateway's bytes in any chunks; and the gateway, receiving the server's bytes
    in any chunks.  The server serves exactly the posted command, as one line,
    and the HTTP response carries its reply (less a final carriage return). *)
Theorem web_end_to_end g (s : Server L R) envs sends chunks server_chunks reply_chunks head body :
  server_clean s -> blen (address g) <= kMaxRequest ->
  find_end (mjoin chunks) = Some (head, body) -> blen (mjoin chunks) <= kMaxRequest ->
  request_line head = (lit "POST", lit "/cmd") -> parse_content_length head <= blen body ->
  let cmd := first_line (take (Z.to_nat (parse_content_length head)) body) in
  cmd <> [] -> blen cmd <= kMaxLineLength ->
  (send_all (cmd ++ [newline]) sends []).1 = true ->
  mjoin server_chunks = (send_all (cmd ++ [newline]) sends []).2 ->
  let e := (next_env e0 envs).1 in
  let served := serve_line e cmd false s in
  e_send e = true -> blen (sv_reply served) <= kMaxWebReply ->
  let c := handle_client e0 server_chunks (new_conn envs s) in
  mjoin reply_chunks = mjoin (c_sent c) ->
  c_server c = sv_server served /\
  exists response,
    handle_connection g (Some (sends, reply_chunks)) chunks = (Some response, cmd ++ [newline]) /\
    read_answer response = Some (lit "200 OK", Some (strip_cr (sv_reply served)), None).
Proof. apply post_served. Qed.
End end_to_end.

(** ** Concrete requests *)

Definition demo_gateway : WebGateway := mkGateway (lit "127.0.0.1") 6380 (lit "page").
Definition demo_post (n : Z) (body : bytes) : bytes :=
  lit "POST /cmd HTTP/1.1" ++ crlf ++ lit "content-LENGTH: " ++ decimal n ++ crlf ++ crlf ++ body.

(** a command cut short is executed.  A POST that announces twelve bytes and
    loses its connection after ten is not refused: the command line read so far
    is sent to the store, which executes it with the shortened value. *)
Theorem web_truncated_body_executed :
  let full := lit "SET k 123456" in
  let request := demo_post 12 (take 10 full) in
  handle_connection demo_gateway (Some ([100], [lit "OK" ++ [newline]])) [request] =
    (Some (http_response (lit "200 OK") (lit "application/json") (json_reply (lit "OK"))),
     lit "SET k 1234" ++ [newline]).
Proof. by vm_compute. Qed.

Lemma web_request_chunking_witness :
  let request := demo_post 5 (lit "GET a+trailing") in
  handle_connection demo_gateway None [take 20 request; drop 20 request] =
  (Some (route demo_gateway None (lit "POST") (lit "/cmd") (lit "GET a")).1, []).
Proof.
  intros request.
  exact (web_request_chunking demo_gateway None [take 20 request; drop 20 request]
           (lit "POST /cmd HTTP/1.1" ++ crlf ++ lit "content-LENGTH: 5") (lit "GET a+trailing")
           ltac:(by vm_compute) ltac:(by vm_compute) ltac:(by vm_compute)).
Defined.

Lemma web_cmd_answers_witness :
  read_answer (route demo_gateway None (lit "POST") (lit "/cmd") (lit "GET a")).1 =
  Some (lit "502 Bad Gateway", None, Some (lit "Redon server unreachable at 127.0.0.1:6380")).
Proof. exact (web_cmd_answers demo_gateway None (lit "GET a") ltac:(by vm_compute)). Defined.

#[local] Existing Instance list_iter.

Lemma web_end_to_end_witness :
  let cmd := lit "SET a hello" in
  let request := demo_post 13 (lit " " ++ cmd ++ crlf) in
  let c := handle_client demo_env1 [cmd; [newline]] (new_conn [] demo_server) in
  c_sent c = [lit "OK" ++ [newline]] /\
  (c_server c = sv_server (serve_line demo_env1 cmd false demo_server) /\
   exists response,
     handle_connection demo_gateway (Some ([5; 7], [lit "O"; lit "K" ++ [newline]]))
       [take 30 request; drop 30 request] = (Some response, cmd ++ [newline]) /\
     read_answer response = Some (lit "200 OK", Some (lit "OK"), None)).
Proof.
  intros cmd request c. split; [by vm_compute|].
  assert (server_clean demo_server) as Hs.
  { split; [|done]. exists ∅. split; [split; [apply lru_ok_nil|done]|]. apply map_Forall_empty. }
  exact (web_end_to_end (L := Wal) demo_env1 demo_gateway demo_server [] [5; 7]
           [take 30 request; drop 30 request] [cmd; [newline]] [lit "O"; lit "K" ++ [newline]]
           (lit "POST /cmd HTTP/1.1" ++ crlf ++ lit "content-LENGTH: 13") (lit " " ++ cmd ++ crlf)
           Hs ltac:(by vm_compute) ltac:(by vm_compute) ltac:(by vm_compute) ltac:(by vm_compute)
           ltac:(by vm_compute) ltac:(by vm_compute) ltac:(by vm_compute) ltac:(by vm_compute)
           ltac:(by vm_compute) ltac:(by vm_compute) ltac:(by vm_compute) ltac:(by vm_compute)).
Defined.
