(* ===== verification/Stack.v ===== *)
(** * Browser, gateway, router and shards (src/web.cpp, src/server.cpp, src/router.cpp)

    The deployment of all the programs in a row: a browser posts a command to
    the gateway, the gateway sends it as a line to a router, and the router
    forwards it to the standalone node its key selects.  Both connections may be
    refused or break at any byte, in either direction. *)

From S2P Require Import Prelude Stream Records Interfaces DiskStore Storage StorageCorrect.
From S2P Require Import Wal Replicator Address Net Raft Command Router Metrics Server Standalone Shards Web.

Local Open Scope Z_scope.

Section stack.
Context {L R : Type} `{WriteAheadLaws L} `{!ReliableLog L} `{ReplicaSink R} `{UnorderedIter}.
Context (e0 : line_env).
Abbreviation cluster := (Shards.cluster L R).

(** ** One command on its way *)

(** The router's side of the gateway's connection [gh]; [h] is the router's own
    connection to the shard. *)
Definition router_env (gh h : hop) (cmd : bytes) (c : cluster) : line_env :=
  with_net (connected (default [] (router_ (front c))) (target c cmd) h) (h_env gh).

Definition front_side (gh h : hop) (cmd : bytes) (c : cluster) : conn L R :=
  handle_client e0 (h_in gh) (new_conn [router_env gh h cmd c] (front c)).

(** What arrives at either end of the gateway's connection is a prefix of what
    the other sent. *)
Definition gate_ok (gh h : hop) (cmd : bytes) (c : cluster) : Prop :=
  mjoin (h_in gh) `prefix_of` (send_all (cmd ++ [newline]) (h_sends gh) []).2 /\
  mjoin (h_out gh) `prefix_of` mjoin (c_sent (front_side gh h cmd c)).

Definition arrived (gh : hop) (cmd : bytes) : bool := h_up gh && (mjoin (h_in gh) =?b cmd ++ [newline]).

Definition gate_lossless (gh h : hop) (cmd : bytes) (c : cluster) : bool :=
  arrived gh cmd && (send_all (cmd ++ [newline]) (h_sends gh) []).1 && e_send (h_env gh) &&
  (mjoin (h_out gh) =?b mjoin (c_sent (front_side gh h cmd c))).

(** A request served by the gateway: the response, and the cluster afterwards; a
    shard is only contacted if the line has reached the router. *)
Definition gate_net (gh : hop) : redon := if h_up gh then Some (h_sends gh, h_out gh) else None.

Definition post (g : WebGateway) (chunks : list bytes) (gh h : hop) (cmd : bytes) (c : cluster) : option bytes * cluster :=
  ((handle_connection g (gate_net gh) chunks).1,
   if h_up gh then
     mkCluster (c_server (front_side gh h cmd c))
       (if arrived gh cmd then shards (cluster_step e0 (h_env gh) h cmd c).2 else shards c)
   else c).

(** ** What the router has seen *)

Lemma front_arrived gh h cmd (c : cluster) :
  sane_line cmd -> mjoin (h_in gh) = cmd ++ [newline] ->
  c_sent (front_side gh h cmd c) =
    [(transmit (e_sending (h_env gh)) ((cluster_step e0 (h_env gh) h cmd c).1 ++ [newline])).2] /\
  c_server (front_side gh h cmd c) = front (cluster_step e0 (h_env gh) h cmd c).2.
Proof. intros [Hn Hl] E. exact (one_line_served e0 [router_env gh h cmd c] (front c) cmd (h_in gh) Hn Hl E). Qed.

Lemma front_partial gh h cmd (c : cluster) :
  sane_line cmd -> gate_ok gh h cmd c -> mjoin (h_in gh) <> cmd ++ [newline] ->
  c_sent (front_side gh h cmd c) = [] /\ c_server (front_side gh h cmd c) = front c.
Proof.
  intros [Hn Hl] [Hin _] Hne. destruct (send_all_prefix (cmd ++ [newline]) (h_sends gh) []) as (rest & E & _).
  assert (mjoin (h_in gh) `prefix_of` cmd ++ [newline]) as Hp by (etrans; [exact Hin|]; by exists rest).
  apply line_prefix in Hp as [?|[Hnone Hb]]; [done| |done]. apply partial_line_ignored; [done|]. lia.
Qed.

Lemma post_cluster g chunks gh h cmd (c : cluster) :
  sane_line cmd -> gate_ok gh h cmd c ->
  (post g chunks gh h cmd c).2 = if arrived gh cmd then (cluster_step e0 (h_env gh) h cmd c).2 else c.
Proof.
  intros Hl Hg. unfold post, arrived. cbn [snd]. destruct (h_up gh); cbn [andb]; [|done].
  destruct (decide (mjoin (h_in gh) = cmd ++ [newline])) as [E|Hne].
  - rewrite bool_decide_eq_true_2 by done. rewrite (proj2 (front_arrived gh h cmd c Hl E)).
    by destruct (cluster_step e0 (h_env gh) h cmd c) as [r []].
  - rewrite bool_decide_eq_false_2 by done. rewrite (proj2 (front_partial gh h cmd c Hl Hg Hne)). by destruct c.
Qed.

(** ** What the gateway reads *)

Lemma gate_reply gh h cmd (c : cluster) x :
  sane_line cmd -> gate_ok gh h cmd c -> (forward_to_redon (gate_net gh) cmd).1 = Some x ->
  arrived gh cmd = true /\
  exists a, newline ∉ a /\ x = strip_cr a /\ a ++ [newline] `prefix_of` (cluster_step e0 (h_env gh) h cmd c).1 ++ [newline].
Proof.
  intros Hl Hg Hx. unfold forward_to_redon, gate_net, arrived in *. destruct (h_up gh); [|done].
  assert (recv_line kMaxWebReply (h_out gh) [] = Some x) as Hr
    by (destruct (send_all (cmd ++ [newline]) (h_sends gh) []) as [[] ?]; done). clear Hx.
  apply recv_line_complete in Hr as (a & b & E & Ha & ->). pose proof Hg as [_ Hout]. rewrite E in Hout.
  destruct (decide (mjoin (h_in gh) = cmd ++ [newline])) as [Ein|Hne].
  - rewrite (proj1 (front_arrived gh h cmd c Hl Ein)) in Hout. split; [by rewrite bool_decide_eq_true_2|].
    exists a. split; [done|]. split; [done|]. etrans; [|apply (transmitted_prefix (e_sending (h_env gh)))].
    etrans; [|exact Hout]. exists b. by rewrite <- (assoc_L (++)).
  - rewrite (proj1 (front_partial gh h cmd c Hl Hg Hne)) in Hout. apply prefix_nil_inv in Hout. by destruct a.
Qed.

Lemma strip_cr_prefix p s : last p <> Some (chr 13) -> starts_with p (strip_cr (p ++ s)) = true.
Proof.
  intros Hp. unfold strip_cr. destruct s as [|c s _] using rev_ind.
  - rewrite app_nil_r. destruct (last p) as [c|] eqn:E.
    + destruct (Ascii.eqb_spec c "013") as [->|]; [done|]. rewrite <- (app_nil_r p) at 2. apply starts_with_app.
    + rewrite <- (app_nil_r p) at 2. apply starts_with_app.
  - rewrite (assoc_L (++)), last_snoc. destruct (Ascii.eqb c "013").
    + rewrite length_app, Nat.add_sub, take_app_length. apply starts_with_app.
    + rewrite <- (assoc_L (++)). apply starts_with_app.
Qed.

(** The first line of a router error is a router error. *)
Lemma router_error_read a r :
  newline ∉ a -> a ++ [newline] `prefix_of` r ++ [newline] -> starts_with (lit "ERR ROUTER") r = true ->
  starts_with (lit "ERR ROUTER") (strip_cr a) = true.
Proof.
  intros Ha [b E] Hr. unfold starts_with in Hr. apply bool_decide_eq_true in Hr.
  rewrite <- (take_drop (length (lit "ERR ROUTER")) r), Hr in E. clear Hr. revert E. generalize (drop (length (lit "ERR ROUTER")) r).
  intros r' E. rewrite <- !(assoc_L (++)) in E. cbn [app] in E. symmetry in E.
  assert (exists a', a = lit "ERR ROUTER" ++ a') as [a' ->]; [|by apply strip_cr_prefix].
  apply app_eq_inv in E as [(x & -> & Ex)|(x & Ex & Ex2)]; [by exists x|].
  destruct x as [|y x]; [exists []; by rewrite !app_nil_r in *|]. injection Ex2 as <- _. exfalso.
  assert (newline ∉ lit "ERR ROUTER") as Hn by by_word. rewrite Ex in Hn. set_solver.
Qed.

Lemma cluster_wire (c : cluster) m : cluster_holds c m -> wire_map m.
Proof.
  intros (addrs & ms & _ & _ & _ & _ & _ & Hw & Hg) k v Hk. rewrite (Hg k) in Hk.
  destruct (ms !! shard_for addrs k) as [mi|] eqn:E; [|done]. exact (Forall_lookup_1 _ _ _ _ Hw E k v Hk).
Qed.

(** A connection that loses nothing carries the reply. *)
Lemma gate_lossless_reply gh h cmd (c : cluster) r :
  sane_line cmd -> gate_lossless gh h cmd c = true -> (cluster_step e0 (h_env gh) h cmd c).1 = r -> fits_wire r ->
  (forward_to_redon (gate_net gh) cmd).1 = Some r.
Proof.
  intros Hl Hg Er (Hn & Hb & Hcr). unfold gate_lossless, arrived in Hg. bool_simpl.
  match goal with H : mjoin (h_in gh) = _ |- _ => pose proof (proj1 (front_arrived gh h cmd c Hl H)) as Hsent end.
  assert (h_up gh = true) as Hup by done. assert (e_send (h_env gh) = true) as He by done.
  assert ((send_all (cmd ++ [newline]) (h_sends gh) []).1 = true) as Hs by done.
  rewrite (e_send_all _ He), Er in Hsent. cbn [transmit snd] in Hsent.
  unfold forward_to_redon, gate_net. rewrite Hup. destruct (send_all (cmd ++ [newline]) (h_sends gh) []) as [b acc].
  cbn [fst] in Hs |- *. subst b. rewrite <- Hcr. apply (recv_line_delivered _ _ r []); [done| |].
  - unfold kMaxReply, kMaxWebReply in *. lia.
  - match goal with H : mjoin (h_out gh) = _ |- _ => rewrite H, Hsent end. unfold mjoin. simpl. by rewrite app_nil_r.
Qed.

(** The command of a posted body. *)
Definition posted (head body : bytes) : bytes := first_line (take (Z.to_nat (parse_content_length head)) body).

Lemma post_response g chunks gh h head body cmd (c : cluster) :
  blen (address g) <= kMaxRequest -> find_end (mjoin chunks) = Some (head, body) ->
  blen (mjoin chunks) <= kMaxRequest -> request_line head = (lit "POST", lit "/cmd") ->
  parse_content_length head <= blen body -> posted head body = cmd -> cmd <> [] ->
  exists response, (post g chunks gh h cmd c).1 = Some response /\
    read_answer response =
      match (forward_to_redon (gate_net gh) cmd).1 with
      | Some reply => Some (lit "200 OK", Some reply, None)
      | None => Some (lit "502 Bad Gateway", None, Some (lit "Redon server unreachable at " ++ address g))
      end.
Proof.
  intros Ha He Hl Hr Hn <- Hne. unfold post. cbn [fst].
  rewrite (handle_connection_request g _ chunks head body He Hl Hn), Hr. cbn [fst snd]. eexists. split; [done|].
  rewrite route_cmd_answer by done. fold (posted head body). by rewrite bool_decide_eq_false_2.
Qed.

(** C7: a command posted by a browser reaches a sharded store at most once.  Take a
    complete POST to /cmd with a command that the router forwards, a gateway in
    front of the router, and connections from gateway to router and from router to
    shard that may be refused or break at any byte in either direction.  The
    browser reads a well-formed response.  Either it carries the reply of the one
    map that the shards make up, and the command has been executed on it; or
    something was lost, the response says so (502, or a router error), and the
    command has been executed once or not at all. *)
Theorem browser_to_shards g chunks gh h head body (c : cluster) m :
  cluster_holds c m -> blen (address g) <= kMaxRequest ->
  find_end (mjoin chunks) = Some (head, body) -> blen (mjoin chunks) <= kMaxRequest ->
  request_line head = (lit "POST", lit "/cmd") -> parse_content_length head <= blen body ->
  let cmd := posted head body in
  routed cmd = true -> blen cmd <= kMaxLineLength -> gate_ok gh h cmd c -> hops_ok e0 c cmd h ->
  let '(resp, c') := post g chunks gh h cmd c in
  exists response status reply err,
    resp = Some response /\ read_answer response = Some (status, reply, err) /\
    ((status = lit "200 OK" /\ reply = (answer (command_of cmd) m).1 /\ is_Some reply /\
      cluster_holds c' (answer (command_of cmd) m).2) \/
     (gate_lossless gh h cmd c && arrives e0 c cmd h = false /\
      (status = lit "502 Bad Gateway" \/ exists x, reply = Some x /\ starts_with (lit "ERR ROUTER") x = true) /\
      (cluster_holds c' m \/ cluster_holds c' (answer (command_of cmd) m).2))).
Proof.
  intros Hc Ha He Hl Hrl Hcl cmd Hro Hlen Hg Hh. assert (cmd <> []) as Hne by (intros E; by rewrite E in Hro).
  assert (sane_line cmd) as Hs by (split; [apply header_text_newline, first_line_text|done]).
  destruct (post_response g chunks gh h head body cmd c Ha He Hl Hrl Hcl eq_refl Hne) as (response & Hp & Hread).
  pose proof (post_cluster g chunks gh h cmd c Hs Hg) as Hc'. destruct (post g chunks gh h cmd c) as [resp c'].
  cbn [fst snd] in Hp, Hc'. pose proof (cluster_step_spec e0 (h_env gh) h cmd c m Hc Hs Hro Hh) as Hstep.
  pose proof (gate_lossless_reply gh h cmd c) as Hloss. pose proof (gate_reply gh h cmd c) as Hrep.
  assert (forall r, (answer (command_of cmd) m).1 = Some r -> fits_wire r) as Hfit
    by (intros r; apply answer_fits; [done|by eapply cluster_wire]).
  destruct (cluster_step e0 (h_env gh) h cmd c) as [rv c1]. cbn [fst snd] in *. exists response.
  destruct (forward_to_redon (gate_net gh) cmd).1 as [x|] eqn:Ef; do 3 eexists; (split; [done|]); (split; [exact Hread|]).
  - destruct (Hrep x Hs Hg eq_refl) as (Earr & a & Hna & -> & Hpre). rewrite Earr in Hc'. subst c'.
    destruct Hstep as [[Er Hc1]|(Earrives & Herr & Hc1)].
    + left. destruct (Hfit rv Er) as (Hnr & _ & Hcr). apply line_prefix in Hpre as [E|[E _]]; [| |done].
      2:{ destruct E. apply elem_of_app. right. by left. }
      apply app_inj_tail in E as [-> _]. by rewrite Er, Hcr.
    + right. rewrite Earrives, andb_false_r. split; [done|]. split; [|done]. right. eexists. split; [done|].
      by eapply router_error_read.
  - right. split; [|split; [by left|]].
    + destruct (gate_lossless gh h cmd c) eqn:El; [|done]. cbn [andb].
      destruct Hstep as [[Er _]|(-> & _)]; [|done]. by specialize (Hloss rv Hs eq_refl eq_refl (Hfit rv Er)).
    + subst c'. destruct (arrived gh cmd); [|by left]. destruct Hstep as [[_ ?]|(_ & _ & ?)]; [by right|done].
Qed.
End stack.

(** ** A concrete request: the connection of the router breaks after the write *)

#[local] Existing Instance list_iter.

Definition stack_cmd : bytes := lit "SET b 2".
Definition stack_request : bytes := demo_post 7 stack_cmd.
Definition stack_head : bytes := lit "POST /cmd HTTP/1.1" ++ crlf ++ lit "content-LENGTH: 7".
Definition stack_error : bytes := lit "ERR ROUTER: shard 127.0.0.1:7002 request failed" ++ [newline].

Definition stack_gate : hop := mkHop true [100] [stack_cmd ++ [newline]] [take 9 stack_error; drop 9 stack_error] demo_env1.
Definition stack_shard : hop := demo_hop stack_cmd [].

Lemma stack_hops_ok : hops_ok demo_env1 demo_cluster stack_cmd stack_shard.
Proof.
  intros s Hs. assert (Forall (eq demo_server) (shards demo_cluster)) as Hd by by repeat constructor.
  rewrite <- (Forall_lookup_1 _ _ _ _ Hd Hs).
  apply (bool_decide_eq_true_1 _). by vm_compute.
Qed.

Lemma browser_to_shards_witness :
  read_answer (default [] (post demo_env1 demo_gateway [stack_request] stack_gate stack_shard stack_cmd demo_cluster).1) =
    Some (lit "200 OK", Some (lit "ERR ROUTER: shard 127.0.0.1:7002 request failed"), None) /\
  let '(resp, c') := post demo_env1 demo_gateway [stack_request] stack_gate stack_shard stack_cmd demo_cluster in
  exists response status reply err,
    resp = Some response /\ read_answer response = Some (status, reply, err) /\
    ((status = lit "200 OK" /\ reply = (answer (command_of stack_cmd) (∅ : gmap bytes bytes)).1 /\ is_Some reply /\
      cluster_holds c' (answer (command_of stack_cmd) (∅ : gmap bytes bytes)).2) \/
     (gate_lossless demo_env1 stack_gate stack_shard stack_cmd demo_cluster &&
        arrives demo_env1 demo_cluster stack_cmd stack_shard = false /\
      (status = lit "502 Bad Gateway" \/ exists x, reply = Some x /\ starts_with (lit "ERR ROUTER") x = true) /\
      (cluster_holds c' (∅ : gmap bytes bytes) \/
       cluster_holds c' (answer (command_of stack_cmd) (∅ : gmap bytes bytes)).2))).
Proof.
  split; [by vm_compute|].
  assert (posted stack_head stack_cmd = stack_cmd) as Ep by by vm_compute.
  assert (gate_ok demo_env1 stack_gate stack_shard stack_cmd demo_cluster) as Hg
    by (apply (bool_decide_eq_true_1 _); by vm_compute).
  pose proof stack_hops_ok as Hh. rewrite <- Ep in Hg, Hh |- *.
  exact (browser_to_shards (L := Wal) demo_env1 demo_gateway [stack_request] stack_gate stack_shard stack_head stack_cmd
    demo_cluster ∅ demo_cluster_holds ltac:(by vm_compute) ltac:(by vm_compute) ltac:(by vm_compute) ltac:(by vm_compute)
    ltac:(by vm_compute) ltac:(by vm_compute) ltac:(by vm_compute) Hg Hh).
Defined.
