(* ===== verification/Page.v ===== *)
(** * The gateway's page (src/web.cpp, the script of [kIndexPage])

    The console in the browser: typing a command, posting it, showing the answer,
    the list of known keys, the history of the input box, and the statistics that
    are polled.  Texts are their UTF-8 bytes, and what is typed is ASCII, where the
    script's and the store's notions of white space agree.  Commands are sent one
    after the other.  Drawing (the graph of operations per second) is left out. *)

From Stdlib Require Import SpecFloat.
From stdpp Require Import sorting.
From S2P Require Import Prelude Stream Records Interfaces DiskStore Storage StorageCorrect.
From S2P Require Import Wal Replicator Address Net Raft Command Router Metrics Server Standalone Shards Web Stack.

Local Open Scope Z_scope.

(** ** Strings and numbers of the script *)

Definition js_trim (s : bytes) : bytes := rtrim (drop_while is_space s).

Definition push_first (c : ascii) (ts : list bytes) : list bytes :=
  match ts with t :: ts' => (c :: t) :: ts' | [] => [[c]] end.

(** [split(/\s+/)]: at every run of white space. *)
Fixpoint js_words (s : bytes) : list bytes :=
  match s with
  | [] => [[]]
  | c :: s' =>
      if is_space c then
        match s' with d :: _ => if is_space d then js_words s' else [] :: js_words s' | [] => [[]; []] end
      else push_first c (js_words s')
  end.

(** [split(' ')]: at every space. *)
Fixpoint js_split (s : bytes) : list bytes :=
  match s with
  | [] => [[]]
  | c :: s' => if Ascii.eqb c " " then [] :: js_split s' else push_first c (js_split s')
  end.

(** [join(' ')]. *)
Fixpoint js_join (ts : list bytes) : bytes :=
  match ts with
  | [] => []
  | [t] => t
  | t :: ts' => t ++ " "%char :: js_join ts'
  end.

(** The text before and after the first [=] ([indexOf], [slice]). *)
Definition at_equals (kv : bytes) : option (bytes * bytes) :=
  match span (fun c => negb (Ascii.eqb c "=")) kv with
  | (name, _ :: value) => Some (name, value)
  | (_, []) => None
  end.

(** [sort] compares by code units. *)
Fixpoint js_le (a b : bytes) : bool :=
  match a, b with
  | [], _ => true
  | _ :: _, [] => false
  | c :: a', d :: b' => (code c <? code d) || ((code c =? code d) && js_le a' b')
  end.

Definition key_order (a b : bytes) : Prop := js_le a b = true.
#[export] Instance key_order_dec : RelDecision key_order := fun a b => decide (js_le a b = true).

(** Numbers are doubles; of the literals, decimal integers and decimal fractions
    ([+s] and [parseFloat] on the values of INFO).  A fraction is the correctly
    rounded quotient of two integers. *)
Definition js_number (s : bytes) : double :=
  match scan_number s with Some (z, []) => of_integer z | _ => S754_nan end.

Definition js_parse_float (s : bytes) : double :=
  let '(whole, r) := span is_digit s in
  match whole, r with
  | [], _ => S754_nan
  | _, dot :: r' =>
      if Ascii.eqb dot "." then
        let frac := (span is_digit r').1 in
        double_div (of_integer (digits_val 0 (whole ++ frac))) (of_integer (10 ^ blen frac))
      else of_integer (digits_val 0 whole)
  | _, [] => of_integer (digits_val 0 whole)
  end.

Definition double_sub (x y : double) : double := SFsub 53 1024 x y.
Definition double_mul (x y : double) : double := SFmul 53 1024 x y.
Definition double_lt (x y : double) : bool := if SFcompare x y is Some Lt then true else false.

(** [Math.floor] and [Math.round] (ties upwards); [None]: not a finite number. *)
Definition js_floor (x : double) : option Z :=
  match x with
  | S754_zero _ => Some 0
  | S754_finite s m e =>
      let v := if s then Z.neg m else Z.pos m in Some (if 0 <=? e then v * 2 ^ e else v / 2 ^ (- e))
  | _ => None
  end.

Definition js_round (x : double) : option Z :=
  match x with
  | S754_zero _ => Some 0
  | S754_finite s m e =>
      let v := if s then Z.neg m else Z.pos m in
      Some (if 0 <=? e then v * 2 ^ e else (2 * v + 2 ^ (- e)) / 2 ^ (1 - e))
  | _ => None
  end.

(** A number that is an integer or not finite, as text. *)
Definition js_string (z : option Z) : bytes := match z with Some z => to_string z | None => lit "NaN" end.

(** ** The page *)

(** What an entry of the console shows under its command. *)
Inductive shown :=
  | Badge (cls content : bytes)
  | InfoRow (kvs : list (bytes * bytes))
  | Value (content : bytes).

Record entry := mkEntry { e_cmd : bytes; e_ts : bytes; e_shown : shown }.

(** A card: its label, its value and the small text after it. *)
Definition card : Type := bytes * bytes * bytes.

Record page := mkPage {
  console_ : list entry;
  keys_ : gmap bytes bytes;
  keylist : list (bytes * bytes);   (* the rows; none: the hint to run a SET *)
  hist : list bytes;
  hpos : Z;
  input_ : bytes;                   (* the value of the input box *)
  cards_ : list card;
  lastCmds : option double;
  lastT : option Z;
  samples : list double;
  opsNow : bytes;
  conn_ : bool * bytes;             (* whether the dots are lit, and the text *)
}.

Definition with_console (c : list entry) (p : page) : page :=
  mkPage c (keys_ p) (keylist p) (hist p) (hpos p) (input_ p) (cards_ p) (lastCmds p) (lastT p) (samples p) (opsNow p) (conn_ p).
Definition with_keys (ks : gmap bytes bytes) (rows : list (bytes * bytes)) (p : page) : page :=
  mkPage (console_ p) ks rows (hist p) (hpos p) (input_ p) (cards_ p) (lastCmds p) (lastT p) (samples p) (opsNow p) (conn_ p).
Definition with_hist (h : list bytes) (pos : Z) (v : bytes) (p : page) : page :=
  mkPage (console_ p) (keys_ p) (keylist p) h pos v (cards_ p) (lastCmds p) (lastT p) (samples p) (opsNow p) (conn_ p).
Definition with_conn (c : bool * bytes) (p : page) : page :=
  mkPage (console_ p) (keys_ p) (keylist p) (hist p) (hpos p) (input_ p) (cards_ p) (lastCmds p) (lastT p) (samples p) (opsNow p) c.

(** ** The console *)

Definition badge (reply : bytes) : option bytes * bytes :=
  if (reply =?b lit "OK") || (reply =?b lit "PONG") then (Some (lit "ok"), reply)
  else if starts_with (lit "ERR") reply then (Some (lit "err"), reply)
  else if reply =?b lit "(nil)" then (Some (lit "nil"), lit "(nil)")
  else if starts_with (lit "(integer)") reply then (Some (lit "num"), reply)
  else (None, reply).

Definition renderInfo (line : bytes) : list (bytes * bytes) := omap at_equals (js_split line).

Definition cross : bytes := [chr 226; chr 156; chr 151; " "%char].

(** What is shown under the command. *)
Definition answer_shown (reply : bytes) (ok : bool) : shown :=
  if negb ok then Badge (lit "err") (cross ++ reply)
  else if starts_with (lit "uptime_s=") reply then InfoRow (renderInfo reply)
  else match badge reply with
       | (Some cls, t) => Badge cls t
       | (None, t) => Value t
       end.

Definition addEntry (ts cmd reply : bytes) (ok : bool) (p : page) : page :=
  with_console (console_ p ++ [mkEntry cmd ts (answer_shown reply ok)]) p.

(** ** The list of keys *)

Definition renderKeys (keys : gmap bytes bytes) : list (bytes * bytes) :=
  (fun k => (k, default [] (keys !! k))) <$> merge_sort key_order (map_to_list keys).*1.

Definition trackKey (cmd reply : bytes) (p : page) : page :=
  let t := js_words (js_trim cmd) in
  let verb := to_upper (default [] (head t)) in
  match t !! 1%nat with
  | None | Some [] => p
  | Some k =>
      let keys :=
        if (verb =?b lit "SET") && (reply =?b lit "OK") then <[k := js_join (drop 2 t)]> (keys_ p)
        else if (verb =?b lit "GET") && negb (reply =?b lit "(nil)") && negb (starts_with (lit "ERR") reply)
          then <[k := reply]> (keys_ p)
        else if ((verb =?b lit "DEL") || (verb =?b lit "DELETE")) && bool_decide ("1"%char ∈ reply)
          then delete k (keys_ p)
        else keys_ p in
      with_keys keys (renderKeys keys) p
  end.

(** The command a click on a row runs. *)
Definition row_click (k : bytes) : bytes := lit "GET " ++ k.

(** ** Running a command *)

(** What [api] resolves to: the fields of the JSON body, or a rejection. *)
Inductive api_result := ApiOk (reply : bytes) | ApiError (error : bytes) | ApiFail.

Definition api (response : option bytes) : api_result :=
  match response ≫= read_answer with
  | Some (_, Some reply, _) => ApiOk reply
  | Some (_, None, Some err) => ApiError err
  | _ => ApiFail
  end.

Definition run (ts typed : bytes) (fetch : bytes -> option bytes) (p : page) : page :=
  let cmd := js_trim typed in
  if cmd =?b [] then p else
  let p1 := with_hist (hist p ++ [cmd]) (Z.of_nat (S (length (hist p)))) (input_ p) p in
  match api (fetch cmd) with
  | ApiOk reply => trackKey cmd reply (addEntry ts cmd reply true p1)
  | ApiError err => addEntry ts cmd (if err =?b [] then lit "error" else err) false p1
  | ApiFail => addEntry ts cmd (lit "network error") false p1
  end.

(** The form: run what is in the box and empty it. *)
Definition submit_form (ts : bytes) (fetch : bytes -> option bytes) (p : page) : page :=
  let p' := run ts (input_ p) fetch p in with_hist (hist p') (hpos p') [] p'.

(** [hist[i]], with what the box shows when there is no such element. *)
Definition hist_at (h : list bytes) (i : Z) : bytes :=
  default (lit "undefined") (if i <? 0 then None else h !! Z.to_nat i).

Definition arrow_up (p : page) : page :=
  if 0 <? hpos p then with_hist (hist p) (hpos p - 1) (hist_at (hist p) (hpos p - 1)) p else p.

Definition arrow_down (p : page) : page :=
  if hpos p <? Z.of_nat (length (hist p)) - 1
  then with_hist (hist p) (hpos p + 1) (hist_at (hist p) (hpos p + 1)) p
  else with_hist (hist p) (Z.of_nat (length (hist p))) [] p.

Definition clear_console (p : page) : page := with_console [] p.

Definition chips : list (bytes * bytes) :=
  [(lit "PING", lit "PING"); (lit "SET", lit "SET user:1 Saurabh"); (lit "GET", lit "GET user:1");
   (lit "EXISTS", lit "EXISTS user:1"); (lit "DEL", lit "DEL user:1"); (lit "INFO", lit "INFO")].

(** ** The statistics *)

Definition CARDS : list (bytes * bytes) :=
  [(lit "keys", lit "Keys"); (lit "commands", lit "Commands"); (lit "ops", lit "Ops/sec");
   (lit "hit_rate", lit "Hit rate"); (lit "clients", lit "Clients"); (lit "uptime_s", lit "Uptime")].

Definition fmtUptime (s : bytes) : bytes :=
  let x := js_number s in
  if double_lt x (of_integer 60) then js_string (js_floor x) ++ lit "s"
  else if double_lt x (of_integer 3600) then js_string (js_floor (double_div x (of_integer 60))) ++ lit "m"
  else js_string (js_floor (double_div x (of_integer 3600))) ++ lit "h".

Definition dash : bytes := [chr 226; chr 128; chr 148].

Definition renderCard (fields : gmap bytes bytes) (ops : option double) (c : bytes * bytes) : card :=
  let '(name, label) := c in
  if name =?b lit "ops" then (label, match ops with Some x => js_string (js_round x) | None => dash end, [])
  else match fields !! name with
       | None => (label, dash, [])
       | Some v =>
           if name =?b lit "hit_rate" then
             (label, js_string (js_round (double_mul (js_parse_float v) (of_integer 100))), lit "%")
           else if name =?b lit "uptime_s" then (label, fmtUptime v, [])
           else (label, v, [])
       end.

Definition renderCards (fields : gmap bytes bytes) (ops : option double) : list card := renderCard fields ops <$> CARDS.

(** The object of the fields of INFO: the last of several wins. *)
Definition info_pair (kv : bytes) : option (bytes * bytes) :=
  match at_equals kv with Some ([], _) => None | r => r end.
Definition info_fields (line : bytes) : gmap bytes bytes :=
  foldl (fun m nv => <[nv.1 := nv.2]> m) ∅ (omap info_pair (js_split line)).

Definition MAX : nat := 80.

(** [indexOf(s) >= 0]. *)
Fixpoint occurs (p s : bytes) : bool :=
  starts_with p s || match s with [] => false | _ :: s' => occurs p s' end.

Definition pollStats (t : Z) (fetch : bytes -> option bytes) (p : page) : page :=
  match api (fetch (lit "INFO")) with
  | ApiFail => with_conn (false, lit "gateway down") p
  | ApiError _ => with_conn (false, lit "Redon unreachable") p
  | ApiOk reply =>
      if occurs (lit "uptime_s=") reply then
        let fields := info_fields reply in
        let commands := match fields !! lit "commands" with Some s => js_number s | None => S754_nan end in
        let ops :=
          match lastCmds p, lastT p with
          | Some c, Some t0 =>
              if 0 <? t - t0 then
                let rate := double_div (double_sub commands c) (double_div (of_integer (t - t0)) (of_integer 1000)) in
                Some (if double_lt rate (S754_zero false) then S754_zero false else rate)
              else None
          | _, _ => None
          end in
        let samples' :=
          match ops with
          | Some x => let l := samples p ++ [x] in if (MAX <? length l)%nat then drop 1 l else l
          | None => samples p
          end in
        let now := match ops with Some x => js_string (js_round x) ++ lit " ops/s" | None => opsNow p end in
        mkPage (console_ p) (keys_ p) (keylist p) (hist p) (hpos p) (input_ p) (renderCards fields ops)
          (Some commands) (Some t) samples' now (true, lit "connected to Redon")
      else with_conn (false, lit "Redon unreachable") p
  end.

(** The page once its script has run: a greeting, and cards without values. *)
Definition welcome : shown :=
  Value (lit "Welcome to Redon. Type a command or click a chip below. Try: SET user:1 Saurabh").
Definition connecting : bytes := lit "connecting" ++ [chr 226; chr 128; chr 166].
Definition page_new : page :=
  mkPage [mkEntry [] [] welcome] ∅ [] [] (-1) [] (renderCards ∅ None) None None [] [] (false, connecting).

(** ** Words *)

Lemma js_words_word t : no_space t -> js_words t = [t].
Proof. induction 1 as [|c t Hc _ IH]; [done|]. cbn [js_words]. by rewrite Hc, IH. Qed.

Lemma js_words_gap w r :
  w <> [] -> Forall (fun c => is_space c = true) w -> stops is_space r -> r <> [] -> js_words (w ++ r) = [] :: js_words r.
Proof.
  intros Hne Hw Hs Hr. induction Hw as [|c w Hc Hw IH]; [done|]. cbn [app js_words]. rewrite Hc.
  destruct w as [|d w].
  - destruct r as [|e r]; [done|]. simpl in Hs. cbn [app]. by rewrite Hs.
  - inversion Hw as [|? ? Hd _]; subst. cbn [app]. rewrite Hd. by apply IH.
Qed.

Lemma js_words_token t s ts : no_space t -> js_words s = [] :: ts -> js_words (t ++ s) = t :: ts.
Proof.
  intros Ht Hs. induction Ht as [|c t Hc _ IH]; [done|]. cbn [app js_words]. by rewrite Hc, IH.
Qed.

(** The script and the command layer cut a trimmed line into the same words. *)
Lemma next_token_words s :
  text s -> js_words s = (next_token s).1 :: (if (next_token s).2 =?b [] then [] else js_words (next_token s).2) /\
  ((next_token s).2 = [] \/ text (next_token s).2).
Proof.
  intros (Hne & _ & He). unfold next_token. pose proof (span_eq (fun c => negb (is_space c)) s) as E.
  pose proof (span_fst_all (fun c => negb (is_space c)) s) as Ha.
  pose proof (span_snd_stops (fun c => negb (is_space c)) s) as Hr.
  destruct (span _ s) as [t r]. cbn [fst snd] in *.
  assert (no_space t) as Ht by (eapply Forall_impl; [exact Ha|]; intros c Hc; by apply negb_true_iff in Hc).
  destruct (drop_while_suffix is_space r) as (w & Ew & Hw). pose proof (drop_while_stops_all is_space r) as Hd.
  destruct (decide (drop_while is_space r = [])) as [Ed|Ed].
  - rewrite Ed in *. rewrite app_nil_r in Ew. subst w. rewrite bool_decide_eq_true_2 by done. split; [|by left].
    assert (r = []) as ->; [|by rewrite <- E, app_nil_r, js_words_word].
    destruct r as [|c r _] using rev_ind; [done|]. exfalso. rewrite <- E, (assoc_L (++)), reverse_snoc in He. simpl in He.
    apply Forall_app in Hw as [_ Hw]. inversion Hw; subst. congruence.
  - rewrite bool_decide_eq_false_2 by done. split.
    + rewrite <- E. apply js_words_token; [done|]. rewrite Ew at 1. apply js_words_gap; try done.
      intros ->. cbn [app] in Ew. destruct r as [|c r]; [done|]. simpl in Hr. rewrite <- Ew in Hd. simpl in Hd.
      rewrite Hd in Hr. done.
    + right. split; [done|]. split; [done|]. rewrite <- E, Ew, (assoc_L (++)) in He. by apply stops_reverse_app in He.
Qed.

(** The words of a trimmed line, as the fields of [parse_line]. *)
Lemma parse_line_words s :
  text s ->
  let '(verb, key, rest) := parse_line s in
  exists v, verb = to_upper v /\
    js_words s = v :: (if key =?b [] then [] else key :: (if rest =?b [] then [] else js_words rest)).
Proof.
  intros Hs. unfold parse_line. destruct (next_token_words s Hs) as [E1 Hr1].
  destruct (next_token s) as [v s1]. cbn [fst snd] in *. destruct Hr1 as [->|Ht].
  - exists v. by rewrite E1.
  - destruct (next_token_words s1 Ht) as [E2 _]. pose proof (next_token_split s1) as (w & Ew & _).
    destruct (next_token s1) as [key rest] eqn:E. cbn [fst snd] in *. exists v. split; [done|].
    rewrite E1, E2. destruct Ht as (Hne & Hst & _). rewrite (bool_decide_eq_false_2 (s1 = [])) by done.
    rewrite (bool_decide_eq_false_2 (key = [])); [done|]. intros ->. unfold next_token in E. destruct s1 as [|c s1]; [done|].
    simpl in Hst. cbn [span] in E. rewrite Hst in E. cbn [negb] in E.
    destruct (span _ s1). by injection E.
Qed.

(** What is typed *)

Definition is_ascii (c : ascii) : Prop := code c < 128.
#[export] Instance is_ascii_dec c : Decision (is_ascii c).
Proof. unfold is_ascii. apply _. Defined.

(** The text of an input box: ASCII, without line breaks. *)
Definition typable (s : bytes) : Prop := Forall is_ascii s /\ header_text s.
#[export] Instance typable_dec s : Decision (typable s).
Proof. unfold typable, header_text. apply _. Defined.

Lemma js_trim_elem s c : c ∈ js_trim s -> c ∈ s.
Proof.
  intros Hc. unfold js_trim in Hc. destruct (rtrim_prefix (drop_while is_space s)) as [w E].
  apply (drop_while_elem is_space). rewrite E. apply elem_of_app. by left.
Qed.

Lemma js_trim_text s : js_trim s <> [] -> text (js_trim s).
Proof.
  intros Hne. split; [done|]. split; [|apply rtrim_end]. apply rtrim_start, drop_while_stops_all.
Qed.

Lemma js_trim_id s : text s -> js_trim s = s.
Proof. intros (_ & Hs & He). unfold js_trim. rewrite drop_while_stops by done. by apply rtrim_id. Qed.

Lemma js_trim_typable s : typable s -> typable (js_trim s).
Proof.
  intros [Ha Hh]. unfold typable, header_text in *. rewrite !Forall_forall in *.
  split; intros c Hc%js_trim_elem; auto.
Qed.

Lemma trim_typable s : text s -> typable s -> trim s = s.
Proof.
  intros Ht [Ha _]. apply trim_id; [done|]. destruct s as [|c s]; [done|]. inversion Ha as [|? ? Hc]; subst.
  intros E. injection E as -> _. by vm_compute in Hc.
Qed.

Lemma first_line_typable s : text s -> typable s -> first_line s = s.
Proof.
  intros (Hne & Hs & He) [_ Hh]. unfold first_line.
  assert (forall r, stops is_space r -> stops blank r) as Hb.
  { intros [|c r]; [done|]. simpl. revert c. all_bytes. }
  rewrite <- (app_nil_r s) at 1. rewrite span_app; [|eapply Forall_impl; [exact Hh|]; intros c ->; done|done]. cbn [fst].
  rewrite (drop_while_stops _ s), drop_while_stops, reverse_involutive by auto. done.
Qed.

(** ** The rows *)

#[export] Instance key_order_total : Total key_order.
Proof.
  unfold Total, key_order. induction x as [|c x IH]; intros [|d y]; cbn [js_le]; [auto..|].
  destruct (IH y) as [->| ->]; rewrite ?andb_true_r, ?andb_false_r, ?orb_false_r;
    destruct (Z.ltb_spec (code c) (code d)), (Z.ltb_spec (code d) (code c)), (Z.eqb_spec (code c) (code d)),
      (Z.eqb_spec (code d) (code c)); cbn; auto; lia.
Qed.

Lemma renderKeys_rows keys k v : (k, v) ∈ renderKeys keys <-> keys !! k = Some v.
Proof.
  unfold renderKeys. rewrite list_elem_of_fmap. split.
  - intros (k' & [= -> ->] & Hk). rewrite merge_sort_Permutation, list_elem_of_fmap in Hk.
    destruct Hk as ([k2 v2] & -> & Hk%elem_of_map_to_list). cbn [fst]. by rewrite Hk.
  - intros Hk. exists k. rewrite Hk. split; [done|]. rewrite merge_sort_Permutation, list_elem_of_fmap.
    exists (k, v). split; [done|]. by apply elem_of_map_to_list.
Qed.

Lemma renderKeys_sorted keys : Sorted key_order (renderKeys keys).*1.
Proof.
  unfold renderKeys. rewrite <- list_fmap_compose. unfold compose. cbn [fst].
  rewrite list_fmap_id. apply Sorted_merge_sort, _.
Qed.

(** ** The keys the page shows, and the store *)

(** A value as the page may show it: a SET is shown word by word. *)
Definition shows (w v : bytes) : Prop := v = w \/ v = js_join (js_words w).

Record keys_ok (p : page) (m : gmap bytes bytes) : Prop := {
  ko_keys : map_Forall (fun k v => word k /\ exists w, m !! k = Some w /\ shows w v) (keys_ p);
  ko_rows : keylist p = renderKeys (keys_ p);
}.

Lemma keys_ok_set p m k w v :
  keys_ok p m -> word k -> shows w v ->
  keys_ok (with_keys (<[k := v]> (keys_ p)) (renderKeys (<[k := v]> (keys_ p))) p) (<[k := w]> m).
Proof.
  intros [Hk _] Hw Hv. split; [|done]. cbn [keys_ with_keys]. intros k' v' E.
  destruct (decide (k = k')) as [<-|Hne].
  - rewrite lookup_insert_eq in E. injection E as <-. split; [done|]. exists w. by rewrite lookup_insert_eq.
  - rewrite lookup_insert_ne in E by done. rewrite lookup_insert_ne by done. by apply Hk.
Qed.

Lemma keys_ok_get p m k w :
  keys_ok p m -> word k -> m !! k = Some w ->
  keys_ok (with_keys (<[k := w]> (keys_ p)) (renderKeys (<[k := w]> (keys_ p))) p) m.
Proof. intros Hk Hw E. rewrite <- (insert_id m k w E). apply keys_ok_set; [done..|by left]. Qed.

Lemma keys_ok_del p m k :
  keys_ok p m -> keys_ok (with_keys (delete k (keys_ p)) (renderKeys (delete k (keys_ p))) p) (delete k m).
Proof.
  intros [Hk _]. split; [|done]. cbn [keys_ with_keys]. intros k' v' E.
  apply lookup_delete_Some in E as [Hne E]. rewrite lookup_delete_ne by done. by apply Hk.
Qed.

Lemma keys_ok_same p m : keys_ok p m -> keys_ok (with_keys (keys_ p) (renderKeys (keys_ p)) p) m.
Proof. intros [Hk _]. by split. Qed.

Lemma keys_ok_absent p m k : keys_ok p m -> m !! k = None -> keys_ok p (delete k m).
Proof. intros Hk E. by rewrite delete_id. Qed.

(** The list follows a command and the store's reply to it. *)
Lemma trackKey_ok cmd reply p m :
  text cmd -> typable cmd -> keys_ok p m ->
  (command_of cmd <> Info -> (answer (command_of cmd) m).1 = Some reply) ->
  keys_ok (trackKey cmd reply p) (answer (command_of cmd) m).2.
Proof.
  intros Ht Hty Hk. unfold trackKey. rewrite js_trim_id by done. unfold command_of.
  pose proof (parse_line_fields cmd) as Hf. rewrite trim_typable in * by done. pose proof (parse_line_words cmd Ht) as Hw.
  destruct (parse_line cmd) as [[verb key] rest]. destruct Hf as (_ & Hkey & _). destruct Hw as (v & Ev & ->).
  cbn [hd_error default from_option id]. rewrite <- Ev. clear Ev Ht Hty.
  destruct (decide (key = [])) as [->|Hne].
  { rewrite !(bool_decide_eq_true_2 ((_ : bytes) = (_ : bytes)) eq_refl). cbn [lookup list_lookup]. intros _. unfold data_command.
    rewrite !(bool_decide_eq_true_2 ((_ : bytes) = (_ : bytes)) eq_refl). cbn [negb andb].
    repeat match goal with |- context [if ?b then _ else _] => destruct b end; done. }
  rewrite (bool_decide_eq_false_2 (key = [])) by done. cbn [lookup list_lookup drop].
  assert (word key) as Hwk by done. destruct key as [|c key]; [done|]. set (k := c :: key) in *.
  assert ((k =?b []) = false) as Ek by done. clearbody k. clear c key Hne Hkey.
  destruct (decide (verb = lit "SET")) as [->|Hset].
  { change (if lit "SET" =?b [] then _ else _) with
      (if negb (k =?b []) && negb (rest =?b []) then Set_ k rest else Refused (wrong_args (lit "set"))).
    rewrite Ek. destruct (rest =?b []) eqn:Er; cbn [negb andb answer fst snd]; intros Hr.
    - injection (Hr ltac:(done)) as <-. by apply keys_ok_same.
    - injection (Hr ltac:(done)) as <-. apply keys_ok_set; [done..|by right]. }
  destruct (decide (verb = lit "GET")) as [->|Hget].
  { change (if lit "GET" =?b [] then _ else _) with
      (if negb (k =?b []) && (rest =?b []) then Get k else Refused (wrong_args (lit "get"))).
    rewrite Ek. destruct (rest =?b []) eqn:Er; cbn [negb andb answer fst snd]; intros Hr.
    - injection (Hr ltac:(done)) as <-. cbn [dict_lookup dict_touch map_dictionary]. destruct (m !! k) as [w|] eqn:Em.
      + cbn [default from_option]. case_match; [by bool_simpl|]. case_match; [by apply keys_ok_get|].
        case_match; [by bool_simpl|]. by apply keys_ok_same.
      + by apply keys_ok_same.
    - injection (Hr ltac:(done)) as <-. by apply keys_ok_same. }
  destruct ((verb =?b lit "DEL") || (verb =?b lit "DELETE")) eqn:Edel.
  { assert ((if verb =?b [] then Blank else if verb =?b lit "INFO" then Info
      else if verb =?b lit "__REPLSYNC__" then Refused (lit "ERR __REPLSYNC__ is only valid on a read-only replica")
      else if (verb =?b lit "__RAFT_VOTE__") || (verb =?b lit "__RAFT_APPEND__")
        then Refused (lit "ERR this node is not part of a Raft cluster")
      else if verb =?b lit "ROLE" then Role else data_command verb k rest) =
      (if negb (k =?b []) && (rest =?b []) then Del k else Refused (wrong_args (lit "del")))) as ->
      by (apply orb_true_iff in Edel as [Ed|Ed]; bool_simpl; by subst verb).
    rewrite (bool_decide_eq_false_2 (verb = lit "SET")), (bool_decide_eq_false_2 (verb = lit "GET")), Ek by done.
    destruct (rest =?b []) eqn:Er; cbn [negb andb answer fst snd]; intros Hr; injection (Hr ltac:(done)) as <-.
    - unfold present. cbn [dict_lookup dict_del map_dictionary]. destruct (m !! k) as [w|] eqn:Em.
      + by apply keys_ok_del.
      + apply keys_ok_absent; [|done]. by apply keys_ok_same.
    - by apply keys_ok_same. }
  intros _. rewrite (bool_decide_eq_false_2 (verb = lit "SET")), (bool_decide_eq_false_2 (verb = lit "GET")) by done.
  cbn [andb]. unfold data_command.
  rewrite (bool_decide_eq_false_2 (verb = lit "SET")), (bool_decide_eq_false_2 (verb = lit "GET")), Edel by done.
  repeat match goal with |- context [answer (if ?b then _ else _)] => destruct b end; cbn [answer snd]; by apply keys_ok_same.
Qed.

(** ** The history *)

(** The position is in the history or just behind it. *)
Definition hist_ok (p : page) : Prop :=
  (hpos p = -1 /\ hist p = []) \/ 0 <= hpos p <= Z.of_nat (length (hist p)).

Lemma hist_at_in h i : 0 <= i < Z.of_nat (length h) -> hist_at h i ∈ h.
Proof.
  intros Hi. unfold hist_at. destruct (Z.ltb_spec i 0); [lia|].
  destruct (lookup_lt_is_Some_2 h (Z.to_nat i)) as [x Ex]; [lia|]. rewrite Ex. by eapply list_elem_of_lookup_2.
Qed.

Lemma arrows_ok p :
  hist_ok p ->
  hist_ok (arrow_up p) /\ hist_ok (arrow_down p) /\
  (arrow_up p = p \/ input_ (arrow_up p) ∈ hist p) /\ (input_ (arrow_down p) = [] \/ input_ (arrow_down p) ∈ hist p).
Proof.
  intros Hp. unfold arrow_up, arrow_down. split; [|split; [|split]].
  - destruct (Z.ltb_spec 0 (hpos p)); [|done]. right. cbn. destruct Hp as [[? _]|]; lia.
  - destruct (Z.ltb_spec (hpos p) (Z.of_nat (length (hist p)) - 1)); right; cbn.
    + destruct Hp as [[? E]|]; [rewrite E in *; simpl in *|]; lia.
    + lia.
  - destruct (Z.ltb_spec 0 (hpos p)); [|by left]. right. apply hist_at_in. destruct Hp as [[? _]|]; lia.
  - destruct (Z.ltb_spec (hpos p) (Z.of_nat (length (hist p)) - 1)); [|by left]. right. apply hist_at_in.
    destruct Hp as [[? E]|]; [rewrite E in *; simpl in *|]; lia.
Qed.

(** ** The fields of INFO *)

Lemma js_split_word s : " "%char ∉ s -> js_split s = [s].
Proof.
  induction s as [|c s IH]; [done|]. rewrite not_elem_of_cons. intros [Hc Hs]. cbn [js_split].
  destruct (Ascii.eqb_spec c " ") as [->|]; [done|]. by rewrite IH.
Qed.

Lemma js_split_app s r : " "%char ∉ s -> js_split (s ++ " "%char :: r) = s :: js_split r.
Proof.
  induction s as [|c s IH]; [done|]. rewrite not_elem_of_cons. intros [Hc Hs]. cbn [app js_split].
  destruct (Ascii.eqb_spec c " ") as [->|]; [done|]. by rewrite IH.
Qed.

(** A field name is made of other characters than [=] and space. *)
Definition field_name (n : bytes) : Prop := n <> [] /\ "="%char ∉ n /\ " "%char ∉ n.
#[export] Instance field_name_dec n : Decision (field_name n).
Proof. unfold field_name. apply _. Defined.

Lemma info_pair_field n v : field_name n -> info_pair (n ++ "="%char :: v) = Some (n, v).
Proof.
  intros (Hne & Hn & _). unfold info_pair, at_equals. rewrite span_app; [by destruct n| |done].
  apply Forall_forall. intros c Hc. destruct (Ascii.eqb_spec c "=") as [->|]; done.
Qed.

Definition pairs_of (line : bytes) : list (bytes * bytes) := omap info_pair (js_split line).

Lemma field_no_space n v : field_name n -> " "%char ∉ v -> " "%char ∉ n ++ "="%char :: v.
Proof. intros (_ & _ & Hn) Hv. rewrite not_elem_of_app, not_elem_of_cons. by split_and!. Qed.

Lemma pairs_last n v : field_name n -> " "%char ∉ v -> pairs_of (n ++ "="%char :: v) = [(n, v)].
Proof.
  intros Hn Hv. unfold pairs_of. rewrite js_split_word by (by apply field_no_space). cbn [omap list_omap].
  by rewrite info_pair_field.
Qed.

Lemma pairs_next n v r :
  field_name n -> " "%char ∉ v -> pairs_of (n ++ "="%char :: v ++ " "%char :: r) = (n, v) :: pairs_of r.
Proof.
  intros Hn Hv. unfold pairs_of. change (n ++ "="%char :: v ++ " "%char :: r) with (n ++ ("="%char :: v) ++ " "%char :: r).
  rewrite (assoc_L (++)), js_split_app by (by apply field_no_space). cbn [omap list_omap]. by rewrite info_pair_field.
Qed.

Lemma decimal_no_space n : 0 <= n -> " "%char ∉ decimal n.
Proof. intros Hn Hc. pose proof (decimal_digits n Hn) as Hd. rewrite Forall_forall in Hd. by apply Hd in Hc. Qed.

Lemma fixed3_no_space x : " "%char ∉ fixed3 x.
Proof.
  assert (forall s : bool, " "%char ∉ (if s then lit "-" else [])) as Hs by (intros []; by_word).
  assert (forall d, " "%char <> digit (d mod 10)) as Hd.
  { intros d E. pose proof (Z.mod_pos_bound d 10 ltac:(lia)) as Hb. pose proof (is_digit_digit _ Hb) as H1. by rewrite <- E in H1. }
  destruct x as [s|s| |s m e]; unfold fixed3; rewrite ?not_elem_of_app.
  - split; [apply Hs|by_word].
  - split; [apply Hs|by_word].
  - by_word.
  - split; [apply Hs|]. split; [apply decimal_no_space, Z.div_pos; [apply thousandths_nonneg|lia]|]. split; [by_word|].
    unfold pad3. rewrite !not_elem_of_cons. split_and!; [apply Hd..|apply not_elem_of_nil].
Qed.

Lemma to_string_no_space n : " "%char ∉ to_string n.
Proof. by apply to_string_no. Qed.

Definition info_pairs (uptime keys : Z) (m : Metrics) : list (bytes * bytes) :=
  [(lit "uptime_s", to_string uptime); (lit "clients", to_string (connected_ m));
   (lit "conns_total", to_string (connections_total_ m)); (lit "commands", to_string (commands_ m));
   (lit "get", to_string (gets_ m)); (lit "set", to_string (sets_ m)); (lit "del", to_string (dels_ m));
   (lit "hits", to_string (get_hits_ m)); (lit "misses", to_string (get_misses_ m));
   (lit "hit_rate", fixed3 (hit_rate m)); (lit "errors", to_string (errors_ m));
   (lit "avg_latency_us", fixed3 (avg_us m)); (lit "keys", to_string keys)].

(** A line of fields. *)
Fixpoint fields_text (ps : list (bytes * bytes)) : bytes :=
  match ps with
  | [] => []
  | [(n, v)] => n ++ "="%char :: v
  | (n, v) :: ps' => n ++ "="%char :: v ++ " "%char :: fields_text ps'
  end.

Lemma fields_text_pairs p ps :
  Forall (fun nv => field_name nv.1 /\ " "%char ∉ nv.2) (p :: ps) -> pairs_of (fields_text (p :: ps)) = p :: ps.
Proof.
  revert p. induction ps as [|q ps IH]; intros [n v] Hf; inversion Hf as [|? ? [Hn Hv] Hr]; subst; cbn [fst snd] in *.
  - by apply pairs_last.
  - change (fields_text ((n, v) :: q :: ps)) with (n ++ "="%char :: v ++ " "%char :: fields_text (q :: ps)).
    by rewrite pairs_next, IH.
Qed.

Lemma info_text_pairs uptime keys m : pairs_of (info_text uptime keys m) = info_pairs uptime keys m.
Proof.
  change (info_text uptime keys m) with (fields_text (info_pairs uptime keys m)).
  apply fields_text_pairs. pose proof to_string_no_space. pose proof fixed3_no_space.
  repeat (apply Forall_cons_2; [split; [by_word|cbn [snd]; auto]|]). apply Forall_nil_2.
Qed.

(** The page reads from INFO what the store's metrics hold. *)
Lemma info_fields_text uptime keys m :
  let fields := info_fields (info_text uptime keys m) in
  fields !! lit "keys" = Some (to_string keys) /\ fields !! lit "commands" = Some (to_string (commands_ m)) /\
  fields !! lit "clients" = Some (to_string (connected_ m)) /\ fields !! lit "uptime_s" = Some (to_string uptime) /\
  fields !! lit "hit_rate" = Some (fixed3 (hit_rate m)).
Proof.
  cbv zeta. unfold info_fields. fold (pairs_of (info_text uptime keys m)). rewrite info_text_pairs. unfold info_pairs. cbn [foldl fst snd].
  split_and!; repeat first [by rewrite lookup_insert_eq|rewrite lookup_insert_ne by done].
Qed.

(** ** A session *)

Section session.
Context {L R : Type} `{WriteAheadLaws L} `{!ReliableLog L} `{ReplicaSink R} `{UnorderedIter}.
Context (e0 : line_env) (g : WebGateway).
Abbreviation server := (Server L R).

(** A command on its way from the page to a standalone node: the browser's request
    arrives in some chunks, and the gateway's connection to the node is refused or
    carries everything, in some chunks. *)
Definition fetched (chunks : list bytes) (h : hop) : option bytes := (handle_connection g (gate_net h) chunks).1.
Definition node_after (h : hop) (s : server) : server := if h_up h then c_server (shard_side e0 h s) else s.

(** [fetch] posts the command as the body of the request. *)
Definition posts (chunks : list bytes) (cmd : bytes) : Prop :=
  exists head, find_end (mjoin chunks) = Some (head, cmd) /\ blen (mjoin chunks) <= kMaxRequest /\
    request_line head = (lit "POST", lit "/cmd") /\ parse_content_length head = blen cmd.

Definition carried (h : hop) (cmd : bytes) (s : server) : Prop :=
  (send_all (cmd ++ [newline]) (h_sends h) []).1 = true /\ mjoin (h_in h) = cmd ++ [newline] /\
  e_send (h_env h) = true /\ mjoin (h_out h) = mjoin (c_sent (shard_side e0 h s)) /\
  blen (sv_reply (serve_line (h_env h) cmd false s)) <= kMaxWebReply.

Definition exchange_ok (chunks : list bytes) (h : hop) (cmd : bytes) (s : server) : Prop :=
  posts chunks cmd /\ blen cmd <= kMaxLineLength /\ (h_up h = true -> carried h cmd s).

(** A command clicked or submitted, a poll of the statistics, typing, the other keys. *)
Inductive page_step : page * server -> page * server -> Prop :=
  | step_run p s ts typed chunks h :
      typable typed -> exchange_ok chunks h (js_trim typed) s -> js_trim typed <> [] ->
      page_step (p, s) (run ts typed (fun _ => fetched chunks h) p, node_after h s)
  | step_submit p s ts chunks h :
      typable (input_ p) -> exchange_ok chunks h (js_trim (input_ p)) s -> js_trim (input_ p) <> [] ->
      page_step (p, s) (submit_form ts (fun _ => fetched chunks h) p, node_after h s)
  | step_poll p s t chunks h :
      exchange_ok chunks h (lit "INFO") s ->
      page_step (p, s) (pollStats t (fun _ => fetched chunks h) p, node_after h s)
  | step_type p s v : page_step (p, s) (with_hist (hist p) (hpos p) v p, s)
  | step_up p s : page_step (p, s) (arrow_up p, s)
  | step_down p s : page_step (p, s) (arrow_down p, s)
  | step_clear p s : page_step (p, s) (clear_console p, s).

Lemma strip_cr_word a b : b <> [] -> no_space b -> strip_cr (a ++ b) = a ++ b.
Proof.
  intros Hne Hb. destruct b as [|c b _] using rev_ind; [done|]. rewrite (assoc_L (++)). apply strip_cr_last.
  apply Forall_app in Hb as [_ Hb]. inversion Hb; subst. by intros ->.
Qed.

Lemma info_text_strip uptime keys m : strip_cr (info_text uptime keys m) = info_text uptime keys m.
Proof.
  unfold info_text. rewrite !(assoc_L (++)). apply strip_cr_word; [apply to_string_nonempty|apply to_string_not_space].
Qed.

Lemma node_reply_strip e cmd m ms :
  sane_line cmd -> wire_map m -> strip_cr (node_reply e cmd m ms) = node_reply e cmd m ms.
Proof.
  intros Hl Hm. unfold node_reply. destruct (answer (command_of cmd) m).1 as [r|] eqn:E; [|apply info_text_strip].
  by apply (answer_fits cmd m r Hl Hm E).
Qed.

Lemma node_server_clean (s : server) m : node_holds s m -> wire_map m -> server_clean s.
Proof.
  intros ([Hh _] & Hr & Hraft & Hf) Hm. split.
  - exists m. split; [done|]. intros k v Hk. by destruct (Hm k v Hk) as (_ & ? & _).
  - rewrite Hraft, Hr, Hf. done.
Qed.

(** What the page is told, and what has happened to the store. *)
Lemma exchange_answer chunks h cmd (s : server) m :
  blen (address g) <= kMaxRequest -> node_holds s m -> wire_map m -> text cmd -> typable cmd ->
  exchange_ok chunks h cmd s ->
  api (fetched chunks h) =
    (if h_up h then ApiOk (node_reply (h_env h) cmd m (metrics_ s))
     else ApiError (lit "Redon server unreachable at " ++ address g)) /\
  let m' := if h_up h then (answer (command_of cmd) m).2 else m in
  node_holds (node_after h s) m' /\ wire_map m'.
Proof.
  intros Ha Hs Hm Ht Hty ((head & He & Hl & Hr & Hcl) & Hlen & Hup).
  assert (sane_line cmd) as Hsane by (split; [apply header_text_newline, Hty|done]).
  assert (first_line (take (Z.to_nat (parse_content_length head)) cmd) = cmd) as Ef.
  { rewrite Hcl. unfold blen. rewrite Nat2Z.id, take_ge by done. by apply first_line_typable. }
  assert (cmd <> []) as Hne by apply Ht. unfold fetched, node_after, gate_net, api. destruct (h_up h).
  - destruct (Hup eq_refl) as (Hsend & Hin & Hes & Hout & Hbl). rewrite <- (send_all_accepts _ _ Hsend) in Hin.
    pose proof (post_served e0 g s [h_env h] (h_sends h) chunks (h_in h) (h_out h) head cmd
      (node_server_clean s m Hs Hm) Ha He Hl Hr) as Hp. rewrite Ef in Hp.
    destruct Hp as [Hc (response & Hresp & Hread)]; [lia|done..|]. rewrite Hresp. cbn [fst mbind option_bind].
    rewrite Hread. cbn [next_env fst] in *.
    destruct (serve_line_answer (h_env h) cmd s m Hs) as (Er & _ & _ & Hs'); [unfold kMaxLineLength, kMaxField in *; lia|].
    rewrite Er, node_reply_strip by done. split; [done|]. split; [|by apply answer_wire].
    unfold shard_side. by rewrite Hc.
  - rewrite (handle_connection_request g None chunks head cmd He Hl), Hr by lia. cbn [fst snd mbind option_bind].
    rewrite route_cmd_answer, Ef, bool_decide_eq_false_2 by done. done.
Qed.

Definition session_ok (p : page) (s : server) (m : gmap bytes bytes) : Prop :=
  node_holds s m /\ wire_map m /\ keys_ok p m /\ hist_ok p.

Lemma keys_ok_other p p' m : keys_ p' = keys_ p -> keylist p' = keylist p -> keys_ok p m -> keys_ok p' m.
Proof. intros E1 E2 [Hk Hr]. split; rewrite ?E1, ?E2; done. Qed.

Lemma trackKey_frame cmd reply p :
  console_ (trackKey cmd reply p) = console_ p /\ hist (trackKey cmd reply p) = hist p /\ hpos (trackKey cmd reply p) = hpos p.
Proof. unfold trackKey. by destruct (js_words (js_trim cmd) !! 1%nat) as [[]|]. Qed.

Lemma pollStats_frame t fetch p :
  keys_ (pollStats t fetch p) = keys_ p /\ keylist (pollStats t fetch p) = keylist p /\
  hist (pollStats t fetch p) = hist p /\ hpos (pollStats t fetch p) = hpos p.
Proof. unfold pollStats. destruct (api (fetch (lit "INFO"))); [|done..]. by destruct (occurs _ _). Qed.

(** A command runs: its answer is shown, and the list of keys follows it. *)
Lemma page_run_ok ts typed chunks h p (s : server) m :
  blen (address g) <= kMaxRequest -> session_ok p s m -> typable typed -> js_trim typed <> [] ->
  exchange_ok chunks h (js_trim typed) s ->
  let cmd := js_trim typed in
  let p' := run ts typed (fun _ => fetched chunks h) p in
  session_ok p' (node_after h s) (if h_up h then (answer (command_of cmd) m).2 else m) /\
  (h_up h = true ->
   console_ p' = console_ p ++ [mkEntry cmd ts (answer_shown (node_reply (h_env h) cmd m (metrics_ s)) true)]).
Proof.
  intros Ha (Hs & Hm & Hk & Hh) Hty Hne Hx cmd p'. pose proof (js_trim_text typed Hne) as Ht.
  pose proof (js_trim_typable typed Hty) as Htc. fold cmd in Ht, Htc, Hx, Hne.
  destruct (exchange_answer chunks h cmd s m Ha Hs Hm Ht Htc Hx) as [Eapi [Hs' Hm']].
  unfold p', run. fold cmd. rewrite (bool_decide_eq_false_2 (cmd = [])), Eapi by done.
  assert (hist_ok (with_hist (hist p ++ [cmd]) (Z.of_nat (S (length (hist p)))) (input_ p) p)) as Hh1
    by (right; cbn; rewrite length_app; simpl; lia).
  destruct (h_up h).
  - set (r := node_reply (h_env h) cmd m (metrics_ s)). set (p1 := with_hist _ _ _ p) in *.
    destruct (trackKey_frame cmd r (addEntry ts cmd r true p1)) as (E1 & E2 & E3).
    split; [|intros _; by rewrite E1]. split; [done|]. split; [done|]. split.
    + apply trackKey_ok; [done..| |]; [by apply (keys_ok_other p)|]. intros Hi. unfold r, node_reply.
      by destruct (command_of cmd).
    + unfold hist_ok. rewrite E2, E3. exact Hh1.
  - split; [|done]. split; [done|]. split; [done|]. split; [by apply (keys_ok_other p)|exact Hh1].
Qed.

Lemma poll_ok t chunks h p (s : server) m :
  blen (address g) <= kMaxRequest -> session_ok p s m -> exchange_ok chunks h (lit "INFO") s ->
  let p' := pollStats t (fun _ => fetched chunks h) p in
  session_ok p' (node_after h s) m /\
  (if h_up h then
     conn_ p' = (true, lit "connected to Redon") /\
     cards_ p' !! 0%nat = Some (lit "Keys", to_string (Z.of_nat (size m)), []) /\
     cards_ p' !! 1%nat = Some (lit "Commands", to_string (commands_ (metrics_ s)), []) /\
     cards_ p' !! 4%nat = Some (lit "Clients", to_string (connected_ (metrics_ s)), [])
   else conn_ p' = (false, lit "Redon unreachable")).
Proof.
  intros Ha (Hs & Hm & Hk & Hh) Hx p'. destruct (pollStats_frame t (fun _ => fetched chunks h) p) as (E1 & E2 & E3 & E4).
  fold p' in E1, E2, E3, E4.
  assert (text (lit "INFO")) as Ht by done. assert (typable (lit "INFO")) as Hty by by_word.
  destruct (exchange_answer chunks h (lit "INFO") s m Ha Hs Hm Ht Hty Hx) as [Eapi [Hs' _]].
  assert (command_of (lit "INFO") = Info) as Ei by by vm_compute.
  split; [split; [by destruct (h_up h)|]; split; [done|]; split; [by apply (keys_ok_other p)|unfold hist_ok; by rewrite E3, E4]|].
  unfold p', pollStats. rewrite Eapi. destruct (h_up h); [|done].
  unfold node_reply. rewrite Ei. cbn [answer fst default dict_size map_dictionary from_option].
  destruct (info_fields_text (e_uptime (h_env h)) (Z.of_nat (size m)) (metrics_ s)) as (K1 & K2 & K3 & _).
  assert (occurs (lit "uptime_s=") (info_text (e_uptime (h_env h)) (Z.of_nat (size m)) (metrics_ s)) = true) as -> by done.
  cbn [conn_ cards_]. split; [done|]. unfold renderCards, CARDS. cbn [fmap list_fmap lookup list_lookup]. unfold renderCard.
  rewrite K1, K2, K3. done.
Qed.

Lemma session_step p (s : server) p' s' m :
  blen (address g) <= kMaxRequest -> session_ok p s m -> page_step (p, s) (p', s') -> exists m', session_ok p' s' m'.
Proof.
  intros Ha Hp Hstep. inversion Hstep; subst; clear Hstep.
  - eexists. by eapply page_run_ok.
  - eexists. match goal with Hx : exchange_ok chunks _ _ _ |- _ =>
      destruct (page_run_ok ts (input_ p) chunks h p s m Ha Hp ltac:(done) ltac:(done) Hx) as [(Hs & Hm & Hk & Hh) _] end.
    split_and!; [exact Hs|done| |exact Hh]. by eapply keys_ok_other; [| |exact Hk].
  - eexists. by eapply poll_ok.
  - exists m. destruct Hp as (Hs & Hm & Hk & Hh). split_and!; try done; by apply (keys_ok_other p).
  - exists m. destruct Hp as (Hs & Hm & Hk & Hh). split_and!; try done; [|by apply arrows_ok].
    apply (keys_ok_other p); [| |done]; unfold arrow_up; by destruct (0 <? hpos p).
  - exists m. destruct Hp as (Hs & Hm & Hk & Hh). split_and!; try done; [|by apply arrows_ok].
    apply (keys_ok_other p); [| |done]; unfold arrow_down; by destruct (hpos p <? _).
  - exists m. destruct Hp as (Hs & Hm & Hk & Hh). split_and!; try done; by apply (keys_ok_other p).
Qed.

(** What a user can rely on: each row names a key of the map and shows its value,
    which clicking on it reads; the next command is shown with the map's answer; the
    next poll shows the store's numbers, or that it cannot be reached; the arrow keys bring back
    commands that were run. *)
Definition in_step (p : page) (s : server) (m : gmap bytes bytes) : Prop :=
  (forall k v, (k, v) ∈ keylist p -> exists w, m !! k = Some w /\ shows w v /\
     (answer (command_of (row_click k)) m).1 = Some w) /\
  Sorted key_order (keylist p).*1 /\
  (forall ts typed chunks h, typable typed -> js_trim typed <> [] -> exchange_ok chunks h (js_trim typed) s ->
     h_up h = true -> command_of (js_trim typed) <> Info ->
     exists r, (answer (command_of (js_trim typed)) m).1 = Some r /\
       console_ (run ts typed (fun _ => fetched chunks h) p) =
         console_ p ++ [mkEntry (js_trim typed) ts (answer_shown r true)]) /\
  (forall t chunks h, exchange_ok chunks h (lit "INFO") s ->
     let p' := pollStats t (fun _ => fetched chunks h) p in
     if h_up h then
       conn_ p' = (true, lit "connected to Redon") /\
       cards_ p' !! 0%nat = Some (lit "Keys", to_string (Z.of_nat (size m)), []) /\
       cards_ p' !! 1%nat = Some (lit "Commands", to_string (commands_ (metrics_ s)), []) /\
       cards_ p' !! 4%nat = Some (lit "Clients", to_string (connected_ (metrics_ s)), [])
     else conn_ p' = (false, lit "Redon unreachable")) /\
  (arrow_up p = p \/ input_ (arrow_up p) ∈ hist p) /\
  (input_ (arrow_down p) = [] \/ input_ (arrow_down p) ∈ hist p).

(** C26: the page and the store are in step.  Let a page, opened on an empty console,
    run typed and clicked commands one after the other, poll the statistics and
    handle the arrow keys, in front of a gateway and a standalone node whose
    connection may be refused.  At every moment there is the map that the node holds, and
    every row of the key list names a key of it and shows its value (a SET word by
    word), in order; clicking on it reads that value.  The next
    command is shown with the map's answer to it; the next poll shows the number of
    keys, of commands and of clients, or that the store cannot be reached; and the arrow keys only bring back
    commands that were run. *)
Theorem page_in_step s0 m0 p s :
  blen (address g) <= kMaxRequest -> node_holds s0 m0 -> wire_map m0 -> rtc page_step (page_new, s0) (p, s) ->
  exists m, node_holds s m /\ in_step p s m.
Proof.
  intros Ha Hs0 Hm0 Hrun.
  assert (exists m, session_ok p s m) as [m Hp].
  { assert (forall x y, rtc page_step x y -> (exists m, session_ok x.1 x.2 m) -> exists m, session_ok y.1 y.2 m) as Hall.
    { induction 1 as [|[px sx] [py sy] z Hxy _ IH]; [done|]. intros [m Hx]. apply IH. by eapply session_step. }
    apply (Hall _ _ Hrun). exists m0. split_and!; [done..| |by left]. split; [apply map_Forall_empty|done]. }
  pose proof Hp as (Hs & Hm & [Hk Hrows] & Hh). exists m. split; [done|].
  unfold in_step. rewrite Hrows. split; [|split; [apply renderKeys_sorted|]].
  - intros k v Hkv%renderKeys_rows. destruct (Hk k v Hkv) as (Hw & w & Ew & Hv). exists w. split; [done|]. split; [done|].
    unfold row_click. rewrite command_get by done. cbn. by rewrite Ew.
  - split; [|split; [intros t chunks h Hx; by apply poll_ok|by apply arrows_ok]].
    intros ts typed chunks h Hty Hne Hx Hup Hi.
    destruct (page_run_ok ts typed chunks h p s m Ha Hp Hty Hne Hx) as [_ Hc]. rewrite (Hc Hup). unfold node_reply.
    destruct (command_of (js_trim typed)); try done; eexists; (split; [done|]); done.
Qed.
End session.

(** ** Concrete sessions *)

(** The chips are commands the store understands. *)
Lemma chips_understood : Forall (fun c => forall why, command_of c.2 <> Refused why) chips.
Proof. repeat constructor; intros why E; by vm_compute in E. Qed.

Definition demo_answer (reply : bytes) : bytes -> option bytes :=
  fun _ => Some (http_response (lit "200 OK") (lit "application/json") (json_reply reply)).

(** The page forgets a key it failed to delete.  A refusal of DEL that contains the
    digit 1, as the address of a leader or a shard does, is taken for a deletion: the
    key disappears from the list and is still in the store. *)
Theorem page_forgets_key :
  let p := run [] (lit "SET k v") (demo_answer (lit "OK")) page_new in
  let p' := run [] (lit "DEL k") (demo_answer (lit "ERR NOTLEADER 127.0.0.1:6381")) p in
  keylist p = [(lit "k", lit "v")] /\ keylist p' = [].
Proof. by vm_compute. Qed.

#[local] Existing Instance list_iter.

Definition demo_hop_to (cmd reply : bytes) : hop := mkHop true [100] [cmd ++ [newline]] [reply ++ [newline]] demo_env1.
Definition demo_page : page :=
  run [] (lit " set a x  y ") (fun _ => fetched demo_gateway [demo_post 10 (lit "set a x  y")] (demo_hop_to (lit "set a x  y") (lit "OK"))) page_new.
Definition demo_page_node : Server Wal Replicator :=
  node_after demo_env1 (demo_hop_to (lit "set a x  y") (lit "OK")) demo_server.

#[local] Strategy expand [demo_page demo_page_node].

Lemma demo_page_run : rtc (page_step demo_env1 demo_gateway) (page_new, demo_server) (demo_page, demo_page_node).
Proof.
  apply rtc_once. unfold demo_page, demo_page_node.
  apply (step_run demo_env1 demo_gateway page_new demo_server [] (lit " set a x  y ") [demo_post 10 (lit "set a x  y")]
    (demo_hop_to (lit "set a x  y") (lit "OK"))); [by_word| |by intros E; vm_compute in E].
  assert (js_trim (lit " set a x  y ") = lit "set a x  y") as -> by by vm_compute. split; [|split; [by vm_compute|]].
  - exists (lit "POST /cmd HTTP/1.1" ++ crlf ++ lit "content-LENGTH: 10"). by vm_compute.
  - intros _. split_and!; by vm_compute.
Qed.

Lemma page_in_step_witness :
  keylist demo_page = [(lit "a", lit "x y")] /\ last (console_ demo_page) = Some (mkEntry (lit "set a x  y") [] (Badge (lit "ok") (lit "OK"))) /\
  exists m, node_holds demo_page_node m /\ in_step demo_env1 demo_gateway demo_page demo_page_node m.
Proof.
  split; [by vm_compute|]. split; [by vm_compute|].
  exact (page_in_step (L := Wal) demo_env1 demo_gateway demo_server ∅ demo_page demo_page_node ltac:(by vm_compute)
    demo_server_holds (map_Forall_empty _) demo_page_run).
Defined.
