(* ===== verification/Replication.v ===== *)
(** * Replication from leader to follower (src/replication.cpp [sender_loop])

    One follower link of the leader's [Replicator], the connection it drives,
    and the follower at its other end.  Each action is one critical section or
    one message; any sequence of actions is a run.  Leader and follower may each
    keep their data in the cache or in the on-disk engine. *)

From S2P Require Import Prelude Stream Records Interfaces DiskStore Storage StorageCorrect.
From S2P Require Import Wal Replicator Recovery Address Net Raft Command Standalone.

Local Open Scope Z_scope.

(** ** The sender's critical sections on its link *)

Definition with_link (q : list bytes) (s rn : bool) (l : Link) : Link :=
  {| l_host := l_host l; l_port := l_port l; queue := q; streaming := s; resync_needed := rn;
     l_stop := l_stop l |}.

(** [while_locked]: forget the backlog, stream from here on. *)
Definition begin_stream (l : Link) : Link := with_link [] true false l.

(** The common cleanup. *)
Definition end_stream (l : Link) : Link := with_link [] false (resync_needed l) l.

(** The wait of the streaming loop: [None] leaves the loop (stop or resync),
    otherwise the next line to send, which is a PING when the queue is empty. *)
Definition ping_line : bytes := lit "PING" ++ [newline].

Definition next_line (l : Link) : option bytes * Link :=
  if l_stop l || resync_needed l then (None, with_link (queue l) (streaming l) false l)
  else match queue l with
       | line :: q => (Some line, with_link q (streaming l) (resync_needed l) l)
       | [] => (Some ping_line, l)
       end.

Definition update_link (j : nat) (f : Link -> Link) (r : Replicator) : Replicator :=
  {| links_ := alter f j (links_ r); started_ := started_ r |}.

(** ** The system *)

Abbreviation node := (Storage Wal Replicator).

(** The sender thread: disconnected; connected and waiting for the answer to the
    handshake; past the cut of a disk-backed leader, with the values still to
    read; connected, with the snapshot lines still to send. *)
Inductive sender := SDown | SWait | SRead (idx : list (bytes * Entry)) | SSync (remaining : list bytes).

Record system := mkSystem {
  s_leader : node;
  s_sender : sender;
  s_wire : list bytes;         (* sent on this connection, not yet executed *)
  s_link : bool;               (* the follower's is_replica_link for it *)
  s_ack : option bytes;        (* the follower's reply to the handshake *)
  s_zombies : list (bool * list bytes);
    (* the abandoned connections: the follower's is_replica_link, and what was sent
       and is not yet executed *)
  s_follower : node;
}.

Inductive act_on :=
  | RWrite (o : op)            (* a client's operation on the leader *)
  | RConnect                   (* connect, send the handshake *)
  | RExecute (i : instant)     (* the follower executes the next line *)
  | RCut                       (* handshake accepted: snapshot and start streaming *)
  | RRead (opened : bool)      (* read the values of the cut, if the data file can be opened *)
  | RSendSnapshot              (* send the next snapshot line *)
  | RSendNext                  (* send the next queued line, or a PING *)
  | RDrop                      (* the connection fails or is given up *)
  | RZombie (k : nat) (i : instant).  (* the follower executes the next line of an abandoned connection *)

Section system.
Context `{UnorderedIter}.

Definition link_of (j : nat) (st : node) : option Link := replicator_ st ≫= fun r => links_ r !! j.

Definition on_link (j : nat) (f : Link -> Link) (st : node) : node :=
  with_replicator (update_link j f <$> replicator_ st) st.

Definition data_file (st : node) : bytes := if disk_ st is Some d then d_data d else [].

(** The lines of a snapshot. *)
Definition snapshot_lines (l : list item) : list bytes := (fun kv => set_line kv.1 kv.2) <$> l.

(** A line as [handle_client] extracts it. *)
Definition strip_newline (line : bytes) : bytes := take (length line - 1) line.

Definition follower_line (line : bytes) (link : bool) (i : instant) (st : node) : executed Wal Replicator :=
  execute_line (strip_newline line) st true (Some link) None i.

(** The connection is closed on the leader's side.  The follower's worker for it is
    not told: it goes on with what it was sent. *)
Definition disconnect (j : nat) (st : node) (s : system) : system :=
  mkSystem (on_link j end_stream st) SDown [] false None
    (s_zombies s ++ [(s_link s, s_wire s)]) (s_follower s).

(** One action on link [j]; [None] where it does not apply. *)
Definition sys_step (j : nat) (s : system) (a : act_on) : option system :=
  match a, s_sender s with
  | RWrite o, ph =>
      Some (mkSystem (run_op (s_leader s) o) ph (s_wire s) (s_link s) (s_ack s) (s_zombies s) (s_follower s))
  | RConnect, SDown =>
      Some (mkSystem (s_leader s) SWait [lit "__REPLSYNC__" ++ [newline]] false None (s_zombies s) (s_follower s))
  | RExecute i, ph =>
      match s_wire s with
      | [] => None
      | line :: wire =>
          let x := follower_line line (s_link s) i (s_follower s) in
          Some (mkSystem (s_leader s) ph wire (default false (x_link x))
                  (if s_link s then s_ack s else Some (reply x)) (s_zombies s) (x_store x))
      end
  | RCut, SWait =>
      if s_ack s =?b Some (lit "OK") then
        let '(c, st') := snapshot_locked (update_link j begin_stream) (s_leader s) in
        let ph := match c with CutItems _ => SSync (snapshot_lines (read_cut c None)) | CutIndex idx => SRead idx end in
        Some (mkSystem st' ph (s_wire s) (s_link s) (s_ack s) (s_zombies s) (s_follower s))
      else None
  | RRead opened, SRead idx =>
      let file := if opened then Some (data_file (s_leader s)) else None in
      Some (mkSystem (s_leader s) (SSync (snapshot_lines (read_cut (CutIndex idx) file)))
              (s_wire s) (s_link s) (s_ack s) (s_zombies s) (s_follower s))
  | RSendSnapshot, SSync (line :: rest) =>
      Some (mkSystem (s_leader s) (SSync rest) (s_wire s ++ [line]) (s_link s) (s_ack s) (s_zombies s) (s_follower s))
  | RSendNext, SSync [] =>
      match link_of j (s_leader s) with
      | None => None
      | Some l =>
          let '(next, l') := next_line l in
          let st' := on_link j (fun _ => l') (s_leader s) in
          match next with
          | None => Some (disconnect j st' s)
          | Some line =>
              Some (mkSystem st' (SSync []) (s_wire s ++ [line]) (s_link s) (s_ack s) (s_zombies s) (s_follower s))
          end
      end
  | RDrop, (SWait | SSync _) => Some (disconnect j (s_leader s) s)
  | RZombie k i, ph =>
      match s_zombies s !! k with
      | Some (link, line :: rest) =>
          let x := follower_line line link i (s_follower s) in
          Some (mkSystem (s_leader s) ph (s_wire s) (s_link s) (s_ack s)
                  (<[k := (default false (x_link x), rest)]> (s_zombies s)) (x_store x))
      | _ => None
      end
  | _, _ => None
  end.

Fixpoint sys_run (j : nat) (s : system) (l : list act_on) : option system :=
  match l with
  | [] => Some s
  | a :: l' => s' ← sys_step j s a; sys_run j s' l'
  end.
End system.

(** ** Queues *)

Lemma links_enqueue j rs (r : Replicator) :
  links_ (foldl replicate_record r rs) !! j =
  (fun l => foldl (fun l rec => enqueue_link (wire_line rec) l) l rs) <$> links_ r !! j.
Proof.
  revert r. induction rs as [|rec rs IH]; intros r; simpl; [by destruct (links_ r !! j)|].
  rewrite IH, replicate_record_enqueue. unfold enqueue. simpl. rewrite list_lookup_fmap.
  by destruct (links_ r !! j).
Qed.

(** A link that is still streaming has queued every record; one that is not has
    an empty queue if it had. *)
Lemma enqueue_all rs l :
  (streaming l = false -> queue l = []) ->
  let l' := foldl (fun l rec => enqueue_link (wire_line rec) l) l rs in
  (streaming l' = true -> streaming l = true /\ queue l' = queue l ++ (wire_line <$> rs)) /\
  (streaming l' = false -> queue l' = []).
Proof.
  revert l. induction rs as [|rec rs IH]; intros l Hl; simpl; [by rewrite app_nil_r|].
  assert (streaming (enqueue_link (wire_line rec) l) = false -> queue (enqueue_link (wire_line rec) l) = []) as Hl'.
  { unfold enqueue_link. destruct (streaming l) eqn:E; simpl; [|by auto]. by destruct (_ <=? _). }
  destruct (IH _ Hl') as [H1 H2]. split; [|done]. intros Hs. destruct (H1 Hs) as [Hs1 ->].
  unfold enqueue_link in *. destruct (streaming l) eqn:E; simpl in *; [|by rewrite E in Hs1].
  destruct (_ <=? _); simpl in *; [done|]. split; [done|]. by rewrite <- (assoc_L (++)).
Qed.

(** ** What the stream carries *)

(** A record a line can carry and either engine can store. *)
Definition sendable (r : record) : Prop := wire_ok r /\ valid_record r.

Inductive carries : bytes -> list record -> Prop :=
  | carries_record r : sendable r -> carries (wire_line r) [r]
  | carries_ping : carries ping_line [].

(** Data that lines can carry. *)
Definition sendable_map (m : gmap bytes bytes) : Prop := map_Forall (fun k v => sendable (RSet k v)) m.

Definition wire_op (o : op) : Prop :=
  match o with OpSet k v => wire_ok (RSet k v) | OpDel k => word k | _ => True end.

Lemma from_op_sendable m o r : sendable_map m -> data_op o -> wire_op o -> from_op m o r -> sendable r.
Proof.
  intros Hm Hd Ho. destruct r as [k v|k]; simpl.
  - by intros ->.
  - intros [[w Hw]|[->|[v ->]]]; [|done|by destruct Hd, Ho].
    destruct (Hm k w Hw) as [[? _] [? _]]. by split.
Qed.

Lemma sendable_map_records m o rs :
  sendable_map m -> data_op o -> wire_op o -> Forall (from_op m o) rs ->
  Forall sendable rs /\ sendable_map (apply_records m rs).
Proof.
  intros Hm Hd Ho Hrs. assert (Forall sendable rs) as Hw.
  { eapply Forall_impl; [exact Hrs|]. intros r. by apply from_op_sendable. }
  split; [done|]. clear Hrs Hd Ho. revert m Hm. induction Hw as [|r rs Hr _ IH]; intros m Hm; [done|].
  apply IH. destruct r as [k v|k]; simpl; [by apply map_Forall_insert_2|by apply map_Forall_delete].
Qed.

Lemma carries_records rs :
  Forall sendable rs -> Forall2 carries (wire_line <$> rs) ((fun r => [r]) <$> rs).
Proof. induction 1; constructor; [by constructor|done]. Qed.

Lemma concat_singletons (rs : list record) : mjoin ((fun r => [r]) <$> rs) = rs.
Proof.
  induction rs as [|r rs IH]; [done|].
  change (mjoin ((fun r => [r]) <$> r :: rs)) with ([r] ++ mjoin ((fun r => [r]) <$> rs)). by rewrite IH.
Qed.

(** ** The follower executes what the line carries *)

Section correctness.
Context `{UnorderedIter} (j : nat).

(** A replica that does not fail: an unbounded cache, with a reliable log or none,
    or the on-disk engine. *)
Definition replica_ok (st : node) : Prop := usable st (data_of st).

Lemma usable_data (st : node) m : usable st m -> replica_ok st /\ data_of st = m.
Proof. intros Hu. assert (data_of st = m) as E by (apply holds_data, Hu). unfold replica_ok. by rewrite E. Qed.

Lemma replica_run (st : node) r :
  replica_ok st -> valid_record r ->
  replica_ok (run_op st (op_of r)) /\ data_of (run_op st (op_of r)) = apply_record (data_of st) r.
Proof.
  intros Hr Hv. apply usable_data. destruct r as [k v|k]; simpl.
  - destruct Hv as [Hk Hv]. by apply (usable_set st _ k v).
  - by apply (usable_del st _ k).
Qed.

Lemma strip_newline_snoc line : strip_newline (line ++ [newline]) = line.
Proof. unfold strip_newline. rewrite length_app. simpl. by rewrite Nat.add_sub, take_app_length. Qed.

Lemma wire_line_snoc r : exists line, wire_line r = line ++ [newline].
Proof.
  destruct r as [k v|k]; [exists (lit "SET " ++ k ++ lit " " ++ v)|exists (lit "DEL " ++ k)];
    simpl; unfold set_line, del_line; by app_norm.
Qed.

Lemma follower_line_carries line rs i (st : node) :
  replica_ok st -> carries line rs ->
  let x := follower_line line true i st in
  replica_ok (x_store x) /\ x_link x = Some true /\ data_of (x_store x) = apply_records (data_of st) rs.
Proof.
  intros Hr Hc. destruct Hc as [r [Hw Hv]|].
  - destruct (wire_line_snoc r) as [body E]. unfold follower_line. rewrite E, strip_newline_snoc.
    destruct (replica_applies (L := Wal) r body st i Hw E) as (_ & Hl & Hx).
    destruct (replica_run st r Hr Hv) as [Hr' Hd]. cbv zeta. by rewrite Hx, Hl.
  - done.
Qed.

Lemma usable_clear (st : node) m : usable st m -> (storage_clear st).1 = true /\ usable (storage_clear st).2 ∅.
Proof.
  intros [Hh Hu]. unfold usable, holds, storage_clear in *. destruct (disk_ st) as [d|] eqn:E.
  - destruct Hu as [Hok He].
    assert ((next_io (d_env d)).1 = IoOk) as Hn by (by rewrite He). pose proof (disk_clear_inv d Hn) as Hd. unfold disk_clear in *. rewrite He in *. done.
  - simpl. rewrite E. split; [done|]. split; [|done]. split; [apply lru_ok_nil|done].
Qed.

Lemma follower_handshake i (st : node) :
  replica_ok st ->
  let x := follower_line (lit "__REPLSYNC__" ++ [newline]) false i st in
  replica_ok (x_store x) /\ x_link x = Some true /\ reply x = lit "OK" /\ data_of (x_store x) = ∅.
Proof.
  intros Hr. cbv zeta. destruct (usable_clear st _ Hr) as [Hc Hu]. apply usable_data in Hu as [Hr' Hd].
  assert (follower_line (lit "__REPLSYNC__" ++ [newline]) false i st =
    mkExec (lit "OK") false None (Some true) (storage_clear st).2 None) as ->; [|done].
  unfold follower_line, execute_line, execute_sync. destruct (storage_clear st) as [b st']. simpl in Hc. by subst b.
Qed.

(** ** The invariant *)

(** Everything on its way to the follower, in order. *)
Definition in_flight (s : system) (l : Link) : list bytes :=
  s_wire s ++
  (match s_sender s with
   | SSync rest => rest
   | SRead idx => snapshot_lines (read_cut (CutIndex idx) (Some (data_file (s_leader s))))
   | _ => []
   end) ++ queue l.

(** The stream under way, as records; while it lasts it leads from [m] to the leader's data. *)
Definition leads (lines : list bytes) (l : Link) (m : gmap bytes bytes) (leader : node) : Prop :=
  exists rss, Forall2 carries lines rss /\ (streaming l = true -> apply_records m (mjoin rss) = data_of leader).

Definition sender_ok (s : system) (l : Link) : Prop :=
  match s_sender s with
  | SDown => streaming l = false /\ s_wire s = []
  | SWait =>
      streaming l = false /\
      ((s_wire s = [lit "__REPLSYNC__" ++ [newline]] /\ s_link s = false /\ s_ack s = None) \/
       (s_wire s = [] /\ s_link s = true /\ data_of (s_follower s) = ∅))
  | SRead idx =>
      s_wire s = [] /\ s_link s = true /\ data_of (s_follower s) = ∅ /\
      exists d i m, disk_ (s_leader s) = Some d /\ idx = iter_order i /\ index_of (d_data d) i m /\ sendable_map m /\
        leads (queue l) l m (s_leader s)
  | SSync _ => s_link s = true /\ leads (in_flight s l) l (data_of (s_follower s)) (s_leader s)
  end.

(** An abandoned connection: a replica link with lines the stream carries, or one
    whose handshake may still be on its way. *)
Definition sync_request : bytes := lit "__REPLSYNC__" ++ [newline].

Definition zombie_ok (z : bool * list bytes) : Prop :=
  if z.1 then exists rss, Forall2 carries z.2 rss else z.2 = [] \/ z.2 = [sync_request].

Record sys_ok (s : system) : Prop := {
  ok_leader : holds (s_leader s) (data_of (s_leader s));
  ok_wire : sendable_map (data_of (s_leader s));
  ok_follower : replica_ok (s_follower s);
  ok_zombies : Forall zombie_ok (s_zombies s);
  ok_link : exists l, link_of j (s_leader s) = Some l /\ (streaming l = false -> queue l = []) /\ sender_ok s l;
}.

Lemma link_of_on_link f (st : node) l : link_of j st = Some l -> link_of j (on_link j f st) = Some (f l).
Proof.
  unfold link_of, on_link. simpl. destruct (replicator_ st) as [r|]; [|done]. simpl. intros Hl.
  rewrite list_lookup_alter_eq, Hl. done.
Qed.

(** The link after a write: it has queued the records of the write, or overflowed. *)
Lemma link_after_write (st : node) m o l :
  holds st m -> data_op o -> link_of j st = Some l -> (streaming l = false -> queue l = []) ->
  exists rs, data_of (run_op st o) = apply_records m rs /\ holds (run_op st o) (apply_records m rs) /\
    Forall (from_op m o) rs /\
    link_of j (run_op st o) = Some (foldl (fun l rec => enqueue_link (wire_line rec) l) l rs).
Proof.
  intros Hh Ho Hl Hq. destruct (run_op_records st m o Hh Ho) as (rs & Hh' & Hfw & Hrs). exists rs.
  split; [by apply holds_data|]. split; [done|]. split; [done|].
  unfold link_of in *. rewrite Hfw. destruct (replicator_ st) as [r|]; [|done]. simpl in *.
  by rewrite links_enqueue, Hl.
Qed.

Lemma leads_write lines l m (st st' : node) rs :
  let l' := foldl (fun l rec => enqueue_link (wire_line rec) l) l rs in
  (streaming l = false -> queue l = []) -> Forall sendable rs -> data_of st' = apply_records (data_of st) rs ->
  leads (lines ++ queue l) l m st -> leads (lines ++ queue l') l' m st'.
Proof.
  intros l' Hq Hrs Hd (rss & Hc & Ha). destruct (enqueue_all rs l Hq) as [He1 He2]. fold l' in He1, He2.
  destruct (streaming l') eqn:E.
  - destruct (He1 eq_refl) as [Es ->]. exists (rss ++ ((fun r => [r]) <$> rs)). split.
    + rewrite (assoc_L (++)). apply Forall2_app; [done|by apply carries_records].
    + intros _. rewrite join_app, concat_singletons. unfold apply_records in *. rewrite foldl_app.
      by rewrite (Ha Es), Hd.
  - rewrite (He2 eq_refl), app_nil_r. apply Forall2_app_inv_l in Hc as (rss1 & rss2 & Hc1 & _ & ->).
    exists rss1. by rewrite E.
Qed.

Lemma write_ok s o :
  sys_ok s -> data_op o -> wire_op o ->
  sys_ok (mkSystem (run_op (s_leader s) o) (s_sender s) (s_wire s) (s_link s) (s_ack s) (s_zombies s) (s_follower s)).
Proof.
  intros [Hh Hwm Hf Hz (l & Hl & Hq & Hs)] Ho Hwo.
  destruct (link_after_write (s_leader s) _ o l Hh Ho Hl Hq) as (rs & Hd & Hh' & Hrs & Hl').
  destruct (sendable_map_records _ _ _ Hwm Ho Hwo Hrs) as [Hsr Hwm'].
  destruct (enqueue_all rs l Hq) as [He1 He2].
  pose proof (fun lines m => leads_write lines l m (s_leader s) (run_op (s_leader s) o) rs Hq Hsr Hd) as Hle.
  set (l' := foldl _ l rs) in *.
  split; simpl; [by rewrite Hd|by rewrite Hd|done|done|]. exists l'. split; [done|]. split; [done|].
  assert (streaming l = false -> streaming l' = false) as Hoff.
  { intros Es. destruct (streaming l') eqn:E; [|done]. destruct (He1 eq_refl) as [? _]. congruence. }
  unfold sender_ok, in_flight in *. simpl. destruct (s_sender s) as [| |idx|rest].
  - destruct Hs as [Hs1 Hs2]. auto.
  - destruct Hs as [Hs1 Hs2]. auto.
  - destruct Hs as (Ew & Hlk & Hfe & d & i & m & Ed & Ei & Hio & Hm & Hld).
    destruct (run_op_appends (s_leader s) o d Ed Ho) as (d' & x & Ed' & Ex).
    do 3 (split; [done|]). exists d', i, m. rewrite Ex. split; [done|]. split; [done|]. split; [by apply index_of_app|].
    split; [done|]. by apply (Hle []).
  - destruct Hs as (Hlk & Hld). split; [done|]. rewrite (assoc_L (++)) in *. by apply Hle.
Qed.

Lemma execute_ok s line wire i :
  sys_ok s -> s_wire s = line :: wire ->
  let x := follower_line line (s_link s) i (s_follower s) in
  sys_ok (mkSystem (s_leader s) (s_sender s) wire (default false (x_link x))
            (if s_link s then s_ack s else Some (reply x)) (s_zombies s) (x_store x)).
Proof.
  intros [Hld Hwm Hf Hz (l & Hl & Hq & Hs)] Ew. cbv zeta.
  unfold sender_ok, in_flight in Hs. rewrite Ew in Hs. destruct (s_sender s) as [| |idx|rest] eqn:Eph.
  - by destruct Hs.
  - destruct Hs as [Hst [(E & Hlk & _)|(E & _)]]; [|done]. injection E as -> ->. rewrite Hlk.
    destruct (follower_handshake i (s_follower s) Hf) as (Hf' & Hx & Hr & Hv).
    set (x := follower_line _ false i _) in *. clearbody x.
    split; simpl; [done..|]. exists l. split; [done|]. split; [done|]. unfold sender_ok. simpl.
    rewrite Hx. split; [done|]. right. done.
  - by destruct Hs.
  - destruct Hs as (Hlk & rss & Hc & Ha). rewrite Hlk. inversion Hc as [|? rs ? rss' Hc1 Hc2]; subst.
    destruct (follower_line_carries line rs i (s_follower s) Hf Hc1) as (Hf' & Hx & Hv).
    set (x := follower_line line true i _) in *. clearbody x.
    split; simpl; [done..|]. exists l. split; [done|]. split; [done|]. unfold sender_ok, in_flight. simpl.
    rewrite Hx. split; [done|]. exists rss'. split; [done|]. intros Es. specialize (Ha Es).
    rewrite Hv, <- Ha. change (mjoin (rs :: rss')) with (rs ++ mjoin rss').
    unfold apply_records. by rewrite foldl_app.
Qed.

(** The lines of a snapshot of [m] lead from nothing to [m], and the queue on from there. *)
Lemma snapshot_carries snap m :
  snap ≡ₚ map_to_list m -> sendable_map m ->
  exists rss, Forall2 carries (snapshot_lines snap) rss /\ apply_records ∅ (mjoin rss) = m.
Proof.
  intros Hp Hm. set (rs := (fun kv : item => RSet kv.1 kv.2) <$> snap).
  assert (Forall sendable rs) as Hrs.
  { unfold rs. apply Forall_fmap, Forall_forall. intros [k v] Hin. rewrite Hp in Hin. by apply elem_of_map_to_list, Hm in Hin. }
  exists ((fun r => [r]) <$> rs). rewrite concat_singletons. split; [|by apply apply_records_map].
  pose proof (carries_records rs Hrs) as Hcr. unfold rs in Hcr at 1. rewrite <- list_fmap_compose in Hcr. exact Hcr.
Qed.

Lemma leads_snapshot snap l m (leader : node) :
  snap ≡ₚ map_to_list m -> sendable_map m -> leads (queue l) l m leader ->
  leads (snapshot_lines snap ++ queue l) l ∅ leader.
Proof.
  intros Hp Hm (rss & Hc & Ha). destruct (snapshot_carries snap m Hp Hm) as (rss0 & Hc0 & E0).
  exists (rss0 ++ rss). split; [by apply Forall2_app|]. intros Es. rewrite join_app. unfold apply_records in *.
  rewrite foldl_app, E0. by apply Ha.
Qed.

Lemma leads_nothing l (leader : node) : leads [] l (data_of leader) leader.
Proof. exists []. split; [constructor|done]. Qed.

Lemma cut_ok s :
  sys_ok s -> s_sender s = SWait -> s_ack s = Some (lit "OK") ->
  let '(c, st') := snapshot_locked (update_link j begin_stream) (s_leader s) in
  sys_ok (mkSystem st' (match c with CutItems _ => SSync (snapshot_lines (read_cut c None)) | CutIndex idx => SRead idx end)
            (s_wire s) (s_link s) (s_ack s) (s_zombies s) (s_follower s)).
Proof.
  intros [Hld Hwm Hf Hz (l & Hl & Hq & Hs)] Eph Ea. unfold sender_ok in Hs. rewrite Eph, Ea in Hs.
  destruct Hs as [Hst [(_ & _ & ?)|(Ew & Hlk & Hv)]]; [done|]. unfold snapshot_locked.
  change (with_replicator (update_link j begin_stream <$> replicator_ (s_leader s)) (s_leader s))
    with (on_link j begin_stream (s_leader s)).
  assert (data_of (on_link j begin_stream (s_leader s)) = data_of (s_leader s)) as Hd by done.
  destruct (disk_ (s_leader s)) as [d|] eqn:Ed; (split; cbn [s_leader s_follower s_zombies s_sender s_wire s_link s_ack];
    [exact Hld|exact Hwm|exact Hf|exact Hz|]);
    (exists (begin_stream l); split; [by apply link_of_on_link|]; split; [done|]); unfold sender_ok, in_flight; simpl.
  - do 3 (split; [done|]). exists d, (d_index d), (data_of (s_leader s)). split; [done|]. split; [done|].
    split; [|split; [done|rewrite <- Hd; apply leads_nothing]].
    apply disk_inv_index. unfold holds in Hld. by rewrite Ed in Hld.
  - split; [done|]. rewrite Ew, Hv. cbn [app]. apply (leads_snapshot _ (begin_stream l) (data_of (s_leader s))); [|done|].
    + unfold holds in Hld. rewrite Ed in Hld. destruct Hld as [[_ Hk _ _] <-]. symmetry. by apply map_to_list_to_map.
    + rewrite <- Hd. apply leads_nothing.
Qed.

(** The values of the cut are still where the index says, whatever was written since. *)
Lemma read_ok s idx :
  sys_ok s -> s_sender s = SRead idx ->
  sys_ok (mkSystem (s_leader s) (SSync (snapshot_lines (read_cut (CutIndex idx) (Some (data_file (s_leader s))))))
            (s_wire s) (s_link s) (s_ack s) (s_zombies s) (s_follower s)).
Proof.
  intros [Hld Hwm Hf Hz (l & Hl & Hq & Hs)] Eph. unfold sender_ok in Hs. rewrite Eph in Hs.
  destruct Hs as (Ew & Hlk & Hfe & d & i & m & Ed & -> & Hio & Hm & Hle).
  split; simpl; [done..|]. exists l. split; [done|]. split; [done|]. unfold sender_ok, in_flight. simpl.
  split; [done|]. rewrite Ew, Hfe. simpl. unfold data_file. rewrite Ed.
  apply (leads_snapshot _ l m); [by apply read_entries_perm|done|done].
Qed.

Lemma send_snapshot_ok s line rest :
  sys_ok s -> s_sender s = SSync (line :: rest) ->
  sys_ok (mkSystem (s_leader s) (SSync rest) (s_wire s ++ [line]) (s_link s) (s_ack s) (s_zombies s) (s_follower s)).
Proof.
  intros [Hld Hwm Hf Hz (l & Hl & Hq & Hs)] Eph. split; simpl; [done..|]. exists l. split; [done|].
  split; [done|]. unfold sender_ok, in_flight in *. rewrite Eph in Hs. simpl. by rewrite <- (assoc_L (++)).
Qed.

(** What a connection leaves behind when it is abandoned. *)
Lemma abandoned_ok s : sys_ok s -> zombie_ok (s_link s, s_wire s).
Proof.
  intros [_ _ _ _ (l & _ & _ & Hs)]. unfold sender_ok, zombie_ok in *. cbn [fst snd].
  assert (s_wire s = [] -> if s_link s then exists rss, Forall2 carries (s_wire s) rss
                           else s_wire s = [] \/ s_wire s = [sync_request]) as Hnil.
  { intros ->. destruct (s_link s); [by exists []; constructor|by left]. }
  destruct (s_sender s) as [| |idx|rest] eqn:Eph; [apply Hnil, Hs| |apply Hnil, Hs|].
  - destruct Hs as [_ [(-> & -> & _)|(E & _)]]; [by right|by apply Hnil].
  - destruct Hs as (-> & rss & Hc & _). unfold in_flight in Hc.
    apply Forall2_app_inv_l in Hc as (rss1 & rss2 & Hc & _). by exists rss1.
Qed.

Lemma disconnect_ok s f l :
  sys_ok s -> link_of j (s_leader s) = Some l -> sys_ok (disconnect j (on_link j f (s_leader s)) s).
Proof.
  intros Hs Hl. pose proof (abandoned_ok s Hs) as Ha. destruct Hs as [Hld Hwm Hf Hz _].
  split; simpl; [done..|apply Forall_app; by repeat constructor|].
  exists (end_stream (f l)). split; [by do 2 apply link_of_on_link|]. done.
Qed.

Lemma drop_ok s : sys_ok s -> sys_ok (disconnect j (s_leader s) s).
Proof.
  intros Hs. pose proof (abandoned_ok s Hs) as Ha. destruct Hs as [Hld Hwm Hf Hz (l & Hl & _)].
  split; simpl; [done..|apply Forall_app; by repeat constructor|].
  exists (end_stream l). split; [by apply link_of_on_link|]. done.
Qed.

(** Until the present connection's handshake is executed, what the follower does for
    an abandoned one does no harm: the handshake drops all of it. *)
Lemma zombie_step_ok s k link line rest i :
  sys_ok s -> s_link s = false -> s_zombies s !! k = Some (link, line :: rest) ->
  let x := follower_line line link i (s_follower s) in
  sys_ok (mkSystem (s_leader s) (s_sender s) (s_wire s) (s_link s) (s_ack s)
            (<[k := (default false (x_link x), rest)]> (s_zombies s)) (x_store x)).
Proof.
  intros [Hld Hwm Hf Hz (l & Hl & Hq & Hs)] Elk Ek. cbv zeta.
  assert (replica_ok (x_store (follower_line line link i (s_follower s))) /\
          zombie_ok (default false (x_link (follower_line line link i (s_follower s))), rest)) as [Hf' Hz'].
  { pose proof (Forall_lookup_1 _ _ _ _ Hz Ek) as Hk. unfold zombie_ok in Hk |- *. cbn [fst snd] in *. destruct link.
    - destruct Hk as [rss Hc]. inversion Hc as [|? rs ? rss' Hc1 Hc2]; subst.
      destruct (follower_line_carries line rs i (s_follower s) Hf Hc1) as (Hf' & -> & _). split; [done|by exists rss'].
    - destruct Hk as [?|E]; [done|]. injection E as -> ->.
      destruct (follower_handshake i (s_follower s) Hf) as (Hf' & Hx & _). change (lit "__REPLSYNC__" ++ [newline]) with sync_request in *.
      rewrite Hx. split; [done|]. by exists []; constructor. }
  split; simpl; [done..|by apply Forall_insert|]. exists l. split; [done|]. split; [done|].
  unfold sender_ok in *. cbn [s_sender s_wire s_link s_ack s_follower]. destruct (s_sender s) as [| |idx|rem]; [done| | |].
  - destruct Hs as [Hst [Hw|(_ & ? & _)]]; [by split; [|left]|congruence].
  - destruct Hs as (_ & ? & _). congruence.
  - destruct Hs as (? & _). congruence.
Qed.

Lemma send_next_ok s l :
  sys_ok s -> s_sender s = SSync [] -> link_of j (s_leader s) = Some l ->
  let '(next, l') := next_line l in
  let st' := on_link j (fun _ => l') (s_leader s) in
  sys_ok (match next with
          | None => disconnect j st' s
          | Some line => mkSystem st' (SSync []) (s_wire s ++ [line]) (s_link s) (s_ack s) (s_zombies s) (s_follower s)
          end).
Proof.
  intros Hs Eph Hl. pose proof Hs as [Hld Hwm Hf Hz (l0 & Hl0 & Hq & Hsnd)].
  rewrite Hl in Hl0. injection Hl0 as <-. unfold next_line.
  destruct (l_stop l || resync_needed l); [by eapply disconnect_ok|].
  unfold sender_ok, in_flight in Hsnd. rewrite Eph in Hsnd. simpl in Hsnd.
  destruct Hsnd as (Hlk & rss & Hc & Ha).
  destruct (queue l) as [|line q] eqn:Eq; (split; simpl; [done..|]).
  - exists l. split; [exact (link_of_on_link (fun _ => l) _ _ Hl)|]. split; [done|].
    unfold sender_ok, in_flight. simpl. split; [done|]. rewrite Eq, app_nil_r in *.
    exists (rss ++ [[]]). split; [apply Forall2_app; [done|]; repeat constructor|].
    rewrite join_app. unfold mjoin at 2. simpl. by rewrite app_nil_r.
  - exists (with_link q (streaming l) (resync_needed l) l).
    split; [exact (link_of_on_link (fun _ => with_link q (streaming l) (resync_needed l) l) _ _ Hl)|].
    split; [intros Hst; specialize (Hq Hst); congruence|].
    unfold sender_ok, in_flight. simpl. split; [done|]. exists rss. by rewrite <- (assoc_L (++)).
Qed.

(** What a run may contain: operations a client's line can ask for; a leader that can
    open its own data file; and lines of abandoned connections only while the present
    connection's handshake has not been executed. *)
Definition allowed (s : system) (a : act_on) : Prop :=
  match a with
  | RWrite o => data_op o /\ wire_op o
  | RRead opened => opened = true
  | RZombie _ _ => s_link s = false
  | _ => True
  end.

Fixpoint orderly (s : system) (l : list act_on) : Prop :=
  match l with
  | [] => True
  | a :: l' => allowed s a /\ forall s', sys_step j s a = Some s' -> orderly s' l'
  end.

Lemma sys_step_ok s a s' : sys_ok s -> allowed s a -> sys_step j s a = Some s' -> sys_ok s'.
Proof.
  intros Hs Ha. unfold sys_step. destruct a as [o| |i| |opened| | | |k i].
  - intros [= <-]. destruct Ha. by apply write_ok.
  - destruct (s_sender s) as [| |idx|rest] eqn:Eph; try done. intros [= <-].
    destruct Hs as [Hld Hwm Hf Hz (l & Hl & Hq & Hsnd)]. split; simpl; [done..|].
    exists l. split; [done|]. split; [done|]. unfold sender_ok in *. rewrite Eph in Hsnd. simpl.
    split; [apply Hsnd|by left].
  - destruct (s_wire s) as [|line wire] eqn:Ew; [done|]. intros [= <-]. by apply execute_ok.
  - destruct (s_sender s) as [| |idx|rest] eqn:Eph; try done. case_bool_decide as Eok; [|done].
    pose proof (cut_ok s Hs Eph Eok) as Hc. destruct (snapshot_locked _ (s_leader s)) as [c st']. by intros [= <-].
  - destruct (s_sender s) as [| |idx|rest] eqn:Eph; try done. simpl in Ha. subst opened. intros [= <-]. by apply read_ok.
  - destruct (s_sender s) as [| |idx|[|line rest]] eqn:Eph; try done. intros [= <-]. by apply send_snapshot_ok.
  - destruct (s_sender s) as [| |idx|[|line rest]] eqn:Eph; try done.
    destruct (link_of j (s_leader s)) as [l|] eqn:El; [|done].
    pose proof (send_next_ok s l Hs Eph El) as Hn. destruct (next_line l) as [[line|] l']; by intros [= <-].
  - destruct (s_sender s) as [| |idx|rest] eqn:Eph; try done; intros [= <-]; by apply drop_ok.
  - destruct (s_zombies s !! k) as [[link [|line rest]]|] eqn:Ek; try done. intros [= <-]. by apply zombie_step_ok.
Qed.

(** Induction on a run that keeps to the rules. *)
Lemma run_ind (P : system -> Prop) s l s' :
  (forall s a s', sys_ok s -> P s -> allowed s a -> sys_step j s a = Some s' -> P s') ->
  sys_ok s -> P s -> orderly s l -> sys_run j s l = Some s' -> sys_ok s' /\ P s'.
Proof.
  intros Hstep. revert s. induction l as [|a l IH]; intros s Hs Hp Hl E; cbn in *; [by injection E as <-|].
  destruct Hl as [Ha Hl]. destruct (sys_step j s a) as [s1|] eqn:E1; [|done]. cbn in E.
  apply (IH s1); [by eapply sys_step_ok|by eapply Hstep|by apply Hl|done].
Qed.

Lemma sys_run_ok s l s' : sys_ok s -> orderly s l -> sys_run j s l = Some s' -> sys_ok s'.
Proof. intros Hs Hl E. by apply (run_ind (fun _ => True) s l s'). Qed.

(** While a link is streaming, what is in flight leads to the leader's data. *)
Lemma streaming_leads s l :
  sys_ok s -> link_of j (s_leader s) = Some l -> streaming l = true ->
  leads (in_flight s l) l (data_of (s_follower s)) (s_leader s).
Proof.
  intros [Hld Hwm Hf Hz (l' & Hl' & Hq & Hs)] Hl Hst. rewrite Hl in Hl'. injection Hl' as <-.
  unfold sender_ok in Hs. destruct (s_sender s) as [| |idx|rest] eqn:Eph; [by destruct Hs; congruence..| |apply Hs].
  destruct Hs as (Ew & Hlk & Hfe & d & i & m & Ed & -> & Hio & Hm & Hle).
  unfold in_flight. rewrite Ew, Hfe, Eph. unfold data_file. rewrite Ed.
  apply (leads_snapshot _ l m); [by apply read_entries_perm|done|done].
Qed.

(** The system before the sender's first connection. *)
Definition initial (leader follower : node) : system := mkSystem leader SDown [] false None [] follower.

Lemma initial_ok (leader follower : node) l :
  holds leader (data_of leader) -> sendable_map (data_of leader) -> replica_ok follower ->
  link_of j leader = Some l -> streaming l = false -> queue l = [] -> sys_ok (initial leader follower).
Proof. intros. split; simpl; [done..|]. exists l. split; [done|]. split; [done|]. done. Qed.

(** C3: replication converges to a replica that neither evicts nor fails.  The replica
    is an unbounded cache, with a log that does not fail or none, or the on-disk
    engine on a disk that does not fail; the leader can open its data file for each
    snapshot; and the follower has finished with the lines of abandoned connections
    by the time it executes the next handshake.  Then, after any run of writes on the
    leader, handshakes, snapshots, streaming, backlog overflows, lost connections,
    lines executed after their connection was given up, and resynchronizations:
    whenever the link is streaming and nothing is queued or on the wire, the follower
    holds exactly the leader's data; and at every moment of streaming, what is under
    way would turn the follower's data into the leader's.  Each of the two may keep
    its data in the cache or in the on-disk engine, whose values the leader reads
    after the cut, from a file that is still being written. *)
Theorem replication_converges (leader follower : node) l0 run s l :
  holds leader (data_of leader) -> sendable_map (data_of leader) -> replica_ok follower ->
  link_of j leader = Some l0 -> streaming l0 = false -> queue l0 = [] ->
  orderly (initial leader follower) run -> sys_run j (initial leader follower) run = Some s ->
  link_of j (s_leader s) = Some l -> streaming l = true ->
  (exists rss, Forall2 carries (in_flight s l) rss /\
     apply_records (data_of (s_follower s)) (mjoin rss) = data_of (s_leader s)) /\
  (in_flight s l = [] -> data_of (s_follower s) = data_of (s_leader s)).
Proof.
  intros Hld Hwm Hf Hl0 Hst0 Hq0 Hrun E Hl Hst.
  pose proof (sys_run_ok _ _ _ (initial_ok leader follower l0 Hld Hwm Hf Hl0 Hst0 Hq0) Hrun E) as Hok.
  destruct (streaming_leads s l Hok Hl Hst) as (rss & Hc & Ha). split; [by exists rss; auto|].
  intros Hnil. rewrite Hnil in Hc. inversion Hc; subst. by apply Ha.
Qed.
(** ** A line executed too late *)

(** Streaming with nothing to send, but for heartbeats. *)
Definition idle (s : system) : Prop :=
  s_sender s = SSync [] /\ s_link s = true /\ Forall (eq ping_line) (s_wire s) /\
  exists l, link_of j (s_leader s) = Some l /\ streaming l = true /\ queue l = [] /\ l_stop l = false /\ resync_needed l = false.

Definition heartbeat (a : act_on) : Prop := match a with RSendNext | RExecute _ => True | _ => False end.

Lemma heartbeat_idle s a s' :
  idle s -> replica_ok (s_follower s) -> heartbeat a -> sys_step j s a = Some s' ->
  idle s' /\ replica_ok (s_follower s') /\ data_of (s_leader s') = data_of (s_leader s) /\
  data_of (s_follower s') = data_of (s_follower s).
Proof.
  intros (Eph & Elk & Hw & l & Hl & Hst & Hq & Hstop & Hre) Hf Ha E. unfold sys_step in E. rewrite Eph in E. destruct a; try done.
  - destruct (s_wire s) as [|line wire]; [done|]. apply Forall_cons in Hw as [<- Hw]. rewrite Elk in E. injection E as <-.
    split; [|done]. split; [done|]. split; [done|]. split; [done|]. by exists l.
  - rewrite Hl in E. unfold next_line in E. rewrite Hstop, Hre, Hq in E. injection E as <-. cbn [s_leader s_follower].
    split; [|done]. unfold idle. cbn. split; [done|]. split; [done|]. split; [apply Forall_app; by repeat constructor|].
    exists l. split; [exact (link_of_on_link (fun _ => l) _ _ Hl)|done].
Qed.

Lemma heartbeats_idle s l s' :
  idle s -> replica_ok (s_follower s) -> Forall heartbeat l -> sys_run j s l = Some s' ->
  idle s' /\ data_of (s_leader s') = data_of (s_leader s) /\ data_of (s_follower s') = data_of (s_follower s).
Proof.
  intros Hs Hf Hl. revert s Hs Hf. induction Hl as [|a l Ha _ IH]; intros s Hs Hf E; cbn in E; [by injection E as <-|].
  destruct (sys_step j s a) as [s1|] eqn:E1; [|done]. cbn in E.
  destruct (heartbeat_idle s a s1 Hs Hf Ha E1) as (Hs1 & Hf1 & <- & <-). by apply IH.
Qed.

(** C39: an abandoned link can overwrite newer data.  Nothing on the follower ends
    an earlier replica link when a new handshake arrives.  Take any state of any run
    of [replication_converges], idle and converged.  If a worker of the follower now
    executes a SET that it was sent on an abandoned connection, of a value the key no
    longer has, the follower holds the old value.  The link is still streaming and
    idle, and neither the leader nor its heartbeats notice: however long they go on,
    the leader's data stays as it is and the follower keeps the old value. *)
Theorem stale_link_diverges (leader follower : node) l0 run s k key v rest i :
  holds leader (data_of leader) -> sendable_map (data_of leader) -> replica_ok follower ->
  link_of j leader = Some l0 -> streaming l0 = false -> queue l0 = [] ->
  orderly (initial leader follower) run -> sys_run j (initial leader follower) run = Some s ->
  idle s -> s_zombies s !! k = Some (true, set_line key v :: rest) -> sendable (RSet key v) ->
  data_of (s_leader s) !! key <> Some v ->
  exists s', sys_step j s (RZombie k i) = Some s' /\
    forall beats s2, Forall heartbeat beats -> sys_run j s' beats = Some s2 ->
      idle s2 /\ data_of (s_leader s2) = data_of (s_leader s) /\ data_of (s_follower s2) !! key = Some v /\
      data_of (s_follower s2) <> data_of (s_leader s2).
Proof.
  intros Hld Hwm Hf Hl0 Hst0 Hq0 Hrun E Hidle Hk Hs Hne.
  pose proof (sys_run_ok _ _ _ (initial_ok leader follower l0 Hld Hwm Hf Hl0 Hst0 Hq0) Hrun E) as [_ _ Hfo _ _].
  cbn [sys_step]. rewrite Hk. eexists. split; [reflexivity|]. intros beats s2 Hb E2.
  destruct (follower_line_carries (set_line key v) [RSet key v] i (s_follower s) Hfo (carries_record (RSet key v) Hs)) as (Hf' & _ & Hd).
  set (x := follower_line _ true i _) in *. clearbody x. apply heartbeats_idle in E2 as (Hi & -> & ->); [|done..].
  cbn [s_leader s_follower]. rewrite Hd. cbn. split; [done|]. split; [done|]. rewrite lookup_insert_eq. split; [done|].
  intros Eq. apply Hne. rewrite <- Eq. apply lookup_insert_eq.
Qed.
End correctness.

(** ** Concrete runs *)

#[local] Existing Instance list_iter.

Definition demo_leader : node :=
  attach_replicator (Some (replicator_start (replicator_new [lit "127.0.0.1:7001"]))) (storage_new 0).
Definition demo_link : Link := new_link (lit "127.0.0.1") 7001.
Definition demo_sync : list act_on :=
  [RWrite (OpSet (lit "x") (lit "0")); RConnect; RExecute demo_instant; RCut; RWrite (OpSet (lit "x") (lit "1"));
   RSendSnapshot; RExecute demo_instant; RSendNext; RExecute demo_instant].
Definition demo_synced : system :=
  default (initial demo_leader (storage_new 0)) (sys_run 0 (initial demo_leader (storage_new 0)) demo_sync).

(** A leader on the on-disk engine, which is written to between the cut and the
    reading of its values. *)
Definition demo_disk : node := (open_disk_backend [] [] demo_leader).2.
Definition demo_disk_sync : list act_on :=
  [RWrite (OpSet (lit "x") (lit "0")); RConnect; RExecute demo_instant; RCut; RWrite (OpSet (lit "x") (lit "1"));
   RRead true; RSendSnapshot; RExecute demo_instant; RSendNext; RDrop].

(** The connection is lost with a line under way, which is executed before the next
    handshake. *)
Definition demo_disk_resync : list act_on :=
  [RConnect; RZombie 0 demo_instant; RExecute demo_instant; RCut; RRead true; RSendSnapshot; RExecute demo_instant].
Definition demo_disk_synced : system :=
  default (initial demo_disk (storage_new 0)) (sys_run 0 (initial demo_disk (storage_new 0)) (demo_disk_sync ++ demo_disk_resync)).

Lemma demo_disk_holds : holds demo_disk ∅.
Proof. exact (opened_on_inv [] []). Qed.

Lemma demo_follower_ok : replica_ok (storage_new 0).
Proof. split; [split; [apply lru_ok_nil|done]|done]. Qed.

Lemma demo_disk_run :
  sys_run 0 (initial demo_disk (storage_new 0)) (demo_disk_sync ++ demo_disk_resync) = Some demo_disk_synced /\
  link_of 0 demo_disk = Some demo_link /\ link_of 0 (s_leader demo_disk_synced) = Some (begin_stream demo_link) /\
  in_flight demo_disk_synced (begin_stream demo_link) = [].
Proof. split; [by vm_compute|]. split; [by vm_compute|]. split; by vm_compute. Qed.

Definition harmless (a : act_on) : Prop :=
  match a with RWrite o => data_op o /\ wire_op o | RRead opened => opened = true | RZombie _ _ => False | _ => True end.

Lemma orderly_harmless j s l : Forall harmless l -> orderly j s l.
Proof.
  intros Hl. revert s. induction Hl as [|a l Ha _ IH]; intros s; [done|]. split; [by destruct a|]. intros s' _. apply IH.
Qed.

Lemma orderly_app j s l s1 l' : orderly j s l -> sys_run j s l = Some s1 -> orderly j s1 l' -> orderly j s (l ++ l').
Proof.
  revert s. induction l as [|a l IH]; intros s Hl E Hl'; cbn in *; [by injection E as ->|].
  destruct Hl as [Ha Hl]. split; [done|]. intros s' Es. rewrite Es in E. cbn in E. by apply IH; [apply Hl|..].
Qed.

Lemma demo_disk_allowed : orderly 0 (initial demo_disk (storage_new 0)) (demo_disk_sync ++ demo_disk_resync).
Proof.
  change (demo_disk_sync ++ demo_disk_resync) with ((demo_disk_sync ++ [RConnect]) ++ drop 1 demo_disk_resync).
  eapply orderly_app; [apply orderly_harmless; repeat constructor; try by_word; done|by vm_compute|].
  split; [done|]. intros s' _. apply orderly_harmless. by repeat constructor.
Qed.

Lemma replication_converges_witness :
  in_flight demo_disk_synced (begin_stream demo_link) = [] /\
  data_of (s_follower demo_disk_synced) = data_of (s_leader demo_disk_synced).
Proof.
  destruct demo_disk_run as (Hrun & Hl0 & Hl & Hnil). split; [exact Hnil|].
  assert (data_of demo_disk = ∅) as Hd by exact (holds_data _ _ demo_disk_holds).
  assert (holds demo_disk (data_of demo_disk)) as Hh by (rewrite Hd; exact demo_disk_holds).
  assert (sendable_map (data_of demo_disk)) as Hm by (rewrite Hd; apply map_Forall_empty).
  exact (proj2 (replication_converges 0 demo_disk (storage_new 0) demo_link (demo_disk_sync ++ demo_disk_resync) demo_disk_synced
    (begin_stream demo_link) Hh Hm demo_follower_ok Hl0 eq_refl eq_refl demo_disk_allowed Hrun Hl eq_refl) Hnil).
Defined.

(** A write is on the wire when the connection is lost; another follows, and the new
    synchronization. *)
Definition demo_stale_run : list act_on :=
  [RWrite (OpSet (lit "x") (lit "0")); RConnect; RExecute demo_instant; RCut; RSendSnapshot; RExecute demo_instant;
   RWrite (OpSet (lit "x") (lit "1")); RSendNext; RDrop; RWrite (OpSet (lit "x") (lit "2"));
   RConnect; RExecute demo_instant; RCut; RSendSnapshot; RExecute demo_instant].
Definition demo_stale : system :=
  default (initial demo_leader (storage_new 0)) (sys_run 0 (initial demo_leader (storage_new 0)) demo_stale_run).

Lemma stale_link_diverges_witness :
  data_of (s_follower demo_stale) = {[ lit "x" := lit "2" ]} /\
  exists s', sys_step 0 demo_stale (RZombie 0 demo_instant) = Some s' /\
    forall beats s2, Forall heartbeat beats -> sys_run 0 s' beats = Some s2 ->
      idle 0 s2 /\ data_of (s_leader s2) = data_of (s_leader demo_stale) /\
      data_of (s_follower s2) !! lit "x" = Some (lit "1") /\ data_of (s_follower s2) <> data_of (s_leader s2).
Proof.
  split; [by vm_compute|].
  assert (holds demo_leader (data_of demo_leader)) as Hh by (split; [apply lru_ok_nil|done]).
  assert (sendable_map (data_of demo_leader)) as Hm by apply map_Forall_empty.
  assert (orderly 0 (initial demo_leader (storage_new 0)) demo_stale_run) as Ho
    by (apply orderly_harmless; repeat constructor; try by_word; done).
  assert (sys_run 0 (initial demo_leader (storage_new 0)) demo_stale_run = Some demo_stale) as Hr by by vm_compute.
  assert (idle 0 demo_stale) as Hi.
  { split; [by vm_compute|]. split; [by vm_compute|]. split; [by vm_compute; constructor|]. eexists. by repeat split. }
  assert (s_zombies demo_stale !! 0%nat = Some (true, [set_line (lit "x") (lit "1")])) as Hz by by vm_compute.
  assert (sendable (RSet (lit "x") (lit "1"))) as Hs by (repeat split; try by_word; done).
  assert (data_of (s_leader demo_stale) !! lit "x" <> Some (lit "1")) as Hne by by vm_compute.
  exact (stale_link_diverges 0 demo_leader (storage_new 0) demo_link demo_stale_run demo_stale 0 (lit "x") (lit "1") []
    demo_instant Hh Hm demo_follower_ok eq_refl eq_refl eq_refl Ho Hr Hi Hz Hs Hne).
Defined.

(** A bounded replica evicts on its own.  A replica started with the leader's
    capacity executes each forwarded SET like a client's, so it evicts the key that
    is least recently used by its own order, which the snapshot has reversed, and
    then also the key whose eviction the leader forwards.  Two keys, a
    synchronization and one more key: the link is streaming and idle, the leader
    holds two keys and the replica one. *)
Theorem bounded_replica_diverges :
  let leader := attach_replicator (Some (replicator_start (replicator_new [lit "127.0.0.1:7001"]))) (storage_new 2) in
  exists s l, sys_run 0 (initial leader (storage_new 2))
    [RWrite (OpSet (lit "a") (lit "1")); RWrite (OpSet (lit "b") (lit "2")); RConnect; RExecute demo_instant; RCut;
     RSendSnapshot; RSendSnapshot; RExecute demo_instant; RExecute demo_instant;
     RWrite (OpSet (lit "c") (lit "3")); RSendNext; RSendNext; RExecute demo_instant; RExecute demo_instant] = Some s /\
    link_of 0 (s_leader s) = Some l /\ streaming l = true /\ in_flight s l = [] /\
    entries (s_leader s) = [(lit "c", lit "3"); (lit "b", lit "2")] /\ entries (s_follower s) = [(lit "c", lit "3")].
Proof.
  eexists _, _. split; [by vm_compute|]. split; [by vm_compute|]. split; [reflexivity|].
  split; [reflexivity|]. split; by vm_compute.
Qed.

(** A leader that cannot open its data file synchronizes nothing.  The snapshot
    is then empty, and is sent as if it were complete: the link is streaming and
    idle, the leader holds a key and the follower, which has dropped its own data
    for the handshake, holds none. *)
Theorem unopened_snapshot_diverges :
  exists s l, sys_run 0 (initial demo_disk (storage_new 0))
    [RWrite (OpSet (lit "x") (lit "0")); RConnect; RExecute demo_instant; RCut; RRead false; RSendNext;
     RExecute demo_instant] = Some s /\
    link_of 0 (s_leader s) = Some l /\ streaming l = true /\ in_flight s l = [] /\
    (storage_get (lit "x") (s_leader s)).1 = Some (lit "0") /\ (storage_get (lit "x") (s_follower s)).1 = None.
Proof.
  eexists _, _. split; [by vm_compute|]. split; [by vm_compute|]. split; [reflexivity|].
  split; [reflexivity|]. split; by vm_compute.
Qed.
