(* ===== verification/ReplicaReads.v ===== *)
(** * What a replica shows (src/replication.cpp, src/command.cpp)

    The system of [Replication] with a log on the side: the records of all writes of
    the leader, and how far a follower has come in it.  A client that reads from the
    replica once it is synchronized sees the leader's data as it was at some moment,
    and never an older moment after a newer one. *)

From S2P Require Import Prelude Stream Records Interfaces DiskStore Storage StorageCorrect.
From S2P Require Import Wal Replicator Recovery Address Net Raft Command Standalone Replication.

Local Open Scope Z_scope.

Section reads.
Context `{UnorderedIter} (j : nat).

(** ** The log, and the follower's place in it *)

(** [w_place]: after a snapshot has been cut on the present connection, how many of
    its lines the follower has still to execute, and the number of records of the
    log that the snapshot and the lines executed since amount to. *)
Record watched := mkWatched {
  w_sys : system;
  w_log : list record;
  w_place : option (nat * nat);
}.

(** The records of a client's operation on the leader: what it does to the data, and
    what it hands to the replicator. *)
Definition records_of (o : op) (st : Replication.node) (rs : list record) : Prop :=
  holds (run_op st o) (apply_records (data_of st) rs) /\
  forwards (replicator_ st) (replicator_ (run_op st o)) rs /\ Forall (from_op (data_of st) o) rs.

Definition is_down (ph : sender) : bool := if ph is SDown then true else false.

(** The follower's place after an action that is no write. *)
Definition place_after (a : act_on) (s s' : system) (log : list record) (p : option (nat * nat)) : option (nat * nat) :=
  if is_down (s_sender s') then None
  else
    match a, s_sender s', p with
    | RCut, SSync lines, _ => Some (length lines, length log)
    | RCut, SRead idx, _ => Some (S (length idx), length log)   (* the file is still to be read *)
    | RRead _, SSync lines, Some (_, q) => Some (length lines, q)
    | RExecute _, _, Some (S rem, q) => Some (rem, q)
    | RExecute _, _, Some (O, q) => Some (O, if head (s_wire s) =?b Some ping_line then q else S q)
    | _, _, _ => p
    end.

Inductive watch (x : watched) : watched -> Prop :=
  | watch_write o rs s' :
      sys_step j (w_sys x) (RWrite o) = Some s' -> data_op o -> wire_op o -> records_of o (s_leader (w_sys x)) rs ->
      watch x (mkWatched s' (w_log x ++ rs) (w_place x))
  | watch_other a s' :
      sys_step j (w_sys x) a = Some s' -> allowed (w_sys x) a -> (forall o, a <> RWrite o) ->
      watch x (mkWatched s' (w_log x) (place_after a (w_sys x) s' (w_log x) (w_place x))).

(** ** The invariant *)

Section place.
Context (m0 : gmap bytes bytes).

(** What is queued and sent after the snapshot carries the log from the follower's
    place on, all of it while the link is streaming. *)
Definition follows (lines : list bytes) (l : Link) (todo : list record) : Prop :=
  exists rss, Forall2 carries lines rss /\ mjoin rss `prefix_of` todo /\ (streaming l = true -> mjoin rss = todo).

Definition at_moment (q : nat) (log : list record) : gmap bytes bytes := apply_records m0 (take q log).

Definition place_ok (s : system) (l : Link) (log : list record) (p : option (nat * nat)) : Prop :=
  match s_sender s, p with
  | (SDown | SWait), None => True
  | SRead idx, Some (S _, q) =>
      (q <= length log)%nat /\
      (exists d i, disk_ (s_leader s) = Some d /\ idx = iter_order i /\ index_of (d_data d) i (at_moment q log)) /\
      sendable_map (at_moment q log) /\ follows (queue l) l (drop q log)
  | SSync rest, Some (rem, q) =>
      (q <= length log)%nat /\
      exists snap sent rss, s_wire s ++ rest = snap ++ sent /\ length snap = rem /\ Forall2 carries snap rss /\
        apply_records (data_of (s_follower s)) (mjoin rss) = at_moment q log /\ follows (sent ++ queue l) l (drop q log)
  | _, _ => False
  end.

Record watched_ok (x : watched) : Prop := {
  wo_sys : sys_ok j (w_sys x);
  wo_log : data_of (s_leader (w_sys x)) = apply_records m0 (w_log x);
  wo_place : forall l, link_of j (s_leader (w_sys x)) = Some l -> place_ok (w_sys x) l (w_log x) (w_place x);
}.

Lemma at_moment_app q log rs : (q <= length log)%nat -> at_moment q (log ++ rs) = at_moment q log.
Proof. intros Hq. unfold at_moment. by rewrite take_app_le. Qed.

Lemma follows_write lines l todo rs :
  let l' := foldl (fun l rec => enqueue_link (wire_line rec) l) l rs in
  (streaming l = false -> queue l = []) -> Forall sendable rs ->
  follows (lines ++ queue l) l todo -> follows (lines ++ queue l') l' (todo ++ rs).
Proof.
  intros l' Hq Hrs (rss & Hc & Hp & Ha). destruct (enqueue_all rs l Hq) as [He1 He2]. fold l' in He1, He2.
  destruct (streaming l') eqn:E.
  - destruct (He1 eq_refl) as [Es ->]. exists (rss ++ ((fun r => [r]) <$> rs)). split.
    + rewrite (assoc_L (++)). apply Forall2_app; [done|by apply carries_records].
    + rewrite join_app, concat_singletons, (Ha Es). done.
  - rewrite (He2 eq_refl), app_nil_r. apply Forall2_app_inv_l in Hc as (rss1 & rss2 & Hc1 & _ & ->).
    exists rss1. split; [done|]. split; [|by rewrite E]. rewrite join_app in Hp.
    etrans; [by eexists|]. etrans; [exact Hp|by eexists].
Qed.

(** The link after a write, for the records of that write. *)
Lemma link_of_write o (st : Replication.node) rs l :
  records_of o st rs -> link_of j st = Some l ->
  link_of j (run_op st o) = Some (foldl (fun l rec => enqueue_link (wire_line rec) l) l rs).
Proof.
  intros (_ & Hfw & _) Hl. unfold link_of in *. rewrite Hfw. destruct (replicator_ st) as [r|]; [|done]. simpl in *.
  by rewrite links_enqueue, Hl.
Qed.

Lemma write_watched x o rs s' :
  watched_ok x -> sys_step j (w_sys x) (RWrite o) = Some s' -> data_op o -> wire_op o ->
  records_of o (s_leader (w_sys x)) rs -> watched_ok (mkWatched s' (w_log x ++ rs) (w_place x)).
Proof.
  intros [Hs Hlog Hp] E Ho Hw Hrs. pose proof (sys_step_ok j _ _ _ Hs (conj Ho Hw : allowed (w_sys x) (RWrite o)) E) as Hs'.
  injection E as <-. pose proof Hrs as (Hh & _ & Hfrom). apply holds_data in Hh as Hd.
  destruct Hs as [Hld Hwm _ _ (l & Hl & Hq & _)]. specialize (Hp l Hl).
  destruct (sendable_map_records _ _ _ Hwm Ho Hw Hfrom) as [Hsr _].
  pose proof (fun lines todo => follows_write lines l todo rs Hq Hsr) as Hf.
  pose proof (link_of_write o _ rs l Hrs Hl) as Hl'. cbv zeta in Hf. set (l' := foldl _ l rs) in *.
  split; cbn [w_sys w_log w_place s_leader]; [done| |].
  - rewrite Hd, Hlog. unfold apply_records. by rewrite foldl_app.
  - intros l1 Hl1. rewrite Hl' in Hl1. injection Hl1 as <-. unfold place_ok in *. cbn [s_sender s_wire s_follower s_leader].
    destruct (s_sender (w_sys x)) as [| |idx|rest], (w_place x) as [[rem q]|]; try done.
    + destruct rem as [|rem]; [done|]. destruct Hp as (Hlen & (d & i & Ed & Ei & Hio) & Hm & Hfo). rewrite at_moment_app, drop_app_le by done.
      destruct (run_op_appends (s_leader (w_sys x)) o d Ed Ho) as (d' & y & Ed' & Ey).
      split; [rewrite length_app; lia|]. split; [|split; [done|by apply (Hf [])]]. exists d', i.
      split; [done|]. split; [done|]. rewrite Ey. by apply index_of_app.
    + destruct Hp as (Hlen & snap & sent & rss & Ew & Erem & Hc & Ha & Hfo). rewrite at_moment_app, drop_app_le by done.
      split; [rewrite length_app; lia|]. exists snap, sent, rss. do 4 (split; [done|]). by apply Hf.
Qed.

Lemma at_moment_next q log r rest : drop q log = r :: rest -> at_moment (S q) log = apply_record (at_moment q log) r.
Proof.
  intros E. assert (log !! q = Some r) as Hr by (rewrite <- (Nat.add_0_r q), <- lookup_drop, E; done).
  unfold at_moment, apply_records. rewrite (take_S_r _ _ _ Hr), foldl_app. done.
Qed.

Lemma wire_line_not_ping r : wire_line r <> ping_line.
Proof. destruct r as [k v|k]; [by intros [=]|by intros [=]]. Qed.

Lemma execute_watched x i s' :
  watched_ok x -> sys_step j (w_sys x) (RExecute i) = Some s' ->
  watched_ok (mkWatched s' (w_log x) (place_after (RExecute i) (w_sys x) s' (w_log x) (w_place x))).
Proof.
  intros [Hs Hlog Hp] E. pose proof (sys_step_ok j _ _ _ Hs (I : allowed (w_sys x) (RExecute i)) E) as Hs'.
  cbn [sys_step] in E. destruct (s_wire (w_sys x)) as [|line wire] eqn:Ew; [done|]. injection E as <-.
  split; cbn [w_sys w_log w_place s_leader]; [done|done|]. intros l Hl. specialize (Hp l Hl).
  destruct Hs as [_ _ Hf _ (l' & Hl' & _ & Hsnd)]. rewrite Hl in Hl'. injection Hl' as <-.
  unfold place_ok, place_after, sender_ok in *. rewrite Ew in *. cbn [s_sender s_wire s_follower s_leader head].
  destruct (s_sender (w_sys x)) as [| |idx|rest], (w_place x) as [[rem q]|]; cbn [is_down]; try done.
  { by destruct Hsnd. }
  destruct Hp as (Hlen & snap & sent & rss & Esn & <- & Hc & Ha & Hfo). destruct Hsnd as [-> _]. cbn [app] in Esn.
  destruct snap as [|line' snap].
  - cbn [app] in Esn. subst sent. destruct Hfo as (rss2 & Hc2 & Hpre & Hall). cbn [app] in Hc2.
    inversion Hc2 as [|? rs ? rss' Hc1 Hc3]; subst. inversion Hc; subst. cbn [mjoin list_join] in Ha.
    change (mjoin (rs :: rss')) with (rs ++ mjoin rss') in *.
    destruct (follower_line_carries line rs i (s_follower (w_sys x)) Hf Hc1) as (_ & _ & Hd).
    set (y := follower_line line true i _) in *. clearbody y. unfold apply_records in Ha. cbn [foldl] in Ha. rewrite Ha in Hd.
    destruct Hc1 as [r Hr|].
    + rewrite bool_decide_eq_false_2 by (intros [= E]; by apply wire_line_not_ping in E).
      destruct Hpre as [todo Etodo]. cbn [app] in Etodo.
      assert (drop (S q) (w_log x) = mjoin rss' ++ todo) as Edrop
        by (rewrite <- Nat.add_1_r, <- drop_drop, Etodo; done).
      split; [assert (length (drop q (w_log x)) <> 0%nat) as Hne by (by rewrite Etodo); rewrite length_drop in Hne; lia|].
      exists [], (wire ++ rest), []. do 3 (split; [done|]). split; [rewrite (at_moment_next _ _ _ _ Etodo); exact Hd|].
      exists rss'. split; [done|]. rewrite Edrop. split; [by eexists|]. intros Es. specialize (Hall Es).
      rewrite Etodo in Hall. by injection Hall.
    + rewrite bool_decide_eq_true_2 by done. split; [done|]. exists [], (wire ++ rest), []. do 3 (split; [done|]).
      split; [exact Hd|]. by exists rss'.
  - cbn [app] in Esn. injection Esn as -> Esn. inversion Hc as [|? rs ? rss' Hc1 Hc3]; subst.
    destruct (follower_line_carries line' rs i (s_follower (w_sys x)) Hf Hc1) as (_ & _ & Hd).
    set (y := follower_line line' true i _) in *. clearbody y. cbn [length]. split; [done|].
    exists snap, sent, rss'. do 3 (split; [done|]). split; [|done]. rewrite Hd, <- Ha.
    change (mjoin (rs :: rss')) with (rs ++ mjoin rss'). unfold apply_records. by rewrite foldl_app.
Qed.

Lemma cut_watched x s' :
  watched_ok x -> sys_step j (w_sys x) RCut = Some s' ->
  watched_ok (mkWatched s' (w_log x) (place_after RCut (w_sys x) s' (w_log x) (w_place x))).
Proof.
  intros [Hs Hlog Hp] E. pose proof (sys_step_ok j _ _ _ Hs (I : allowed (w_sys x) RCut) E) as Hs'.
  assert (at_moment (length (w_log x)) (w_log x) = data_of (s_leader (w_sys x))) as Hnow
    by (unfold at_moment; by rewrite take_ge, Hlog).
  cbn [sys_step] in E. destruct (s_sender (w_sys x)) as [| |idx|rest] eqn:Eph; try done.
  destruct (decide (s_ack (w_sys x) = Some (lit "OK"))) as [Eok|]; [|by rewrite bool_decide_eq_false_2 in E].
  rewrite bool_decide_eq_true_2 in E by done.
  destruct Hs as [Hld Hwm Hf _ (l & Hl & Hq & Hsnd)]. unfold sender_ok in Hsnd. rewrite Eph, Eok in Hsnd.
  destruct Hsnd as [_ [(_ & _ & ?)|(Ew & Hlk & Hv)]]; [done|]. unfold snapshot_locked in E.
  change (with_replicator (update_link j begin_stream <$> replicator_ (s_leader (w_sys x))) (s_leader (w_sys x)))
    with (on_link j begin_stream (s_leader (w_sys x))) in E.
  pose proof (link_of_on_link j begin_stream _ _ Hl) as Hl'.
  assert (follows [] (begin_stream l) (drop (length (w_log x)) (w_log x))) as Hfo
    by (exists []; rewrite drop_all; by split; [constructor|]).
  destruct (disk_ (s_leader (w_sys x))) as [d|] eqn:Ed; injection E as <-;
    (split; cbn [w_sys w_log w_place s_leader]; [done|done|]); intros l1 Hl1; rewrite Hl' in Hl1; injection Hl1 as <-;
    unfold place_ok, place_after; cbn [s_sender s_leader s_wire s_follower is_down]; rewrite Hnow; (split; [done|]).
  - split; [|split; [done|exact Hfo]]. exists d, (d_index d). split; [done|]. split; [done|].
    apply disk_inv_index. unfold holds in Hld. by rewrite Ed in Hld.
  - destruct (snapshot_carries (read_cut (CutItems (items_ (s_leader (w_sys x))).*2) None) (data_of (s_leader (w_sys x))))
      as (rss & Hc & Ha); [|done|].
    { unfold holds in Hld. rewrite Ed in Hld. destruct Hld as [[_ Hk _ _] <-]. symmetry. by apply map_to_list_to_map. }
    eexists _, [], rss. rewrite Ew, Hv, app_nil_r. split; [done|]. split; [done|]. split; [exact Hc|]. split; [exact Ha|exact Hfo].
Qed.

Lemma read_watched x s' :
  watched_ok x -> sys_step j (w_sys x) (RRead true) = Some s' ->
  watched_ok (mkWatched s' (w_log x) (place_after (RRead true) (w_sys x) s' (w_log x) (w_place x))).
Proof.
  intros [Hs Hlog Hp] E. pose proof (sys_step_ok j _ _ _ Hs (eq_refl : allowed (w_sys x) (RRead true)) E) as Hs'.
  cbn [sys_step] in E. destruct (s_sender (w_sys x)) as [| |idx|rest] eqn:Eph; try done. injection E as <-.
  split; cbn [w_sys w_log w_place s_leader]; [done|done|]. intros l Hl. specialize (Hp l Hl).
  destruct Hs as [_ _ _ _ (l' & Hl' & _ & Hsnd)]. rewrite Hl in Hl'. injection Hl' as <-.
  unfold place_ok, place_after, sender_ok in *. rewrite Eph in *. cbn [s_sender s_wire s_follower s_leader is_down].
  destruct (w_place x) as [[[|rem] q]|]; [done| |done]. destruct Hp as (Hlen & (d & i & Ed & -> & Hio) & Hm & Hfo).
  destruct Hsnd as (Ew & _ & Hv & _). split; [done|]. unfold data_file. rewrite Ed, Ew, Hv.
  destruct (snapshot_carries (read_cut (CutIndex (iter_order i)) (Some (d_data d))) (at_moment q (w_log x)))
    as (rss & Hc & Ha); [by apply read_entries_perm|done|].
  eexists _, [], rss. rewrite app_nil_r. split; [done|]. split; [done|]. split; [exact Hc|]. split; [exact Ha|exact Hfo].
Qed.

Lemma send_next_watched x s' :
  watched_ok x -> sys_step j (w_sys x) RSendNext = Some s' ->
  watched_ok (mkWatched s' (w_log x) (place_after RSendNext (w_sys x) s' (w_log x) (w_place x))).
Proof.
  intros [Hs Hlog Hp] E. pose proof (sys_step_ok j _ _ _ Hs (I : allowed (w_sys x) RSendNext) E) as Hs'.
  cbn [sys_step] in E. destruct (s_sender (w_sys x)) as [| |idx|[|]] eqn:Eph; try done.
  destruct (link_of j (s_leader (w_sys x))) as [l|] eqn:Hl; [|done]. specialize (Hp l eq_refl).
  unfold next_line in E. destruct (l_stop l || resync_needed l); [injection E as <-; by split|].
  unfold place_ok in Hp. rewrite Eph in Hp. destruct (w_place x) as [[rem q]|] eqn:Epl; [|done].
  destruct Hp as (Hlen & snap & sent & rss & Esn & Erem & Hc & Ha & rss2 & Hc2 & Hpre & Hall). rewrite app_nil_r in Esn.
  destruct (queue l) as [|line qu] eqn:Eq; injection E as <-; (split; cbn [w_sys w_log w_place s_leader]; [done|done|]);
    intros l1 Hl1; rewrite (link_of_on_link j _ _ _ Hl) in Hl1; injection Hl1 as <-;
    unfold place_ok, place_after; cbn [s_sender s_leader s_wire s_follower is_down]; (split; [done|]); exists snap.
  - exists (sent ++ [ping_line]), rss. rewrite app_nil_r, Esn, <- (assoc_L (++)). do 4 (split; [done|]).
    exists (rss2 ++ [[]]). rewrite Eq, app_nil_r in *. split; [apply Forall2_app; [done|]; repeat constructor|].
    rewrite join_app. unfold mjoin at 2 4. simpl. by rewrite app_nil_r.
  - exists (sent ++ [line]), rss. rewrite app_nil_r, Esn, <- (assoc_L (++)). do 4 (split; [done|]).
    exists rss2. by rewrite <- (assoc_L (++)).
Qed.

Lemma watch_ok x x' : watched_ok x -> watch x x' -> watched_ok x'.
Proof.
  intros Hx Hw. destruct Hw as [o rs s' E Ho Hw Hrs|a s' E Ha Hno]; [by eapply write_watched|].
  destruct a as [o| |i| |opened| | | |k i].
  - by destruct (Hno o).
  - pose proof Hx as [Hs Hlog Hp]. pose proof (sys_step_ok j _ _ _ Hs Ha E) as Hs'.
    cbn [sys_step] in E. destruct (s_sender (w_sys x)) eqn:Eph; try done. injection E as <-.
    split; [done|done|]. intros l Hl. specialize (Hp l Hl). unfold place_ok, place_after in *. rewrite Eph in Hp. simpl.
    by destruct (w_place x).
  - by apply execute_watched.
  - by apply cut_watched.
  - simpl in Ha. subst opened. by apply read_watched.
  - pose proof Hx as [Hs Hlog Hp]. pose proof (sys_step_ok j _ _ _ Hs Ha E) as Hs'.
    cbn [sys_step] in E. destruct (s_sender (w_sys x)) as [| |idx|[|line rest]] eqn:Eph; try done. injection E as <-.
    split; [done|done|]. intros l Hl. specialize (Hp l Hl). unfold place_ok, place_after in *. rewrite Eph in Hp. simpl.
    destruct (w_place x) as [[rem q]|]; [|done]. by rewrite <- (assoc_L (++)).
  - by apply send_next_watched.
  - pose proof Hx as [Hs Hlog Hp]. pose proof (sys_step_ok j _ _ _ Hs Ha E) as Hs'.
    cbn [sys_step] in E. destruct (s_sender (w_sys x)) eqn:Eph; try done; injection E as <-; by split.
  - pose proof Hx as [Hs Hlog Hp]. pose proof (sys_step_ok j _ _ _ Hs Ha E) as Hs'. cbn [allowed] in Ha.
    cbn [sys_step] in E. destruct (s_zombies (w_sys x) !! k) as [[link [|line rest]]|]; try done. injection E as <-.
    split; [done|done|]. intros l Hl. specialize (Hp l Hl). destruct Hs as [_ _ _ _ (l' & _ & _ & Hsnd)].
    unfold place_ok, place_after, sender_ok in *. cbn [s_sender]. destruct (s_sender (w_sys x)); cbn [is_down]; [done|done| |].
    + destruct Hsnd as (_ & ? & _). congruence.
    + destruct Hsnd as [? _]. congruence.
Qed.
End place.

(** A read on the replica. *)
Lemma replica_get (st : Replication.node) k link i :
  replica_ok st -> word k ->
  reply (execute_line (lit "GET " ++ k) st true link None i) = default (lit "(nil)") (data_of st !! k).
Proof.
  intros Hr Hk. destruct (parse_two (lit "GET") k) as (Et & Hne & Hp); [by_word|done|done|].
  change (lit "GET" ++ lit " " ++ k) with (lit "GET " ++ k) in *. change (to_upper (lit "GET")) with (lit "GET") in Hp.
  unfold execute_line. rewrite Et, Hp. rewrite bool_decide_eq_false_2 by done. cbn [andb]. destruct Hk as [Hk _].
  change (is_write (lit "GET")) with false. rewrite andb_false_r.
  destruct (usable_get st (data_of st) k Hr) as [E _]. unfold execute_data.
  rewrite (bool_decide_eq_false_2 (k = [])) by done. cbn. destruct (storage_get k st) as [o st']. cbn in *. subst o.
  by destruct (data_of st !! k).
Qed.

(** The follower's place moves forward. *)
Lemma place_forward x rest r q x' r' q' :
  s_sender (w_sys x) = SSync rest -> w_place x = Some (r, q) -> watch x x' -> w_place x' = Some (r', q') -> (q <= q')%nat.
Proof.
  intros Eph Epl Hw Epl'. destruct Hw as [o rs s' E _ _ _|a s' E _ Hno]; cbn [w_place] in Epl'; [rewrite Epl in Epl'; injection Epl'; lia|].
  unfold place_after in Epl'. rewrite Epl in Epl'. destruct (is_down (s_sender s')); [done|].
  destruct a; try (injection Epl'; lia).
  - destruct r; [case_bool_decide|]; injection Epl'; lia.
  - cbn [sys_step] in E. by rewrite Eph in E.
  - cbn [sys_step] in E. by rewrite Eph in E.
Qed.

(** C4: a synchronized replica shows the leader's past, in order.  Under the
    conditions of convergence (the replica neither evicts nor fails, the leader can
    open its data file, and the follower has finished with the lines of abandoned
    connections when it executes the next handshake), after any run of writes,
    handshakes, snapshots, streaming, overflows and reconnections, with the log of
    the records of all writes on the leader: once the follower has executed the
    snapshot of the present connection, its data, and so its answer to every GET, is
    the leader's after the first [q] records; [q] never goes back on a connection,
    and it is all of the log when nothing is under way on a streaming link. *)
Theorem replica_shows_past (leader follower : Replication.node) l0 x q :
  holds leader (data_of leader) -> sendable_map (data_of leader) -> replica_ok follower ->
  link_of j leader = Some l0 -> streaming l0 = false -> queue l0 = [] ->
  rtc watch (mkWatched (initial leader follower) [] None) x -> w_place x = Some (O, q) ->
  let past := apply_records (data_of leader) (take q (w_log x)) in
  data_of (s_leader (w_sys x)) = apply_records (data_of leader) (w_log x) /\
  data_of (s_follower (w_sys x)) = past /\
  (forall k link i, word k ->
     reply (execute_line (lit "GET " ++ k) (s_follower (w_sys x)) true link None i) = default (lit "(nil)") (past !! k)) /\
  (forall x' r q', watch x x' -> w_place x' = Some (r, q') -> (q <= q')%nat) /\
  (forall l, link_of j (s_leader (w_sys x)) = Some l -> streaming l = true -> in_flight (w_sys x) l = [] ->
     q = length (w_log x)).
Proof.
  intros Hld Hwm Hf Hl0 Hst0 Hq0 Hrun Epl past.
  assert (watched_ok (data_of leader) x) as Hx.
  { revert Hrun. apply (rtc_ind_r (watched_ok (data_of leader))); [|intros x1 x2 _ Hw Hx1; by eapply watch_ok].
    split; [by eapply initial_ok|done|done]. }
  pose proof Hx as [Hs Hlog Hp]. pose proof Hs as [_ _ Hrep _ (l & Hl & _)].
  pose proof (Hp l Hl) as Hpl. unfold place_ok in Hpl. rewrite Epl in Hpl. split; [done|].
  destruct (s_sender (w_sys x)) as [| |idx|rest] eqn:Eph; try done.
  destruct Hpl as (Hlen & snap & sent & rss & Esn & Erem & Hc & Ha & Hfo).
  destruct snap; [|done]. inversion Hc; subst rss. split; [exact Ha|].
  split; [intros k link i Hk; rewrite replica_get by done; do 2 f_equal; exact Ha|].
  split; [intros x' r q' Hw Epl'; by eapply place_forward|].
  intros l1 Hl1 Hst Hnil. rewrite Hl in Hl1. injection Hl1 as <-. destruct Hfo as (rss2 & Hc2 & _ & Hall).
  unfold in_flight in Hnil. rewrite Eph, (assoc_L (++)), Esn in Hnil. cbn [app] in Hnil. rewrite Hnil in Hc2.
  inversion Hc2; subst rss2. specialize (Hall Hst). apply (f_equal length) in Hall. rewrite length_drop in Hall.
  cbn in Hall. lia.
Qed.
End reads.

(** ** A concrete run: a replica one write behind *)

#[local] Existing Instance list_iter.

(** The watched system after an action, with the records if it is a write. *)
Definition watch_act (a : act_on) (rs : list record) (x : watched) : watched :=
  match sys_step 0 (w_sys x) a with
  | None => x
  | Some s' =>
      mkWatched s' (w_log x ++ rs) (if a is RWrite _ then w_place x else place_after a (w_sys x) s' (w_log x) (w_place x))
  end.

Lemma watch_act_other a x :
  is_Some (sys_step 0 (w_sys x) a) -> allowed (w_sys x) a -> (if a is RWrite _ then false else true) = true ->
  watch 0 x (watch_act a [] x).
Proof.
  intros [s' E] Ha Hno. unfold watch_act. rewrite E, app_nil_r. destruct a; try done; by apply (watch_other 0 x).
Qed.

Lemma watch_act_set k v x :
  let st := s_leader (w_sys x) in
  replica_ok st -> word k -> text v -> valid_field k -> valid_field v -> one_line v ->
  forwards (replicator_ st) (replicator_ (run_op st (OpSet k v))) [RSet k v] ->
  watch 0 x (watch_act (RWrite (OpSet k v)) [RSet k v] x).
Proof.
  intros st Hr Hk Hv Vk Vv Hn Hf. unfold watch_act.
  apply (watch_write 0 x (OpSet k v)); [done|by split|by split|].
  destruct (usable_set st _ k v Hr Vk Vv) as [_ [Hh _]]. split; [exact Hh|]. split; [exact Hf|]. by repeat constructor.
Qed.

Definition demo_start : watched := mkWatched (initial demo_leader (storage_new 0)) [] None.
Definition demo_first : watched := watch_act (RWrite (OpSet (lit "x") (lit "0"))) [RSet (lit "x") (lit "0")] demo_start.
Definition demo_cut : watched :=
  watch_act RCut [] (watch_act (RExecute demo_instant) [] (watch_act RConnect [] demo_first)).
Definition demo_second : watched := watch_act (RWrite (OpSet (lit "x") (lit "1"))) [RSet (lit "x") (lit "1")] demo_cut.
Definition demo_behind : watched := watch_act (RExecute demo_instant) [] (watch_act RSendSnapshot [] demo_second).

(** The names of the states are unfolded before the steps that lead to them. *)
#[local] Strategy expand [demo_start demo_first demo_cut demo_second demo_behind].
#[local] Strategy 10 [watch_act].

Lemma demo_leader_ok : replica_ok demo_leader.
Proof. split; [split; [apply lru_ok_nil|done]|done]. Qed.

Lemma demo_cut_leader_ok : replica_ok (s_leader (w_sys demo_cut)).
Proof.
  destruct (replica_run demo_leader (RSet (lit "x") (lit "0")) demo_leader_ok) as [Hr _]; [by_word|].
  assert (s_leader (w_sys demo_cut) = on_link 0 begin_stream (run_op demo_leader (OpSet (lit "x") (lit "0")))) as -> by by vm_compute.
  exact Hr.
Qed.

Lemma demo_values v :
  v ∈ [lit "0"; lit "1"] -> word (lit "x") /\ text v /\ valid_field (lit "x") /\ valid_field v /\ one_line v.
Proof. rewrite !elem_of_cons, elem_of_nil. intros [->|[->|[]]]; (split; [by_word|]; split; [by repeat split|]; split; [by_word|]; split; [by_word|by_word]). Qed.

Lemma demo_behind_run : rtc (watch 0) demo_start demo_behind.
Proof.
  destruct (demo_values (lit "0")) as (? & ? & ? & ? & ?); [by left|].
  destruct (demo_values (lit "1")) as (_ & ? & _ & ? & ?); [by right; left|].
  eapply rtc_l; [apply (watch_act_set (lit "x") (lit "0")); [apply demo_leader_ok|done..|by vm_compute]|]. fold demo_first.
  eapply rtc_l; [apply (watch_act_other RConnect); [eexists; by vm_compute|done|done]|].
  eapply rtc_l; [apply (watch_act_other (RExecute demo_instant)); [eexists; by vm_compute|done|done]|].
  eapply rtc_l; [apply (watch_act_other RCut); [eexists; by vm_compute|done|done]|]. fold demo_cut.
  eapply rtc_l; [apply (watch_act_set (lit "x") (lit "1")); [apply demo_cut_leader_ok|done..|by vm_compute]|]. fold demo_second.
  eapply rtc_l; [apply (watch_act_other RSendSnapshot); [eexists; by vm_compute|done|done]|].
  eapply rtc_l; [apply (watch_act_other (RExecute demo_instant)); [eexists; by vm_compute|done|done]|]. fold demo_behind. constructor.
Qed.

Lemma replica_shows_past_witness :
  reply (execute_line (lit "GET x") (s_follower (w_sys demo_behind)) true None None demo_instant) = lit "0" /\
  (let past := apply_records (data_of demo_leader) (take 1 (w_log demo_behind)) in
   data_of (s_leader (w_sys demo_behind)) = apply_records (data_of demo_leader) (w_log demo_behind) /\
   data_of (s_follower (w_sys demo_behind)) = past /\
   (forall k link i, word k ->
      reply (execute_line (lit "GET " ++ k) (s_follower (w_sys demo_behind)) true link None i) =
        default (lit "(nil)") (past !! k)) /\
   (forall x' r q', watch 0 demo_behind x' -> w_place x' = Some (r, q') -> (1 <= q')%nat) /\
   (forall l, link_of 0 (s_leader (w_sys demo_behind)) = Some l -> streaming l = true ->
      in_flight (w_sys demo_behind) l = [] -> 1%nat = length (w_log demo_behind))).
Proof.
  split; [by vm_compute|].
  assert (data_of demo_leader = ∅) as Hd by by vm_compute.
  assert (holds demo_leader (data_of demo_leader)) as Hh by apply demo_leader_ok.
  assert (sendable_map (data_of demo_leader)) as Hm by (rewrite Hd; apply map_Forall_empty).
  assert (link_of 0 demo_leader = Some demo_link) as Hl by by vm_compute.
  assert (w_place demo_behind = Some (0%nat, 1%nat)) as Hp by by vm_compute.
  exact (replica_shows_past 0 demo_leader (storage_new 0) demo_link demo_behind 1 Hh Hm demo_follower_ok Hl eq_refl eq_refl
    demo_behind_run Hp).
Defined.
