(* ===== verification/CatchUp.v ===== *)
(** * The follower catches up (src/replication.cpp [sender_loop])

    [Replication] shows that what is under way always leads the follower to the
    leader's data; here, that the sender thread and the follower get it there: as
    long as the connection holds and clients pause, every step they take leaves
    less to do, and they can take one until the follower has caught up, through
    handshakes, snapshots and resynchronizations. *)

From S2P Require Import Prelude Stream Records Interfaces DiskStore Storage StorageCorrect.
From S2P Require Import Wal Replicator Recovery Address Net Raft Command Replication.

Local Open Scope Z_scope.

Section progress.
Context `{UnorderedIter} (j : nat).

(** The sender thread has not been told to stop; a stream whose backlog overflowed
    is marked for resynchronization, and only such a stream; the follower has
    accepted the handshake it has executed. *)
Definition alive (s : system) : Prop :=
  exists l, link_of j (s_leader s) = Some l /\ l_stop l = false /\
    match s_sender s with
    | SDown => True
    | SWait => s_wire s = [] -> s_ack s = Some (lit "OK")
    | SRead _ | SSync _ => resync_needed l = negb (streaming l)
    end.

Lemma enqueue_flags rs l :
  let l' := foldl (fun l rec => enqueue_link (wire_line rec) l) l rs in
  l_stop l' = l_stop l /\ (resync_needed l = negb (streaming l) -> resync_needed l' = negb (streaming l')).
Proof.
  revert l. induction rs as [|r rs IH]; intros l; [done|]. cbn [foldl].
  destruct (IH (enqueue_link (wire_line r) l)) as [E1 E2]. rewrite E1.
  unfold enqueue_link in *. destruct (streaming l) eqn:Es; cbn [negb] in *.
  - destruct (kMaxQueue <=? _); (split; [done|]); intros Hr; by apply E2.
  - split; [done|]. intros Hr. apply E2. by rewrite Es.
Qed.

Lemma alive_step s a s' : sys_ok j s -> alive s -> allowed s a -> sys_step j s a = Some s' -> alive s'.
Proof.
  intros Hs (l & Hl & Hstop & Hal) Ha. pose proof Hs as [Hld _ Hf Hz (l0 & Hl0 & Hq & Hsnd)].
  rewrite Hl in Hl0. injection Hl0 as <-. unfold sys_step. destruct a as [o| |i| |opened| | | |k i].
  - destruct Ha as [Ho _]. intros [= <-].
    destruct (link_after_write j _ _ o l Hld Ho Hl Hq) as (rs & _ & _ & _ & Hl'). destruct (enqueue_flags rs l) as [E1 E2].
    eexists. split; [exact Hl'|]. split; [congruence|]. cbn [s_sender s_wire s_ack]. destruct (s_sender s); auto.
  - destruct (s_sender s); try done. intros [= <-]. exists l. by split.
  - destruct (s_wire s) as [|line wire] eqn:Ew; [done|]. intros [= <-]. exists l. split; [done|]. split; [done|].
    cbn [s_sender s_wire s_ack]. destruct (s_sender s) eqn:Eph; try done. intros ->.
    unfold sender_ok in Hsnd. rewrite Eph, Ew in Hsnd. destruct Hsnd as [_ [(E & Hlk & _)|(E & _)]]; [|done].
    injection E as ->. rewrite Hlk. destruct (follower_handshake i (s_follower s) Hf) as (_ & _ & Hr & _). exact (f_equal Some Hr).
  - destruct (s_sender s); try done. case_bool_decide; [|done]. unfold snapshot_locked.
    pose proof (link_of_on_link j begin_stream _ _ Hl) as Hl'. unfold on_link in Hl'.
    destruct (disk_ (s_leader s)); intros [= <-]; exists (begin_stream l); by split.
  - destruct (s_sender s); try done. intros [= <-]. by exists l.
  - destruct (s_sender s) as [| | |[|line rest]]; try done. intros [= <-]. by exists l.
  - destruct (s_sender s) as [| | |[|line rest]]; try done. rewrite Hl. unfold next_line.
    destruct (l_stop l || resync_needed l).
    + intros [= <-]. eexists. split; [unfold disconnect; cbn [s_leader]; by do 2 apply link_of_on_link|]. by split.
    + destruct (queue l) as [|line q]; intros [= <-];
        eexists; (split; [cbn [s_leader]; by apply link_of_on_link|]); by split.
  - destruct (s_sender s); try done; intros [= <-]; exists (end_stream l); (split; [by apply link_of_on_link|]); by split.
  - destruct (s_zombies s !! k) as [[link [|line rest]]|]; try done. intros [= <-]. by exists l.
Qed.

Lemma alive_run s l s' :
  sys_ok j s -> alive s -> orderly j s l -> sys_run j s l = Some s' -> sys_ok j s' /\ alive s'.
Proof. apply run_ind. intros s1 a s2. apply alive_step. Qed.

(** ** The work left *)

Definition backlog (s : system) : list bytes := default [] (queue <$> link_of j (s_leader s)).
Definition in_stream (s : system) : bool := default false (streaming <$> link_of j (s_leader s)).

(** A handshake, its answer, the cut, reading its values; each snapshot line and
    each queued line is sent and executed; an overflowed stream must be
    synchronized again. *)
Definition work (s : system) : nat :=
  let snapshot := (2 * Z.to_nat (storage_size (s_leader s)))%nat in
  let again := if in_stream s then 0%nat else (5 + snapshot)%nat in
  match s_sender s with
  | SDown => 4 + snapshot
  | SWait => 2 + snapshot + length (s_wire s)
  | SRead idx => again + 1 + 2 * length idx + 2 * length (backlog s)
  | SSync rest => again + 2 * length rest + length (s_wire s) + 2 * length (backlog s)
  end%nat.

(** The steps of the sender thread and the follower on a connection that holds;
    a heartbeat on an idle link is not counted. *)
Definition advances (s : system) (a : act_on) : Prop :=
  match a with
  | RConnect | RExecute _ | RCut | RRead _ | RSendSnapshot => True
  | RSendNext => in_stream s = false \/ backlog s <> []
  | _ => False
  end.

Definition caught_up (s : system) : Prop :=
  in_stream s = true /\ s_sender s = SSync [] /\ s_wire s = [] /\ backlog s = [] /\
  data_of (s_follower s) = data_of (s_leader s).

Lemma read_snapshot_length file idx : (length (read_snapshot file idx) <= length idx)%nat.
Proof.
  destruct file as [file|]; simpl; [|lia]. unfold read_entries. induction idx as [|x idx IH]; [done|]. cbn.
  destruct (read_value file x.2); cbn; [|etrans; [exact IH|]]; lia.
Qed.

Lemma snapshot_size (st : node) :
  holds st (data_of st) ->
  match (snapshot_locked (update_link j begin_stream) st).1 with
  | CutItems l => length l | CutIndex idx => length idx
  end = Z.to_nat (storage_size st).
Proof.
  unfold holds, snapshot_locked, storage_size, disk_size, snapshot_index. destruct (disk_ st) as [d|]; intros Hh; cbn [fst].
  - rewrite iter_order_perm, Nat2Z.id. apply length_map_to_list.
  - destruct Hh as [Hok _]. rewrite length_fmap, Nat2Z.id, (lru_ok_size _ _ _ Hok). done.
Qed.

Lemma advances_work s a s' :
  sys_ok j s -> alive s -> advances s a -> sys_step j s a = Some s' -> (work s' < work s)%nat.
Proof.
  intros Hs (l & Hl & Hstop & Hal) Ha. pose proof Hs as [Hld _ Hf Hz (l0 & Hl0 & Hq & Hsnd)].
  rewrite Hl in Hl0. injection Hl0 as <-. unfold sender_ok in Hsnd.
  unfold sys_step. destruct a as [o| |i| |opened| | | |i]; try done.
  - destruct (s_sender s) eqn:Eph; try done. intros [= <-]. unfold work. rewrite Eph. cbn. lia.
  - destruct (s_wire s) as [|line wire] eqn:Ew; [done|]. intros [= <-].
    unfold work, in_stream, backlog. cbn [s_sender s_wire s_leader]. rewrite Ew.
    destruct (s_sender s) eqn:Eph; cbn [length]; [by destruct Hsnd|lia|by destruct Hsnd|lia].
  - destruct (s_sender s) eqn:Eph; try done. case_bool_decide as Eack; [|done].
    destruct Hsnd as [_ [(_ & _ & ?)|(Ew & _)]]; [congruence|].
    pose proof (snapshot_size _ Hld) as Hn. pose proof (link_of_on_link j begin_stream _ _ Hl) as Hl'. unfold on_link in Hl'.
    unfold snapshot_locked in *. unfold work, in_stream, backlog. rewrite Eph, Ew.
    destruct (disk_ (s_leader s)) as [d|]; cbn [fst] in Hn; intros [= <-]; cbn [s_sender s_wire s_leader]; rewrite Hl';
      cbn; unfold snapshot_lines; rewrite ?length_fmap in *; lia.
  - destruct (s_sender s) as [| |idx|] eqn:Eph; try done. intros [= <-].
    unfold work, in_stream, backlog. rewrite Eph. cbn [s_sender s_wire s_leader]. destruct Hsnd as (-> & _).
    unfold snapshot_lines. rewrite length_fmap. cbn [read_cut].
    pose proof (read_snapshot_length (if opened then Some (data_file (s_leader s)) else None) idx).
    cbn [length]. lia.
  - destruct (s_sender s) as [| | |[|line rest]] eqn:Eph; try done. intros [= <-].
    unfold work, in_stream, backlog. rewrite Eph. cbn [s_sender s_wire s_leader]. rewrite length_app. cbn [length]. lia.
  - destruct (s_sender s) as [| | |[|line rest]] eqn:Eph; try done. cbn [advances] in Ha. rewrite Hl. unfold next_line.
    rewrite Hstop, Hal. cbn [orb]. unfold in_stream, backlog in Ha. rewrite Hl in Ha. cbn in Ha.
    destruct (streaming l) eqn:Es; cbn [negb].
    + destruct Ha as [?|Ha]; [done|]. destruct (queue l) as [|line q] eqn:Eq; [done|]. intros [= <-].
      unfold work, in_stream, backlog. rewrite Eph, Hl. cbn [s_sender s_wire s_leader].
      rewrite (link_of_on_link j _ _ _ Hl). cbn. rewrite Es, Eq, length_app. cbn. lia.
    + intros [= <-]. unfold work, in_stream. rewrite Eph, Hl. cbn. rewrite Es. unfold storage_size. cbn. lia.
Qed.

Lemma advance_enabled s :
  sys_ok j s -> alive s -> caught_up s \/ exists a s', advances s a /\ sys_step j s a = Some s'.
Proof.
  intros Hs (l & Hl & Hstop & Hal). destruct (s_wire s) as [|line wire] eqn:Ew.
  2:{ right. exists (RExecute {| now := 0; draw := 0 |}). unfold sys_step. rewrite Ew.
      destruct (s_sender s); eexists; (split; [exact I|reflexivity]). }
  destruct (s_sender s) as [| |idx|rest] eqn:Eph.
  - right. exists RConnect. unfold sys_step. rewrite Eph. eexists. split; [exact I|reflexivity].
  - right. exists RCut. unfold sys_step. rewrite Eph, (Hal eq_refl), bool_decide_eq_true_2 by done.
    destruct (snapshot_locked _ (s_leader s)). eexists. split; [exact I|reflexivity].
  - right. exists (RRead true). unfold sys_step. rewrite Eph. eexists. split; [exact I|reflexivity].
  - destruct rest as [|line rest]; [|right; exists RSendSnapshot; unfold sys_step; rewrite Eph; eexists; split; [exact I|reflexivity]].
    assert (in_stream s = streaming l) as Ei by (unfold in_stream; by rewrite Hl).
    assert (backlog s = queue l) as Eb by (unfold backlog; by rewrite Hl).
    destruct (decide (in_stream s = true /\ backlog s = [])) as [[Hi Hb]|Hn].
    + left. split; [done|]. split; [done|]. split; [done|]. split; [done|]. rewrite Ei in Hi. rewrite Eb in Hb.
      destruct (streaming_leads j s l Hs Hl Hi) as (rss & Hc & Hap). unfold in_flight in Hc. rewrite Ew, Eph, Hb in Hc.
      inversion Hc; subst. by apply Hap.
    + right. exists RSendNext. unfold sys_step. rewrite Eph, Hl.
      assert (advances s RSendNext) as Ha by (cbn; destruct (in_stream s); [right|by left]; intros Hb; by apply Hn).
      destruct (next_line l) as [[line|] l']; eexists; (split; [exact Ha|reflexivity]).
Qed.

End progress.

(** ** A concrete run: a write after the cut, still to be sent and executed *)

#[local] Existing Instance list_iter.

Definition demo_behind : system :=
  default (initial demo_leader (storage_new 0)) (sys_run 0 (initial demo_leader (storage_new 0)) (take 5 demo_sync)).

