(* ===== verification/Handshake.v ===== *)
(** * The replication handshake (src/replication.cpp [recv_line], [sender_loop];
    src/server.cpp, src/command.cpp)

    The bytes the sender writes and reads before it streams, against what a node
    at the other end, of any role, does with the line. *)

From S2P Require Import Prelude Stream Records Interfaces DiskStore Storage Wal Replicator.
From S2P Require Import Net Raft Command Router Metrics Server.

Local Open Scope Z_scope.

(** [recv_line] of src/replication.cpp, byte by byte; the limit is checked after
    the byte is stored. *)
Fixpoint repl_recv_loop (input line : bytes) : option bytes :=
  match input with
  | [] => None
  | c :: input' =>
      if Ascii.eqb c newline then Some line
      else if 4096 <? blen (line ++ [c]) then None else repl_recv_loop input' (line ++ [c])
  end.

Definition repl_recv_line (input : bytes) : option bytes := repl_recv_loop input [].

(** [send_all] of src/replication.cpp, the text of router.cpp's. *)
Definition repl_send_all (data : bytes) (results : list Z) : bool := (send_all data results []).1.

(** The condition under which the sender makes its cut and streams: [sends] are
    the results of the [send]s, [input] what arrives. *)
Definition handshake (sends : list Z) (input : bytes) : bool :=
  repl_send_all (lit "__REPLSYNC__" ++ [newline]) sends &&
  match repl_recv_line input with Some ack => ack =?b lit "OK" | None => false end.

Lemma repl_recv_loop_Some input acc l :
  repl_recv_loop input acc = Some l -> exists a rest, l = acc ++ a /\ input = a ++ newline :: rest /\ newline ∉ a.
Proof.
  revert acc. induction input as [|c input IH]; intros acc; cbn [repl_recv_loop]; [done|].
  destruct (Ascii.eqb_spec c newline) as [->|Hc].
  - intros [= <-]. exists [], input. rewrite app_nil_r. split; [done|]. split; [done|]. apply not_elem_of_nil.
  - destruct (4096 <? _); [done|]. intros (a & rest & -> & -> & Hn)%IH. exists (c :: a), rest.
    split; [by rewrite <- (assoc_L (++))|]. split; [done|]. apply not_elem_of_cons. by split.
Qed.

(** The sender accepts exactly the line OK. *)
Lemma handshake_ok sends input : handshake sends input = true -> exists rest, input = lit "OK" ++ newline :: rest.
Proof.
  unfold handshake. rewrite andb_true_iff. intros [_ Hr].
  destruct (repl_recv_line input) as [ack|] eqn:E; [|done]. apply bool_decide_eq_true in Hr. subst ack.
  apply repl_recv_loop_Some in E as (a & rest & Ea & -> & _). simpl in Ea. subst a. by exists rest.
Qed.

Lemma handshake_reply sends r rest :
  newline ∉ r -> handshake sends (r ++ newline :: rest) = true -> r = lit "OK".
Proof.
  intros Hn (rest' & E)%handshake_ok.
  apply not_elem_of_app_cons_inv_l in E as (-> & _); [done|first [exact Hn|by_word]..].
Qed.

Section handshake.
Context {L R : Type} `{WriteAheadLaws L} `{ReplicaSink R} `{UnorderedIter}.

(** What a node answers to the handshake: OK exactly when it is a replica, resets
    its storage, and the connection was not a replica link already. *)
Lemma serve_handshake e link (s : Server L R) :
  let v := serve_line e (lit "__REPLSYNC__") link s in
  (newline ∉ sv_reply v) /\
  (sv_reply v = lit "OK" ->
   router_ s = None /\ is_follower s = true /\ link = false /\ sv_link v = true /\ sv_close v = false /\
   storage_clear (store_ s) = (true, store_ (sv_server v))).
Proof.
  cbv zeta. unfold serve_line.
  replace (verb_and_key (lit "__REPLSYNC__")) with (lit "__REPLSYNC__", @nil ascii) by by vm_compute.
  rewrite bool_decide_eq_false_2 by done. destruct (router_ s) as [shards|].
  - replace (route_line (e_net e) shards (lit "__REPLSYNC__"))
      with (lit "ERR ROUTER: '__REPLSYNC__' needs a key to route on", false) by by vm_compute.
    split; [by_word|done].
  - cbn [sv_reply sv_link sv_close sv_server store_ router_].
    assert (execute_line (lit "__REPLSYNC__") (store_ s) (is_follower s) (Some link) (raft_ s) (e_now e) =
            execute_sync (is_follower s) (Some link) (raft_ s) (store_ s)) as -> by reflexivity.
    unfold execute_sync. destruct (is_follower s); cbn [negb]; [|split; [by_word|done]].
    destruct link; [rewrite bool_decide_eq_true_2 by done; split; [by_word|done]|].
    rewrite bool_decide_eq_false_2 by done.
    destruct (storage_clear (store_ s)) as [[] st']; (split; [by_word|]); [|done]. by intros _.
Qed.

(** C25: a leader streams only into a replica that has just been reset.  Whatever
    node is at the other end (standalone, leader, Raft member, router or replica)
    and whatever follows its reply: if the sender's handshake succeeds, the node is
    a replica, its storage has cleared all data and reported so, and the connection
    is now its replica link. *)
Theorem stream_only_into_reset_replica e link (s : Server L R) sends rest :
  let v := serve_line e (lit "__REPLSYNC__") link s in
  handshake sends (sv_reply v ++ newline :: rest) = true ->
  router_ s = None /\ is_follower s = true /\ link = false /\ sv_link v = true /\
  storage_clear (store_ s) = (true, store_ (sv_server v)) /\
  (disk_ (store_ s) = None -> view (store_ (sv_server v)) = ∅) /\
  (forall d, disk_ (store_ s) = Some d -> exists d', disk_ (store_ (sv_server v)) = Some d' /\ d_index d' = ∅).
Proof.
  intros v Hh. destruct (serve_handshake e link s) as [Hn Hok]. fold v in Hn, Hok.
  destruct (Hok (handshake_reply _ _ _ Hn Hh)) as (Hr & Hf & Hl & Hv & _ & Hc). clear Hok.
  do 4 (split; [done|]). split; [done|]. unfold storage_clear in Hc. split.
  - intros Hd. rewrite Hd in Hc. by injection Hc as <-.
  - intros d Hd. rewrite Hd in Hc. destruct (disk_clear d) as [b d'] eqn:Ec. injection Hc as -> <-.
    exists d'. split; [done|]. unfold disk_clear in Ec. destruct (next_io (d_env d)) as [o1 e1]. destruct (next_io e1). by injection Ec as _ <-.
Qed.
End handshake.

(** A replica that held a key. *)
#[local] Existing Instance list_iter.

Definition demo_replica : Server Wal Replicator :=
  mkServer (storage_set (lit "old") (lit "1") (storage_new 0)).2 None None metrics_new true.

Lemma stream_only_into_reset_replica_witness :
  view (store_ demo_replica) !! lit "old" = Some (lit "1") /\
  handshake [4; 100] (lit "OK" ++ newline :: []) = true /\
  is_follower demo_replica = true /\
  view (store_ (sv_server (serve_line demo_env1 (lit "__REPLSYNC__") false demo_replica))) = ∅.
Proof.
  split; [by vm_compute|]. split; [by vm_compute|].
  destruct (stream_only_into_reset_replica (L := Wal) demo_env1 false demo_replica [4; 100] [])
    as (_ & Hf & _ & _ & _ & Hv & _); [by vm_compute|].
  split; [exact Hf|]. exact (Hv eq_refl).
Defined.
