(* ===== verification/ThreadPool.v ===== *)
(** * The thread pool (src/thread_pool.cpp)

    The queue shared by [submit] and the workers, as a state whose transitions
    are the critical sections and the completions of tasks.  A task is any
    value: what it computes, and whether it throws, does not concern the pool. *)

From S2P Require Import Prelude.

Local Open Scope Z_scope.

Section pool.
Context {T : Type}.

(** A worker: about to take the lock and test the predicate of its wait; asleep on
    the condition variable; running a task without the lock; or returned from
    [worker_loop]. *)
Inductive worker := Ready | Asleep | Running (task : T) | Exited.

(** [accepted], [started] and [finished] record the tasks taken in, begun and
    completed.  [signals] and [broadcast] are the program counters of the callers of
    the condition variable: how many [submit]s have released the lock and are still
    to call [notify_one], and whether the destructor is still to call [notify_all]. *)
Record Pool := mkPool {
  workers_ : list worker;
  tasks_ : list T;
  stop_ : bool;
  max_queue_size_ : Z;
  accepted : list T;
  started : list T;
  finished : list T;
  signals : nat;
  broadcast : bool;
}.

(** The constructor: at least one worker. *)
Definition pool_new (num_threads : nat) (max_queue_size : Z) : Pool :=
  let n := if (num_threads =? 0)%nat then 1%nat else num_threads in
  mkPool (replicate n Ready) [] false max_queue_size [] [] [] 0 false.

Definition with_workers (ws : list worker) (p : Pool) : Pool :=
  mkPool ws (tasks_ p) (stop_ p) (max_queue_size_ p) (accepted p) (started p) (finished p) (signals p) (broadcast p).

(** [ThreadPool::submit] up to its [notify_one]. *)
Definition submit (task : T) (p : Pool) : bool * Pool :=
  if stop_ p then (false, p)
  else if negb (max_queue_size_ p =? 0) && (max_queue_size_ p <=? Z.of_nat (length (tasks_ p)))
  then (false, p)
  else (true, mkPool (workers_ p) (tasks_ p ++ [task]) (stop_ p) (max_queue_size_ p)
                (accepted p ++ [task]) (started p) (finished p) (S (signals p)) (broadcast p)).

(** The destructor up to its [notify_all]; afterwards it waits for the workers. *)
Definition request_stop (p : Pool) : Pool :=
  mkPool (workers_ p) (tasks_ p) true (max_queue_size_ p) (accepted p) (started p) (finished p) (signals p) true.

(** The condition variable: [notify_one] wakes some sleeping worker [w], and does
    nothing where none sleeps; [notify_all] wakes them all; and a worker may wake for
    no reason. *)
Definition wake_up (x : worker) : worker := if x is Asleep then Ready else x.
Definition is_asleep (x : worker) : bool := if x is Asleep then true else false.

Definition notify_one (w : nat) (p : Pool) : option Pool :=
  match signals p with
  | O => None
  | S n =>
      let notified ws := mkPool ws (tasks_ p) (stop_ p) (max_queue_size_ p) (accepted p) (started p) (finished p) n (broadcast p) in
      if existsb is_asleep (workers_ p) then
        match workers_ p !! w with
        | Some Asleep => Some (notified (<[w := Ready]> (workers_ p)))
        | _ => None
        end
      else Some (notified (workers_ p))
  end.

Definition notify_all (p : Pool) : option Pool :=
  if broadcast p then
    Some (mkPool (wake_up <$> workers_ p) (tasks_ p) (stop_ p) (max_queue_size_ p) (accepted p) (started p) (finished p)
            (signals p) false)
  else None.

Definition spurious_wakeup (w : nat) (p : Pool) : option Pool :=
  match workers_ p !! w with
  | Some Asleep => Some (with_workers (<[w := Ready]> (workers_ p)) p)
  | _ => None
  end.

(** One round of [worker_loop] up to the task: the predicate of the wait is tested
    under the lock, and the worker goes to sleep if it does not hold; with an empty
    queue it returns. *)
Definition worker_wake (w : nat) (p : Pool) : option Pool :=
  match workers_ p !! w with
  | Some Ready =>
      if stop_ p || negb (bool_decide (length (tasks_ p) = 0%nat)) then
        match tasks_ p with
        | [] => Some (with_workers (<[w := Exited]> (workers_ p)) p)
        | t :: q => Some (mkPool (<[w := Running t]> (workers_ p)) q (stop_ p) (max_queue_size_ p)
                            (accepted p) (started p ++ [t]) (finished p) (signals p) (broadcast p))
        end
      else Some (with_workers (<[w := Asleep]> (workers_ p)) p)
  | _ => None
  end.

(** The task returns, or throws and is caught; the worker goes round. *)
Definition worker_done (w : nat) (p : Pool) : option Pool :=
  match workers_ p !! w with
  | Some (Running t) =>
      Some (mkPool (<[w := Ready]> (workers_ p)) (tasks_ p) (stop_ p) (max_queue_size_ p)
              (accepted p) (started p) (finished p ++ [t]) (signals p) (broadcast p))
  | _ => None
  end.

Inductive woken (p : Pool) : Pool -> Prop :=
  | woken_one w p' : notify_one w p = Some p' -> woken p p'
  | woken_all p' : notify_all p = Some p' -> woken p p'
  | woken_spurious w p' : spurious_wakeup w p = Some p' -> woken p p'.

(** What goes on without a new task. *)
Inductive worker_step (p : Pool) : Pool -> Prop :=
  | worker_wakes w p' : worker_wake w p = Some p' -> worker_step p p'
  | worker_finishes w p' : worker_done w p = Some p' -> worker_step p p'
  | worker_woken p' : woken p p' -> worker_step p p'.

Inductive pool_step (p : Pool) : Pool -> Prop :=
  | pool_submit t : pool_step p (submit t p).2
  | pool_stop : stop_ p = false -> pool_step p (request_stop p)
  | pool_worker p' : worker_step p p' -> pool_step p p'.

(** ** The invariant *)

Definition running (ws : list worker) : list T :=
  omap (fun w => match w with Running t => Some t | _ => None end) ws.

Definition is_ready (x : worker) : nat := if x is Ready then 1 else 0.
Definition ready (ws : list worker) : nat := sum_list_with is_ready ws.

(** [pool_awake]: while a worker sleeps, every queued task has a worker about to look
    at the queue or a notification on its way.  [pool_told]: no worker sleeps
    through the stop. *)
Record pool_ok (p : Pool) : Prop := {
  pool_fifo : accepted p = started p ++ tasks_ p;
  pool_once : started p ≡ₚ finished p ++ running (workers_ p);
  pool_bound : max_queue_size_ p = 0 \/ Z.of_nat (length (tasks_ p)) <= Z.max 0 (max_queue_size_ p);
  pool_exit : Exited ∈ workers_ p -> stop_ p = true /\ tasks_ p = [];
  pool_some : workers_ p <> [];
  pool_awake : Asleep ∈ workers_ p -> (length (tasks_ p) <= signals p + ready (workers_ p))%nat;
  pool_told : stop_ p = true -> Asleep ∈ workers_ p -> broadcast p = true;
}.

Lemma running_insert ws w x y :
  ws !! w = Some x ->
  exists a b, running ws = running a ++ running [x] ++ running b /\
              running (<[w := y]> ws) = running a ++ running [y] ++ running b.
Proof.
  intros Hx. apply list_elem_of_split_length in Hx as (a & b & -> & ->).
  exists a, b. rewrite insert_app_r_alt by lia. rewrite Nat.sub_diag. simpl. unfold running.
  rewrite !omap_app. split; by destruct x, y.
Qed.

Lemma running_same ws w x y : ws !! w = Some x -> running [x] = running [y] -> running (<[w := y]> ws) = running ws.
Proof. intros Hx E. destruct (running_insert ws w x y Hx) as (a & b & -> & ->). by rewrite E. Qed.

Lemma sum_insert (f : worker -> nat) ws w x y :
  ws !! w = Some x -> (sum_list_with f (<[w := y]> ws) + f x = sum_list_with f ws + f y)%nat.
Proof.
  intros Hx. apply list_elem_of_split_length in Hx as (a & b & -> & ->).
  rewrite insert_app_r_alt by lia. rewrite Nat.sub_diag. simpl. rewrite !sum_list_with_app. simpl. lia.
Qed.

Lemma elem_insert (ws : list worker) w x y : y ∈ <[w := x]> ws -> y = x \/ y ∈ ws.
Proof.
  intros Hy. apply list_elem_of_lookup in Hy as [i Hi]. apply list_lookup_insert_Some in Hi as [(_ & -> & _)|(_ & Hi)].
  - by left.
  - right. by eapply list_elem_of_lookup_2.
Qed.

Lemma insert_some (ws : list worker) w x : ws <> [] -> <[w := x]> ws <> [].
Proof. intros Hne E%(f_equal length). rewrite length_insert in E. by destruct ws. Qed.

Lemma asleep_dec (ws : list worker) : existsb is_asleep ws = true <-> Asleep ∈ ws.
Proof.
  rewrite existsb_exists. split.
  - intros (x & Hx%list_elem_of_In & E). by destruct x.
  - intros Hx. exists Asleep. split; [by apply list_elem_of_In|done].
Qed.

Lemma wake_up_workers ws :
  running (wake_up <$> ws) = running ws /\ (Asleep ∉ wake_up <$> ws) /\ (Exited ∈ wake_up <$> ws -> Exited ∈ ws).
Proof.
  split; [by induction ws as [|[] ws IH]; [done|done|done|simpl; f_equal|done]|]. split.
  - intros (x & E & _)%list_elem_of_fmap. by destruct x.
  - intros (x & E & Hx)%list_elem_of_fmap. by destruct x.
Qed.

Lemma pool_new_ok n m : pool_ok (pool_new n m).
Proof.
  assert (forall k, running (replicate k Ready) = []) as Hr by (intros k; by induction k).
  unfold pool_new. split; simpl; [done|by rewrite Hr|right; lia| |by destruct n| |done].
  - intros Hin. apply elem_of_replicate_inv in Hin. done.
  - intros Hin. apply elem_of_replicate_inv in Hin. done.
Qed.

(** Tactic: a worker of the updated list is the new one or an old one. *)
Ltac worker_cases := intros Hin; apply elem_insert in Hin as [?|Hin]; [try done|].

Lemma wake_ok w p p' : pool_ok p -> worker_wake w p = Some p' -> pool_ok p'.
Proof.
  intros [Hf Ho Hb He Hs Ha Ht]. unfold worker_wake. destruct (workers_ p !! w) as [[| | |]|] eqn:Ew; try done.
  destruct (stop_ p || _) eqn:Ep.
  2:{ intros [= <-]. apply orb_false_iff in Ep as [Es Ep]. apply negb_false_iff, bool_decide_eq_true in Ep.
      split; simpl; [done|by rewrite (running_same _ _ _ _ Ew)|done|worker_cases; by apply He|by apply insert_some|lia|congruence]. }
  destruct (tasks_ p) as [|t q] eqn:Et; intros [= <-].
  - split; simpl; rewrite ?Et; [done|by rewrite (running_same _ _ _ _ Ew)|done| |by apply insert_some|simpl; lia|].
    + intros _. split; [|done]. destruct (stop_ p); [done|]. simpl in Ep. done.
    + intros Hst. worker_cases. by apply Ht.
  - destruct (running_insert _ w _ (Running t) Ew) as (a & b & Ea & Eb). split; simpl; [..|by apply insert_some| |].
    + by rewrite Hf, <- (assoc_L (++)).
    + rewrite Ho, Ea, Eb. simpl. solve_Permutation.
    + destruct Hb as [?|Hb]; [by left|right]. simpl in Hb. lia.
    + worker_cases. by destruct (He Hin).
    + worker_cases. specialize (Ha Hin). pose proof (sum_insert is_ready _ w _ (Running t) Ew). unfold ready in *. simpl in *. lia.
    + intros Hst. worker_cases. by apply Ht.
Qed.

Lemma done_ok w p p' : pool_ok p -> worker_done w p = Some p' -> pool_ok p'.
Proof.
  intros [Hf Ho Hb He Hs Ha Ht]. unfold worker_done. destruct (workers_ p !! w) as [[| |t|]|] eqn:Ew; try done.
  intros [= <-]. destruct (running_insert _ w _ Ready Ew) as (a & b & Ea & Eb).
  split; simpl; [done| |done| |by apply insert_some| |].
  - rewrite Ho, Ea, Eb. simpl. solve_Permutation.
  - worker_cases. by apply He.
  - worker_cases. specialize (Ha Hin). pose proof (sum_insert is_ready _ w _ Ready Ew). unfold ready in *. simpl in *. lia.
  - intros Hst. worker_cases. by apply Ht.
Qed.

(** Waking workers changes nothing else. *)
Lemma woken_frame p p' :
  woken p p' ->
  running (workers_ p') = running (workers_ p) /\ length (workers_ p') = length (workers_ p) /\
  (Exited ∈ workers_ p' -> Exited ∈ workers_ p) /\
  (tasks_ p', stop_ p', max_queue_size_ p', accepted p', started p', finished p') =
  (tasks_ p, stop_ p, max_queue_size_ p, accepted p, started p, finished p).
Proof.
  intros Hw. destruct Hw as [w p' E|p' E|w p' E].
  - unfold notify_one in E. destruct (signals p); [done|]. destruct (existsb is_asleep (workers_ p)); [|by injection E as <-].
    destruct (workers_ p !! w) as [[| | |]|] eqn:Ew; try done. injection E as <-. cbn. rewrite length_insert.
    split; [by apply (running_same _ _ _ _ Ew)|]. split; [done|]. split; [by worker_cases|done].
  - unfold notify_all in E. destruct (broadcast p); [|done]. injection E as <-.
    destruct (wake_up_workers (workers_ p)) as (E1 & _ & E2). split; [exact E1|]. split; [apply length_fmap|]. by split; [exact E2|].
  - unfold spurious_wakeup in E. destruct (workers_ p !! w) as [[| | |]|] eqn:Ew; try done. injection E as <-. cbn.
    rewrite length_insert. split; [by apply (running_same _ _ _ _ Ew)|]. split; [done|]. split; [by worker_cases|done].
Qed.

Lemma woken_sleepers p p' :
  pool_ok p -> woken p p' -> Asleep ∈ workers_ p' ->
  Asleep ∈ workers_ p /\ broadcast p' = broadcast p /\
  (signals p + ready (workers_ p) <= signals p' + ready (workers_ p'))%nat.
Proof.
  intros Hok Hw. destruct Hw as [w p' E|p' E|w p' E].
  - unfold notify_one in E. destruct (signals p) as [|n]; [done|].
    destruct (existsb is_asleep (workers_ p)) eqn:Es.
    + destruct (workers_ p !! w) as [[| | |]|] eqn:Ew; try done. injection E as <-. cbn.
      pose proof (sum_insert is_ready _ w _ Ready Ew). unfold ready in *. simpl in *. worker_cases. split; [done|]. split; [done|lia].
    + injection E as <-. cbn. intros Hin%asleep_dec. congruence.
  - unfold notify_all in E. destruct (broadcast p); [|done]. injection E as <-. cbn. intros Hin. by apply wake_up_workers in Hin.
  - unfold spurious_wakeup in E. destruct (workers_ p !! w) as [[| | |]|] eqn:Ew; try done. injection E as <-. cbn.
    pose proof (sum_insert is_ready _ w _ Ready Ew). unfold ready in *. simpl in *. worker_cases. split; [done|]. split; [done|lia].
Qed.

Lemma woken_ok p p' : pool_ok p -> woken p p' -> pool_ok p'.
Proof.
  intros Hok Hw. destruct (woken_frame p p' Hw) as (Er & El & Hx & E). injection E as E1 E2 E3 E4 E5 E6.
  pose proof (woken_sleepers p p' Hok Hw) as Hsl. destruct Hok as [Hf Ho Hb He Hs Ha Ht].
  split; rewrite ?Er, ?E1, ?E2, ?E3, ?E4, ?E5, ?E6; [done..|auto| | |].
  - intros Hn. rewrite Hn in El. by destruct (workers_ p).
  - intros Hin. destruct (Hsl Hin) as (Hin' & _ & ?). specialize (Ha Hin'). lia.
  - intros Hst Hin. destruct (Hsl Hin) as (Hin' & -> & _). by apply Ht.
Qed.

Lemma worker_step_ok p p' : pool_ok p -> worker_step p p' -> pool_ok p'.
Proof. intros Hp [w p1 Hw|w p1 Hw|p1 Hw]; [by eapply wake_ok|by eapply done_ok|by eapply woken_ok]. Qed.

Lemma pool_step_ok p p' : pool_ok p -> pool_step p p' -> pool_ok p'.
Proof.
  intros Hp Hs. destruct Hs as [t|Hst|p' Hw]; [| |by eapply worker_step_ok].
  - pose proof Hp as [Hf Ho Hb He Hne Ha Ht]. unfold submit. destruct (stop_ p) eqn:Es; [done|].
    destruct (negb (max_queue_size_ p =? 0) && _) eqn:Em; [done|]. simpl. split; simpl; [|done| | |done| |congruence].
    + by rewrite Hf, <- (assoc_L (++)).
    + rewrite length_app. simpl. destruct (Z.eqb_spec (max_queue_size_ p) 0); [by left|right].
      simpl in Em. apply Z.leb_gt in Em. lia.
    + intros Hin. destruct (He Hin). congruence.
    + intros Hin. specialize (Ha Hin). rewrite length_app. simpl. lia.
  - destruct Hp as [Hf Ho Hb He Hne Ha Ht]. split; simpl; [done..| |done|done|done]. intros Hin. by destruct (He Hin).
Qed.

Lemma worker_step_max p p' : worker_step p p' -> max_queue_size_ p' = max_queue_size_ p.
Proof.
  intros [w p1 Hw|w p1 Hw|p1 Hw].
  - unfold worker_wake in Hw. repeat case_match; by simplify_eq.
  - unfold worker_done in Hw. repeat case_match; by simplify_eq.
  - by destruct (woken_frame _ _ Hw) as (_ & _ & _ & [= _ _ -> _ _ _]).
Qed.

(** A queued task is not forgotten: a worker is awake or about to be woken. *)
Lemma task_noticed p :
  pool_ok p -> tasks_ p <> [] ->
  (0 < signals p)%nat \/ exists w x, workers_ p !! w = Some x /\ x <> Asleep /\ x <> Exited.
Proof.
  intros [_ _ _ He Hs Ha _] Ht.
  assert (Asleep ∈ workers_ p \/ exists w x, workers_ p !! w = Some x /\ x <> Asleep /\ x <> Exited) as [Hin|?]; [|..|by right].
  - destruct (workers_ p) as [|[| |t|] ws]; [done|right; by exists 0%nat, Ready|by left; left|right; by exists 0%nat, (Running t)|].
    destruct He as [_ ?]; [by left|done].
  - specialize (Ha Hin). destruct (signals p) as [|n]; [right|left; lia].
    assert (forall ws, (0 < ready ws)%nat -> exists w, ws !! w = Some Ready) as Hr.
    { clear. induction ws as [|x ws IH]; cbn; [lia|]. intros H. destruct x; [by exists 0%nat|..]; destruct (IH H) as [w Hw]; by exists (S w). }
    destruct (Hr (workers_ p)) as [w Hw]; [destruct (tasks_ p); [done|]; simpl in Ha; lia|]. by exists w, Ready.
Qed.

(** C32: tasks are neither lost, repeated, reordered nor forgotten.  In every
    reachable state the accepted tasks are, in submission order, the started ones
    followed by the queued ones; the started ones are exactly those finished and
    those running; a bounded queue stays within its bound; and while a task is queued
    some worker is awake or a [submit] is about to notify one, although workers sleep
    on the condition variable, [submit] notifies after it has released the lock, and
    only one worker. *)
Theorem pool_invariant n max p :
  rtc pool_step (pool_new n max) p ->
  accepted p = started p ++ tasks_ p /\ started p ≡ₚ finished p ++ running (workers_ p) /\
  (0 < max -> Z.of_nat (length (tasks_ p)) <= max) /\ workers_ p <> [] /\
  (tasks_ p <> [] -> (0 < signals p)%nat \/ exists w x, workers_ p !! w = Some x /\ x <> Asleep /\ x <> Exited).
Proof.
  intros Hr. assert (pool_ok p /\ max_queue_size_ p = max) as [Hp Hm].
  { revert Hr. apply (rtc_ind_r (fun p => pool_ok p /\ max_queue_size_ p = max)); [split; [apply pool_new_ok|done]|].
    intros p1 p2 _ Hs [Hp <-]. split; [by eapply pool_step_ok|].
    destruct Hs as [t|_|p2 Hw]; [unfold submit; by repeat case_match|done|by apply worker_step_max]. }
  pose proof Hp as [Hf Ho Hb _ Hs _ _].
  split; [done|]. split; [done|]. split; [|split; [done|by apply task_noticed]]. intros Hpos. rewrite Hm in Hb. destruct Hb; lia.
Qed.

(** ** Shutdown *)

(** What is left to do before the workers have all returned. *)
Definition weight (w : worker) : nat := match w with Ready => 1 | Asleep => 2 | Running _ => 2 | Exited => 0 end.
Definition work_left (p : Pool) : nat :=
  2 * length (tasks_ p) + sum_list_with weight (workers_ p) + signals p + (if broadcast p then 1 else 0).

Lemma wake_up_weight ws : (sum_list_with weight (wake_up <$> ws) <= sum_list_with weight ws)%nat.
Proof. induction ws as [|[] ws IH]; cbn in *; lia. Qed.

Lemma woken_less p p' : woken p p' -> (work_left p' < work_left p)%nat.
Proof.
  intros Hw. unfold work_left. destruct Hw as [w p' E|p' E|w p' E].
  - unfold notify_one in E. destruct (signals p); [done|]. destruct (existsb is_asleep (workers_ p)); [|injection E as <-; cbn; lia].
    destruct (workers_ p !! w) as [[| | |]|] eqn:Ew; try done. injection E as <-. cbn.
    pose proof (sum_insert weight _ w _ Ready Ew). simpl in *. lia.
  - unfold notify_all in E. destruct (broadcast p); [|done]. injection E as <-. cbn. pose proof (wake_up_weight (workers_ p)). lia.
  - unfold spurious_wakeup in E. destruct (workers_ p !! w) as [[| | |]|] eqn:Ew; try done. injection E as <-. cbn.
    pose proof (sum_insert weight _ w _ Ready Ew). simpl in *. lia.
Qed.

Lemma shutdown_less p p' :
  stop_ p = true -> worker_step p p' ->
  (work_left p' < work_left p)%nat /\ stop_ p' = true /\ accepted p' = accepted p.
Proof.
  intros Hs [w p1 Hw|w p1 Hw|p1 Hw].
  - unfold worker_wake in Hw. destruct (workers_ p !! w) as [[| | |]|] eqn:Ew; try done. rewrite Hs in Hw. simpl in Hw.
    destruct (tasks_ p) as [|t q] eqn:Et; injection Hw as <-; (split; [|done]); unfold work_left; simpl; rewrite Et.
    + pose proof (sum_insert weight _ w _ Exited Ew). simpl in *. lia.
    + pose proof (sum_insert weight _ w _ (Running t) Ew). simpl in *. lia.
  - unfold worker_done in Hw. destruct (workers_ p !! w) as [[| |t|]|] eqn:Ew; try done. injection Hw as <-.
    split; [|done]. unfold work_left. simpl. pose proof (sum_insert weight _ w _ Ready Ew). simpl in *. lia.
  - split; [by apply woken_less|]. by destruct (woken_frame _ _ Hw) as (_ & _ & _ & [= _ -> _ -> _ _]).
Qed.

Lemma not_all_exited (ws : list worker) : Forall (eq Exited) ws \/ exists w x, ws !! w = Some x /\ x <> Exited.
Proof.
  induction ws as [|x ws [IH|(w & y & Hw & Hy)]]; [by left|..].
  - destruct x as [| |t|]; [right; by exists 0%nat, Ready|right; by exists 0%nat, Asleep|right; by exists 0%nat, (Running t)|left; by constructor].
  - right. by exists (S w), y.
Qed.

(** C33: shutdown drains the queue and ends.  Once stop is requested: every step of a
    worker and every wake-up, wanted or spurious, leaves strictly less to do; as long
    as a worker has not returned, some worker can take a step or the destructor is
    still to notify all; and when all have returned, every task ever accepted has
    finished, once. *)
Theorem pool_shutdown p :
  pool_ok p -> stop_ p = true ->
  (forall p', worker_step p p' ->
     (work_left p' < work_left p)%nat /\ pool_ok p' /\ stop_ p' = true /\ accepted p' = accepted p) /\
  ((exists w p', worker_wake w p = Some p' \/ worker_done w p = Some p') \/ (exists p', notify_all p = Some p') \/
   Forall (eq Exited) (workers_ p)) /\
  (Forall (eq Exited) (workers_ p) -> finished p ≡ₚ accepted p).
Proof.
  intros Hok Hs. pose proof Hok as [Hf Ho _ He Hne _ Ht]. split; [|split].
  - intros p' Hw. destruct (shutdown_less p p' Hs Hw) as (? & ? & ?). split; [done|]. split; [by eapply worker_step_ok|done].
  - destruct (not_all_exited (workers_ p)) as [Hall|(w & x & Hw & Hx)]; [by right; right|]. destruct x as [| |t|]; [| | |done].
    + left. exists w. unfold worker_wake, worker_done. rewrite Hw, Hs. simpl. destruct (tasks_ p); eexists; by left.
    + right. left. unfold notify_all. rewrite Ht by (done || by eapply list_elem_of_lookup_2). by eexists.
    + left. exists w. unfold worker_wake, worker_done. rewrite Hw. eexists. by right.
  - intros Hall. assert (running (workers_ p) = []) as Hr
      by (clear -Hall; induction Hall as [|x l <- _ IH]; [done|exact IH]).
    rewrite Hr, app_nil_r in Ho. destruct He as [_ Hq].
    { destruct (workers_ p) as [|x l]; [done|]. inversion Hall; subst. by left. }
    by rewrite Hf, Hq, app_nil_r.
Qed.
End pool.

(** ** Concrete runs *)

(** Its one worker goes to sleep, a task comes, a second one is refused, and the pool
    is stopped: both notifications are still to come. *)
Definition demo_asleep : Pool (T := nat) := default (pool_new 0 1) (worker_wake 0 (pool_new 0 1)).
Definition demo_pool : Pool (T := nat) := request_stop (submit 8%nat (submit 7%nat demo_asleep).2).2.

Lemma demo_asleep_step : pool_step (pool_new 0 1) demo_asleep.
Proof. apply pool_worker, (worker_wakes _ 0). by vm_compute. Qed.

Lemma pool_invariant_witness :
  submit 8%nat (submit 7%nat demo_asleep).2 = (false, (submit 7%nat demo_asleep).2) /\
  accepted demo_pool = started demo_pool ++ tasks_ demo_pool.
Proof.
  split; [by vm_compute|]. apply (pool_invariant 0 1 demo_pool).
  eapply rtc_l; [apply demo_asleep_step|].
  eapply rtc_l; [apply (pool_submit _ 7%nat)|]. eapply rtc_l; [apply (pool_submit _ 8%nat)|].
  apply rtc_once, pool_stop. by vm_compute.
Defined.

Lemma pool_shutdown_witness :
  workers_ demo_pool = [Asleep] /\
  ((exists w p', worker_wake w demo_pool = Some p' \/ worker_done w demo_pool = Some p') \/
   (exists p', notify_all demo_pool = Some p') \/ Forall (eq Exited) (workers_ demo_pool)).
Proof.
  split; [by vm_compute|]. apply (pool_shutdown demo_pool); [|reflexivity]. unfold demo_pool.
  apply (pool_step_ok (submit 8%nat (submit 7%nat demo_asleep).2).2); [|by apply pool_stop; vm_compute].
  apply (pool_step_ok (submit 7%nat demo_asleep).2); [|apply (pool_submit _ 8%nat)].
  apply (pool_step_ok demo_asleep); [|apply (pool_submit _ 7%nat)].
  exact (pool_step_ok _ _ (pool_new_ok 0 1) demo_asleep_step).
Defined.
