(* ===== verification/Startup.v ===== *)
(** * Starting a server (src/main.cpp, src/server.cpp [Server::run])

    The command line, the checks on it, and the set-up of a server up to its
    accept loop.  Error messages are those written to the standard error. *)

From S2P Require Import Prelude Stream Records Interfaces DiskStore Storage StorageCorrect.
From S2P Require Import Wal Replicator Recovery Raft Command Metrics Net Server ThreadPool.

Local Open Scope Z_scope.

(** ** Numbers on the command line *)

Definition in_range (text : bytes) (lo hi : Z) (r : option (Z * Z)) : option Z :=
  match r with
  | Some (value, consumed) =>
      if negb (consumed =? blen text) || (value <? lo) || (hi <? value) then None else Some value
  | None => None
  end.

Definition parse_port (text : bytes) : option Z := in_range text 1 65535 (stoi text).
Definition parse_workers (text : bytes) : option Z := in_range text 1 4096 (stol text).
Definition parse_timeout (text : bytes) : option Z := in_range text 0 86400 (stol text).
Definition parse_capacity (text : bytes) : option Z := in_range text 0 LONG_MAX (stoll text).

(** [hw]: what [hardware_concurrency] returns. *)
Definition default_workers (hw : Z) : Z := if negb (hw =? 0) then hw else 8.

Record ServerConfig := mkConfig {
  host : bytes;
  port : Z;
  num_workers : Z;
  wal_path : bytes;
  idle_timeout_seconds : Z;
  capacity : Z;
  cfg_follower : bool;
  follower_addrs : list bytes;
  raft_peers : list bytes;
  shard_addrs : list bytes;
  disk_path : bytes;
  metrics_port : Z;
}.

Definition initial_config (hw : Z) : ServerConfig :=
  mkConfig (lit "127.0.0.1") 6380 (default_workers hw) (lit "redon.wal") 300 0 false [] [] [] [] 0.

(** ** The options *)

Definition set_follower (c : ServerConfig) : ServerConfig :=
  mkConfig (host c) (port c) (num_workers c) (wal_path c) (idle_timeout_seconds c) (capacity c)
    true (follower_addrs c) (raft_peers c) (shard_addrs c) (disk_path c) (metrics_port c).
Definition add_follower (a : bytes) (c : ServerConfig) : ServerConfig :=
  mkConfig (host c) (port c) (num_workers c) (wal_path c) (idle_timeout_seconds c) (capacity c)
    (cfg_follower c) (follower_addrs c ++ [a]) (raft_peers c) (shard_addrs c) (disk_path c) (metrics_port c).
Definition add_peer (a : bytes) (c : ServerConfig) : ServerConfig :=
  mkConfig (host c) (port c) (num_workers c) (wal_path c) (idle_timeout_seconds c) (capacity c)
    (cfg_follower c) (follower_addrs c) (raft_peers c ++ [a]) (shard_addrs c) (disk_path c) (metrics_port c).
Definition add_shard (a : bytes) (c : ServerConfig) : ServerConfig :=
  mkConfig (host c) (port c) (num_workers c) (wal_path c) (idle_timeout_seconds c) (capacity c)
    (cfg_follower c) (follower_addrs c) (raft_peers c) (shard_addrs c ++ [a]) (disk_path c) (metrics_port c).
Definition set_disk (p : bytes) (c : ServerConfig) : ServerConfig :=
  mkConfig (host c) (port c) (num_workers c) (wal_path c) (idle_timeout_seconds c) (capacity c)
    (cfg_follower c) (follower_addrs c) (raft_peers c) (shard_addrs c) p (metrics_port c).
Definition set_metrics (p : Z) (c : ServerConfig) : ServerConfig :=
  mkConfig (host c) (port c) (num_workers c) (wal_path c) (idle_timeout_seconds c) (capacity c)
    (cfg_follower c) (follower_addrs c) (raft_peers c) (shard_addrs c) (disk_path c) p.
Definition set_positional (h : bytes) (p w : Z) (wal : bytes) (idle cap : Z) (c : ServerConfig) : ServerConfig :=
  mkConfig h p w wal idle cap
    (cfg_follower c) (follower_addrs c) (raft_peers c) (shard_addrs c) (disk_path c) (metrics_port c).

(** The loop over [argv]: options into the configuration, the rest into [pos]. *)
Fixpoint parse_options (args : list bytes) (c : ServerConfig) (pos : list bytes)
  : bytes + (ServerConfig * list bytes) :=
  match args with
  | [] => inr (c, pos)
  | arg :: rest =>
      if arg =?b lit "--replica" then parse_options rest (set_follower c) pos
      else if arg =?b lit "--follower" then
        match rest with
        | [] => inl (lit "error: --follower needs a host:port argument")
        | a :: rest' => parse_options rest' (add_follower a c) pos
        end
      else if arg =?b lit "--raft" then
        match rest with
        | [] => inl (lit "error: --raft needs a host:port argument")
        | a :: rest' => parse_options rest' (add_peer a c) pos
        end
      else if arg =?b lit "--shard" then
        match rest with
        | [] => inl (lit "error: --shard needs a host:port argument")
        | a :: rest' => parse_options rest' (add_shard a c) pos
        end
      else if arg =?b lit "--disk" then
        match rest with
        | [] => inl (lit "error: --disk needs a file path argument")
        | a :: rest' => parse_options rest' (set_disk a c) pos
        end
      else if arg =?b lit "--metrics-port" then
        match rest with
        | [] => inl (lit "error: --metrics-port needs a port number")
        | a :: rest' =>
            match parse_port a with
            | None => inl (lit "error: invalid metrics port '" ++ a ++ lit "'")
            | Some mp => parse_options rest' (set_metrics mp c) pos
            end
        end
      else if starts_with (lit "--") arg then inl (lit "error: unknown option '" ++ arg ++ lit "'")
      else parse_options rest c (pos ++ [arg])
  end.

(** ** The positional arguments and the checks, in the order of [main] *)

Definition bind {A B} (r : bytes + A) (k : A -> bytes + B) : bytes + B :=
  match r with inl e => inl e | inr a => k a end.
Notation "x <-! r ; k" := (bind r (fun x => k)) (at level 100, r at next level, right associativity) : redon_scope.

Definition or_error {A} (e : bytes) (o : option A) : bytes + A :=
  match o with Some a => inr a | None => inl e end.

(** An optional positional argument. *)
Definition argument {A} (pos : list bytes) (i : nat) (dflt : A) (parse : bytes -> option A)
    (error : bytes -> bytes) : bytes + A :=
  match pos !! i with None => inr dflt | Some t => or_error (error t) (parse t) end.

Definition parse_positional (pos : list bytes) (c : ServerConfig) : bytes + ServerConfig :=
  let bad_port t := lit "error: invalid port '" ++ t ++ lit "'" in
  hp <-! match pos with
         | [] => inr (host c, port c)
         | [p] => p' <-! or_error (bad_port p) (parse_port p); inr (host c, p')
         | h :: p :: _ => p' <-! or_error (bad_port p) (parse_port p); inr (h, p')
         end;
  w <-! argument pos 2 (num_workers c) parse_workers
          (fun t => lit "error: invalid thread count '" ++ t ++ lit "' (expected 1..4096)");
  let wal := default (wal_path c) (pos !! 3%nat) in
  idle <-! argument pos 4 (idle_timeout_seconds c) parse_timeout
             (fun t => lit "error: invalid idle timeout '" ++ t ++ lit "' (expected 0..86400 seconds)");
  cap <-! argument pos 5 (capacity c) parse_capacity
            (fun t => lit "error: invalid capacity '" ++ t ++ lit "' (expected a non-negative integer)");
  if (6 <? length pos)%nat then
    inl (lit "usage: redon-server [host] [port] [threads] [wal] [idle] [capacity] [--replica] [--follower host:port ...]")
  else inr (set_positional hp.1 hp.2 w wal idle cap c).

Definition none (l : list bytes) : bool := match l with [] => true | _ => false end.

Definition check_config (c : ServerConfig) : bytes + ServerConfig :=
  if cfg_follower c && negb (none (follower_addrs c)) then
    inl (lit "error: a --replica cannot also have --follower targets")
  else if negb (none (raft_peers c)) && (cfg_follower c || negb (none (follower_addrs c))) then
    inl (lit "error: --raft cannot be combined with --replica/--follower")
  else if negb (none (shard_addrs c)) &&
          (cfg_follower c || negb (none (follower_addrs c)) || negb (none (raft_peers c))) then
    inl (lit "error: --shard (router) cannot be combined with --replica/--follower/--raft")
  else if negb (disk_path c =?b []) && negb (none (shard_addrs c)) then
    inl (lit "error: --disk cannot be combined with --shard (a router stores no data)")
  else if negb (metrics_port c =? 0) && (metrics_port c mod 65536 =? port c) then
    inl (lit "error: --metrics-port must differ from the data port (" ++ to_string (port c) ++ lit ")")
  else inr c.

(** [main], up to the construction of the server.  (The sockets library needs no
    initialization on POSIX systems.) *)
Definition parse_args (hw : Z) (args : list bytes) : bytes + ServerConfig :=
  r <-! parse_options args (initial_config hw) [];
  c <-! parse_positional r.2 r.1;
  check_config c.

(** ** [Server::run], up to the accept loop *)

Definition setup_replication (c : ServerConfig) (st : Storage Wal Replicator) : Storage Wal Replicator :=
  if cfg_follower c then st
  else if none (follower_addrs c) then st
  else attach_replicator (Some (replicator_start (replicator_new (follower_addrs c)))) st.

(** The Raft timings are the defaults of [RaftNode::Config]. *)
Definition setup_raft (c : ServerConfig) (i : instant) : option RaftNode :=
  if none (raft_peers c) then None
  else
    let rc := {| self_id := host c ++ lit ":" ++ to_string (port c); peers := raft_peers c;
                 heartbeat_ms := 100; election_timeout_min_ms := 400;
                 election_timeout_max_ms := 800; rpc_timeout_ms := 120 |} in
    Some (raft_start (raft_new rc i)).2.

Definition setup_sharding (c : ServerConfig) : option (list bytes) :=
  if none (shard_addrs c) then None else Some (shard_addrs c).

Definition max_queued (c : ServerConfig) : Z :=
  let m := wrap64 (num_workers c * 16) in if m <? 256 then 256 else m.

(** What the server finds when it starts: the log and the data file, the
    outcomes of the I/O on them, the time, and whether the listening socket can
    be created, bound and listened on. *)
Record world := mkWorld {
  wal_bytes : option bytes;
  disk_bytes : bytes;
  io_outcomes : list io;
  start_time : instant;
  can_listen : bool;
}.

Section run.
Context `{UnorderedIter}.

Definition setup_storage (c : ServerConfig) (w : world) : option (Storage Wal Replicator) :=
  if negb (disk_path c =?b []) then
    let '(opened, st) := open_disk_backend (disk_bytes w) (io_outcomes w) (storage_new (capacity c)) in
    if negb opened then None else Some st
  else setup_persistence (wal_path c) (wal_bytes w) (io_outcomes w) (storage_new (capacity c)).

Definition server_setup (c : ServerConfig) (w : world) : option (Server Wal Replicator) :=
  match setup_storage c w with
  | None => None
  | Some st =>
      Some (mkServer (setup_replication c st) (setup_raft c (start_time w)) (setup_sharding c)
              metrics_new (cfg_follower c))
  end.

(** A running server and its pool, or the exit code.  A task of the pool is a
    client socket. *)
Definition server_run (c : ServerConfig) (w : world) : Z + (Server Wal Replicator * Pool (T := Z)) :=
  match server_setup c w with
  | None => inl 1
  | Some s =>
      if negb (can_listen w) then inl 1
      else inr (s, pool_new (Z.to_nat (num_workers c)) (max_queued c))
  end.

Definition main (hw : Z) (args : list bytes) (w : world) : Z + (Server Wal Replicator * Pool (T := Z)) :=
  match parse_args hw args with
  | inl _ => inl 1
  | inr c => server_run c w
  end.
End run.

(** ** What the command line can say *)

Definition roles (c : ServerConfig) : list bool :=
  [cfg_follower c; negb (none (follower_addrs c)); negb (none (raft_peers c)); negb (none (shard_addrs c))].

Record config_ok (c : ServerConfig) : Prop := {
  co_port : 1 <= port c <= 65535;
  co_workers : 1 <= num_workers c;
  co_idle : 0 <= idle_timeout_seconds c <= 86400;
  co_capacity : 0 <= capacity c <= LONG_MAX;
  co_metrics : 0 <= metrics_port c <= 65535 /\ metrics_port c <> port c;
  co_roles : (length (List.filter id (roles c)) <= 1)%nat;
  co_router : shard_addrs c <> [] -> disk_path c = [];
}.

Lemma in_range_Some text lo hi r v : in_range text lo hi r = Some v -> lo <= v <= hi.
Proof.
  unfold in_range. destruct r as [[x n]|]; [|done].
  destruct (Z.eqb_spec n (blen text)), (Z.ltb_spec x lo), (Z.ltb_spec hi x); simpl; try done.
  intros [= <-]. lia.
Qed.

Lemma bind_inr {A B} (r : bytes + A) (k : A -> bytes + B) b :
  bind r k = inr b -> exists a, r = inr a /\ k a = inr b.
Proof. destruct r as [e|a]; [done|]. intros E. by exists a. Qed.

Lemma or_error_inr {A} e (o : option A) a : or_error e o = inr a -> o = Some a.
Proof. destruct o; [|done]. by intros [= ->]. Qed.

(** The options leave the positional part alone. *)
Definition positional (c : ServerConfig) :=
  (host c, port c, num_workers c, wal_path c, idle_timeout_seconds c, capacity c).

Lemma parse_options_frame args c pos c' pos' :
  parse_options args c pos = inr (c', pos') -> 0 <= metrics_port c <= 65535 ->
  positional c' = positional c /\ 0 <= metrics_port c' <= 65535.
Proof.
  revert c pos. induction args as [args IH] using (induction_ltof1 _ (@length bytes)); unfold ltof in IH.
  intros c pos. destruct args as [|a args]; cbn [parse_options]; [by intros [= <- <-]|].
  assert (forall r c1 pos1, (length r < S (length args))%nat -> parse_options r c1 pos1 = inr (c', pos') ->
    positional c1 = positional c -> 0 <= metrics_port c1 <= 65535 ->
    positional c' = positional c /\ 0 <= metrics_port c' <= 65535) as Hrec.
  { intros r c1 pos1 Hr E Ep Hm. destruct (IH r Hr c1 pos1 E Hm) as [-> ?]. done. }
  intros E Hm. repeat case_match; try done; try (eapply Hrec; [|exact E|..]; simpl; done || lia).
  eapply Hrec; [|exact E|done|]; [simpl; lia|].
  match goal with H : parse_port _ = Some _ |- _ => apply in_range_Some in H end. simpl. lia.
Qed.

Lemma argument_inr {A} (P : A -> Prop) pos i dflt parse error a :
  argument pos i dflt parse error = inr a -> P dflt -> (forall t x, parse t = Some x -> P x) -> P a.
Proof.
  unfold argument. destruct (pos !! i) as [t|]; [|by intros [= <-]].
  intros E%or_error_inr _ Hp. by eapply Hp.
Qed.

Lemma parse_positional_inr pos c c' :
  parse_positional pos c = inr c' ->
  1 <= port c <= 65535 -> 1 <= num_workers c -> 0 <= idle_timeout_seconds c <= 86400 ->
  0 <= capacity c <= LONG_MAX ->
  (1 <= port c' <= 65535 /\ 1 <= num_workers c' /\ 0 <= idle_timeout_seconds c' <= 86400 /\
   0 <= capacity c' <= LONG_MAX) /\ metrics_port c' = metrics_port c.
Proof.
  intros E Hp Hw Hi Hc. unfold parse_positional in E.
  apply bind_inr in E as ([h p] & Ehp & E). apply bind_inr in E as (w & Ew & E).
  apply bind_inr in E as (idle & Ei & E). apply bind_inr in E as (cap & Ec & E).
  destruct (6 <? length pos)%nat; [done|]. injection E as <-. cbn. split; [|done]. repeat split.
  1,2: assert (1 <= p <= 65535); [|lia].
  1,2: destruct pos as [|a [|b pos]]; [by injection Ehp as <- <-|..];
    apply bind_inr in Ehp as (p' & Ep & E'); injection E' as _ <-;
    apply or_error_inr in Ep; by apply in_range_Some in Ep.
  - eapply (argument_inr (fun w => 1 <= w)); [exact Ew|done|]. intros t x Ex%in_range_Some. lia.
  - eapply (argument_inr (fun w => 0 <= w)); [exact Ei|lia|]. intros t x Ex%in_range_Some. lia.
  - eapply (argument_inr (fun w => w <= 86400)); [exact Ei|lia|]. intros t x Ex%in_range_Some. lia.
  - eapply (argument_inr (fun w => 0 <= w)); [exact Ec|lia|]. intros t x Ex%in_range_Some. lia.
  - eapply (argument_inr (fun w => w <= LONG_MAX)); [exact Ec|lia|]. intros t x Ex%in_range_Some. lia.
Qed.

Lemma check_config_inr c c' :
  check_config c = inr c' -> 1 <= port c <= 65535 -> 0 <= metrics_port c <= 65535 ->
  c' = c /\ metrics_port c <> port c /\ (length (List.filter id (roles c)) <= 1)%nat /\
  (shard_addrs c <> [] -> disk_path c = []).
Proof.
  intros E Hp Hm. unfold check_config in E. unfold roles. rewrite Z.mod_small in E by lia.
  destruct (cfg_follower c), (none (follower_addrs c)), (none (raft_peers c)),
    (none (shard_addrs c)) eqn:Es; simpl in *; try done;
    destruct (Z.eqb_spec (metrics_port c) 0), (Z.eqb_spec (metrics_port c) (port c)),
      (decide (disk_path c = [])) as [Ed|Ed]; simpl in *;
    try (rewrite bool_decide_eq_false_2 in E by done); try (rewrite bool_decide_eq_true_2 in E by done);
    simpl in E; try done; injection E as <-; (split; [done|]; split; [lia|]; split; [simpl; lia|]);
    intros Hsh; try done; by destruct (shard_addrs c).
Qed.

Lemma parse_args_ok hw args c :
  0 <= hw -> parse_args hw args = inr c -> config_ok c.
Proof.
  intros Hhw E. unfold parse_args in E.
  apply bind_inr in E as ([c1 pos] & E1 & E). apply bind_inr in E as (c2 & E2 & E3). cbn [fst snd] in *.
  apply parse_options_frame in E1 as [Ep Hm]; [|simpl; lia]. unfold positional in Ep. simpl in Ep.
  assert (1 <= default_workers hw) by (unfold default_workers; destruct (Z.eqb_spec hw 0); simpl; lia).
  injection Ep as Eh Ept Ew Ewal Ei Ecap.
  destruct (parse_positional_inr pos c1 c2 E2) as [(Hp & Hw & Hi & Hc) Emp]; rewrite ?Ept, ?Ew, ?Ei, ?Ecap; try (unfold LONG_MAX; lia).
  destruct (check_config_inr c2 c E3) as (-> & Hne & Hr & Hd); [done|lia|].
  constructor; try done. lia.
Qed.

(** C36: the command line cannot ask for nonsense.  Whatever the arguments, a
    configuration [main] accepts has its port, thread count, timeout and
    capacity in range, a metrics port of its own, at most one of the roles
    replica, leader of followers, Raft member and router, and no data file on a
    router. *)
Theorem parse_args_sound hw args c :
  0 <= hw -> parse_args hw args = inr c -> config_ok c.
Proof. apply parse_args_ok. Qed.

(** ** Every sensible configuration can be asked for *)

Definition option_args (name : bytes) (l : list bytes) : list bytes := mjoin (map (fun a => [name; a]) l).

Definition render_options (c : ServerConfig) : list bytes :=
  (if cfg_follower c then [lit "--replica"] else []) ++
  option_args (lit "--follower") (follower_addrs c) ++
  option_args (lit "--raft") (raft_peers c) ++
  option_args (lit "--shard") (shard_addrs c) ++
  (if disk_path c =?b [] then [] else [lit "--disk"; disk_path c]) ++
  (if metrics_port c =? 0 then [] else [lit "--metrics-port"; to_string (metrics_port c)]).

Definition render_positional (c : ServerConfig) : list bytes :=
  [host c; to_string (port c); to_string (num_workers c); wal_path c;
   to_string (idle_timeout_seconds c); to_string (capacity c)].

Definition plain (s : bytes) : Prop := starts_with (lit "--") s = false.

Lemma in_range_to_string lo hi a b n :
  a <= n <= b -> lo <= n <= hi -> in_range (to_string n) lo hi (strto a b (to_string n)) = Some n.
Proof.
  intros Hab Hn. pose proof (strto_to_string a b n [] Hab I) as E. rewrite app_nil_r in E. rewrite E.
  unfold in_range. rewrite Z.eqb_refl.
  destruct (Z.ltb_spec n lo); [lia|]. destruct (Z.ltb_spec hi n); [lia|done].
Qed.

Lemma plain_to_string n : plain (to_string n).
Proof.
  unfold plain, starts_with. apply bool_decide_eq_false_2. intros E.
  assert (forall m, 0 <= m -> take 1 (decimal m) <> lit "-") as Hd.
  { intros m Hm Et. pose proof (decimal_digits m Hm) as Hf. destruct (decimal m) as [|c s]; [done|].
    injection Et as ->. inversion Hf as [|? ? Hc]. by vm_compute in Hc. }
  unfold to_string in E. destruct (Z.ltb_spec n 0).
  - apply (Hd (- n)); [lia|]. destruct (decimal (- n)); [done|]. by injection E as ->.
  - apply (Hd n); [lia|]. destruct (decimal n) as [|? [|? ?]]; [done|done|]. by injection E as -> _.
Qed.

Lemma parse_options_plain a args c pos :
  plain a -> parse_options (a :: args) c pos = parse_options args c (pos ++ [a]).
Proof.
  intros Ha. cbn [parse_options].
  assert (forall l, starts_with (lit "--") l = true -> a <> l) as Hne by (intros l Hl ->; congruence).
  rewrite !bool_decide_eq_false_2 by (by apply Hne). by rewrite Ha.
Qed.

(** A repeated option adds its arguments, in order. *)
Lemma parse_options_repeat name (add : bytes -> ServerConfig -> ServerConfig) l rest c pos :
  (forall a r c', parse_options (name :: a :: r) c' pos = parse_options r (add a c') pos) ->
  parse_options (option_args name l ++ rest) c pos = parse_options rest (foldl (fun c a => add a c) c l) pos.
Proof.
  intros Hadd. revert c. induction l as [|a l IH]; intros c; [done|].
  change (option_args name (a :: l) ++ rest) with (name :: a :: (option_args name l ++ rest)).
  rewrite Hadd. apply IH.
Qed.

Ltac add_each := intros l; induction l as [|a l IH]; intros c; [by destruct c; simpl; rewrite app_nil_r|];
  simpl; rewrite IH; simpl; by rewrite <- (assoc_L (++)).

Lemma add_followers : forall l c, foldl (fun c a => add_follower a c) c l =
  mkConfig (host c) (port c) (num_workers c) (wal_path c) (idle_timeout_seconds c) (capacity c)
    (cfg_follower c) (follower_addrs c ++ l) (raft_peers c) (shard_addrs c) (disk_path c) (metrics_port c).
Proof. add_each. Qed.

Lemma add_peers : forall l c, foldl (fun c a => add_peer a c) c l =
  mkConfig (host c) (port c) (num_workers c) (wal_path c) (idle_timeout_seconds c) (capacity c)
    (cfg_follower c) (follower_addrs c) (raft_peers c ++ l) (shard_addrs c) (disk_path c) (metrics_port c).
Proof. add_each. Qed.

Lemma add_shards : forall l c, foldl (fun c a => add_shard a c) c l =
  mkConfig (host c) (port c) (num_workers c) (wal_path c) (idle_timeout_seconds c) (capacity c)
    (cfg_follower c) (follower_addrs c) (raft_peers c) (shard_addrs c ++ l) (disk_path c) (metrics_port c).
Proof. add_each. Qed.

Lemma parse_option_tail c d pos :
  0 <= metrics_port c <= 65535 -> disk_path d = [] -> metrics_port d = 0 ->
  parse_options ((if disk_path c =?b [] then [] else [lit "--disk"; disk_path c]) ++
    (if metrics_port c =? 0 then [] else [lit "--metrics-port"; to_string (metrics_port c)])) d pos =
  inr (set_metrics (metrics_port c) (set_disk (disk_path c) d), pos).
Proof.
  intros Hm Hd Hmp. set (tail := if metrics_port c =? 0 then _ else _).
  assert (forall e, metrics_port e = 0 ->
    parse_options tail e pos = inr (set_metrics (metrics_port c) e, pos)) as Ht.
  { intros e He. subst tail. destruct (Z.eqb_spec (metrics_port c) 0) as [->|Hne].
    - simpl. destruct e. simpl in *. by subst.
    - change (parse_options [lit "--metrics-port"; to_string (metrics_port c)] e pos)
        with (match parse_port (to_string (metrics_port c)) with
              | None => inl (lit "error: invalid metrics port '" ++ to_string (metrics_port c) ++ lit "'")
              | Some mp => inr (set_metrics mp e, pos)
              end).
      unfold parse_port, stoi. rewrite in_range_to_string; [done|unfold INT_MIN, INT_MAX; lia|lia]. }
  destruct (decide (disk_path c = [])) as [Ed|Ed].
  - rewrite bool_decide_eq_true_2 by done. simpl. rewrite Ht by done. do 2 f_equal. rewrite Ed.
    destruct d. simpl in *. by subst.
  - rewrite bool_decide_eq_false_2 by done.
    change (parse_options ([lit "--disk"; disk_path c] ++ tail) d pos)
      with (parse_options tail (set_disk (disk_path c) d) pos). by apply Ht.
Qed.

Lemma parse_render_options hw c pos :
  0 <= metrics_port c <= 65535 ->
  parse_options (render_options c) (initial_config hw) pos =
  inr (mkConfig (lit "127.0.0.1") 6380 (default_workers hw) (lit "redon.wal") 300 0 (cfg_follower c)
         (follower_addrs c) (raft_peers c) (shard_addrs c) (disk_path c) (metrics_port c), pos).
Proof.
  intros Hm. unfold render_options. set (rest := option_args (lit "--follower") _ ++ _).
  assert (parse_options ((if cfg_follower c then [lit "--replica"] else []) ++ rest) (initial_config hw) pos =
          parse_options rest (if cfg_follower c then set_follower (initial_config hw) else initial_config hw) pos)
    as -> by (by destruct (cfg_follower c)).
  subst rest. rewrite (parse_options_repeat _ add_follower), (parse_options_repeat _ add_peer),
    (parse_options_repeat _ add_shard) by done.
  rewrite add_shards, add_peers, add_followers.
  rewrite parse_option_tail; [|done|by destruct (cfg_follower c)..].
  by destruct (cfg_follower c).
Qed.

(** C40: every sensible configuration can be asked for.  The command line that
    spells a configuration out is accepted and read back as that configuration,
    provided the host and the log path do not look like options and the thread
    count is within the limit of the command line. *)
Theorem parse_args_roundtrip hw c :
  config_ok c -> num_workers c <= 4096 -> plain (host c) -> plain (wal_path c) ->
  parse_args hw (render_positional c ++ render_options c) = inr c.
Proof.
  intros [Hp Hw Hi Hc [Hm Hne] Hr Hd] Hw' Hh Hwal. unfold parse_args, render_positional.
  cbn [app]. rewrite !parse_options_plain by (done || apply plain_to_string). cbn [app].
  rewrite parse_render_options by done. unfold bind at 1. cbn [fst snd].
  unfold parse_positional. cbn [host port num_workers wal_path idle_timeout_seconds capacity length].
  unfold parse_port, argument, parse_workers, parse_timeout, parse_capacity, stoi, stol, stoll. cbn [lookup list_lookup].
  rewrite !in_range_to_string by (unfold INT_MIN, INT_MAX, LONG_MIN, LONG_MAX in *; lia). cbn.
  change (check_config (mkConfig (host c) (port c) (num_workers c) (wal_path c) (idle_timeout_seconds c)
    (capacity c) (cfg_follower c) (follower_addrs c) (raft_peers c) (shard_addrs c) (disk_path c)
    (metrics_port c)) = inr c).
  replace (mkConfig _ _ _ _ _ _ _ _ _ _ _ _) with c by (by destruct c).
  unfold check_config, roles in *. rewrite Z.mod_small by lia.
  destruct (Z.eqb_spec (metrics_port c) (port c)); [done|]. rewrite andb_false_r.
  destruct (cfg_follower c), (none (follower_addrs c)), (none (raft_peers c)),
    (none (shard_addrs c)) eqn:Es; simpl in *; try lia; try (by rewrite andb_false_r).
  rewrite bool_decide_eq_true_2; [done|]. apply Hd. by destruct (shard_addrs c).
Qed.

(** ** A server at work, and started again

    Everything that changes the state of a running server: a worker serves a
    line of some connection; the Raft timer thread changes the node; a sender
    thread changes the replicator.  Any interleaving of the threads is a
    sequence of these. *)
Inductive activity :=
  | Serves (e : line_env) (line : bytes) (link : bool)
  | Timer (n : option RaftNode)
  | Sender (r : option Replicator).

Section durability.
Context `{UnorderedIter}.
Abbreviation server := (Server Wal Replicator).

Definition act (s : server) (a : activity) : server :=
  match a with
  | Serves e line link => sv_server (serve_line e line link s)
  | Timer n => mkServer (store_ s) n (router_ s) (metrics_ s) (is_follower s)
  | Sender r => mkServer (with_replicator r (store_ s)) (raft_ s) (router_ s) (metrics_ s) (is_follower s)
  end.

(** A line as a connection delivers it is within the limit and one chunk. *)
Definition deliverable (a : activity) : Prop :=
  match a with Serves _ line _ => blen line <= kMaxLineLength + 4096 | _ => True end.

(** A server whose log agrees with its data. *)
Definition logging (s : server) : Prop := session_ok (store_ s) /\ is_follower s = false.

Lemma act_logging s a : logging s -> deliverable a -> logging (act s a).
Proof.
  intros [Hs Hf] Ha. destruct a as [e line link|n|r]; [|done|].
  - simpl in *. unfold serve_line. destruct (verb_and_key line) as [verb key].
    destruct (verb =?b lit "INFO"); [done|].
    destruct (router_ s); [by destruct (route_line _ _ line)|]. split; [|done]. cbn [store_ sv_server].
    rewrite Hf. destruct (execute_line_ops line (store_ s) false (Some link) (raft_ s) (e_now e)) as (ops & _ & Ho & ->).
    apply session_run; [done|]. eapply Forall_impl; [exact Ho|]. intros o. apply asked_data_op.
    unfold kMaxLineLength, kMaxField in *. lia.
  - split; [|done]. destruct Hs as (Hok & Hd & w & Hw & Hi & Hv). split; [exact Hok|]. split; [done|by exists w].
Qed.

Lemma acts_logging s l : logging s -> Forall deliverable l -> logging (foldl act s l).
Proof. intros Hs Hl. revert s Hs. induction Hl as [|a l Ha _ IH]; intros s Hs; [done|]. by apply IH, act_logging. Qed.

(** The connection loop does nothing else to the server. *)
Lemma drain_acts e0 f (c : conn Wal Replicator) :
  blen (inbuf c) <= kMaxLineLength + 4096 ->
  blen (inbuf (drain e0 f c)) <= blen (inbuf c) /\
  exists l, Forall deliverable l /\ c_server (drain e0 f c) = foldl act (c_server c) l.
Proof.
  revert c. induction f as [|f IH]; intros c Hb; simpl; [split; [lia|by exists []]|].
  destruct (c_closed c); [split; [lia|by exists []]|].
  destruct (find_line (inbuf c)) as [[line rest]|] eqn:E; [|split; [lia|by exists []]].
  apply find_line_Some in E as [E _].
  assert (blen line <= blen (inbuf c) /\ blen rest <= blen (inbuf c)) as [Hl Hr]
    by (rewrite E; unfold blen; rewrite length_app; simpl; lia).
  unfold one_line_step. destruct (next_env e0 (c_envs c)) as [e es].
  destruct (IH (mkConn rest (sv_link (serve_line e line (c_link c) (c_server c))) es
    (if negb (c_link c) then c_sent c ++
       [(transmit (e_sending e) (sv_reply (serve_line e line (c_link c) (c_server c)) ++ [newline])).2] else c_sent c)
    (negb (c_link c) && negb (transmit (e_sending e) (sv_reply (serve_line e line (c_link c) (c_server c)) ++ [newline])).1
     || sv_close (serve_line e line (c_link c) (c_server c)))
    (sv_server (serve_line e line (c_link c) (c_server c))))) as [Hb' (l & Hd & El)]; [simpl; lia|].
  simpl in Hb'. split; [lia|]. exists (Serves e line (c_link c) :: l). split; [|done].
  constructor; [simpl; lia|done].
Qed.

Lemma handle_client_acts e0 chunks (c : conn Wal Replicator) :
  Forall (fun b => blen b <= 4096) chunks ->
  exists l, Forall deliverable l /\ c_server (handle_client e0 chunks c) = foldl act (c_server c) l.
Proof.
  intros Hc. revert c. induction Hc as [|b bs Hb _ IH]; intros c; cbn [handle_client];
    (destruct (c_closed c); [by exists []|]);
    (destruct (Z.ltb_spec kMaxLineLength (blen (inbuf c))); [destruct (next_env e0 (c_envs c)); by exists []|]).
  - by exists [].
  - destruct (drain_acts e0 (length (inbuf (append_chunk b c))) (append_chunk b c)) as [_ (l & Hl & El)].
    { cbn [append_chunk with_inbuf inbuf]. unfold blen in *. rewrite length_app. lia. }
    destruct (IH (drain_all e0 (append_chunk b c))) as (l' & Hl' & El').
    exists (l ++ l'). split; [by apply Forall_app|]. rewrite El', foldl_app. unfold drain_all. by rewrite El.
Qed.

Lemma setup_replication_frame c st :
  view (setup_replication c st) = view st /\ (session_ok st -> session_ok (setup_replication c st)).
Proof.
  unfold setup_replication. destruct (cfg_follower c); [done|]. destruct (none _); [done|].
  split; [done|]. intros (Hok & Hd & w & Hw & Hi & Hv). split; [exact Hok|]. split; [done|by exists w].
Qed.

Definition logs (c : ServerConfig) : Prop :=
  disk_path c = [] /\ wal_path c <> [] /\ wal_path c <> lit "none" /\ wal_path c <> lit "-".

Lemma setup_storage_logs c w :
  logs c -> setup_storage c w = setup_persistence (wal_path c) (wal_bytes w) (io_outcomes w) (storage_new (capacity c)).
Proof. intros [Hd _]. unfold setup_storage. by rewrite Hd. Qed.

Lemma main_inr hw args w s p c :
  parse_args hw args = inr c -> main hw args w = inr (s, p) ->
  exists st, setup_storage c w = Some st /\ s = mkServer (setup_replication c st) (setup_raft c (start_time w))
    (setup_sharding c) metrics_new (cfg_follower c).
Proof.
  intros Ep. unfold main, server_run, server_setup. rewrite Ep.
  destruct (setup_storage c w) as [st|]; [|done]. destruct (can_listen w); [|done].
  simpl. intros [= <- <-]. by exists st.
Qed.

Lemma main_logging hw args w s p c rs :
  parse_args hw args = inr c -> logs c -> cfg_follower c = false ->
  is_log (default [] (wal_bytes w)) rs -> fits (capacity c) (apply_records ∅ rs) ->
  main hw args w = inr (s, p) -> logging s /\ view (store_ s) = apply_records ∅ rs.
Proof.
  intros Ep Hl Hf Hrs Hfit Hm. destruct (main_inr _ _ _ _ _ _ Ep Hm) as (st & Est & ->).
  rewrite (setup_storage_logs c w Hl) in Est. destruct Hl as (_ & H1 & H2 & H3).
  destruct (setup_session _ _ _ _ st rs H1 H2 H3 Hrs Hfit Est) as (Hs & _ & _ & _ & Hv).
  destruct (setup_replication_frame c st) as [Ev Hss]. split; [split; [by apply Hss|done]|].
  cbn [store_]. by rewrite Ev.
Qed.

End durability.

(** ** Concrete command lines *)

#[local] Existing Instance list_iter.

Definition demo_args : list bytes :=
  [lit "0.0.0.0"; lit "--follower"; lit "10.0.0.2:6381"; lit "7000"; lit "4"; lit "data.wal"; lit "60"; lit "+9";
   lit "--metrics-port"; lit "9100"].
Definition demo_cfg : ServerConfig :=
  mkConfig (lit "0.0.0.0") 7000 4 (lit "data.wal") 60 9 false [lit "10.0.0.2:6381"] [] [] [] 9100.

Lemma parse_args_sound_witness : parse_args 0 demo_args = inr demo_cfg /\ config_ok demo_cfg.
Proof.
  assert (parse_args 0 demo_args = inr demo_cfg) as E by by vm_compute.
  split; [exact E|]. exact (parse_args_sound 0 demo_args demo_cfg (Z.le_refl 0) E).
Defined.

Lemma parse_args_roundtrip_witness :
  parse_args 16 (render_positional demo_cfg ++ render_options demo_cfg) = inr demo_cfg.
Proof.
  assert (config_ok demo_cfg) as Hok by (constructor; simpl; unfold LONG_MAX; try lia; done).
  exact (parse_args_roundtrip 16 demo_cfg Hok ltac:(simpl; lia) ltac:(by vm_compute) ltac:(by vm_compute)).
Defined.

Definition demo_world (file : option bytes) : world := mkWorld file [] [IoOk; IoOk; IoFail 9] demo_instant true.
Definition demo_main (file : option bytes) : Server Wal Replicator * Pool (T := Z) :=
  match main 0 demo_args (demo_world file) with
  | inr x => x
  | inl _ => (mkServer (storage_new 0) None None metrics_new false, pool_new 0 0)
  end.
Definition demo_activity : list activity :=
  [Serves demo_env1 (lit "SET a 1") false; Sender None; Serves demo_env1 (lit "SET b 2") false;
   Serves demo_env1 (lit "GET a") false].
Definition demo_after : Server Wal Replicator := foldl act (demo_main None).1 demo_activity.
Definition demo_log : Wal := default (wal_new None []) (wal_ (store_ demo_after)).

