(* ===== verification/Running.v ===== *)
(** * A server in service

    What holds of a server for as long as it runs, whatever its threads do: every
    field stays in the range of its C++ type and the fields agree with each other;
    and a server on the on-disk engine can be killed and started again. *)

From S2P Require Import Prelude Stream Records Interfaces DiskStore Storage StorageCorrect.
From S2P Require Import Wal Replicator Recovery Address Net Raft Command Metrics Server Replication ThreadPool Startup.

Local Open Scope Z_scope.

(** ** What the threads do

    The critical sections of the Raft timer thread, of a sender thread on its
    link, and of the workers. *)
Inductive raft_section (n : RaftNode) : RaftNode -> Prop :=
  | sec_tick i d n' : tick i n = (d, n') -> raft_section n n'
  | sec_election i t n' : begin_election i n = Begun t n' -> raft_section n n'
  | sec_vote peer answer reply i t votes o n' :
      send_request_vote peer answer = Some reply -> count_vote i t votes reply n = (o, n') -> raft_section n n'
  | sec_heartbeats i t n' : begin_heartbeats i n = Some (t, n') -> raft_section n n'
  | sec_heartbeat peer answer reply i t b n' :
      send_append_entries peer answer = Some reply -> heartbeat_reply i t reply n = (b, n') -> raft_section n n'
  | sec_stop : raft_section n (raft_stop n).2.

Inductive link_section (l : Link) : Link -> Prop :=
  | sec_begin : link_section l (begin_stream l)
  | sec_end : link_section l (end_stream l)
  | sec_next : link_section l (next_line l).2
  | sec_stop_link : link_section l (stop_link l).

Section running.
Context `{UnorderedIter}.
Abbreviation server := (Server Wal Replicator).

(** A run is in a state, or past an overflow of which C++ promises nothing. *)
Inductive run_state := Runs (s : server) | Undefined.

Inductive server_step (s : server) : run_state -> Prop :=
  | srv_line e line link : server_step s (Runs (sv_server (serve_line e line link s)))
  | srv_timer n n' :
      raft_ s = Some n -> raft_section n n' ->
      server_step s (Runs (mkServer (store_ s) (Some n') (router_ s) (metrics_ s) (is_follower s)))
  | srv_overflow n i :
      raft_ s = Some n -> begin_election i n = TermOverflow -> server_step s Undefined
  | srv_sender r j l l' :
      replicator_ (store_ s) = Some r -> links_ r !! j = Some l -> link_section l l' ->
      server_step s (Runs (mkServer (with_replicator (Some {| links_ := <[j := l']> (links_ r); started_ := started_ r |}) (store_ s))
                             (raft_ s) (router_ s) (metrics_ s) (is_follower s)))
  | srv_connect : server_step s (Runs (mkServer (store_ s) (raft_ s) (router_ s) (on_connect (metrics_ s)) (is_follower s)))
  | srv_disconnect : server_step s (Runs (mkServer (store_ s) (raft_ s) (router_ s) (on_disconnect (metrics_ s)) (is_follower s))).

Definition run_step (a b : run_state) : Prop := if a is Runs s then server_step s b else False.

(** ** The types *)

(** Eleven [long long] counters. *)
Definition metrics_typed (m : Metrics) : Prop :=
  Forall long [commands_ m; gets_ m; sets_ m; dels_ m; get_hits_ m; get_misses_ m; errors_ m;
               connections_total_ m; connected_ m; latency_ns_total_ m; latency_count_ m].

(** A port in range, a bounded queue, and nothing queued before the cut. *)
Definition link_typed (l : Link) : Prop :=
  1 <= l_port l <= 65535 /\ link_bounded l /\ (streaming l = false -> queue l = []).

(** A term of type [long] that is not negative; a name; peers without duplicates
    and without the node itself; and what each role knows. *)
Definition raft_typed (n : RaftNode) : Prop :=
  0 <= current_term_ n <= LONG_MAX /\ self_id (config_ n) <> [] /\
  NoDup (peers (config_ n)) /\ (self_id (config_ n) ∉ peers (config_ n)) /\
  match role_ n with
  | Leader => voted_for_ n = self_id (config_ n) /\ leader_id_ n = self_id (config_ n)
  | Candidate => voted_for_ n = self_id (config_ n) /\ leader_id_ n = []
  | Follower => True
  end.

Definition has {A} (o : option A) : bool := if o is Some _ then true else false.

Definition server_roles (s : server) : list bool :=
  [is_follower s; has (replicator_ (store_ s)); has (raft_ s); has (router_ s)].

Definition replicator_typed (o : option Replicator) : Prop :=
  match o with Some r => Forall link_typed (links_ r) | None => True end.

Record server_typed (s : server) : Prop := {
  ty_store : store_ok (store_ s);
  ty_metrics : metrics_typed (metrics_ s);
  ty_links : replicator_typed (replicator_ (store_ s));
  ty_raft : match raft_ s with Some n => raft_typed n | None => True end;
  ty_roles : (length (List.filter id (server_roles s)) <= 1)%nat;
}.

(** *** Metrics *)

Lemma fetch_add_long x d : long (fetch_add x d).
Proof.
  unfold long, fetch_add, wrap_ll. pose proof (Z.mod_pos_bound (x + d - LONG_MIN) two64 ltac:(done)).
  unfold LONG_MIN, LONG_MAX, two64 in *. lia.
Qed.

Lemma metrics_new_typed : metrics_typed metrics_new.
Proof. by repeat constructor. Qed.

Ltac counters := repeat (first [apply Forall_nil_2 | apply Forall_cons_2; [first [apply fetch_add_long | assumption]|]]).

Lemma connect_typed m : metrics_typed m -> metrics_typed (on_connect m).
Proof. unfold metrics_typed. intros Hm. decompose_Forall_hyps. counters. Qed.

Lemma disconnect_typed m : metrics_typed m -> metrics_typed (on_disconnect m).
Proof. unfold metrics_typed. intros Hm. decompose_Forall_hyps. counters. Qed.

Lemma latency_typed ns m : metrics_typed m -> metrics_typed (on_latency ns m).
Proof. unfold metrics_typed. intros Hm. decompose_Forall_hyps. counters. Qed.

Lemma on_get_typed hit m : metrics_typed m -> metrics_typed (on_get hit m).
Proof. unfold metrics_typed, on_get. intros Hm. decompose_Forall_hyps. destruct hit; counters. Qed.

Lemma on_command_typed verb err m : metrics_typed m -> metrics_typed (on_command verb err m).
Proof.
  unfold metrics_typed, on_command. intros Hm. decompose_Forall_hyps.
  repeat case_match; cbn; counters.
Qed.

Lemma record_command_typed verb r routed hit ns m :
  metrics_typed m -> metrics_typed (record_command verb r routed hit ns m).
Proof.
  intros Hm. unfold record_command. assert (metrics_typed (on_command verb (starts_with (lit "ERR") r) (on_latency ns m)))
    by by apply on_command_typed, latency_typed.
  case_match; [by apply on_get_typed|done].
Qed.

(** *** Links *)

Lemma enqueue_typed line r : Forall link_typed (links_ r) -> Forall link_typed (links_ (enqueue line r)).
Proof.
  intros Hr. simpl. apply Forall_fmap. eapply Forall_impl; [exact Hr|]. intros l (Hp & Hb & Hq).
  pose proof (enqueue_link_bounded line l Hb) as Hb'. split; [|split; [exact Hb'|]].
  - unfold enqueue_link. by repeat case_match.
  - unfold enqueue_link. destruct (streaming l) eqn:E; [|intros _; by apply Hq]. cbn; by case_match.
Qed.

Lemma link_section_typed l l' : link_section l l' -> link_typed l -> link_typed l'.
Proof.
  unfold link_typed, link_bounded, kMaxQueue. intros Hs (Hp & Hb & Hq).
  destruct Hs; [split; [done|]; split; [cbn; lia|done]..| |done].
  unfold next_line. destruct (l_stop l || resync_needed l); [by cbn|].
  destruct (queue l) as [|x q] eqn:E; cbn; [rewrite E; cbn; by auto|].
  split; [done|]. split; [cbn in *; lia|]. intros Hf. by specialize (Hq Hf).
Qed.

Lemma replicate_typed (r : Replicator) rs :
  Forall link_typed (links_ r) -> Forall link_typed (links_ (foldl replicate_record r rs)).
Proof.
  revert r. induction rs as [|x rs IH]; intros r Hr; [done|]. apply IH. rewrite replicate_record_enqueue. by apply enqueue_typed.
Qed.

Lemma forwards_typed (o o' : option Replicator) rs :
  forwards o o' rs -> replicator_typed o -> replicator_typed o' /\ has o' = has o.
Proof.
  unfold forwards. intros ->. destruct o; [|done]. simpl. intros Hr. split; [by apply replicate_typed|done].
Qed.

(** *** Storage: any operation only enqueues *)

Abbreviation store := (Storage Wal Replicator).

Lemma run_op_forwards (st : store) o :
  store_ok st -> o <> OpReplaying false -> exists rs, forwards (replicator_ st) (replicator_ (run_op st o)) rs.
Proof.
  intros Hok Ho. destruct (disk_ st) as [d|] eqn:E.
  - destruct o as [k v|k|k|k| |[]]; simpl; [..|exists []; apply forwards_refl|done].
    + unfold storage_set. rewrite E. destruct (disk_set k v d) as [[] d']; [|exists []; apply forwards_refl].
      exists [RSet k v]. unfold forward, forwards. simpl. by destruct (replicator_ st).
    + unfold storage_get. rewrite E. exists []. apply forwards_refl.
    + unfold storage_del. rewrite E. destruct (disk_del k d) as [[] d']; destruct (d_ok d');
        first [exists []; apply forwards_refl|exists [RDel k]; unfold forward, forwards; simpl; by destruct (replicator_ st)].
    + exists []. apply forwards_refl.
    + unfold storage_clear. rewrite E. destruct (disk_clear d). exists []. apply forwards_refl.
  - destruct o as [k v|k|k|k| |[]]; simpl; [..|exists []; apply forwards_refl|done].
    + pose proof (set_effect k v st Hok E) as He. destruct (storage_set k v st) as [[] st'];
        [destruct He as ((ks & He & _) & _)|destruct He as (He & _)]; eexists; apply He.
    + pose proof (get_effect k st Hok E) as He. destruct (storage_get k st). eexists. apply He.
    + pose proof (del_effect k st Hok E) as He. destruct (storage_del k st) as [[n b] st'].
      destruct (view st !! k); [destruct b; eexists; apply He|]. destruct He as (_ & _ & ->). exists []. apply forwards_refl.
    + exists []. apply forwards_refl.
    + unfold storage_clear. rewrite E. exists []. apply forwards_refl.
Qed.

Lemma execute_store_typed line (st : store) follower link raft i :
  store_ok st -> replicator_typed (replicator_ st) ->
  let st' := x_store (execute_line line st follower link raft i) in
  store_ok st' /\ replicator_typed (replicator_ st') /\ has (replicator_ st') = has (replicator_ st).
Proof.
  intros Hok Hr. cbv zeta.
  destruct (execute_line_ops line st follower link raft i) as (ops & Hlen & Hops & ->).
  destruct ops as [|o [|]]; [done| |simpl in Hlen; lia]. cbn [run foldl].
  split; [by apply run_op_ok|]. destruct (run_op_forwards st o Hok) as [rs Hrs].
  - intros ->. by apply Forall_cons in Hops as [? _].
  - by eapply forwards_typed.
Qed.

(** *** Raft *)

Lemma reply_long tag tok r : read_reply tag tok = Some r -> long r.1.
Proof.
  unfold read_reply. destruct tok as [|t0 [|t1 [|t2 tok]]]; try done. case_match; [done|].
  destruct (stol t1) as [[v n]|] eqn:E; [|done]. intros [= <-]. by eapply stol_long.
Qed.

Lemma bind_some {A B} (o : option A) (f : A -> option B) b : o ≫= f = Some b -> exists a, o = Some a /\ f a = Some b.
Proof. destruct o; [by eexists|done]. Qed.

Lemma vote_reply_long p ans r : send_request_vote p ans = Some r -> long r.1.
Proof. intros (_ & _ & (tok & _ & E)%bind_some)%bind_some. by eapply reply_long. Qed.

Lemma append_reply_long p ans r : send_append_entries p ans = Some r -> long r.1.
Proof. intros (_ & _ & (tok & _ & E)%bind_some)%bind_some. by eapply reply_long. Qed.

Lemma become_follower_typed i t n :
  raft_typed n -> current_term_ n < t -> long t -> raft_typed (become_follower_locked i t n).
Proof. intros (Hc & Hs & Hn & Hp & _) Ht Hl. unfold long in *. split; [cbn; lia|]. by cbn. Qed.

Lemma request_vote_typed i t cand n : raft_typed n -> long t -> raft_typed (handle_request_vote i t cand n).2.
Proof.
  intros Hn Ht. unfold handle_request_vote. cbn [snd].
  set (n1 := if current_term_ n <? t then _ else n).
  assert (raft_typed n1) as (Hc & Hs & Hnd & Hp & Hr).
  { subst n1. destruct (Z.ltb_spec (current_term_ n) t); [by apply become_follower_typed|done]. }
  destruct ((t =? current_term_ n1) && _) eqn:Eg; [|done]. apply andb_true_iff in Eg as [_ Eg].
  split; [done|]. split; [done|]. split; [done|]. split; [done|]. cbn.
  apply orb_true_iff in Eg as [E%bool_decide_eq_true|E%bool_decide_eq_true];
    (destruct (role_ n1); first [exact I | destruct Hr as [Hv Hl]; split; congruence]).
Qed.

Lemma append_entries_typed i t ldr n : raft_typed n -> long t -> raft_typed (handle_append_entries i t ldr n).2.
Proof.
  intros Hn Ht. pose proof Hn as (Hc & Hs & Hnd & Hp & _). unfold long in Ht. unfold handle_append_entries.
  destruct (Z.leb_spec (current_term_ n) t); [|done]. split; [cbn; case_match; lia|]. by cbn.
Qed.

Lemma raft_section_typed n n' : raft_section n n' -> raft_typed n -> raft_typed n'.
Proof.
  intros Hs Hn. pose proof Hn as (Hc & Hid & Hnd & Hp & Hr).
  destruct Hs as [i d n' E|i t n' E|p ans reply i t k o n' Er E|i t n' E|p ans reply i t b n' Er E|].
  - unfold tick in E. repeat case_match; simplify_eq; done.
  - unfold begin_election in E. destruct (Z.ltb_spec LONG_MAX (current_term_ n + 1)); [done|].
    injection E as _ <-. split; [cbn; lia|]. by cbn.
  - apply vote_reply_long in Er. destruct reply as [rt g]. unfold count_vote in E.
    destruct (negb _ || negb (role_ n =?b Candidate)) eqn:Ec; [by simplify_eq|].
    apply orb_false_iff in Ec as [_ Ec%negb_false_iff%bool_decide_eq_true].
    destruct (Z.ltb_spec (current_term_ n) rt); [injection E as _ <-; by apply become_follower_typed|].
    destruct g; [|by simplify_eq]. destruct (majority n <=? S k)%nat; [|by simplify_eq].
    injection E as _ <-. do 4 (split; [done|]). cbn. rewrite Ec in Hr. by split; [apply Hr|].
  - unfold begin_heartbeats in E. destruct (role_ n =?b Leader); [|done]. by injection E as <- <-.
  - apply append_reply_long in Er. unfold heartbeat_reply in E.
    destruct (negb _ || negb _); [by simplify_eq|].
    destruct (Z.ltb_spec (current_term_ n) reply.1); simplify_eq; [by apply become_follower_typed|done].
  - unfold raft_stop. by destruct (running_ n).
Qed.

Lemma execute_raft_typed line (st : store) follower link raft i :
  (match raft with Some n => raft_typed n | None => True end) ->
  let raft' := x_raft (execute_line line st follower link raft i) in
  (match raft' with Some n => raft_typed n | None => True end) /\ has raft' = has raft.
Proof.
  intros Hr. cbv zeta. unfold execute_line. destruct (trim line =?b []); [done|].
  destruct (parse_line _) as [[verb key] rest].
  destruct (verb =?b lit "__REPLSYNC__").
  { unfold execute_sync. destruct (negb follower); [done|]. destruct (link =?b Some true); [done|].
    by destruct (storage_clear st) as [[] st']. }
  destruct ((verb =?b lit "__RAFT_VOTE__") || _).
  { unfold execute_rpc. destruct raft as [n|]; [|done]. destruct (stol key) as [[t ?]|] eqn:Et; [|done].
    apply stol_long in Et. destruct (verb =?b lit "__RAFT_VOTE__").
    - pose proof (request_vote_typed i t rest n Hr Et) as Hn. by destruct (handle_request_vote i t rest n).
    - pose proof (append_entries_typed i t rest n Hr Et) as Hn. by destruct (handle_append_entries i t rest n). }
  destruct (verb =?b lit "ROLE"); [done|]. destruct (follower && _ && _); [done|].
  assert (forall r, x_raft (execute_data verb key rest link r st) = r) as E
    by (intros r; unfold execute_data; repeat case_match; done).
  destruct raft as [n|]; [destruct (negb (is_leader n) && _); [done|]|]; by rewrite E.
Qed.

(** *** Every step keeps the types *)

Lemma serve_line_typed e line link (s : server) : server_typed s -> server_typed (sv_server (serve_line e line link s)).
Proof.
  intros [Hst Hm Hl Hr Hro]. unfold serve_line. destruct (verb_and_key line) as [verb key].
  assert (forall r routed hit, metrics_typed
    (if counts verb link then record_command verb r routed hit (e_ns e) (metrics_ s) else metrics_ s)) as Hacc
    by (intros r routed hit; destruct (counts verb link); [by apply record_command_typed|done]).
  destruct (verb =?b lit "INFO"); [split; cbn; try done; apply Hacc|].
  destruct (router_ s) as [shards|] eqn:Er.
  - destruct (route_line _ _ line) as [r close]. split; cbn [sv_server store_ metrics_ raft_]; try done; first [by apply Hacc|unfold server_roles in *; by rewrite Er in Hro].
  - destruct (execute_store_typed line (store_ s) (is_follower s) (Some link) (raft_ s) (e_now e) Hst Hl) as (H1 & H2 & H3).
    destruct (execute_raft_typed line (store_ s) (is_follower s) (Some link) (raft_ s) (e_now e) Hr) as (H4 & H5).
    split; cbn [sv_server store_ metrics_ raft_]; [done|apply Hacc|done..|].
    unfold server_roles in *. cbn [store_ raft_ router_ is_follower]. rewrite H3, H5. by rewrite Er in Hro.
Qed.

Definition run_typed (o : run_state) : Prop := if o is Runs s then server_typed s else True.

Lemma server_step_typed (s : server) o : server_step s o -> server_typed s -> run_typed o.
Proof.
  intros Hs Ht. destruct Hs as [e line link|n n' Hn Hsec|n i _ _|r j l l' Hr Hl Hsec| |]; [by apply serve_line_typed|..];
    [destruct Ht as [Hst Hm Hlk Hra Hro]|done|destruct Ht as [Hst Hm Hlk Hra Hro]..].
  - rewrite Hn in Hra. split; [done|done|done|by eapply raft_section_typed|].
    unfold server_roles in *. by rewrite Hn in Hro.
  - rewrite Hr in Hlk. split; [done|done| |done|unfold server_roles in *; by rewrite Hr in Hro].
    apply Forall_insert; [done|]. eapply link_section_typed; [exact Hsec|]. by eapply Forall_lookup_1.
  - split; [exact Hst|exact (connect_typed _ Hm)|exact Hlk|exact Hra|exact Hro].
  - split; [exact Hst|exact (disconnect_typed _ Hm)|exact Hlk|exact Hra|exact Hro].
Qed.

(** *** The server [main] starts *)

Lemma replay_loop_plain fuel file (st : store) n :
  store_ok st -> replicator_ st = None ->
  let st' := (replay_loop fuel file st n).2 in store_ok st' /\ replicator_ st' = None.
Proof.
  revert file st n. induction fuel as [|f IH]; intros file st n Hok Hr; [done|]. cbn [replay_loop].
  assert (forall o, o <> OpReplaying false -> store_ok (run_op st o) /\ replicator_ (run_op st o) = None) as Hop.
  { intros o Ho. split; [by apply run_op_ok|]. destruct (run_op_forwards st o Hok Ho) as [rs Hf].
    unfold forwards in Hf. by rewrite Hr in Hf. }
  destruct (parse_record file) as [[[k v|k] s']|]; [|  |done].
  - by apply IH; apply (Hop (OpSet k v)).
  - by apply IH; apply (Hop (OpDel k)).
Qed.

Lemma setup_storage_plain c w (st : store) :
  setup_storage c w = Some st -> store_ok st /\ replicator_ st = None.
Proof.
  unfold setup_storage. destruct (negb (disk_path c =?b [])).
  - unfold open_disk_backend. destruct (d_ok _); cbn; [|done]. intros [= <-]. split; [apply lru_ok_nil|done].
  - unfold setup_persistence. destruct (_ || _); [intros [= <-]; split; [apply lru_ok_nil|done]|].
    unfold replay_into. cbn [log_file wal_new]. destruct (wal_bytes w) as [file|].
    + pose proof (replay_loop_plain (length file) file (set_replaying true (storage_new (capacity c))) 0
        (lru_ok_nil _) eq_refl) as Hp.
      destruct (replay_loop _ _ _ _) as [n st1]. cbn [snd] in Hp. destruct Hp as [Hok Hr].
      destruct (open_for_append _) as [[] wl]; [|done]. intros [= <-]. cbn.
      assert (length (items_ (with_replaying false st1)) <= size (index_ st1))%nat as Hfu
        by (by rewrite (lru_ok_size _ _ _ Hok)).
      destruct (evict_loop_unlogged (size (index_ st1)) (with_replaying false st1) Hok Hfu)
        as (H1 & _ & _ & _ & _ & _ & _ & _ & H2).
      split; [exact H1|]. exact (eq_trans H2 Hr).
    + destruct (open_for_append _) as [[] wl]; [|done]. intros [= <-]. split; [apply lru_ok_nil|done].
Qed.

Lemma replicator_new_typed addrs : Forall link_typed (links_ (replicator_new addrs)).
Proof.
  cbn. induction addrs as [|a addrs IH]; [constructor|]. cbn. unfold repl_split_host_port at 1.
  destruct (split_host_port a) as [[h p]|] eqn:E; [|exact IH]. constructor; [|exact IH].
  apply split_host_port_range in E as [_ Hp]. split; [done|]. by split.
Qed.

Lemma setup_raft_typed c i :
  match setup_raft c i with Some n => raft_typed n | None => True end.
Proof.
  unfold setup_raft. destruct (none (raft_peers c)); [done|]. cbn.
  destruct (filter_peers_ok (host c ++ ":"%char :: to_string (port c)) (raft_peers c)) as (Hn & Hs & _).
  split; [cbn; unfold LONG_MAX; lia|]. split; [cbn; by destruct (host c)|]. by cbn.
Qed.

Lemma main_typed hw args w (s : server) p : 0 <= hw -> main hw args w = inr (s, p) -> server_typed s.
Proof.
  intros Hhw Hm. destruct (parse_args hw args) as [|c] eqn:Ep; [unfold main in Hm; by rewrite Ep in Hm|].
  pose proof (parse_args_ok _ _ _ Hhw Ep) as [_ _ _ _ _ Hroles _].
  destruct (main_inr _ _ _ _ _ _ Ep Hm) as (st & Est & ->).
  apply setup_storage_plain in Est as [Hok Hr].
  split; cbn [store_ raft_ metrics_]; [|apply metrics_new_typed| |apply setup_raft_typed|].
  - unfold setup_replication. destruct (cfg_follower c); [done|]. by destruct (none _).
  - unfold setup_replication. destruct (cfg_follower c); [by rewrite Hr|]. destruct (none _); [by rewrite Hr|].
    apply replicator_new_typed.
  - unfold server_roles, roles in *. cbn [store_ raft_ router_ is_follower].
    unfold setup_replication, setup_raft, setup_sharding.
    destruct (cfg_follower c), (none (follower_addrs c)), (none (raft_peers c)), (none (shard_addrs c));
      cbn in *; rewrite ?Hr; cbn; lia.
Qed.

Lemma run_well_typed o o' : rtc run_step o o' -> run_typed o -> run_typed o'.
Proof.
  induction 1 as [o|[s|] o1 o2 Hs _ IH]; [done| |done]. intros Ht. apply IH. by apply (server_step_typed s).
Qed.

(** The only way out of the defined states is an election in the largest term. *)
Lemma overflow_term (s : server) :
  server_typed s -> server_step s Undefined <-> exists n, raft_ s = Some n /\ current_term_ n = LONG_MAX.
Proof.
  intros [_ _ _ Hra _]. split.
  - intros Hs. inversion Hs as [| |n i Hn Ho| | |]; subst. exists n. split; [done|]. rewrite Hn in Hra.
    destruct Hra as [Hc _]. unfold begin_election in Ho. destruct (Z.ltb_spec LONG_MAX (current_term_ n + 1)); [lia|done].
  - intros (n & Hn & Ht). apply (srv_overflow s n demo_instant Hn). unfold begin_election. by rewrite Ht.
Qed.


(** Any client can bring it about: one [__RAFT_APPEND__] with the largest term, and
    the member's next election overflows. *)
Theorem client_overflows_term (s : server) n (e : line_env) (link : bool) :
  server_typed s -> raft_ s = Some n -> router_ s = None ->
  exists s', run_step (Runs s) (Runs s') /\ run_step (Runs s') Undefined.
Proof.
  intros Ht Hn Hro. set (line := lit "__RAFT_APPEND__ 9223372036854775807 x").
  exists (sv_server (serve_line e line link s)). split; [apply srv_line|].
  apply (overflow_term (sv_server (serve_line e line link s))); [by apply serve_line_typed|].
  assert (verb_and_key line = (lit "__RAFT_APPEND__", lit "9223372036854775807")) as Ev by by vm_compute.
  assert (trim line =?b [] = false) as Et by by vm_compute.
  assert (parse_line line = (lit "__RAFT_APPEND__", lit "9223372036854775807", lit "x")) as Ep by by vm_compute.
  assert (stol (lit "9223372036854775807") = Some (LONG_MAX, 19)) as El by by vm_compute.
  unfold serve_line. rewrite Ev. change (lit "__RAFT_APPEND__" =?b lit "INFO") with false. cbv iota.
  rewrite Hro. cbn [sv_server raft_]. unfold execute_line. rewrite Et.
  replace (trim line) with line by by vm_compute. rewrite Ep, Hn.
  change (lit "__RAFT_APPEND__" =?b lit "__REPLSYNC__") with false.
  change ((lit "__RAFT_APPEND__" =?b lit "__RAFT_VOTE__") || (lit "__RAFT_APPEND__" =?b lit "__RAFT_APPEND__")) with true.
  cbv iota. unfold execute_rpc. rewrite El. change (lit "__RAFT_APPEND__" =?b lit "__RAFT_VOTE__") with false. cbv iota.
  destruct Ht as [_ _ _ Hra _]. rewrite Hn in Hra. destruct Hra as [Hc _].
  unfold handle_append_entries. destruct (Z.leb_spec (current_term_ n) LONG_MAX); [|lia].
  eexists. split; [reflexivity|]. cbn. destruct (Z.ltb_spec (current_term_ n) LONG_MAX); [done|]. cbn. lia.
Qed.

(** ** Killed and started again, on the on-disk engine *)

Lemma act_holds (s : server) m a :
  holds (store_ s) m -> is_follower s = false -> deliverable a ->
  (exists m', holds (store_ (act s a)) m') /\ is_follower (act s a) = false.
Proof.
  intros Hh Hf Ha. destruct a as [e line link|n|r]; [|by split; [exists m|]|by split; [exists m|]].
  simpl in *. unfold serve_line. destruct (verb_and_key line) as [verb key].
  destruct (verb =?b lit "INFO"); [by split; [exists m|]|].
  destruct (router_ s); [destruct (route_line _ _ line); by split; [exists m|]|].
  split; [|done]. cbn [store_ sv_server]. rewrite Hf.
  destruct (execute_line_ops line (store_ s) false (Some link) (raft_ s) (e_now e)) as (ops & _ & Ho & ->).
  destruct (run_records (store_ s) m ops Hh) as (rs & Hrs & _); [|by eexists].
  eapply Forall_impl; [exact Ho|]. intros o. apply asked_data_op. unfold kMaxLineLength, kMaxField in *. lia.
Qed.

Lemma acts_hold (s : server) m l :
  holds (store_ s) m -> is_follower s = false -> Forall deliverable l -> exists m', holds (store_ (foldl act s l)) m'.
Proof.
  intros Hh Hf Hl. revert s m Hh Hf. induction Hl as [|a l Ha _ IH]; intros s m Hh Hf; [by exists m|].
  destruct (act_holds s m a Hh Hf Ha) as [[m' Hm'] Hf']. by eapply IH.
Qed.

Lemma main_disk hw args c w (s : server) p :
  parse_args hw args = inr c -> disk_path c <> [] -> main hw args w = inr (s, p) ->
  let d := disk_open (disk_bytes w) (io_outcomes w) in
  d_ok d = true /\ disk_ (store_ s) = Some d /\ is_follower s = cfg_follower c.
Proof.
  intros Ep Hd Hm. destruct (main_inr _ _ _ _ _ _ Ep Hm) as (st & Est & ->). revert Est.
  unfold setup_storage. rewrite bool_decide_eq_false_2 by done. cbn [negb]. unfold open_disk_backend.
  destruct (d_ok _) eqn:Ed; cbn; [|done]. intros [= <-]. split; [done|]. split; [|done].
  unfold setup_replication. destruct (cfg_follower c); [done|]. by destruct (none _).
Qed.

(** C19: a server with [--disk] survives being killed.  Start it, not as a replica, on
    any data file, torn or corrupt, provided that the I/O operation that cuts off an
    unreadable end works (the second one of the opening); let its threads do anything, in any interleaving, while writes to the
    file fail or not; kill it at any moment, even inside a write; start it again
    on what is left, whatever fails on the way short of opening the file.  Every
    key then reads as the data the old server held, which is what the old server
    would have answered, had its file not failed. *)
Theorem disk_main_survives_crash hw args c w (s : server) p l d file' w' s' p' :
  parse_args hw args = inr c -> disk_path c <> [] -> cfg_follower c = false ->
  main hw args w = inr (s, p) -> heals (io_outcomes w) -> Forall deliverable l ->
  disk_ (store_ (foldl act s l)) = Some d -> disk_crash_image d file' -> disk_bytes w' = file' ->
  main hw args w' = inr (s', p') ->
  exists m, holds (store_ (foldl act s l)) m /\
    (forall k, (storage_get k (store_ s')).1 = m !! k) /\
    (d_ok d = true -> forall k, (storage_get k (store_ s')).1 = (storage_get k (store_ (foldl act s l))).1).
Proof.
  intros Ep Hd Hf Hm Hheal Hdel Hdisk Hc Hfile Hm'.
  destruct (main_disk _ _ _ _ _ _ Ep Hd Hm) as (Hok & Hds & Hfs).
  destruct (main_disk _ _ _ _ _ _ Ep Hd Hm') as (Hok' & Hds' & _). rewrite Hfile in *.
  assert (holds (store_ s) (apply_records ∅ (log_records (disk_bytes w)))) as Hh.
  { unfold holds. rewrite Hds. by apply disk_open_healed. }
  destruct (acts_hold s _ l Hh ltac:(congruence) Hdel) as [m Hhm]. exists m. split; [done|].
  pose proof Hhm as Hinv. unfold holds in Hinv. rewrite Hdisk in Hinv.
  assert (forall k, (storage_get k (store_ s')).1 = m !! k) as Hget.
  { intros k. unfold storage_get. rewrite Hds'. cbn [fst].
    rewrite <- (disk_crash_image_log d m file' Hinv Hc). by apply index_of_get, disk_open_index. }
  split; [done|]. intros Hdok k. rewrite Hget. symmetry. apply holds_get; [done|].
  intros d' Hd'. rewrite Hdisk in Hd'. by injection Hd' as <-.
Qed.
End running.

(** ** Concrete runs *)

#[local] Existing Instance list_iter.

(** A leader whose sender has made its cut serves a write. *)
Definition demo_leader : Server Wal Replicator := (demo_main None).1.
Definition demo_links : Replicator := default (replicator_new []) (replicator_ (store_ demo_leader)).
Definition demo_link : Link := default (new_link [] 1) (links_ demo_links !! 0%nat).
Definition demo_streaming : Server Wal Replicator :=
  mkServer (with_replicator (Some {| links_ := <[0%nat := begin_stream demo_link]> (links_ demo_links);
                                     started_ := started_ demo_links |}) (store_ demo_leader))
    (raft_ demo_leader) (router_ demo_leader) (metrics_ demo_leader) (is_follower demo_leader).
Definition demo_written : Server Wal Replicator :=
  sv_server (serve_line demo_env1 (lit "SET a 1") false demo_streaming).


(** A data file with a torn end; a write that succeeds and one that is torn. *)
Definition demo_disk_args : list bytes := [lit "--disk"; lit "data.db"].
Definition demo_disk_cfg : ServerConfig :=
  mkConfig (lit "127.0.0.1") 6380 (default_workers 0) (lit "redon.wal") 300 0 false [] [] [] (lit "data.db") 0.
Definition demo_disk_world (file : bytes) : world :=
  mkWorld None file [IoOk; IoOk; IoOk; IoOk; IoFail 9] demo_instant true.
Definition demo_disk_main (file : bytes) : Server Wal Replicator * Pool (T := Z) :=
  match main 0 demo_disk_args (demo_disk_world file) with
  | inr x => x
  | inl _ => (mkServer (storage_new 0) None None metrics_new false, pool_new 0 0)
  end.
Definition demo_file : bytes := lit "SET 1 1 c3" ++ [newline] ++ lit "SET 1 10 dXY".
Definition demo_disk_acts : list activity :=
  [Serves demo_env1 (lit "SET a 1") false; Serves demo_env1 (lit "SET b 2") false].
Definition demo_disk_after : Server Wal Replicator := foldl act (demo_disk_main demo_file).1 demo_disk_acts.
Definition demo_disk : DiskStore := default (disk_open [] []) (disk_ (store_ demo_disk_after)).

Lemma demo_disk_world_bytes file : disk_bytes (demo_disk_world file) = file.
Proof. done. Qed.

Lemma disk_main_survives_crash_witness :
  d_data demo_disk = lit "SET 1 1 c3" ++ [newline] ++ lit "SET 1 1 a1" ++ [newline] ++ lit "SET 1 1 b" /\
  exists m, holds (store_ demo_disk_after) m /\
    forall k, (storage_get k (store_ (demo_disk_main (d_data demo_disk)).1)).1 = m !! k.
Proof.
  split; [by vm_compute|].
  assert (disk_crash_image demo_disk (d_data demo_disk)) as Hc by (exists []; rewrite app_nil_r; split; [done|]; split; [by left|done]).
  assert (main 0 demo_disk_args (demo_disk_world demo_file) = inr ((demo_disk_main demo_file).1, (demo_disk_main demo_file).2))
    as Hm by by vm_compute.
  assert (main 0 demo_disk_args (demo_disk_world (d_data demo_disk)) =
          inr ((demo_disk_main (d_data demo_disk)).1, (demo_disk_main (d_data demo_disk)).2)) as Hm' by by vm_compute.
  assert (parse_args 0 demo_disk_args = inr demo_disk_cfg) as Hp by by vm_compute.
  assert (Forall deliverable demo_disk_acts) as Hl by by repeat constructor.
  assert (disk_ (store_ (foldl act (demo_disk_main demo_file).1 demo_disk_acts)) = Some demo_disk) as Hd by by vm_compute.
  assert (disk_path demo_disk_cfg <> []) as Hne by done.
  assert (heals (io_outcomes (demo_disk_world demo_file))) as Hh by by vm_compute.
  destruct (disk_main_survives_crash 0 demo_disk_args demo_disk_cfg (demo_disk_world demo_file) (demo_disk_main demo_file).1
    (demo_disk_main demo_file).2 demo_disk_acts demo_disk (d_data demo_disk) (demo_disk_world (d_data demo_disk))
    (demo_disk_main (d_data demo_disk)).1 (demo_disk_main (d_data demo_disk)).2 Hp Hne eq_refl Hm Hh Hl Hd Hc (demo_disk_world_bytes _) Hm')
    as (m & Hhm & Hg & _).
  exists m. split; [exact Hhm|exact Hg].
Defined.
