(* ===== verification/Durable.v ===== *)
(** * A map that outlives its server (src/main.cpp, src/server.cpp, src/disk_store.cpp, src/wal.cpp)

    A server started, served, killed and started again, any number of times, on
    the on-disk engine or on the cache and its log: the specification of
    [Standalone] carried across crashes. *)

From S2P Require Import Prelude Stream Records Interfaces DiskStore Storage StorageCorrect.
From S2P Require Import Wal Replicator Recovery Address Net Raft Command Metrics Server Standalone.
From S2P Require Import Replication ThreadPool Startup Running.

Local Open Scope Z_scope.

(** What happens to the server: a connection that sends some lines and is sent
    some replies, or a crash and a new start. *)
Inductive happening := Served (lines : list bytes) (sent : list bytes) | Crashed.

(** The history of one map that answers all lines and forgets nothing. *)
Fixpoint remembers (tr : list happening) (m m' : gmap bytes bytes) : Prop :=
  match tr with
  | [] => m = m'
  | Served lines sent :: tr' =>
      sent = (.++ [newline]) <$> (converse lines m).1 /\ remembers tr' (converse lines m).2 m'
  | Crashed :: tr' => remembers tr' m m'
  end.

(** What a crash leaves: the data file, with part of one more record if the server
    died inside a write; or the log as it was after the last write. *)
Definition leaves_disk (s : Server Wal Replicator) (w : world) : Prop :=
  exists d, disk_ (store_ s) = Some d /\ disk_crash_image d (disk_bytes w).
Definition leaves_log (s : Server Wal Replicator) (w : world) : Prop :=
  exists l, wal_ (store_ s) = Some l /\ wal_bytes w = Some (log_bytes l).

Section durable.
Context `{UnorderedIter} (e0 : line_env) (hw : Z) (args : list bytes).
Abbreviation server := (Server Wal Replicator).

(** A connection in any chunks of the receive buffer; a crash and a start with the
    same command line on what is left. *)
Inductive history (leaves : server -> world -> Prop) : server -> list happening -> server -> Prop :=
  | h_end s : history leaves s [] s
  | h_serve s lines chunks envs tr s' :
      Forall sane_line lines -> Forall (fun l => command_of l <> Info) lines -> mjoin chunks = stream_of lines ->
      Forall (fun b => blen b <= 4096) chunks -> Forall (fun e => e_send e = true) envs ->
      history leaves (c_server (handle_client e0 chunks (new_conn envs s))) tr s' ->
      history leaves s (Served lines (c_sent (handle_client e0 chunks (new_conn envs s))) :: tr) s'
  | h_crash s w s1 p tr s' :
      leaves s w -> io_outcomes w = [] -> main hw args w = inr (s1, p) ->
      history leaves s1 tr s' -> history leaves s (Crashed :: tr) s'.

(** A node of its own, or a leader: no replica, no Raft, no router. *)
Definition serves_alone (c : ServerConfig) : Prop :=
  cfg_follower c = false /\ raft_peers c = [] /\ shard_addrs c = [].

Lemma main_alone c w (s : server) p m :
  parse_args hw args = inr c -> serves_alone c -> main hw args w = inr (s, p) -> usable (store_ s) m -> node_holds s m.
Proof.
  intros Ep (Hf & Hr & Hsh) Hm Hu. destruct (main_inr _ _ _ _ _ _ Ep Hm) as (st & _ & ->). split; [done|].
  cbn [router_ raft_ is_follower]. unfold setup_sharding, setup_raft. by rewrite Hr, Hsh, Hf.
Qed.

(** ** Any way to keep the data

    [kept s m]: server [s] holds [m] and would give it back after a crash. *)
Section kept.
Context (leaves : server -> world -> Prop) (kept : server -> gmap bytes bytes -> Prop).
Context (kept_node : forall s m, kept s m -> node_holds s m).
Context (kept_serve : forall s m chunks envs m',
  let s' := c_server (handle_client e0 chunks (new_conn envs s)) in
  kept s m -> Forall (fun b => blen b <= 4096) chunks -> node_holds s' m' -> kept s' m').
Context (kept_restart : forall s m w s1 p,
  kept s m -> leaves s w -> io_outcomes w = [] -> main hw args w = inr (s1, p) -> kept s1 m).

Lemma history_remembers s tr s' m :
  e_send e0 = true -> kept s m -> history leaves s tr s' -> exists m', remembers tr m m' /\ node_holds s' m'.
Proof.
  intros He0 Hk Hh. revert m Hk.
  induction Hh as [s|s lines chunks envs tr s' Hl Hi E Hb Henv _ IH|s w s1 p tr s' Himg Hio Hm _ IH]; intros m Hk.
  - exists m. split; [done|]. by apply kept_node.
  - destruct (serve_connection e0 lines chunks envs s m (kept_node s m Hk) Hl Hi E He0 Henv) as [Hsent Hs'].
    destruct (IH (converse lines m).2) as (m' & Hr & Hm'); [by eapply kept_serve|]. exists m'. by split.
  - apply IH. by eapply kept_restart.
Qed.
End kept.

(** ** On the disk *)

Lemma main_disk_holds c w (s : server) p :
  parse_args hw args = inr c -> serves_alone c -> disk_path c <> [] -> io_outcomes w = [] -> main hw args w = inr (s, p) ->
  node_holds s (apply_records ∅ (log_records (disk_bytes w))).
Proof.
  intros Ep Hc Hd Hio Hm. destruct (main_disk _ _ _ _ _ _ Ep Hd Hm) as (Hok & Hds & _). rewrite Hio in *.
  apply (main_alone c w s p); [done..|]. unfold usable, holds. rewrite Hds.
  split; [apply disk_open_inv|]. split; [done|apply disk_open_env].
Qed.

(** C8: acknowledged writes outlive the server.  Start a server with [--disk] on any
    file, serve any connections, kill it at any moment, even inside a write, start
    it again, and so on any number of times, with a disk that does not fail: the
    replies to all connections are those of one map that starts with what the file
    held, forgets nothing at a crash and invents nothing. *)
Theorem durable_map c w (s : server) p tr s' :
  parse_args hw args = inr c -> serves_alone c -> disk_path c <> [] -> io_outcomes w = [] -> e_send e0 = true ->
  main hw args w = inr (s, p) -> history leaves_disk s tr s' ->
  exists m', remembers tr (apply_records ∅ (log_records (disk_bytes w))) m' /\ node_holds s' m'.
Proof.
  intros Ep Hc Hd Hio He0 Hm Hh. pose proof (main_disk_holds c w s p Ep Hc Hd Hio Hm) as Hs.
  apply (history_remembers leaves_disk node_holds) with s; try done.
  intros s0 m0 w1 s1 p1 ((Hh0 & _) & _) (d & Ed & Himg) Hio1 Hm1. unfold holds in Hh0. rewrite Ed in Hh0.
  rewrite <- (disk_crash_image_log d m0 _ Hh0 Himg). by apply (main_disk_holds c w1 s1 p1).
Qed.

(** ** On the cache and its log *)

(** The log of a fresh server is open and has nothing but successes ahead. *)
Lemma setup_reliable path file (st st' : Storage Wal Replicator) l :
  setup_persistence path file [] st = Some st' -> path <> [] -> path <> lit "none" -> path <> lit "-" ->
  wal_ st' = Some l -> reliable_log l.
Proof.
  intros E Hp1 Hp2 Hp3. unfold setup_persistence in E. rewrite !bool_decide_false in E by done. simpl in E.
  destruct (replay_into _ st) as [n st1]. injection E as <-. by intros [= <-].
Qed.

Definition keeps_log (s : server) (m : gmap bytes bytes) : Prop := node_holds s m /\ session_ok (store_ s).

Lemma main_log_keeps c w (s : server) p rs :
  parse_args hw args = inr c -> serves_alone c -> logs c -> capacity c = 0 -> io_outcomes w = [] ->
  is_log (default [] (wal_bytes w)) rs -> main hw args w = inr (s, p) -> keeps_log s (apply_records ∅ rs).
Proof.
  intros Ep Hc Hl Hcap Hio Hrs Hm. assert (fits (capacity c) (apply_records ∅ rs)) as Hfit by (unfold fits; lia).
  destruct (main_logging _ _ _ _ _ _ _ Ep Hl (proj1 Hc) Hrs Hfit Hm) as [[Hses _] Hv].
  split; [|done]. apply (main_alone c w s p); [done..|]. pose proof Hses as (Hok & Hd & l & El & _).
  unfold usable, holds, log_reliable. rewrite Hd, El. split; [done|].
  destruct (main_inr _ _ _ _ _ _ Ep Hm) as (st & Est & Es). rewrite (setup_storage_logs c w Hl), Hio in Est.
  destruct Hl as (_ & H1 & H2 & H3). destruct (setup_session _ _ _ _ _ _ H1 H2 H3 Hrs Hfit Est) as (_ & Ecap & _).
  assert (capacity_ (store_ s) = capacity_ st /\ wal_ (store_ s) = wal_ st) as [E1 E2].
  { subst s. cbn [store_]. unfold setup_replication. destruct (cfg_follower c); [done|]. by destruct (none _). }
  rewrite E1, Ecap, Hcap. split; [done|]. eapply setup_reliable; [exact Est|done..|congruence].
Qed.

Lemma keeps_log_serve (s : server) m chunks envs m' :
  let s' := c_server (handle_client e0 chunks (new_conn envs s)) in
  keeps_log s m -> Forall (fun b => blen b <= 4096) chunks -> node_holds s' m' -> keeps_log s' m'.
Proof.
  intros s' [Hn Hses] Hb Hn'. split; [done|].
  destruct (handle_client_acts e0 chunks (new_conn envs s) Hb) as (l & Hl & E). subst s'. rewrite E.
  apply (acts_logging s l); [|done]. split; [done|apply Hn].
Qed.

(** The log of a server that keeps it is a clean log of its data. *)
Lemma keeps_log_file (s : server) m l :
  keeps_log s m -> wal_ (store_ s) = Some l -> exists rs, is_log (log_bytes l) rs /\ apply_records ∅ rs = m.
Proof.
  intros [[[Hh Hu] _] (Hok & Hd & l' & El & (p & rs & tail & E & Hp & Ht & Hclean) & Hv)] El'.
  rewrite El in El'. injection El' as ->. unfold holds in Hh. rewrite Hd in Hh, Hu. unfold log_reliable in Hu. rewrite El in Hu.
  destruct Hh as [_ Hm], Hu as [_ (_ & Hlok & _)]. specialize (Hclean Hlok) as ->. rewrite app_nil_r in E. exists rs.
  rewrite E. split; [done|]. rewrite <- Hm, <- Hv. unfold wal_log. rewrite E. f_equal.
  rewrite <- (app_nil_r p). symmetry. apply is_log_torn; [done|by left].
Qed.

(** C9: the log carries the cache across crashes.  Start a standalone server with an
    unbounded cache on a clean log, serve any connections, kill it between two
    writes, start it again, any number of times, with a log that does not fail: the
    replies to all connections are those of one map that starts with what the log
    held, forgets nothing and invents nothing. *)
Theorem durable_log c w (s : server) p rs tr s' :
  parse_args hw args = inr c -> serves_alone c -> logs c -> capacity c = 0 -> io_outcomes w = [] -> e_send e0 = true ->
  is_log (default [] (wal_bytes w)) rs -> main hw args w = inr (s, p) -> history leaves_log s tr s' ->
  exists m', remembers tr (apply_records ∅ rs) m' /\ node_holds s' m'.
Proof.
  intros Ep Hc Hl Hcap Hio He0 Hrs Hm Hh. pose proof (main_log_keeps c w s p rs Ep Hc Hl Hcap Hio Hrs Hm) as Hs.
  apply (history_remembers leaves_log keeps_log) with s; try done.
  - by intros ? ? [? _].
  - intros s0 m0 chunks envs m' s1. by apply keeps_log_serve.
  - intros s0 m0 w1 s1 p1 Hk (l & El & Ew) Hio1 Hm1. destruct (keeps_log_file s0 m0 l Hk El) as (rs' & Hrs' & <-).
    apply (main_log_keeps c w1 s1 p1); try done. by rewrite Ew.
Qed.
End durable.

(** ** A concrete history: a write, a crash inside a second write, a read *)

#[local] Existing Instance list_iter.

Definition life_world (file : bytes) : world := mkWorld None file [] demo_instant true.
Definition life (file : bytes) : Server Wal Replicator * Pool (T := Z) :=
  match main 0 demo_disk_args (life_world file) with
  | inr r => r
  | inl _ => (demo_server, pool_new 0 0)
  end.

Definition life_conn (lines : list bytes) (s : Server Wal Replicator) : conn Wal Replicator :=
  handle_client demo_env1 [stream_of lines] (new_conn [] s).

Definition life1_lines : list bytes := [lit "SET a 1"; lit "QUIT"].
Definition life2_lines : list bytes := [lit "GET a"; lit "GET b"].
Definition life1 : Server Wal Replicator := c_server (life_conn life1_lines (life []).1).
Definition life_disk : DiskStore := default (disk_open [] []) (disk_ (store_ life1)).
Definition life_torn : bytes := d_data life_disk ++ lit "SET 1 1 b".
Definition life2 : Server Wal Replicator := c_server (life_conn life2_lines (life life_torn).1).
Definition life_trace : list happening :=
  [Served life1_lines (c_sent (life_conn life1_lines (life []).1)); Crashed;
   Served life2_lines (c_sent (life_conn life2_lines (life life_torn).1))].

Lemma life_lines_sane lines :
  forallb (fun l => bool_decide (sane_line l) && negb (bool_decide ((verb_and_key l).1 = lit "INFO"))) lines = true ->
  Forall sane_line lines /\ Forall (fun l => command_of l <> Info) lines.
Proof.
  induction lines as [|l lines IH]; [by split|]. cbn [forallb]. intros [[E1 E2]%andb_true_iff E]%andb_true_iff.
  destruct (IH E). bool_simpl. split; constructor; try done. by rewrite command_info.
Qed.

Lemma life_world_bytes file : disk_bytes (life_world file) = file.
Proof. reflexivity. Qed.

Lemma life_crash : disk_ (store_ life1) = Some life_disk /\ disk_crash_image life_disk (disk_bytes (life_world life_torn)).
Proof.
  split; [by vm_compute|]. rewrite life_world_bytes. unfold life_torn.
  assert (d_ok life_disk = true) as Hok by by vm_compute.
  assert (torn (lit "SET 1 1 b")) as Ht.
  { right. exists (RSet (lit "b") (lit "x")), (lit "x" ++ [newline]). split; [by_word|]. split; [done|by vm_compute]. }
  exists (lit "SET 1 1 b"). split; [done|]. split; [exact Ht|]. by rewrite Hok.
Qed.

Lemma life_served args leaves (s : Server Wal Replicator) lines tr s' :
  Forall sane_line lines /\ Forall (fun l => command_of l <> Info) lines /\ blen (stream_of lines) <= 4096 ->
  history demo_env1 0 args leaves (c_server (life_conn lines s)) tr s' ->
  history demo_env1 0 args leaves s (Served lines (c_sent (life_conn lines s)) :: tr) s'.
Proof.
  intros (Hl & Hi & Hb) Hh. apply (h_serve _ _ _ _ s lines [stream_of lines] []); [done|done| | |constructor|exact Hh].
  - unfold mjoin. simpl. by rewrite app_nil_r.
  - by constructor.
Qed.

Lemma life_history : history demo_env1 0 demo_disk_args leaves_disk (life []).1 life_trace life2.
Proof.
  destruct (life_lines_sane life1_lines ltac:(by vm_compute)) as [S1 I1].
  destruct (life_lines_sane life2_lines ltac:(by vm_compute)) as [S2 I2].
  assert (blen (stream_of life1_lines) <= 4096 /\ blen (stream_of life2_lines) <= 4096) as [B1 B2] by by vm_compute.
  destruct life_crash as [Hd Himg]. unfold life1 in Hd.
  assert (main 0 demo_disk_args (life_world life_torn) = inr ((life life_torn).1, (life life_torn).2)) as Hm by by vm_compute.
  assert (io_outcomes (life_world life_torn) = []) as Hio by (generalize life_torn; by intros).
  unfold life_trace, life2. apply (life_served _ _ _ _ _ _ (conj S1 (conj I1 B1))).
  exact (h_crash _ _ _ _ _ _ _ _ _ _ (ex_intro _ life_disk (conj Hd Himg)) Hio Hm
    (life_served _ _ _ _ _ _ (conj S2 (conj I2 B2)) (h_end _ _ _ _ _))).
Qed.

Lemma durable_map_witness :
  c_sent (life_conn life2_lines (life life_torn).1) = [lit "1" ++ [newline]; lit "(nil)" ++ [newline]] /\
  exists m', remembers life_trace (apply_records ∅ (log_records [])) m' /\ node_holds life2 m'.
Proof.
  split; [by vm_compute|].
  assert (parse_args 0 demo_disk_args = inr demo_disk_cfg) as Hp by by vm_compute.
  assert (serves_alone demo_disk_cfg) as Hc by by split.
  assert (disk_path demo_disk_cfg <> []) as Hd by done.
  assert (main 0 demo_disk_args (life_world []) = inr ((life []).1, (life []).2)) as Hm by by vm_compute.
  exact (durable_map demo_env1 0 demo_disk_args demo_disk_cfg (life_world []) (life []).1 (life []).2 life_trace life2
    Hp Hc Hd eq_refl eq_refl Hm life_history).
Defined.

(** The same on the log: a write, a crash, a read and another write, a crash, a read. *)
Definition log_args : list bytes := [].
Definition log_cfg : ServerConfig :=
  mkConfig (lit "127.0.0.1") 6380 (default_workers 0) (lit "redon.wal") 300 0 false [] [] [] [] 0.
Definition log_world (file : option bytes) : world := mkWorld file [] [] demo_instant true.
Definition log_life (file : option bytes) : Server Wal Replicator * Pool (T := Z) :=
  match main 0 log_args (log_world file) with
  | inr r => r
  | inl _ => (demo_server, pool_new 0 0)
  end.
Definition log_lines1 : list bytes := [lit "SET a 1"].
Definition log_lines2 : list bytes := [lit "GET a"; lit "SET b 2"].
Abbreviation log_life1 := (c_server (life_conn log_lines1 (log_life None).1)).
Definition log_file1 : Wal := default (wal_new None []) (wal_ (store_ log_life1)).
Abbreviation log_life2 := (c_server (life_conn log_lines2 (log_life (Some (log_bytes log_file1))).1)).
Abbreviation log_trace :=
  [Served log_lines1 (c_sent (life_conn log_lines1 (log_life None).1)); Crashed;
   Served log_lines2 (c_sent (life_conn log_lines2 (log_life (Some (log_bytes log_file1))).1))].

Lemma log_world_bytes file : wal_bytes (log_world file) = file /\ io_outcomes (log_world file) = [].
Proof. done. Qed.

Lemma log_crash : leaves_log log_life1 (log_world (Some (log_bytes log_file1))).
Proof.
  assert (wal_ (store_ log_life1) = Some log_file1) as E by by vm_compute.
  exists log_file1. split; [exact E|apply (proj1 (log_world_bytes _))].
Qed.

Lemma log_history : history demo_env1 0 log_args leaves_log (log_life None).1 log_trace log_life2.
Proof.
  destruct (life_lines_sane log_lines1 ltac:(by vm_compute)) as [S1 I1].
  destruct (life_lines_sane log_lines2 ltac:(by vm_compute)) as [S2 I2].
  assert (blen (stream_of log_lines1) <= 4096 /\ blen (stream_of log_lines2) <= 4096) as [B1 B2] by by vm_compute.
  pose proof log_crash as Hc.
  assert (main 0 log_args (log_world (Some (log_bytes log_file1))) =
          inr ((log_life (Some (log_bytes log_file1))).1, (log_life (Some (log_bytes log_file1))).2)) as Hm by by vm_compute.
  assert (io_outcomes (log_world (Some (log_bytes log_file1))) = []) as Hio by apply (proj2 (log_world_bytes _)).
  apply (life_served _ _ _ _ _ _ (conj S1 (conj I1 B1))).
  exact (h_crash _ _ _ _ _ _ _ _ _ _ Hc Hio Hm (life_served _ _ _ _ _ _ (conj S2 (conj I2 B2)) (h_end _ _ _ _ _))).
Qed.

Lemma durable_log_witness :
  c_sent (life_conn log_lines2 (log_life (Some (log_bytes log_file1))).1) = [lit "1" ++ [newline]; lit "OK" ++ [newline]] /\
  exists m', remembers log_trace (apply_records ∅ []) m' /\ node_holds log_life2 m'.
Proof.
  split; [by vm_compute|].
  assert (parse_args 0 log_args = inr log_cfg) as Hp by by vm_compute.
  assert (serves_alone log_cfg) as Hc by by split.
  assert (logs log_cfg) as Hl by by split.
  assert (main 0 log_args (log_world None) = inr ((log_life None).1, (log_life None).2)) as Hm by by vm_compute.
  exact (durable_log demo_env1 0 log_args log_cfg (log_world None) (log_life None).1 (log_life None).2 [] log_trace log_life2
    Hp Hc Hl eq_refl eq_refl eq_refl is_log_nil Hm log_history).
Defined.
