(* ===== verification/Sockets.v ===== *)
(** * Socket handles (src/net.h, and the set-up code of its users)

    The process's table of open sockets, the wrappers of net.h on it, and the
    code that opens connections and listeners.  System calls take their results
    from a script, so a theorem about every script is about everything the
    operating system may do. *)

From S2P Require Import Prelude Stream.

Local Open Scope Z_scope.

(** ** The operating system *)

Record timeval := mkTimeval { tv_sec : Z; tv_usec : Z }.

Record socket := mkSocket {
  rcvtimeo : option timeval;     (* [None]: block for ever *)
  sndtimeo : option timeval;
  keepalive : bool;
  is_listening : bool;
  reuseaddr : bool;
}.

(** [bad_closes] counts the calls of [close] on a descriptor that was not open. *)
Record OS := mkOS {
  fds : gmap Z socket;
  script : list Z;
  bad_closes : nat;
}.

(** Computations on it, with the monad notation of the library. *)
Definition M (A : Type) : Type := OS -> A * OS.
#[export] Instance M_ret : MRet M := fun A a s => (a, s).
#[export] Instance M_bind : MBind M := fun A B f m s => let '(a, s') := m s in f a s'.

Definition kInvalidSocket : Z := -1.

(** The next result of a system call; an exhausted script means failure. *)
Definition sys_result : M Z := fun s =>
  match script s with
  | [] => (-1, s)
  | r :: rs => (r, mkOS (fds s) rs (bad_closes s))
  end.

Definition sys_ok : M bool := r ← sys_result; mret (0 <=? r).

(** A new descriptor: the number the script names, if the kernel can hand it
    out, that is if it is not negative and not open already. *)
Definition install (sk : socket) (r : Z) : M Z := fun s =>
  match fds s !! r with
  | None => if 0 <=? r then (r, mkOS (<[r := sk]> (fds s)) (script s) (bad_closes s))
            else (kInvalidSocket, s)
  | Some _ => (kInvalidSocket, s)
  end.

Definition new_fd (sk : socket) : M Z := r ← sys_result; install sk r.

Definition sys_socket : M Z := new_fd (mkSocket None None false false false).

Definition sys_close (fd : Z) : M unit := fun s =>
  match fds s !! fd with
  | Some _ => (tt, mkOS (delete fd (fds s)) (script s) (bad_closes s))
  | None => (tt, mkOS (fds s) (script s) (S (bad_closes s)))
  end.

Definition update_socket (fd : Z) (f : socket -> socket) : M unit := fun s =>
  (tt, mkOS (alter f fd (fds s)) (script s) (bad_closes s)).

(** [setsockopt] may fail, and then sets nothing; no caller looks at its result. *)
Definition sys_setsockopt (fd : Z) (f : socket -> socket) : M unit :=
  ok ← sys_ok; if ok : bool then update_socket fd f else mret tt.

Definition sys_listen (fd : Z) : M bool :=
  ok ← sys_ok;
  if ok : bool
  then _ ← update_socket fd (fun k => mkSocket (rcvtimeo k) (sndtimeo k) (keepalive k) true (reuseaddr k)); mret true
  else mret false.

(** [accept] can only succeed on an open listening socket. *)
Definition sys_accept (fd : Z) : M Z := fun s =>
  match fds s !! fd with
  | Some k => if is_listening k then new_fd (mkSocket None None false false false) s else (kInvalidSocket, s)
  | None => (kInvalidSocket, s)
  end.

(** ** net.h (the POSIX branch) *)

Definition close_socket (s : Z) : M unit := sys_close s.

Definition set_recv_timeout (sock seconds : Z) : M unit :=
  if seconds <=? 0 then mret tt
  else sys_setsockopt sock (fun k => mkSocket (Some (mkTimeval seconds 0)) (sndtimeo k) (keepalive k) (is_listening k) (reuseaddr k)).

Definition set_send_timeout (sock seconds : Z) : M unit :=
  if seconds <=? 0 then mret tt
  else sys_setsockopt sock (fun k => mkSocket (rcvtimeo k) (Some (mkTimeval seconds 0)) (keepalive k) (is_listening k) (reuseaddr k)).

Definition ms_timeval (ms : Z) : timeval := mkTimeval (Z.quot ms 1000) (Z.rem ms 1000 * 1000).

Definition set_io_timeout_ms (sock ms : Z) : M unit :=
  if ms <=? 0 then mret tt
  else
    _ ← sys_setsockopt sock (fun k => mkSocket (Some (ms_timeval ms)) (sndtimeo k) (keepalive k) (is_listening k) (reuseaddr k));
    sys_setsockopt sock (fun k => mkSocket (rcvtimeo k) (Some (ms_timeval ms)) (keepalive k) (is_listening k) (reuseaddr k)).

Definition set_keepalive (sock : Z) : M unit :=
  sys_setsockopt sock (fun k => mkSocket (rcvtimeo k) (sndtimeo k) true (is_listening k) (reuseaddr k)).

(** [SO_REUSEADDR], which every listener asks for. *)
Definition set_reuseaddr (sock : Z) : M unit :=
  sys_setsockopt sock (fun k => mkSocket (rcvtimeo k) (sndtimeo k) (keepalive k) (is_listening k) true).

(** [connect_tcp]: [inet_pton] is not called before there is a socket, nor [connect]
    if it fails. *)
Definition connect_tcp : M Z :=
  sock ← sys_socket;
  if sock =? kInvalidSocket then mret kInvalidSocket
  else
    pton ← sys_ok;
    connected ← (if pton : bool then sys_ok else mret false);
    if negb connected then _ ← close_socket sock; mret kInvalidSocket
    else mret sock.

(** [SocketCloser]: what it owns; its destructor; [release]. *)
Definition SocketCloser := Z.
Definition closer_destroy (g : SocketCloser) : M unit :=
  if negb (g =? kInvalidSocket) then close_socket g else mret tt.
Definition closer_release (g : SocketCloser) : Z * SocketCloser := (g, kInvalidSocket).

(** ** Opening a listener

    [WebGateway::start] and [MetricsHttp::start], up to spawning the threads. *)
Definition open_listener : M Z :=
  listen_ ← sys_socket;
  if listen_ =? kInvalidSocket then mret kInvalidSocket
  else
    _ ← set_reuseaddr listen_;
    pton ← sys_ok;
    bound ← (if pton : bool then sys_ok else mret false);
    listening ← (if bound : bool then sys_listen listen_ else mret false);
    if negb listening then _ ← close_socket listen_; mret kInvalidSocket
    else mret listen_.

(** [Server::run]: the socket belongs to a guard, which closes it when an error
    ends the function.  The result is the listening socket the accept loop
    starts with. *)
Definition run_listener : M Z :=
  listen_sock ← sys_socket;
  if listen_sock =? kInvalidSocket then mret kInvalidSocket
  else
    _ ← set_reuseaddr listen_sock;
    pton ← sys_ok;
    if negb pton then _ ← closer_destroy listen_sock; mret kInvalidSocket
    else
      bound ← sys_ok;
      if negb bound then _ ← closer_destroy listen_sock; mret kInvalidSocket
      else
        listening ← sys_listen listen_sock;
        if negb listening then _ ← closer_destroy listen_sock; mret kInvalidSocket
        else mret listen_sock.

(** ** One exchange on a connection of its own

    [Router::forward], the Raft [rpc] and [WebGateway::forward_to_redon] connect,
    set timeouts, exchange a line and close.  [body] sends and receives. *)
Definition exchange {A} (timeout_ms : Z) (body : Z -> M A) : M (option A) :=
  sock ← connect_tcp;
  if sock =? kInvalidSocket then mret None
  else
    _ ← set_io_timeout_ms sock timeout_ms;
    a ← body sock;
    _ ← close_socket sock;
    mret (Some a).

(** ** Connections that last

    [connect_to] of src/replication.cpp, and one round of [Replicator::sender_loop]:
    the socket belongs to a guard, which closes it at the end of the round.
    [body] is the handshake and the stream. *)
Definition kIoTimeoutSeconds : Z := 5.

Definition connect_to : M Z :=
  sock ← sys_socket;
  if sock =? kInvalidSocket then mret kInvalidSocket
  else
    pton ← sys_ok;
    connected ← (if pton : bool then sys_ok else mret false);
    if negb connected then _ ← close_socket sock; mret kInvalidSocket
    else mret sock.

Definition sender_round {A} (body : Z -> M A) : M (option A) :=
  sock_guard ← connect_to;
  r ← (if negb (sock_guard =? kInvalidSocket) then
         _ ← set_keepalive sock_guard;
         _ ← set_send_timeout sock_guard kIoTimeoutSeconds;
         _ ← set_recv_timeout sock_guard kIoTimeoutSeconds;
         a ← body sock_guard; mret (Some a)
       else mret None);
  _ ← closer_destroy sock_guard;
  mret r.

(** [main] of src/client_main.cpp, around its loop: [None] is exit code 1. *)
Definition client_connection {A} (body : Z -> M A) : M (option A) :=
  sock ← sys_socket;
  if sock =? kInvalidSocket then mret None
  else
    pton ← sys_ok;
    if negb pton then _ ← close_socket sock; mret None
    else
      connected ← sys_ok;
      if negb connected then _ ← close_socket sock; mret None
      else a ← body sock; _ ← close_socket sock; mret (Some a).

(** [worker] of bench/redon_bench.cpp, around its loop: [None] is a connect failure. *)
Definition bench_connect_to : M Z :=
  sock ← sys_socket;
  if sock =? kInvalidSocket then mret kInvalidSocket
  else
    pton ← sys_ok;
    connected ← (if pton : bool then sys_ok else mret false);
    if negb connected then _ ← close_socket sock; mret kInvalidSocket
    else mret sock.

Definition bench_connection {A} (body : Z -> M A) : M (option A) :=
  sock ← bench_connect_to;
  if sock =? kInvalidSocket then mret None
  else a ← body sock; _ ← close_socket sock; mret (Some a).

(** ** Nothing leaks *)

(** Running [m] from [s] ends with a value and a state that satisfy [Q]. *)
Definition ends {A} (m : M A) (s : OS) (Q : A -> OS -> Prop) : Prop := Q (m s).1 (m s).2.

Lemma ends_bind {A B} (m : M A) (f : A -> M B) s (P : A -> OS -> Prop) Q :
  ends m s P -> (forall a s', P a s' -> ends (f a) s' Q) -> ends (m ≫= f) s Q.
Proof. unfold ends, mbind, M_bind. intros Hm Hf. destruct (m s) as [a s']. by apply Hf. Qed.

Lemma ends_impl {A} (m : M A) s (P Q : A -> OS -> Prop) : ends m s P -> (forall a s', P a s' -> Q a s') -> ends m s Q.
Proof. unfold ends. auto. Qed.

Lemma ends_ret {A} (a : A) s (Q : A -> OS -> Prop) : Q a s -> ends (mret a) s Q.
Proof. done. Qed.

(** The table is as in [s], but for the sockets of [m]. *)
Definition table (s : OS) (m : gmap Z socket) (s' : OS) : Prop := fds s' = m /\ bad_closes s' = bad_closes s.

Lemma table_refl s : table s (fds s) s.
Proof. done. Qed.

Lemma table_trans s m s1 m' s2 : table s m s1 -> table s1 m' s2 -> table s m' s2.
Proof. intros [_ E] [Ef E']. split; [done|congruence]. Qed.

Lemma sys_ok_ends s0 m s : table s0 m s -> ends sys_ok s (fun _ s' => table s0 m s').
Proof. unfold ends, sys_ok, sys_result, mbind, M_bind. by destruct (script s). Qed.

Lemma when_ok_ends (b : bool) s0 m s :
  table s0 m s -> ends (if b then sys_ok else mret false) s (fun _ s' => table s0 m s').
Proof. intros Ht. destruct b; [by apply sys_ok_ends|by apply ends_ret]. Qed.

Lemma close_ends s0 m fd k s :
  m !! fd = None -> table s0 (<[fd := k]> m) s -> ends (close_socket fd) s (fun _ s' => table s0 m s').
Proof.
  intros Hfd [Ef Eb]. unfold ends, close_socket, sys_close. rewrite Ef, lookup_insert_eq.
  split; [|done]. simpl. by apply delete_insert_id.
Qed.

Lemma update_ends s0 m fd k f s :
  table s0 (<[fd := k]> m) s -> ends (update_socket fd f) s (fun _ s' => table s0 (<[fd := f k]> m) s').
Proof.
  intros [Ef Eb]. split; [|done]. simpl. rewrite Ef. apply map_eq. intros i. destruct (decide (i = fd)) as [->|Hi];
    [by rewrite lookup_alter_eq, !lookup_insert_eq|by rewrite lookup_alter_ne, !lookup_insert_ne].
Qed.

(** The option is set, or the socket is as before. *)
Lemma setsockopt_ends s0 m fd k f s :
  table s0 (<[fd := k]> m) s ->
  ends (sys_setsockopt fd f) s (fun _ s' => exists k', (k' = k \/ k' = f k) /\ table s0 (<[fd := k']> m) s').
Proof.
  intros Ht. eapply ends_bind; [by apply sys_ok_ends|]. intros [] s' Ht'.
  - pose proof (update_ends _ _ _ _ f _ Ht') as H2. exists (f k). split; [by right|exact H2].
  - apply ends_ret. exists k. split; [by left|done].
Qed.

(** A socket clients can connect to. *)
Definition serving (k : socket) : Prop := is_listening k = true.

Lemma sys_listen_ends s0 m fd k s :
  table s0 (<[fd := k]> m) s ->
  ends (sys_listen fd) s (fun b s' => exists k', table s0 (<[fd := k']> m) s' /\ (b = true -> serving k')).
Proof.
  intros Ht. eapply ends_bind; [by apply sys_ok_ends|]. intros [] s' Ht'.
  - eapply ends_bind; [by eapply update_ends|]. intros u s2 Ht2. apply ends_ret. eexists. by split; [exact Ht2|].
  - apply ends_ret. by exists k.
Qed.

(** The result is a socket that was not open and is now, or no socket and the
    table as it was; nothing else happens, and nothing is closed twice. *)
Definition acquired (good : socket -> Prop) (s : OS) (fd : Z) (s' : OS) : Prop :=
  (fd = kInvalidSocket /\ table s (fds s) s') \/
  (0 <= fd /\ fds s !! fd = None /\ exists k, good k /\ table s (<[fd := k]> (fds s)) s').

Definition acquires (m : M Z) (good : socket -> Prop) : Prop := forall s, ends m s (acquired good s).

Lemma new_fd_acquires k : acquires (new_fd k) (eq k).
Proof.
  intros s. unfold ends, new_fd, sys_result, install, mbind, M_bind.
  destruct (script s) as [|r rs]; simpl.
  - destruct (fds s !! (-1)); simpl; by left.
  - destruct (fds s !! r) eqn:E; [by left|]. destruct (Z.leb_spec 0 r); [|by left].
    right. split; [done|]. split; [done|]. by exists k.
Qed.

Lemma sys_accept_acquires l : acquires (sys_accept l) (fun k => is_listening k = false).
Proof.
  intros s. unfold ends, sys_accept. destruct (fds s !! l) as [k|]; [|by left]. destruct (is_listening k); [|by left].
  destruct (new_fd_acquires (mkSocket None None false false false) s) as [?|(? & ? & k' & <- & ?)]; [by left|].
  right. split; [done|]. split; [done|]. by exists (mkSocket None None false false false).
Qed.

(** A socket no option has been set on. *)
Definition fresh (k : socket) : Prop := rcvtimeo k = None /\ sndtimeo k = None.

Lemma ends_socket {A} (f : Z -> M A) s (Q : A -> OS -> Prop) :
  (forall s', table s (fds s) s' -> ends (f kInvalidSocket) s' Q) ->
  (forall fd s', 0 <= fd -> fds s !! fd = None -> (exists k, fresh k /\ table s (<[fd := k]> (fds s)) s') -> ends (f fd) s' Q) ->
  ends (sys_socket ≫= f) s Q.
Proof.
  intros Hbad Hgood. eapply ends_bind; [apply new_fd_acquires|].
  intros fd s' [[-> Ht]|(H0 & Hn & k & <- & Ht)]; [by apply Hbad|apply Hgood; try done]. eexists. by split; [|exact Ht].
Qed.

Lemma ends_give_up s fd k s' good :
  fds s !! fd = None -> table s (<[fd := k]> (fds s)) s' ->
  ends (close_socket fd ≫= fun _ => mret kInvalidSocket) s' (acquired good s).
Proof.
  intros Hn Ht. eapply ends_bind; [by eapply close_ends|]. intros u s2 Ht2. apply ends_ret. by left.
Qed.

Lemma valid_socket fd : 0 <= fd -> (fd =? kInvalidSocket) = false.
Proof. intros H. unfold kInvalidSocket. apply Z.eqb_neq. lia. Qed.

Lemma closer_destroy_valid fd : 0 <= fd -> closer_destroy fd = close_socket fd.
Proof. intros H. unfold closer_destroy. by rewrite valid_socket. Qed.

Lemma connect_tcp_acquires : acquires connect_tcp fresh.
Proof.
  intros s. apply ends_socket; [intros s' Ht; apply ends_ret; by left|].
  intros fd s' H0 Hn (k & Hk & Ht). rewrite valid_socket by done.
  eapply ends_bind; [apply sys_ok_ends; exact Ht|]. intros pton s1 H1.
  eapply ends_bind; [apply when_ok_ends; exact H1|]. intros [] s2 H2; simpl.
  - apply ends_ret. right. split; [done|]. split; [done|]. exists k. split; [exact Hk|exact H2].
  - by eapply ends_give_up.
Qed.

Lemma open_listener_acquires : acquires open_listener serving.
Proof.
  intros s. apply ends_socket; [intros s' Ht; apply ends_ret; by left|].
  intros fd s' H0 Hn (k & Hk & Ht). rewrite valid_socket by done.
  eapply ends_bind; [eapply setsockopt_ends; exact Ht|]. intros u s0 (kr & _ & Hr).
  eapply ends_bind; [apply sys_ok_ends; exact Hr|]. intros pton s1 H1.
  eapply ends_bind; [apply when_ok_ends; exact H1|]. intros bound s2 H2.
  eapply (ends_bind _ _ _ (fun b s' => exists k', table s (<[fd := k']> (fds s)) s' /\ (b = true -> serving k'))).
  { destruct bound; [eapply sys_listen_ends; exact H2|apply ends_ret; by eexists]. }
  intros [] s3 (k' & H3 & Hl); simpl.
  - apply ends_ret. right. split; [done|]. split; [done|]. exists k'. split; [by apply Hl|done].
  - by eapply ends_give_up.
Qed.

Lemma run_listener_acquires : acquires run_listener serving.
Proof.
  intros s. apply ends_socket; [intros s' Ht; apply ends_ret; by left|].
  intros fd s' H0 Hn (k & Hk & Ht). rewrite valid_socket, closer_destroy_valid by done.
  eapply ends_bind; [eapply setsockopt_ends; exact Ht|]. intros u s0 (kr & _ & Hr).
  eapply ends_bind; [apply sys_ok_ends; exact Hr|]. intros [] s1 H1; simpl; [|by eapply ends_give_up].
  eapply ends_bind; [apply sys_ok_ends; exact H1|]. intros [] s2 H2; simpl; [|by eapply ends_give_up].
  eapply ends_bind; [eapply sys_listen_ends; exact H2|]. intros [] s3 (k' & H3 & Hl); simpl.
  - apply ends_ret. right. split; [done|]. split; [done|]. exists k'. split; [by apply Hl|done].
  - by eapply ends_give_up.
Qed.

(** The timeout handed to the operating system is the one asked for, and well-formed. *)
Lemma ms_timeval_exact ms :
  0 < ms -> let t := ms_timeval ms in
  tv_sec t * 1000000 + tv_usec t = ms * 1000 /\ 0 <= tv_sec t /\ 0 <= tv_usec t < 1000000.
Proof.
  intros Hms. unfold ms_timeval. simpl. rewrite Z.quot_div_nonneg, Z.rem_mod_nonneg by lia.
  pose proof (Z.div_mod ms 1000 ltac:(lia)). pose proof (Z.mod_pos_bound ms 1000 ltac:(lia)).
  pose proof (Z.div_pos ms 1000 ltac:(lia) ltac:(lia)). lia.
Qed.

(** Each direction of the socket gives up after the time asked for, or, where the
    system refused to set its timeout, never. *)
Definition timeout_is (t : timeval) (x : option timeval) : Prop := x = Some t \/ x = None.
Definition asked_wait (t : timeval) (k : socket) : Prop := timeout_is t (rcvtimeo k) /\ timeout_is t (sndtimeo k).

(** What may be relied on of the code between opening and closing: on an open socket
    that is set up as it should be, it leaves the table alone. *)
Definition talks {A} (good : socket -> Prop) (body : Z -> M A) : Prop :=
  forall fd k s, fds s !! fd = Some k -> good k -> ends (body fd) s (fun _ s' => table s (fds s) s').

Definition only_talks {A} (ms : Z) (body : Z -> M A) : Prop := talks (asked_wait (ms_timeval ms)) body.

Lemma talks_ends {A} (good : socket -> Prop) (body : Z -> M A) s0 m fd k s :
  talks good body -> good k -> table s0 (<[fd := k]> m) s ->
  ends (body fd) s (fun _ s' => table s0 (<[fd := k]> m) s').
Proof.
  intros Hb Hk Ht. unfold ends. eapply table_trans; [exact Ht|]. rewrite <- (proj1 Ht). eapply Hb; [|exact Hk].
  by rewrite (proj1 Ht), lookup_insert_eq.
Qed.

(** Talking, then closing. *)
Lemma talk_close_ends {A} (good : socket -> Prop) (body : Z -> M A) s0 m fd k s :
  talks good body -> good k -> m !! fd = None -> table s0 (<[fd := k]> m) s ->
  ends (a ← body fd; _ ← close_socket fd; mret (Some a)) s (fun _ s' => table s0 m s').
Proof.
  intros Hb Hk Hn Ht. eapply ends_bind; [by eapply talks_ends|]. intros a s3 H3.
  eapply ends_bind; [eapply close_ends; [exact Hn|exact H3]|]. intros u s4 H4. by apply ends_ret.
Qed.

Lemma set_io_timeout_ends s0 m fd k ms s :
  0 < ms -> fresh k -> table s0 (<[fd := k]> m) s ->
  ends (set_io_timeout_ms fd ms) s (fun _ s' => exists k', asked_wait (ms_timeval ms) k' /\ table s0 (<[fd := k']> m) s').
Proof.
  intros Hms [Hr Hs] Ht. unfold set_io_timeout_ms. destruct (Z.leb_spec ms 0); [lia|].
  eapply ends_bind; [eapply setsockopt_ends; exact Ht|]. intros u s1 (k1 & Hk1 & H1).
  eapply ends_impl; [eapply setsockopt_ends; exact H1|]. intros u2 s2 (k2 & Hk2 & H2). exists k2. split; [|done].
  unfold asked_wait, timeout_is. destruct Hk1 as [-> | ->], Hk2 as [-> | ->]; cbn; rewrite ?Hr, ?Hs; auto.
Qed.

Lemma setsockopt_exact fd f s k r rs :
  fds s !! fd = Some k -> script s = r :: rs ->
  let s' := (sys_setsockopt fd f s).2 in fds s' !! fd = Some (if 0 <=? r then f k else k) /\ script s' = rs.
Proof.
  intros Hk Es. unfold sys_setsockopt, sys_ok, sys_result, mbind, M_bind, mret, M_ret. rewrite Es.
  destruct (0 <=? r); [|done]. split; [|done]. change (alter f fd (fds s) !! fd = Some (f k)). by rewrite lookup_alter_eq, Hk.
Qed.

(** Exactly what [set_io_timeout_ms] does to the socket, for every pair of results. *)
Lemma set_io_timeout_exact fd ms s k r1 r2 rs :
  0 < ms -> fds s !! fd = Some k -> script s = r1 :: r2 :: rs ->
  fds (set_io_timeout_ms fd ms s).2 !! fd =
    Some (mkSocket (if 0 <=? r1 then Some (ms_timeval ms) else rcvtimeo k)
                   (if 0 <=? r2 then Some (ms_timeval ms) else sndtimeo k) (keepalive k) (is_listening k) (reuseaddr k)).
Proof.
  intros Hms Hk Es. unfold set_io_timeout_ms. destruct (Z.leb_spec ms 0); [lia|]. unfold mbind, M_bind at 1.
  pose proof (setsockopt_exact fd (fun k => mkSocket (Some (ms_timeval ms)) (sndtimeo k) (keepalive k) (is_listening k) (reuseaddr k))
                s k r1 _ Hk Es) as [H1 Es1].
  destruct (sys_setsockopt fd _ s) as [u s1]. cbn [snd] in *.
  pose proof (setsockopt_exact fd (fun k => mkSocket (rcvtimeo k) (Some (ms_timeval ms)) (keepalive k) (is_listening k) (reuseaddr k))
                s1 _ r2 _ H1 Es1) as [-> _].
  f_equal. by destruct k, (0 <=? r1), (0 <=? r2).
Qed.

Lemma exchange_ends {A} ms (body : Z -> M A) s :
  0 < ms -> only_talks ms body -> ends (exchange ms body) s (fun _ s' => table s (fds s) s').
Proof.
  intros Hms Hb. eapply ends_bind; [apply connect_tcp_acquires|].
  intros fd s1 [[-> Ht]|(H0 & Hn & k & Hf & Ht)]; [done|]. rewrite valid_socket by done.
  eapply ends_bind; [eapply set_io_timeout_ends; [done|exact Hf|exact Ht]|]. intros u s2 (k' & Hk & H2).
  by eapply talk_close_ends.
Qed.

(** A link to a replica gives up after five seconds, if the system lets it. *)
Definition link_socket (k : socket) : Prop := asked_wait (mkTimeval kIoTimeoutSeconds 0) k.

Lemma sender_round_ends {A} (body : Z -> M A) s :
  talks link_socket body -> ends (sender_round body) s (fun _ s' => table s (fds s) s').
Proof.
  intros Hb. eapply ends_bind; [apply connect_tcp_acquires|].
  intros fd s1 [[-> Ht]|(H0 & Hn & k & [Hr Hs] & Ht)]; [done|]. rewrite valid_socket, closer_destroy_valid by done. cbn [negb].
  eapply (ends_bind _ _ _ (fun _ s' => exists k', table s (<[fd := k']> (fds s)) s')).
  - eapply ends_bind; [eapply setsockopt_ends; exact Ht|]. intros u2 s2 (k2 & Hk2 & H2).
    eapply ends_bind; [eapply setsockopt_ends; exact H2|]. intros u3 s3 (k3 & Hk3 & H3).
    eapply ends_bind; [eapply setsockopt_ends; exact H3|]. intros u4 s4 (k4 & Hk4 & H4).
    assert (link_socket k4) as Hk.
    { unfold link_socket, asked_wait, timeout_is. destruct Hk2 as [-> | ->], Hk3 as [-> | ->], Hk4 as [-> | ->];
        cbn; rewrite ?Hr, ?Hs; auto. }
    eapply ends_bind; [eapply talks_ends; [exact Hb|exact Hk|exact H4]|]. intros a s5 H5. apply ends_ret. eexists. exact H5.
  - intros r s2 (k' & H2). eapply ends_bind; [eapply close_ends; [exact Hn|exact H2]|]. intros u s3 H3. by apply ends_ret.
Qed.

Lemma client_connection_ends {A} (body : Z -> M A) s :
  talks (fun _ => True) body -> ends (client_connection body) s (fun _ s' => table s (fds s) s').
Proof.
  intros Hb. apply ends_socket; [intros s' Ht; by apply ends_ret|].
  intros fd s' H0 Hn (k & Hk & Ht). rewrite valid_socket by done.
  eapply ends_bind; [apply sys_ok_ends; exact Ht|]. intros [] s1 H1; cbn [negb].
  2:{ eapply ends_bind; [eapply close_ends; [exact Hn|exact H1]|]. intros u s2 H2. by apply ends_ret. }
  eapply ends_bind; [apply sys_ok_ends; exact H1|]. intros [] s2 H2; cbn [negb].
  - by eapply talk_close_ends.
  - eapply ends_bind; [eapply close_ends; [exact Hn|exact H2]|]. intros u s3 H3. by apply ends_ret.
Qed.

Lemma bench_connection_ends {A} (body : Z -> M A) s :
  talks (fun _ => True) body -> ends (bench_connection body) s (fun _ s' => table s (fds s) s').
Proof.
  intros Hb. eapply ends_bind; [apply connect_tcp_acquires|].
  intros fd s1 [[-> Ht]|(H0 & Hn & k & _ & Ht)]; [by apply ends_ret|]. rewrite valid_socket by done.
  by eapply talk_close_ends.
Qed.


(** A connection refused after its socket was created; an exchange on a connection
    whose receive timeout the system refused to set. *)
Definition demo_refusing : OS := mkOS ∅ [3; 0; 0; -1; 0; 0] 0.

