(* ===== verification/Process.v ===== *)
(** * The process: signals and error codes (src/net.h, src/server.cpp)

    The POSIX branches of [Init], [last_error], [last_error_str] and
    [is_timeout_error].  The other files take the results of [send] and the chunks
    of [recv] as given; here a [send] to a peer that is gone can end the process
    instead, and the way a [recv] fails decides what is logged. *)

From S2P Require Import Prelude Stream Net.

Local Open Scope Z_scope.

Definition EAGAIN : Z := 11.
Definition EWOULDBLOCK : Z := 11.
Definition EPIPE : Z := 32.

Inductive disposition := SIG_DFL | SIG_IGN.

Record process := mkProcess { sigpipe : disposition; errno : Z }.

Definition with_errno (code : Z) (p : process) : process := mkProcess (sigpipe p) code.

(** ** [Init] *)

(** The constructor, with [ok_]; and the destructor, which does nothing. *)
Definition init_construct (p : process) : bool * process := (true, mkProcess SIG_IGN (errno p)).
Definition init_destroy (p : process) : process := p.

(** ** Error codes *)

Definition last_error (p : process) : Z := errno p.

(** [strerror] is the C library's, whose texts depend on the locale. *)
Definition last_error_str (strerror : Z -> bytes) (p : process) : bytes :=
  let code := last_error p in strerror code ++ lit " (errno " ++ to_string code ++ lit ")".

Definition is_timeout_error (code : Z) : bool := (code =? EAGAIN) || (code =? EWOULDBLOCK).

(** ** System calls *)

(** What the system does with a [send]: it takes some bytes, fails, or finds that
    the peer has closed the connection. *)
Inductive send_event := Sent (n : Z) | SendFailed (code : Z) | PeerGone.

(** The result; [None]: SIGPIPE has terminated the process. *)
Definition sys_send (ev : send_event) (p : process) : option (Z * process) :=
  match ev with
  | Sent n => Some (n, p)
  | SendFailed code => Some (-1, with_errno code p)
  | PeerGone =>
      match sigpipe p with
      | SIG_DFL => None
      | SIG_IGN => Some (-1, with_errno EPIPE p)
      end
  end.

(** The loop of [send_all], one [send] at a time. *)
Fixpoint process_send_all (data : bytes) (evs : list send_event) (accepted : bytes) (p : process) :
    option (bool * bytes * process) :=
  match data with
  | [] => Some (true, accepted, p)
  | _ =>
      match evs with
      | [] => Some (false, accepted, p)
      | ev :: evs' =>
          match sys_send ev p with
          | None => None
          | Some (n, p') =>
              if n <=? 0 then Some (false, accepted, p')
              else process_send_all (drop (Z.to_nat n) data) evs' (accepted ++ take (Z.to_nat n) data) p'
          end
      end
  end.

(** What a [recv] does: bytes, the end of the stream, or a failure. *)
Inductive recv_event := Received (chunk : bytes) | PeerClosed | RecvFailed (code : Z).

(** The end of a connection in [handle_client]: the chunks it has read, and what it
    logs, when the client has closed the connection or [recv] has failed. *)
Fixpoint client_ends (strerror : Z -> bytes) (evs : list recv_event) (p : process) : list bytes * option bytes :=
  match evs with
  | [] | PeerClosed :: _ => ([], None)
  | Received chunk :: evs' => let '(cs, message) := client_ends strerror evs' p in (chunk :: cs, message)
  | RecvFailed code :: _ =>
      let p' := with_errno code p in
      ([], Some (if is_timeout_error (last_error p') then lit "client idle timeout, closing connection"
                 else lit "warning: recv failed: " ++ last_error_str strerror p'))
  end.

(** ** What ignoring SIGPIPE is for *)

Definition send_result (ev : send_event) : Z := match ev with Sent n => n | SendFailed _ | PeerGone => -1 end.

Lemma sys_send_ignored ev p :
  sigpipe p = SIG_IGN -> exists p', sys_send ev p = Some (send_result ev, p') /\ sigpipe p' = SIG_IGN.
Proof. intros E. destruct ev; simpl; rewrite ?E; eauto. Qed.

Lemma process_send_all_ignored data evs acc p :
  sigpipe p = SIG_IGN ->
  exists p', process_send_all data evs acc p = Some (send_all data (send_result <$> evs) acc, p').
Proof.
  revert data acc p. induction evs as [|ev evs IH]; intros [|c data] acc p E; cbn [process_send_all send_all fmap list_fmap]; [eauto..|].
  destruct (sys_send_ignored ev p E) as (p' & -> & E'). destruct (send_result ev <=? 0); [eauto|by apply IH].
Qed.

(** A broken connection does not end the process.  After [Init], whatever the system
    does with the [send]s, [send_all] returns, with the result it has for their
    return values; that is the [send_all] of the other files.  Without [Init] the first
    [send] to a peer that is gone ends the process. *)
Theorem init_survives_broken_peer data evs p :
  let '(ok, p1) := init_construct p in
  ok = true /\ exists p', process_send_all data evs [] p1 = Some (send_all data (send_result <$> evs) [], p').
Proof. cbn. split; [done|]. by apply process_send_all_ignored. Qed.

Lemma broken_peer_kills_without_init c data evs acc e :
  process_send_all (c :: data) (PeerGone :: evs) acc (mkProcess SIG_DFL e) = None.
Proof. done. Qed.

(** The log tells an idle client from a failing connection. *)
Theorem idle_timeout_logged strerror chunks code evs p :
  client_ends strerror ((Received <$> chunks) ++ RecvFailed code :: evs) p =
    (chunks, Some (if code =? EAGAIN then lit "client idle timeout, closing connection"
                   else lit "warning: recv failed: " ++ strerror code ++ lit " (errno " ++ to_string code ++ lit ")")).
Proof.
  induction chunks as [|b chunks IH]; cbn [fmap list_fmap app client_ends].
  - unfold is_timeout_error, last_error_str, last_error. cbn [errno with_errno].
    change EWOULDBLOCK with EAGAIN. by rewrite orb_diag.
  - by rewrite IH.
Qed.
