(* ===== verification/Accept.v ===== *)
(** * The accept loop and the connections (src/server.cpp [Server::run],
    [ConnectionScope])

    The main thread accepts sockets and hands them to the pool; workers serve
    them.  A socket is owned, in turn, by the main thread's guard, by a queued
    task and by the task's [ConnectionScope], which closes it.  Descriptors are
    reused by the operating system as soon as they are closed, so connections
    carry a number of their own in the model. *)

From S2P Require Import Prelude Stream Metrics ThreadPool Sockets.

Local Open Scope Z_scope.

Abbreviation connection := (nat * Z)%type.

Record acceptor := mkAcceptor {
  a_os : OS;
  a_listen : Z;
  a_guard : option connection;        (* owned by [client_guard] *)
  a_pool : Pool (T := connection);
  a_metrics : Metrics;
  a_open : gmap nat Z;                (* connections whose socket is still to be closed *)
  a_scoped : gset nat;                (* those with a live [ConnectionScope] *)
  a_next : nat;
}.

Section acceptor.
Context (idle_timeout_seconds : Z).

(** [accept], and the options set on the new socket. *)
Definition accept_socket (listen : Z) : M Z :=
  client ← sys_accept listen;
  if client =? kInvalidSocket then mret client
  else
    _ ← set_keepalive client;
    _ ← set_recv_timeout client idle_timeout_seconds;
    _ ← set_send_timeout client idle_timeout_seconds;
    mret client.

(** A round of the loop up to the guard; a failed [accept] is logged. *)
Definition accept_one (st : acceptor) : option acceptor :=
  match a_guard st with
  | Some _ => None
  | None =>
      let '(client, os') := accept_socket (a_listen st) (a_os st) in
      if client =? kInvalidSocket then
        Some (mkAcceptor os' (a_listen st) None (a_pool st) (a_metrics st) (a_open st) (a_scoped st) (a_next st))
      else
        Some (mkAcceptor os' (a_listen st) (Some (a_next st, client)) (a_pool st) (a_metrics st)
                (<[a_next st := client]> (a_open st)) (a_scoped st) (S (a_next st)))
  end.

(** The rest of the round: [submit] takes the task or refuses it, or building
    the task throws; the guard is released, or closes the socket. *)
Definition hand_over (throws : bool) (st : acceptor) : option acceptor :=
  match a_guard st with
  | None => None
  | Some (id, fd) =>
      let '(submitted, pool') := if throws then (false, a_pool st) else submit (id, fd) (a_pool st) in
      if submitted : bool then
        let '(_, guard) := closer_release fd in
        let '(_, os') := closer_destroy guard (a_os st) in
        Some (mkAcceptor os' (a_listen st) None pool' (a_metrics st) (a_open st) (a_scoped st) (a_next st))
      else
        let '(_, os') := closer_destroy fd (a_os st) in
        Some (mkAcceptor os' (a_listen st) None pool' (a_metrics st) (delete id (a_open st)) (a_scoped st) (a_next st))
  end.

(** A worker tests the predicate of its wait: it takes a task, or goes to sleep. *)
Definition take_task (w : nat) (st : acceptor) : option acceptor :=
  match worker_wake w (a_pool st) with
  | Some pool' => Some (mkAcceptor (a_os st) (a_listen st) (a_guard st) pool' (a_metrics st)
                          (a_open st) (a_scoped st) (a_next st))
  | None => None
  end.

(** The constructor of [ConnectionScope], first thing in the task. *)
Definition enter_scope (w : nat) (st : acceptor) : option acceptor :=
  match workers_ (a_pool st) !! w with
  | Some (Running (id, fd)) =>
      if bool_decide (id ∈ a_scoped st) || bool_decide (a_open st !! id = None) then None
      else Some (mkAcceptor (a_os st) (a_listen st) (a_guard st) (a_pool st) (on_connect (a_metrics st))
                   (a_open st) ({[id]} ∪ a_scoped st) (a_next st))
  | _ => None
  end.

(** Its destructor, when the task returns or an exception leaves it. *)
Definition leave_scope (w : nat) (st : acceptor) : option acceptor :=
  match workers_ (a_pool st) !! w with
  | Some (Running (id, fd)) =>
      if bool_decide (id ∈ a_scoped st) then
        let '(_, os') := close_socket fd (a_os st) in
        Some (mkAcceptor os' (a_listen st) (a_guard st) (a_pool st) (on_disconnect (a_metrics st))
                (delete id (a_open st)) (a_scoped st ∖ {[id]}) (a_next st))
      else None
  | _ => None
  end.

(** The worker goes round for the next task. *)
Definition end_task (w : nat) (st : acceptor) : option acceptor :=
  match workers_ (a_pool st) !! w with
  | Some (Running (id, fd)) =>
      if bool_decide (a_open st !! id = None) then
        match worker_done w (a_pool st) with
        | Some pool' => Some (mkAcceptor (a_os st) (a_listen st) (a_guard st) pool' (a_metrics st)
                                (a_open st) (a_scoped st) (a_next st))
        | None => None
        end
      else None
  | _ => None
  end.

Definition with_pool (pool : Pool (T := connection)) (st : acceptor) : acceptor :=
  mkAcceptor (a_os st) (a_listen st) (a_guard st) pool (a_metrics st) (a_open st) (a_scoped st) (a_next st).

Inductive accept_step (st : acceptor) : acceptor -> Prop :=
  | step_accept st' : accept_one st = Some st' -> accept_step st st'
  | step_hand_over throws st' : hand_over throws st = Some st' -> accept_step st st'
  | step_take w st' : take_task w st = Some st' -> accept_step st st'
  | step_enter w st' : enter_scope w st = Some st' -> accept_step st st'
  | step_leave w st' : leave_scope w st = Some st' -> accept_step st st'
  | step_end w st' : end_task w st = Some st' -> accept_step st st'
  | step_woken pool' : (* [notify_one], [notify_all], or a spurious wake-up *)
      woken (a_pool st) pool' -> accept_step st (with_pool pool' st)
  | step_system r : (* other results of the system calls to come *)
      accept_step st (mkAcceptor (mkOS (fds (a_os st)) r (bad_closes (a_os st))) (a_listen st) (a_guard st)
                        (a_pool st) (a_metrics st) (a_open st) (a_scoped st) (a_next st)).

(** The state [Server::run] enters the loop with. *)
Definition acceptor_new (os : OS) (listen : Z) (workers : nat) (max_queued : Z) : acceptor :=
  mkAcceptor os listen None (pool_new workers max_queued) metrics_new ∅ ∅ 0.

(** ** The invariant *)

Definition owners (st : acceptor) : list connection :=
  option_list (a_guard st) ++ tasks_ (a_pool st) ++ running (workers_ (a_pool st)).

Record accept_ok (base : gmap Z socket) (st : acceptor) : Prop := {
  ao_bad : bad_closes (a_os st) = 0%nat;
  ao_listen : exists k, base !! a_listen st = Some k;
  ao_base : forall fd k, base !! fd = Some k -> fds (a_os st) !! fd = Some k;
  ao_fds : forall fd, is_Some (fds (a_os st) !! fd) -> is_Some (base !! fd) \/ exists id, a_open st !! id = Some fd;
  ao_open : forall id fd, a_open st !! id = Some fd ->
              0 <= fd /\ base !! fd = None /\ is_Some (fds (a_os st) !! fd) /\ (id, fd) ∈ owners st;
  ao_inj : forall i j fd, a_open st !! i = Some fd -> a_open st !! j = Some fd -> i = j;
  ao_nodup : NoDup (fst <$> owners st);
  ao_owned : forall id fd, (id, fd) ∈ option_list (a_guard st) ++ tasks_ (a_pool st) -> a_open st !! id = Some fd;
  ao_running : forall id fd fd', (id, fd) ∈ running (workers_ (a_pool st)) -> a_open st !! id = Some fd' -> fd' = fd;
  ao_fresh : forall id fd, (id, fd) ∈ owners st -> (id < a_next st)%nat;
  ao_scoped : forall id, id ∈ a_scoped st -> is_Some (a_open st !! id) /\ exists fd, (id, fd) ∈ running (workers_ (a_pool st));
  ao_gauge : connected_ (a_metrics st) = Z.of_nat (size (a_scoped st));
}.

Lemma set_seconds_ends s0 m fd k secs s (set : Z -> Z -> M unit) :
  set = set_recv_timeout \/ set = set_send_timeout -> table s0 (<[fd := k]> m) s ->
  ends (set fd secs) s (fun _ s' => exists k', table s0 (<[fd := k']> m) s').
Proof.
  intros Hset Ht. destruct Hset as [-> | ->]; unfold set_recv_timeout, set_send_timeout;
    (destruct (secs <=? 0); [apply ends_ret; by exists k|]);
    (eapply ends_impl; [eapply setsockopt_ends; exact Ht|]); intros u s' (k' & _ & H'); by exists k'.
Qed.

Lemma accept_socket_acquires listen : acquires (accept_socket listen) (fun _ => True).
Proof.
  intros s. unfold accept_socket.
  eapply ends_bind; [apply sys_accept_acquires|]. intros fd s1 [[-> Ht]|(H0 & Hn & k & _ & Ht)]; [by left|].
  rewrite valid_socket by done. eapply ends_bind; [eapply setsockopt_ends; exact Ht|]. intros u1 s2 (k2 & _ & H2).
  eapply ends_bind; [eapply set_seconds_ends; [by left|exact H2]|]. intros u2 s3 [k3 H3].
  eapply ends_bind; [eapply set_seconds_ends; [by right|exact H3]|]. intros u4 s4 [k4 H4].
  apply ends_ret. right. eauto 6.
Qed.

Lemma acceptor_new_ok os listen n m :
  bad_closes os = 0%nat -> is_Some (fds os !! listen) -> accept_ok (fds os) (acceptor_new os listen n m).
Proof.
  intros Hb [k Hk].
  assert (forall j, running (T := connection) (replicate j Ready) = []) as Hr by (intros j; by induction j).
  assert (owners (acceptor_new os listen n m) = []) as Ho by (unfold owners; simpl; by rewrite Hr).
  split; rewrite ?Ho; simpl; try done; try (intros; set_solver); eauto.
  by constructor.
Qed.

(** A connection's number leaves the table of open sockets together with its socket. *)
Lemma close_ok base st id fd guard pool m scoped :
  accept_ok base st -> a_open st !! id = Some fd ->
  (forall i f, (i, f) ∈ option_list guard ++ tasks_ pool -> i <> id /\ (i, f) ∈ option_list (a_guard st) ++ tasks_ (a_pool st)) ->
  (forall i f, (i, f) ∈ owners st -> i <> id -> (i, f) ∈ option_list guard ++ tasks_ pool ++ running (workers_ pool)) ->
  (fst <$> (option_list guard ++ tasks_ pool ++ running (workers_ pool))) ⊆+ (fst <$> owners st) ->
  (forall i f, (i, f) ∈ running (workers_ pool) -> (i, f) ∈ running (workers_ (a_pool st))) ->
  (forall i, i ∈ scoped -> i ∈ a_scoped st /\ i <> id /\ exists f, (i, f) ∈ running (workers_ pool)) ->
  connected_ m = Z.of_nat (size scoped) ->
  accept_ok base (mkAcceptor (close_socket fd (a_os st)).2 (a_listen st) guard pool m (delete id (a_open st)) scoped (a_next st)).
Proof.
  intros [Hb Hl Hbase Hfds Ho Hi Hn Hw Hr Hf Hs Hg] Hid Hg1 Hg2 Hsub Hrun Hsc Hm.
  destruct (Ho id fd Hid) as (H0 & Hnb & [k Hk] & _).
  unfold close_socket, sys_close. rewrite Hk. split; simpl; try done.
  - intros f kk Hbf. rewrite lookup_delete_ne; [by apply Hbase|]. intros ->. congruence.
  - intros f [kk Hkk]. apply lookup_delete_Some in Hkk as [Hne Hkk].
    destruct (Hfds f) as [?|[j Hj]]; [by eexists|by left|right]. exists j.
    rewrite lookup_delete_ne; [done|]. intros ->. congruence.
  - intros i f [Hne Hif]%lookup_delete_Some. destruct (Ho i f Hif) as (? & ? & [kk Hkk] & Hown).
    split; [done|]. split; [done|]. split.
    + exists kk. rewrite lookup_delete_ne; [done|]. intros ->. by apply Hne, (Hi _ _ f).
    + by apply Hg2; [|congruence].
  - intros i j f [_ ?]%lookup_delete_Some [_ ?]%lookup_delete_Some. by eapply Hi.
  - apply submseteq_Permutation in Hsub as [rest Hsub]. change (NoDup (fst <$> (option_list guard ++ tasks_ pool ++ running (workers_ pool)))).
    rewrite Hsub in Hn. by apply NoDup_app in Hn as [? _].
  - intros i f Hif. destruct (Hg1 i f Hif) as [Hne Hold]. rewrite lookup_delete_ne by done. by apply Hw.
  - intros i f f' Hif [_ Hf']%lookup_delete_Some. eapply Hr; [by apply Hrun|done].
  - intros i f Hif. assert (i ∈ fst <$> owners st) as Hin.
    { eapply elem_of_submseteq; [|exact Hsub]. apply list_elem_of_fmap. by exists (i, f). }
    apply list_elem_of_fmap in Hin as ([i' f'] & -> & Hin). by eapply Hf.
  - intros i Hi'. destruct (Hsc i Hi') as (Hold & Hne & Hrun'). split; [|done].
    rewrite lookup_delete_ne by done. by apply Hs.
Qed.

(** Ownership moves between the guard, the queue and the workers. *)
Lemma move_ok base st guard pool m scoped :
  accept_ok base st ->
  (option_list guard ++ tasks_ pool ++ running (workers_ pool)) ⊆+ owners st ->
  (forall i f, a_open st !! i = Some f -> (i, f) ∈ option_list guard ++ tasks_ pool ++ running (workers_ pool)) ->
  (forall i f, (i, f) ∈ option_list guard ++ tasks_ pool -> (i, f) ∈ option_list (a_guard st) ++ tasks_ (a_pool st)) ->
  (forall i, i ∈ scoped -> is_Some (a_open st !! i) /\ exists f, (i, f) ∈ running (workers_ pool)) ->
  connected_ m = Z.of_nat (size scoped) ->
  accept_ok base (mkAcceptor (a_os st) (a_listen st) guard pool m (a_open st) scoped (a_next st)).
Proof.
  intros [Hb Hl Hbase Hfds Ho Hi Hn Hw Hr Hf Hs Hg] Hsub Hown Hq Hsc Hm. split; try done.
  - intros id fd Hid. destruct (Ho id fd Hid) as (? & ? & ? & _). split; [done|]. split; [done|]. split; [done|by apply Hown].
  - apply submseteq_Permutation in Hsub as [rest Hsub]. rewrite Hsub, fmap_app in Hn. by apply NoDup_app in Hn as [? _].
  - intros id fd Hid. by apply Hw, Hq.
  - intros id fd fd' Hid Hid'. assert ((id, fd) ∈ owners st) as Hin.
    { eapply elem_of_submseteq; [|exact Hsub]. simpl in Hid. rewrite !elem_of_app. by right; right. }
    unfold owners in Hin. rewrite (assoc_L (++)) in Hin. apply elem_of_app in Hin as [Hin|Hin].
    + apply Hw in Hin. simpl in Hid'. congruence.
    + by eapply Hr.
  - intros id fd Hid. eapply Hf, elem_of_submseteq; [exact Hid|exact Hsub].
Qed.

Lemma accept_one_ok base st st' : accept_ok base st -> accept_one st = Some st' -> accept_ok base st'.
Proof.
  intros Hok. unfold accept_one. destruct (a_guard st) eqn:Eg; [done|].
  pose proof (accept_socket_acquires (a_listen st) (a_os st)) as Ha. unfold ends in Ha.
  destruct (accept_socket (a_listen st) (a_os st)) as [fd os']. simpl in Ha.
  pose proof Hok as [Hb Hl Hbase Hfds Ho Hi Hn Hw Hr Hf Hs Hg].
  destruct Ha as [[-> [Ef Eb]]|(H0 & Hfree & k & _ & Ef & Eb)].
  - intros [= <-]. rewrite <- Eg. split; simpl; rewrite ?Ef, ?Eb; try done.
  - rewrite valid_socket by done. intros [= <-].
    assert (a_open st !! a_next st = None) as Hnext.
    { destruct (a_open st !! a_next st) as [f|] eqn:E; [|done]. destruct (Ho _ _ E) as (_ & _ & _ & Hin).
      apply Hf in Hin. lia. }
    assert (base !! fd = None) as Hbfd.
    { destruct (base !! fd) eqn:E; [|done]. apply Hbase in E. congruence. }
    unfold owners in *. rewrite Eg in *. simpl in *.
    split; simpl; rewrite ?Ef, ?Eb; try done.
    + intros f kk Hbf. rewrite lookup_insert_ne; [by apply Hbase|]. intros ->. congruence.
    + intros f Hsf. destruct (decide (f = fd)) as [->|Hne].
      { right. exists (a_next st). by rewrite lookup_insert_eq. }
      rewrite lookup_insert_ne in Hsf by done. destruct (Hfds f Hsf) as [?|[id Hid]]; [by left|right].
      exists id. rewrite lookup_insert_ne; [done|]. intros <-. congruence.
    + intros id f [[<- <-]|[Hne Hid]]%lookup_insert_Some.
      * split; [done|]. split; [done|]. rewrite lookup_insert_eq. split; [done|]. unfold owners. simpl. left.
      * destruct (Ho id f Hid) as (? & ? & [kk Hkk] & Hin). split; [done|]. split; [done|].
        split; [|unfold owners; by right]. exists kk. rewrite lookup_insert_ne; [done|]. intros ->. congruence.
    + assert (forall i f, a_open st !! i = Some f -> f <> fd) as Hdiff.
      { intros i f Hif ->. destruct (Ho i fd Hif) as (_ & _ & [kk Hkk] & _). congruence. }
      intros i j f [[<- <-]|[Hn1 H1]]%lookup_insert_Some [[<- ?]|[Hn2 H2]]%lookup_insert_Some; [done|..].
      * by destruct (Hdiff _ _ H2).
      * subst. by destruct (Hdiff _ _ H1).
      * by eapply Hi.
    + unfold owners. simpl. constructor; [|done]. intros ([i f] & Ei & Hin)%list_elem_of_fmap.
      simpl in Ei. subst i. apply Hf in Hin. lia.
    + intros id f [[= -> ->]|Hin]%elem_of_cons; [by rewrite lookup_insert_eq|].
      rewrite lookup_insert_ne; [by apply Hw|]. intros <-. apply Hw in Hin. congruence.
    + intros id f f' Hin [[<- <-]|[_ H2]]%lookup_insert_Some; [|by eapply Hr].
      assert ((a_next st < a_next st)%nat); [|lia]. eapply Hf, elem_of_app. by right.
    + intros id f. unfold owners. simpl. intros [[= -> ->]|Hin]%elem_of_cons; [lia|]. apply Hf in Hin. lia.
    + intros id Hid. destruct (Hs id Hid) as [[f Hif] Hrun]. split; [|done].
      rewrite lookup_insert_ne; [by eexists|]. intros <-. congruence.
Qed.

Lemma submit_spec (t : connection) p :
  let '(ok, p') := submit t p in
  workers_ p' = workers_ p /\ max_queue_size_ p' = max_queue_size_ p /\
  if ok then tasks_ p' = tasks_ p ++ [t] else p' = p.
Proof. unfold submit. destruct (stop_ p); [done|]. by destruct (negb _ && _). Qed.

Lemma owner_unique (st : acceptor) base id fd f :
  accept_ok base st -> (id, fd) ∈ running (workers_ (a_pool st)) ->
  (id, f) ∈ option_list (a_guard st) ++ tasks_ (a_pool st) -> False.
Proof.
  intros Hok Hr Hq. pose proof (ao_nodup _ _ Hok) as Hn. unfold owners in Hn.
  rewrite (assoc_L (++)), fmap_app in Hn. apply NoDup_app in Hn as (_ & Hd & _).
  apply (Hd id); apply list_elem_of_fmap; [by exists (id, f)|by exists (id, fd)].
Qed.

Lemma owner_first (st : acceptor) base id fd f :
  accept_ok base st -> a_guard st = Some (id, fd) ->
  (id, f) ∈ tasks_ (a_pool st) ++ running (workers_ (a_pool st)) -> False.
Proof.
  intros Hok Hg Hq. pose proof (ao_nodup _ _ Hok) as Hn. unfold owners in Hn. rewrite Hg in Hn. simpl in Hn.
  apply NoDup_cons in Hn as [Hn _]. apply Hn, list_elem_of_fmap. by exists (id, f).
Qed.

Lemma hand_over_ok base throws st st' : accept_ok base st -> hand_over throws st = Some st' -> accept_ok base st'.
Proof.
  intros Hok. unfold hand_over. destruct (a_guard st) as [[id fd]|] eqn:Eg; [|done].
  assert (a_open st !! id = Some fd) as Hid by (apply (ao_owned _ _ Hok); rewrite Eg; by left).
  destruct (ao_open _ _ Hok _ _ Hid) as (H0 & _).
  pose proof (submit_spec (id, fd) (a_pool st)) as Hs.
  assert (forall p', workers_ p' = workers_ (a_pool st) -> p' = a_pool st ->
    accept_ok base (mkAcceptor (closer_destroy fd (a_os st)).2 (a_listen st) None p' (a_metrics st)
                      (delete id (a_open st)) (a_scoped st) (a_next st))) as Hrej.
  { intros p' _ ->. rewrite closer_destroy_valid by done. apply close_ok; try done.
    - intros i f Hin. split; [|rewrite Eg; by right]. intros ->. eapply owner_first; [done..|]. apply elem_of_app. by left.
    - unfold owners. rewrite Eg. intros i f [[= -> ->]|Hin]%elem_of_cons Hne; done.
    - unfold owners. rewrite Eg. simpl. by apply submseteq_cons.
    - intros i Hi. destruct (ao_scoped _ _ Hok i Hi) as [_ [f Hf]]. split; [done|]. split; [|by exists f].
      intros ->. eapply owner_first; [done..|]. apply elem_of_app. by right.
    - apply (ao_gauge _ _ Hok). }
  destruct throws.
  - destruct (closer_destroy fd (a_os st)) as [u os'] eqn:Ec. intros [= <-]. by apply (Hrej (a_pool st)).
  - destruct (submit (id, fd) (a_pool st)) as [[] p'].
    + destruct Hs as (Ew & _ & Et). simpl. intros [= <-].
      apply move_ok; rewrite ?Ew, ?Et; try done.
      * unfold owners. rewrite Eg. simpl. apply Permutation_submseteq. solve_Permutation.
      * intros i f Hif. destruct (ao_open _ _ Hok _ _ Hif) as (_ & _ & _ & Hin). unfold owners in Hin.
        rewrite Eg in Hin. set_solver.
      * rewrite Eg. set_solver.
      * apply (ao_scoped _ _ Hok).
      * apply (ao_gauge _ _ Hok).
    + destruct Hs as (Ew & _ & ->). destruct (closer_destroy fd (a_os st)) as [u os'] eqn:Ec.
      intros [= <-]. by apply (Hrej (a_pool st)).
Qed.

(** Sleeping, waking and returning move no socket. *)
Lemma same_tasks_ok base st pool :
  accept_ok base st -> tasks_ pool = tasks_ (a_pool st) -> running (workers_ pool) = running (workers_ (a_pool st)) ->
  accept_ok base (with_pool pool st).
Proof.
  intros Hok Et Er. apply move_ok; rewrite ?Et, ?Er; [done..| | | |apply (ao_gauge _ _ Hok)].
  - intros i f Hif. by destruct (ao_open _ _ Hok _ _ Hif) as (_ & _ & _ & Hin).
  - done.
  - apply (ao_scoped _ _ Hok).
Qed.

Lemma take_task_ok base w st st' : accept_ok base st -> take_task w st = Some st' -> accept_ok base st'.
Proof.
  intros Hok. unfold take_task, worker_wake. destruct (workers_ (a_pool st) !! w) as [[| | |]|] eqn:Ew; try done.
  destruct (stop_ (a_pool st) || _).
  2:{ intros [= <-]. apply same_tasks_ok; [done|done|by apply (running_same _ _ _ _ Ew)]. }
  destruct (tasks_ (a_pool st)) as [|t q] eqn:Et; intros [= <-].
  { apply same_tasks_ok; [done|done|by apply (running_same _ _ _ _ Ew)]. }
  destruct (running_insert _ w _ (Running t) Ew) as (a & b & Ea & Eb). apply move_ok; simpl; rewrite ?Eb; simpl; try done.
  - unfold owners. rewrite Et, Ea. simpl. apply Permutation_submseteq. solve_Permutation.
  - intros i f Hif. destruct (ao_open _ _ Hok _ _ Hif) as (_ & _ & _ & Hin). unfold owners in Hin.
    rewrite Et, Ea in Hin. set_solver.
  - rewrite Et. set_solver.
  - intros i Hi. destruct (ao_scoped _ _ Hok i Hi) as [? [f Hf]]. split; [done|]. exists f. rewrite Ea in Hf. set_solver.
  - apply (ao_gauge _ _ Hok).
Qed.

Lemma running_length (ws : list worker) : (length (running (T := connection) ws) <= length ws)%nat.
Proof. induction ws as [|[| |t|] ws IH]; simpl; lia. Qed.

Lemma running_lookup (ws : list worker) w (t : connection) : ws !! w = Some (Running t) -> t ∈ running ws.
Proof. intros Hw. apply list_elem_of_lookup_2 in Hw. apply list_elem_of_omap. by exists (Running t). Qed.

Lemma scoped_bound (X : gset nat) (ws : list worker) :
  (forall i, i ∈ X -> exists f, (i, f) ∈ running (T := connection) ws) -> (size X <= length ws)%nat.
Proof.
  intros HX. etrans; [|apply running_length]. rewrite <- (length_fmap fst).
  apply submseteq_length, NoDup_submseteq; [apply NoDup_elements|].
  intros i Hi. apply elem_of_elements, HX in Hi as [f Hf]. apply list_elem_of_fmap. by exists (i, f).
Qed.

Lemma enter_scope_ok base w st st' :
  Z.of_nat (length (workers_ (a_pool st))) <= LONG_MAX ->
  accept_ok base st -> enter_scope w st = Some st' -> accept_ok base st'.
Proof.
  intros Hmax Hok. unfold enter_scope. destruct (workers_ (a_pool st) !! w) as [[| |[id fd]|]|] eqn:Ew; try done.
  destruct (decide (id ∈ a_scoped st)); [by rewrite bool_decide_eq_true_2|rewrite bool_decide_eq_false_2 by done].
  destruct (a_open st !! id) as [f|] eqn:Eo; [|by rewrite bool_decide_eq_true_2].
  rewrite bool_decide_eq_false_2 by done. simpl. intros [= <-]. apply running_lookup in Ew.
  assert (forall i, i ∈ {[id]} ∪ a_scoped st -> is_Some (a_open st !! i) /\
    exists f, (i, f) ∈ running (workers_ (a_pool st))) as Hsc.
  { intros i [->%elem_of_singleton|Hi]%elem_of_union; [split; [by eexists|by exists fd]|by apply (ao_scoped _ _ Hok)]. }
  assert (size ({[id]} ∪ a_scoped st) <= length (workers_ (a_pool st)))%nat as Hsz
    by (apply scoped_bound; intros i Hi; by apply Hsc).
  apply move_ok; try done.
  - intros i g Hig. by destruct (ao_open _ _ Hok _ _ Hig) as (_ & _ & _ & ?).
  - simpl. rewrite (ao_gauge _ _ Hok), size_union, size_singleton in * by set_solver.
    rewrite fetch_add_exact; lia.
Qed.

Lemma leave_scope_ok base w st st' :
  Z.of_nat (length (workers_ (a_pool st))) <= LONG_MAX ->
  accept_ok base st -> leave_scope w st = Some st' -> accept_ok base st'.
Proof.
  intros Hmax Hok. unfold leave_scope. destruct (workers_ (a_pool st) !! w) as [[| |[id fd]|]|] eqn:Ew; try done.
  destruct (decide (id ∈ a_scoped st)) as [Hin|]; [|by rewrite bool_decide_eq_false_2].
  rewrite bool_decide_eq_true_2 by done. apply running_lookup in Ew.
  destruct (ao_scoped _ _ Hok id Hin) as [[f Hf] _].
  assert (f = fd) as -> by (by eapply (ao_running _ _ Hok)).
  destruct (close_socket fd (a_os st)) as [u os'] eqn:Ec. intros [= <-].
  replace os' with (close_socket fd (a_os st)).2 by (by rewrite Ec).
  assert (size (a_scoped st) <= length (workers_ (a_pool st)))%nat as Hsz
    by (apply scoped_bound; intros i Hi; by apply (ao_scoped _ _ Hok)).
  apply close_ok; try done.
  - intros i g Hig. split; [|done]. intros ->. by eapply owner_unique.
  - intros i Hi. apply elem_of_difference in Hi as [Hi Hne]. split; [done|].
    split; [set_solver|]. by apply (ao_scoped _ _ Hok).
  - simpl. rewrite (ao_gauge _ _ Hok). rewrite size_difference, size_singleton by set_solver.
    assert (1 <= size (a_scoped st))%nat.
    { rewrite <- (size_singleton (C := gset nat) id). apply subseteq_size. set_solver. }
    rewrite fetch_add_exact; unfold LONG_MAX in *; lia.
Qed.

Lemma end_task_ok base w st st' : accept_ok base st -> end_task w st = Some st' -> accept_ok base st'.
Proof.
  intros Hok. unfold end_task, worker_done. destruct (workers_ (a_pool st) !! w) as [[| |[id fd]|]|] eqn:Ew; try done.
  destruct (a_open st !! id) eqn:Eo; [by rewrite bool_decide_eq_false_2|rewrite bool_decide_eq_true_2 by done].
  intros [= <-]. destruct (running_insert _ w _ Ready Ew) as (a & b & Ea & Eb). simpl in Ea, Eb.
  apply move_ok; simpl; rewrite ?Eb; try done.
  - unfold owners. rewrite Ea. apply submseteq_app; [done|]. apply submseteq_app; [done|].
    apply submseteq_app; [done|]. by apply submseteq_cons.
  - intros i g Hig. destruct (ao_open _ _ Hok _ _ Hig) as (_ & _ & _ & Hin). unfold owners in Hin.
    rewrite Ea in Hin. assert (i <> id) by congruence. set_solver.
  - intros i Hi. destruct (ao_scoped _ _ Hok i Hi) as [[g Hg] [f Hf]]. split; [by eexists|]. exists f.
    rewrite Ea in Hf. assert (i <> id) by congruence. set_solver.
  - apply (ao_gauge _ _ Hok).
Qed.

(** The number of workers and the bound of the queue do not change. *)
Definition pool_shape (p : Pool (T := connection)) : nat * Z := (length (workers_ p), max_queue_size_ p).

Lemma accept_step_shape st st' : accept_step st st' -> pool_shape (a_pool st') = pool_shape (a_pool st).
Proof.
  intros Hs. inversion Hs as [st2 E|throws st2 E|w st2 E|w st2 E|w st2 E|w st2 E|p' Hw|]; subst; [| | | | | | |done].
  - unfold accept_one in E. destruct (a_guard st); [done|]. destruct (accept_socket _ _) as [c os'].
    destruct (c =? _); by injection E as <-.
  - unfold hand_over in E. destruct (a_guard st) as [t|]; [|done]. destruct t as [id fd].
    pose proof (submit_spec (id, fd) (a_pool st)) as Hsub. destruct throws.
    + destruct (closer_destroy _ _). by injection E as <-.
    + unfold pool_shape. destruct (submit (id, fd) (a_pool st)) as [[] p']; destruct Hsub as (Ew & Em & Et).
      * injection E as <-. simpl. by rewrite Ew, Em.
      * subst p'. destruct (closer_destroy _ _). by injection E as <-.
  - unfold take_task, worker_wake in E. repeat case_match; simplify_eq; unfold pool_shape; simpl; by rewrite length_insert.
  - unfold enter_scope in E. repeat case_match; by simplify_eq.
  - unfold leave_scope in E. repeat case_match; by simplify_eq.
  - unfold end_task, worker_done in E. repeat case_match; simplify_eq; unfold pool_shape; simpl; by rewrite length_insert.
  - destruct (woken_frame _ _ Hw) as (_ & El & _ & [= _ _ Em _ _ _]). unfold pool_shape. simpl. by rewrite El, Em.
Qed.

Lemma accept_step_ok base st st' :
  Z.of_nat (length (workers_ (a_pool st))) <= LONG_MAX ->
  accept_ok base st -> accept_step st st' -> accept_ok base st'.
Proof.
  intros Hmax Hok Hs. inversion Hs as [st2 E|throws st2 E|w st2 E|w st2 E|w st2 E|w st2 E|p' Hw|r]; subst.
  - by eapply accept_one_ok. - by eapply hand_over_ok. - by eapply take_task_ok. - by eapply enter_scope_ok.
  - by eapply leave_scope_ok. - by eapply end_task_ok.
  - destruct (woken_frame _ _ Hw) as (Er & _ & _ & [= Et _ _ _ _ _]). by apply same_tasks_ok.
  - by destruct Hok.
Qed.

Lemma accept_step_pool st st' : accept_step st st' -> a_pool st' = a_pool st \/ pool_step (a_pool st) (a_pool st').
Proof.
  intros Hs. inversion Hs as [st2 E|throws st2 E|w st2 E|w st2 E|w st2 E|w st2 E|p' Hw|]; subst; [| | | | | | |by left].
  - left. unfold accept_one in E. destruct (a_guard st); [done|]. destruct (accept_socket _ _) as [c os'].
    destruct (c =? _); by injection E as <-.
  - unfold hand_over in E. destruct (a_guard st) as [[id fd]|]; [|done].
    pose proof (pool_submit (a_pool st) (id, fd)) as Hp. destruct throws.
    + left. destruct (closer_destroy _ _). by injection E as <-.
    + right. destruct (submit (id, fd) (a_pool st)) as [[] p']; [|destruct (closer_destroy fd _)]; by injection E as <-.
  - right. unfold take_task in E. destruct (worker_wake w (a_pool st)) eqn:Ew; [|done]. injection E as <-. by eapply pool_worker, worker_wakes.
  - left. unfold enter_scope in E. repeat case_match; by simplify_eq.
  - left. unfold leave_scope in E. repeat case_match; by simplify_eq.
  - right. unfold end_task in E. destruct (workers_ (a_pool st) !! w) as [[| |[id fd]|]|]; try done.
    destruct (bool_decide _); [|done]. destruct (worker_done w (a_pool st)) eqn:Ew; [|done].
    injection E as <-. by eapply pool_worker, worker_finishes.
  - right. by apply pool_worker, worker_woken.
Qed.

(** Running the loop from the state [Server::run] enters it with. *)
Lemma accept_reachable os listen n m st :
  bad_closes os = 0%nat -> is_Some (fds os !! listen) -> Z.of_nat (S n) <= LONG_MAX ->
  rtc accept_step (acceptor_new os listen n m) st ->
  accept_ok (fds os) st /\ pool_ok (a_pool st) /\ pool_shape (a_pool st) = (Nat.max 1 n, m).
Proof.
  intros Hb Hl Hmax. apply (rtc_ind_r (fun st => accept_ok (fds os) st /\ pool_ok (a_pool st) /\
    pool_shape (a_pool st) = (Nat.max 1 n, m))).
  - split; [by apply acceptor_new_ok|]. split; [apply pool_new_ok|].
    unfold pool_shape. simpl. rewrite length_replicate. f_equal. by destruct n.
  - intros s1 s2 _ Hs (Hok & Hp & Hsh). pose proof (accept_step_shape _ _ Hs) as Es.
    split; [|split; [|congruence]].
    + eapply accept_step_ok; [|done..]. unfold pool_shape in Hsh. injection Hsh as -> _. lia.
    + destruct (accept_step_pool _ _ Hs) as [-> |Hps]; [done|by eapply pool_step_ok].
Qed.

Lemma open_bound base st : accept_ok base st -> (size (a_open st) <= length (owners st))%nat.
Proof.
  intros Hok. rewrite <- size_dom, <- (length_fmap fst (owners st)).
  apply submseteq_length, NoDup_submseteq; [apply NoDup_elements|].
  intros i Hi. apply elem_of_elements, elem_of_dom in Hi as [fd Hfd].
  destruct (ao_open _ _ Hok _ _ Hfd) as (_ & _ & _ & Hin). apply list_elem_of_fmap. by exists (i, fd).
Qed.

Lemma idle_table base st : accept_ok base st -> owners st = [] -> fds (a_os st) = base.
Proof.
  intros Hok Hidle. apply map_eq. intros fd. destruct (base !! fd) as [k|] eqn:E; [by apply (ao_base _ _ Hok)|].
  destruct (fds (a_os st) !! fd) eqn:Ef; [|done].
  destruct (ao_fds _ _ Hok fd) as [[k Hk]|[id Hid]]; [by eexists|congruence|].
  destruct (ao_open _ _ Hok _ _ Hid) as (_ & _ & _ & Hin). rewrite Hidle in Hin. by apply not_elem_of_nil in Hin.
Qed.

(** C21: every accepted socket is closed exactly once.  However the main thread
    and the workers interleave, whatever [accept] returns, whether the pool takes
    a client or not, whether serving it returns or throws, and although the
    system reuses descriptors at once: no descriptor is ever closed twice; the
    open descriptors are those of before and those of the connections still to be
    closed, each of which has one owner; their number is bounded by the queue and
    the workers; the gauge of connected clients is the number of connections
    being served; and when nothing is being served, nothing is left open. *)
Theorem connections_closed_once os listen n m st :
  bad_closes os = 0%nat -> is_Some (fds os !! listen) -> Z.of_nat (S n) <= LONG_MAX -> 0 < m ->
  rtc accept_step (acceptor_new os listen n m) st ->
  bad_closes (a_os st) = 0%nat /\
  (forall fd, is_Some (fds (a_os st) !! fd) <-> is_Some (fds os !! fd) \/ exists id, a_open st !! id = Some fd) /\
  (forall id fd, a_open st !! id = Some fd -> (id, fd) ∈ owners st) /\ NoDup (fst <$> owners st) /\
  Z.of_nat (size (a_open st)) <= 1 + m + Z.max 1 (Z.of_nat n) /\
  connected_ (a_metrics st) = Z.of_nat (size (a_scoped st)) /\
  (owners st = [] -> fds (a_os st) = fds os).
Proof.
  intros Hb Hl Hmax Hm Hr. destruct (accept_reachable os listen n m st Hb Hl Hmax Hr) as (Hok & Hp & Hsh).
  split; [apply (ao_bad _ _ Hok)|]. split.
  { intros fd. split; [apply (ao_fds _ _ Hok)|]. intros [[k Hk]|[id Hid]].
    - exists k. by apply (ao_base _ _ Hok).
    - by destruct (ao_open _ _ Hok _ _ Hid) as (_ & _ & ? & _). }
  split; [intros id fd Hid; by destruct (ao_open _ _ Hok _ _ Hid) as (_ & _ & _ & ?)|].
  split; [apply (ao_nodup _ _ Hok)|]. split; [|split; [apply (ao_gauge _ _ Hok)|by apply idle_table]].
  pose proof (open_bound _ _ Hok) as Hsz. unfold owners in Hsz. rewrite !length_app in Hsz.
  pose proof (running_length (workers_ (a_pool st))). unfold pool_shape in Hsh. injection Hsh as Ew Em.
  pose proof (pool_bound _ Hp) as Hq. rewrite Em in Hq.
  assert (length (option_list (a_guard st)) <= 1)%nat by (destruct (a_guard st); simpl; lia). lia.
Qed.
End acceptor.

(** ** A concrete run: two clients for one worker and a queue of one *)

Definition demo_os : OS := mkOS {[ 3 := mkSocket None None false true true ]} [4; 0; 0; 0; 5; 0; -1; 0] 0.

Definition or_same (f : acceptor -> option acceptor) (st : acceptor) : acceptor := default st (f st).
Definition demo_a0 : acceptor := acceptor_new demo_os 3 1 1.
Definition demo_a1 : acceptor := or_same (accept_one 300) demo_a0.
Definition demo_a2 : acceptor := or_same (hand_over false) demo_a1.
Definition demo_a3 : acceptor := or_same (take_task 0) demo_a2.
Definition demo_a4 : acceptor := or_same (enter_scope 0) demo_a3.
Definition demo_a5 : acceptor := or_same (accept_one 300) demo_a4.
Definition demo_a6 : acceptor := or_same (hand_over false) demo_a5.
Definition demo_a7 : acceptor := or_same (leave_scope 0) demo_a6.

Lemma demo_accept_reached : rtc (accept_step 300) demo_a0 demo_a7.
Proof.
  assert (accept_one 300 demo_a0 = Some demo_a1) as E1 by by vm_compute.
  assert (hand_over false demo_a1 = Some demo_a2) as E2 by by vm_compute.
  assert (take_task 0 demo_a2 = Some demo_a3) as E3 by by vm_compute.
  assert (enter_scope 0 demo_a3 = Some demo_a4) as E4 by by vm_compute.
  assert (accept_one 300 demo_a4 = Some demo_a5) as E5 by by vm_compute.
  assert (hand_over false demo_a5 = Some demo_a6) as E6 by by vm_compute.
  assert (leave_scope 0 demo_a6 = Some demo_a7) as E7 by by vm_compute.
  eapply rtc_l; [exact (step_accept _ _ _ E1)|]. eapply rtc_l; [exact (step_hand_over _ _ _ _ E2)|].
  eapply rtc_l; [exact (step_take _ _ _ _ E3)|]. eapply rtc_l; [exact (step_enter _ _ _ _ E4)|].
  eapply rtc_l; [exact (step_accept _ _ _ E5)|]. eapply rtc_l; [exact (step_hand_over _ _ _ _ E6)|].
  apply rtc_once. exact (step_leave _ _ _ _ E7).
Qed.

(** One client has been served and closed; the other is waiting. *)
Lemma connections_closed_once_witness :
  dom (fds (a_os demo_a7)) = {[3; 5]} /\ connected_ (a_metrics demo_a7) = 0 /\
  bad_closes (a_os demo_a7) = 0%nat.
Proof.
  split; [by vm_compute|]. split; [by vm_compute|].
  assert (is_Some (fds demo_os !! 3)) as Hl by (vm_compute; eauto).
  exact (proj1 (connections_closed_once 300 demo_os 3 1 1 demo_a7 eq_refl Hl ltac:(by vm_compute) ltac:(lia) demo_accept_reached)).
Defined.
