(* ===== verification/Listener.v ===== *)
(** * The threads of the web gateway and of the metrics endpoint
    (src/web.cpp [WebGateway::worker_loop], [stop]; src/metrics.cpp
    [MetricsHttp::loop], [~MetricsHttp])

    Both run threads that accept a client, serve it and close it, until the owner
    clears a flag and closes the listening socket.  A thread that calls [accept] on
    a closed descriptor gets an error; one that is already waiting in [accept] when
    another thread closes the socket is in the hands of the operating system, which
    may return an error, or one more client, or leave it waiting. *)

From S2P Require Import Prelude Stream Sockets.

Local Open Scope Z_scope.

(** Where a thread is in its loop. *)
Inductive thread :=
  | Checking                      (* at the head of the loop *)
  | Calling (listen : Z)          (* about to call [accept] on the descriptor it read *)
  | Blocked                       (* waiting in [accept] *)
  | Rechecking                    (* [accept] has failed *)
  | Handling (client : Z)
  | Returned.

Record listener := mkListener {
  g_os : OS;
  listen_ : Z;
  g_running : bool;
  threads_ : list thread;
  g_closing : bool;               (* the owner is between clearing the flag and closing *)
  g_open : bool;                  (* the listening socket has not been closed *)
}.

(** The gateway resets [listen_] and may be stopped again; the endpoint's
    destructor runs once. *)
Inductive kind := Gateway | Endpoint.

Definition with_threads (ts : list thread) (os : OS) (g : listener) : listener :=
  mkListener os (listen_ g) (g_running g) ts (g_closing g) (g_open g).

(** One step of the thread [w] that does not wait for a client. *)
Definition thread_step (w : nat) (g : listener) : option listener :=
  match threads_ g !! w with
  | Some Checking =>
      Some (with_threads (<[w := if g_running g then Calling (listen_ g) else Returned]> (threads_ g)) (g_os g) g)
  | Some (Calling l) =>
      let waits := match fds (g_os g) !! l with Some k => is_listening k | None => false end in
      Some (with_threads (<[w := if waits then Blocked else Rechecking]> (threads_ g)) (g_os g) g)
  | Some Rechecking =>
      Some (with_threads (<[w := if negb (g_running g) then Returned else Checking]> (threads_ g)) (g_os g) g)
  | Some (Handling client) =>
      let '(_, os') := close_socket client (g_os g) in
      Some (with_threads (<[w := Checking]> (threads_ g)) os' g)
  | Some Blocked | Some Returned | None => None
  end.

(** [accept] returns in the thread [w]: a client or an error, whatever has become of
    the listening socket. *)
Definition accept_returns (w : nat) (g : listener) : option listener :=
  match threads_ g !! w with
  | Some Blocked =>
      let '(client, os') := new_fd (mkSocket None None false false false) (g_os g) in
      Some (with_threads (<[w := if client =? kInvalidSocket then Rechecking else Handling client]> (threads_ g)) os' g)
  | _ => None
  end.

(** [stop] and the destructor, up to joining the threads: the flag, then the socket. *)
Definition stop_flag (k : kind) (g : listener) : option listener :=
  match k with
  | Endpoint => if negb (g_running g) then None
                else Some (mkListener (g_os g) (listen_ g) false (threads_ g) true (g_open g))
  | Gateway => Some (mkListener (g_os g) (listen_ g) false (threads_ g) true (g_open g))
  end.

Definition stop_close (k : kind) (g : listener) : option listener :=
  if negb (g_closing g) then None
  else if negb (listen_ g =? kInvalidSocket) then
    let '(_, os') := close_socket (listen_ g) (g_os g) in
    Some (mkListener os' (match k with Gateway => kInvalidSocket | Endpoint => listen_ g end)
            (g_running g) (threads_ g) false false)
  else Some (mkListener (g_os g) (listen_ g) (g_running g) (threads_ g) false (g_open g)).

Inductive listener_step (k : kind) (g : listener) : listener -> Prop :=
  | step_thread w g' : thread_step w g = Some g' -> listener_step k g g'
  | step_returns w g' : accept_returns w g = Some g' -> listener_step k g g'
  | step_flag g' : stop_flag k g = Some g' -> listener_step k g g'
  | step_close g' : stop_close k g = Some g' -> listener_step k g g'
  | step_outcomes r : (* other results of the system calls to come *)
      listener_step k g (with_threads (threads_ g) (mkOS (fds (g_os g)) r (bad_closes (g_os g))) g).

(** [start], once the listening socket is open: the gateway runs at least one worker. *)
Definition gateway_workers (workers : Z) : nat := Z.to_nat (if workers <? 1 then 1 else workers).
Definition listener_new (os : OS) (listen : Z) (n : nat) : listener :=
  mkListener os listen true (replicate n Checking) false true.

(** ** The invariant *)

Definition clients (ts : list thread) : list Z :=
  omap (fun t => match t with Handling c => Some c | _ => None end) ts.

(** [base]: the other sockets of the process. *)
Record listener_ok (k : kind) (base : gmap Z socket) (l0 : Z) (g : listener) : Prop := {
  lo_bad : bad_closes (g_os g) = 0%nat;
  lo_base : forall fd s, base !! fd = Some s -> fds (g_os g) !! fd = Some s;
  lo_fds : forall fd, is_Some (fds (g_os g) !! fd) ->
             is_Some (base !! fd) \/ (fd = l0 /\ g_open g = true) \/ fd ∈ clients (threads_ g);
  lo_clients : forall c, c ∈ clients (threads_ g) ->
             0 <= c /\ base !! c = None /\ (g_open g = true -> c <> l0) /\
             exists s, fds (g_os g) !! c = Some s /\ is_listening s = false;
  lo_nodup : NoDup (clients (threads_ g));
  lo_l0 : 0 <= l0 /\ base !! l0 = None /\ base !! kInvalidSocket = None;
  lo_listen : listen_ g = if g_open g then l0 else match k with Gateway => kInvalidSocket | Endpoint => l0 end;
  lo_open : g_open g = true -> is_Some (fds (g_os g) !! l0);
  lo_flag : g_open g = false -> g_running g = false /\ (k = Endpoint -> g_closing g = false);
  lo_closing : g_closing g = true -> g_running g = false;
  lo_calling : forall l, Calling l ∈ threads_ g -> l = l0 \/ l = kInvalidSocket;
}.

Lemma clients_insert ts w x y :
  ts !! w = Some x ->
  exists a b, clients ts = clients a ++ clients [x] ++ clients b /\
              clients (<[w := y]> ts) = clients a ++ clients [y] ++ clients b.
Proof.
  intros Hx. apply list_elem_of_split_length in Hx as (a & b & -> & ->).
  exists a, b. rewrite insert_app_r_alt by lia. rewrite Nat.sub_diag. simpl. unfold clients.
  rewrite !omap_app. split; by destruct x, y.
Qed.

Lemma thread_insert (ts : list thread) w x y : y ∈ <[w := x]> ts -> y = x \/ y ∈ ts.
Proof.
  intros Hy. apply list_elem_of_lookup in Hy as [i Hi].
  apply list_lookup_insert_Some in Hi as [(_ & -> & _)|(_ & Hi)]; [by left|right; by eapply list_elem_of_lookup_2].
Qed.

(** A thread moves without touching the sockets. *)
Lemma move_thread_ok k base l0 g w x y :
  listener_ok k base l0 g -> threads_ g !! w = Some x -> clients [x] = [] -> clients [y] = [] ->
  (forall l, y = Calling l -> l = listen_ g) ->
  listener_ok k base l0 (with_threads (<[w := y]> (threads_ g)) (g_os g) g).
Proof.
  intros [Hb Hba Hf Hc Hn Hl0 Hl Ho Hfl Hcl Ha] Hw Hx Hy Hacc.
  destruct (clients_insert _ w x y Hw) as (a & b & Ea & Eb).
  assert (clients (<[w := y]> (threads_ g)) = clients (threads_ g)) as E by (rewrite Ea, Eb, Hx, Hy; done).
  split; simpl; rewrite ?E; try done.
  intros l [<-|Hin]%thread_insert; [|by apply Ha]. rewrite (Hacc l eq_refl), Hl.
  destruct (g_open g); [by left|]. destruct k; [by right|by left].
Qed.

Lemma accept_thread_ok k base l0 g w client os' :
  listener_ok k base l0 g -> threads_ g !! w = Some Blocked ->
  new_fd (mkSocket None None false false false) (g_os g) = (client, os') ->
  listener_ok k base l0
    (with_threads (<[w := if client =? kInvalidSocket then Rechecking else Handling client]> (threads_ g)) os' g).
Proof.
  intros Hok Hw Hacc. pose proof (new_fd_acquires (mkSocket None None false false false) (g_os g)) as Hq. unfold ends in Hq. rewrite Hacc in Hq. simpl in Hq.
  destruct Hq as [[-> [Ef Eb]]|(H0 & Hfree & s & <- & Ef & Eb)].
  - pose proof (move_thread_ok k base l0 g w _ Rechecking Hok Hw eq_refl eq_refl ltac:(done)) as [].
    split; simpl in *; rewrite ?Ef, ?Eb; done.
  - rewrite valid_socket by done. pose proof Hok as [Hb Hba Hf Hc Hn Hl0 Hl Ho Hfl Hcl Ha].
    destruct (clients_insert _ w _ (Handling client) Hw) as (a & b & Ea & Ebb). simpl in Ea, Ebb.
    assert (base !! client = None) as Hbc.
    { destruct (base !! client) eqn:E; [|done]. apply Hba in E. congruence. }
    assert (clients (<[w := Handling client]> (threads_ g)) ≡ₚ client :: clients (threads_ g)) as Hp
      by (rewrite Ebb, Ea; simpl; solve_Permutation).
    split; simpl; rewrite ?Ef, ?Eb; try done.
    + intros fd s' Hbf. rewrite lookup_insert_ne; [by apply Hba|]. intros ->. congruence.
    + intros fd Hfd. rewrite Hp. destruct (decide (fd = client)) as [->|Hne]; [right; right; by left|].
      rewrite lookup_insert_ne in Hfd by done. destruct (Hf fd Hfd) as [?|[?|?]]; [by left|by right; left|right; right; by right].
    + intros c. rewrite Hp. intros [->|Hin]%elem_of_cons.
      * split; [done|]. split; [done|]. split; [|eexists; by rewrite lookup_insert_eq].
        intros Hop ->. destruct (Ho Hop) as [? ?]. congruence.
      * destruct (Hc c Hin) as (? & ? & ? & s' & Hs' & ?). split; [done|]. split; [done|]. split; [done|].
        exists s'. rewrite lookup_insert_ne; [done|]. intros ->. congruence.
    + rewrite Hp. constructor; [|done]. intros Hin. destruct (Hc client Hin) as (_ & _ & _ & s' & Hs' & _). congruence.
    + intros Hop. destruct (decide (l0 = client)) as [->|Hne]; [by rewrite lookup_insert_eq|].
      rewrite lookup_insert_ne by done. by apply Ho.
    + intros l' [?|Hin]%thread_insert; [done|by apply Ha].
Qed.

Lemma finish_thread_ok k base l0 g w client :
  listener_ok k base l0 g -> threads_ g !! w = Some (Handling client) ->
  listener_ok k base l0 (with_threads (<[w := Checking]> (threads_ g)) (close_socket client (g_os g)).2 g).
Proof.
  intros [Hb Hba Hf Hc Hn Hl0 Hl Ho Hfl Hcl Ha] Hw.
  destruct (clients_insert _ w _ Checking Hw) as (a & b & Ea & Ebb). simpl in Ea, Ebb.
  assert (clients (threads_ g) ≡ₚ client :: clients (<[w := Checking]> (threads_ g))) as Hp
    by (rewrite Ebb, Ea; simpl; solve_Permutation).
  assert (client ∈ clients (threads_ g)) as Hcl' by (rewrite Hp; by left).
  destruct (Hc client Hcl') as (Hc0 & Hcb & Hcl0 & s & Hs & _).
  rewrite Hp in Hn. apply NoDup_cons in Hn as [Hnot Hn'].
  unfold close_socket, sys_close. rewrite Hs. split; simpl; try done.
  - intros fd s' Hbf. rewrite lookup_delete_ne; [by apply Hba|]. intros ->. congruence.
  - intros fd [s' Hs']. apply lookup_delete_Some in Hs' as [Hne Hs'].
    destruct (Hf fd) as [?|[?|Hin]]; [by eexists|by left|by right; left|]. right; right.
    rewrite Hp in Hin. apply elem_of_cons in Hin as [->|?]; done.
  - intros c Hin. destruct (Hc c) as (? & ? & ? & s' & Hs' & ?); [rewrite Hp; by right|].
    split; [done|]. split; [done|]. split; [done|]. exists s'. rewrite lookup_delete_ne; [done|]. intros ->. done.
  - intros Hop. rewrite lookup_delete_ne; [by apply Ho|]. intros <-. by apply Hcl0.
  - intros l [?|Hin]%thread_insert; [done|by apply Ha].
Qed.

Lemma stop_close_ok k base l0 g g' : listener_ok k base l0 g -> stop_close k g = Some g' -> listener_ok k base l0 g'.
Proof.
  intros Hok. pose proof Hok as [Hb Hba Hf Hc Hn Hl0 Hl Ho Hfl Hcl Ha]. unfold stop_close.
  destruct (g_closing g) eqn:Ec; [|done]. simpl. specialize (Hcl eq_refl).
  destruct (g_open g) eqn:Eo.
  - rewrite Hl. rewrite valid_socket by apply Hl0. simpl. destruct (Ho eq_refl) as [s Hs].
    unfold close_socket, sys_close. rewrite Hs. intros [= <-]. split; simpl; try done.
    + intros fd s' Hbf. rewrite lookup_delete_ne; [by apply Hba|]. intros <-. destruct Hl0 as (_ & ? & _). congruence.
    + intros fd [s' Hs']. apply lookup_delete_Some in Hs' as [Hne Hs'].
      destruct (Hf fd) as [?|[[? _]|?]]; [by eexists|by left|congruence|by right; right].
    + intros c Hin. destruct (Hc c Hin) as (? & ? & Hne & s' & Hs' & ?). split; [done|]. split; [done|]. split; [done|].
      exists s'. rewrite lookup_delete_ne; [done|]. intros <-. by apply Hne.
  - destruct (Hfl eq_refl) as [Hr Hk]. destruct k; [|by specialize (Hk eq_refl)].
    rewrite Hl. simpl. intros [= <-]. split; simpl; rewrite ?Eo; try done.
Qed.

Lemma listener_step_ok k base l0 g g' : listener_ok k base l0 g -> listener_step k g g' -> listener_ok k base l0 g'.
Proof.
  intros Hok Hs. inversion Hs as [w g2 E|w g2 E|g2 E|g2 E|r]; subst.
  - unfold thread_step in E. destruct (threads_ g !! w) as [[|l| | |c|]|] eqn:Ew; try done.
    + injection E as <-. eapply move_thread_ok; [done..| | |]; destruct (g_running g); try done. by intros l [= <-].
    + injection E as <-. eapply move_thread_ok; [done..| | |]; by destruct (match fds (g_os g) !! l with Some _ => _ | None => _ end).
    + injection E as <-. eapply move_thread_ok; [done..| | |]; by destruct (g_running g).
    + destruct (close_socket c (g_os g)) as [u os'] eqn:Ec. injection E as <-.
      replace os' with (close_socket c (g_os g)).2 by (by rewrite Ec). by apply finish_thread_ok.
  - unfold accept_returns in E. destruct (threads_ g !! w) as [[|l| | |c|]|] eqn:Ew; try done.
    destruct (new_fd _ (g_os g)) as [client os'] eqn:Ea. injection E as <-. by eapply accept_thread_ok.
  - destruct Hok as [Hb Hba Hf Hc Hn Hl0 Hl Ho Hfl Hcl Ha]. unfold stop_flag in E.
    assert (g' = mkListener (g_os g) (listen_ g) false (threads_ g) true (g_open g) /\ (k = Endpoint -> g_running g = true))
      as [-> Hrun] by (destruct k; [by injection E as <-|]; destruct (g_running g); [by injection E as <-|done]).
    split; simpl; try done. intros Hop. destruct (Hfl Hop) as [Hr _]. split; [done|]. intros Hk. by rewrite Hrun in Hr.
  - by eapply stop_close_ok.
  - by destruct Hok.
Qed.

Lemma listener_new_ok k os l n :
  bad_closes os = 0%nat -> 0 <= l -> is_Some (fds os !! l) -> fds os !! kInvalidSocket = None ->
  listener_ok k (delete l (fds os)) l (listener_new os l n).
Proof.
  intros Hb H0 Hl Hinv. assert (clients (replicate n Checking) = []) as Hc by (by induction n).
  split; simpl; rewrite ?Hc; try done.
  - by intros fd s [_ ?]%lookup_delete_Some.
  - intros fd [s Hs]. destruct (decide (fd = l)) as [->|Hne]; [by right; left|left; exists s].
    by rewrite lookup_delete_ne.
  - intros c Hin. by apply not_elem_of_nil in Hin.
  - constructor.
  - split; [done|]. split; [apply lookup_delete_eq|]. rewrite lookup_delete_ne; [done|]. unfold kInvalidSocket. lia.
  - intros l' Hin. by apply elem_of_replicate_inv in Hin.
Qed.

(** ** Shutdown *)

Definition steps_left (t : thread) : nat :=
  match t with Checking | Rechecking => 1 | Calling _ | Handling _ => 2 | Blocked => 3 | Returned => 0 end.

Lemma steps_left_insert ts w x y :
  ts !! w = Some x ->
  (sum_list_with steps_left (<[w := y]> ts) + steps_left x = sum_list_with steps_left ts + steps_left y)%nat.
Proof.
  intros Hx. apply list_elem_of_split_length in Hx as (a & b & -> & ->).
  rewrite insert_app_r_alt by lia. rewrite Nat.sub_diag. simpl. rewrite !sum_list_with_app. simpl. lia.
Qed.

(** Once the listening socket is closed, [accept] called on its number fails, even
    when the system has given the number to a client's socket. *)
Lemma accept_closed k base l0 g l :
  listener_ok k base l0 g -> g_open g = false -> l = l0 \/ l = kInvalidSocket ->
  match fds (g_os g) !! l with Some s => is_listening s | None => false end = false.
Proof.
  intros [_ _ Hf Hc _ (H0 & Hb0 & Hbi) _ _ _ _ _] Ho Hl.
  destruct (fds (g_os g) !! l) as [s|] eqn:E; [|done].
  destruct (Hf l) as [[s' Hs']|[[_ ?]|Hin]]; [by eexists|destruct Hl as [-> | ->]; congruence|congruence|].
  destruct (Hc l Hin) as (_ & _ & _ & s' & Hs' & Hlis). rewrite E in Hs'. by injection Hs' as <-.
Qed.

Definition moves (w : nat) (g g' : listener) : Prop := thread_step w g = Some g' \/ accept_returns w g = Some g'.

Lemma stopped_step k base l0 g w g' :
  listener_ok k base l0 g -> g_running g = false -> g_open g = false -> moves w g g' ->
  (sum_list_with steps_left (threads_ g') < sum_list_with steps_left (threads_ g))%nat /\
  g_running g' = false /\ g_open g' = false.
Proof.
  intros Hok Hr Ho [E|E].
  - unfold thread_step in E. destruct (threads_ g !! w) as [[|l| | |c|]|] eqn:Ew; try done; rewrite ?Hr in E; simpl in E.
    + injection E as <-. pose proof (steps_left_insert _ _ _ Returned Ew). simpl in *. split; [lia|done].
    + rewrite (accept_closed k base l0 g l Hok Ho) in E by (apply (lo_calling _ _ _ _ Hok); by eapply list_elem_of_lookup_2).
      injection E as <-. pose proof (steps_left_insert _ _ _ Rechecking Ew). simpl in *. split; [lia|done].
    + injection E as <-. pose proof (steps_left_insert _ _ _ Returned Ew). simpl in *. split; [lia|done].
    + destruct (close_socket c (g_os g)) as [u os']. injection E as <-.
      pose proof (steps_left_insert _ _ _ Checking Ew). simpl in *. split; [lia|done].
  - unfold accept_returns in E. destruct (threads_ g !! w) as [[|l| | |c|]|] eqn:Ew; try done.
    destruct (new_fd _ (g_os g)) as [client os']. injection E as <-. destruct (client =? kInvalidSocket).
    + pose proof (steps_left_insert _ _ _ Rechecking Ew). simpl in *. split; [lia|done].
    + pose proof (steps_left_insert _ _ _ (Handling client) Ew). simpl in *. split; [lia|done].
Qed.

Definition waiting_or_done (t : thread) : Prop := t = Returned \/ t = Blocked.

Lemma can_step g : (exists w g', thread_step w g = Some g') \/ Forall waiting_or_done (threads_ g).
Proof.
  assert (Forall waiting_or_done (threads_ g) \/ exists w x, threads_ g !! w = Some x /\ x <> Returned /\ x <> Blocked)
    as [Hall|(w & x & Hw & Hx & Hx')].
  { induction (threads_ g) as [|x ts [IH|(w & y & Hw & Hy)]]; [by left|..].
    - assert (waiting_or_done x \/ (x <> Returned /\ x <> Blocked)) as [?|?]
        by (unfold waiting_or_done; destruct x; auto); [left; by constructor|right; by exists 0%nat, x].
    - right. by exists (S w), y. }
  - by right.
  - left. exists w. unfold thread_step. rewrite Hw.
    destruct x; try done; [by eexists..|]. destruct (close_socket _ _). by eexists.
Qed.

(** A waiting thread goes on as soon as its [accept] returns. *)
Lemma blocked_returns w g : threads_ g !! w = Some Blocked -> exists g', accept_returns w g = Some g'.
Proof. intros Hw. unfold accept_returns. rewrite Hw. destruct (new_fd _ _). by eexists. Qed.

Lemma listener_reachable k os l n g :
  bad_closes os = 0%nat -> 0 <= l -> is_Some (fds os !! l) -> fds os !! kInvalidSocket = None ->
  rtc (listener_step k) (listener_new os l n) g -> listener_ok k (delete l (fds os)) l g.
Proof.
  intros Hb H0 Hl Hinv. apply (rtc_ind_r (listener_ok k (delete l (fds os)) l)); [by apply listener_new_ok|].
  intros g1 g2 _ Hs Hok. by eapply listener_step_ok.
Qed.

(** Stopped and returned, only the other sockets of the process are open. *)
Lemma returned_fds k base l g :
  listener_ok k base l g -> g_open g = false -> Forall (eq Returned) (threads_ g) -> fds (g_os g) = base.
Proof.
  intros [_ Hba Hf _ _ _ _ _ _ _ _] Hop Hall. apply map_eq. intros fd.
  destruct (base !! fd) as [s|] eqn:E; [by apply Hba|].
  destruct (fds (g_os g) !! fd) as [s|] eqn:Efd; [|done].
  assert (clients (threads_ g) = []) as Hcl by (clear -Hall; induction Hall as [|x ts <- _ IH]; done).
  destruct (Hf fd) as [[s' Hs']|[[_ ?]|Hin]]; [by eexists|congruence|congruence|].
  rewrite Hcl in Hin. by apply not_elem_of_nil in Hin.
Qed.

(** C24: the gateway and the metrics endpoint close what they open, and stop unless the
    system keeps a thread waiting.  However their threads and their owner interleave,
    and although the system reuses descriptors: none is closed twice, and those open
    are the other ones of the process, the listening socket until it is closed, and
    the clients being served.  Once the owner has cleared the flag and closed the
    listening socket, every step of a thread, and every return of [accept] in one
    that waits there, leaves fewer to take; some thread can take a step, or each has
    returned or waits in [accept], from which it goes on as soon as that returns; and
    when all have returned, no descriptor is left open. *)
Theorem listener_stops k os l n g :
  bad_closes os = 0%nat -> 0 <= l -> is_Some (fds os !! l) -> fds os !! kInvalidSocket = None ->
  rtc (listener_step k) (listener_new os l n) g ->
  bad_closes (g_os g) = 0%nat /\
  (forall fd, is_Some (fds (g_os g) !! fd) <->
     is_Some (delete l (fds os) !! fd) \/ (fd = l /\ g_open g = true) \/ fd ∈ clients (threads_ g)) /\
  (g_running g = false -> g_open g = false ->
     (forall w g', moves w g g' ->
        (sum_list_with steps_left (threads_ g') < sum_list_with steps_left (threads_ g))%nat /\
        g_running g' = false /\ g_open g' = false) /\
     ((exists w g', thread_step w g = Some g') \/ Forall waiting_or_done (threads_ g)) /\
     (forall w, threads_ g !! w = Some Blocked -> exists g', accept_returns w g = Some g') /\
     (Forall (eq Returned) (threads_ g) -> fds (g_os g) = delete l (fds os))).
Proof.
  intros Hb H0 Hl Hinv Hr. pose proof (listener_reachable k os l n g Hb H0 Hl Hinv Hr) as Hok.
  pose proof Hok as [Hbad Hba Hf Hc Hn _ _ Ho _ _ _].
  split; [done|]. split.
  { intros fd. split; [apply Hf|]. intros [[s Hs]|[[-> Hop]|Hin]]; [exists s; by apply Hba|by apply Ho|].
    destruct (Hc fd Hin) as (_ & _ & _ & s & Hs & _). by eexists. }
  intros Hrun Hop. split; [intros w g'; by eapply stopped_step|]. split; [apply can_step|].
  split; [intros w; apply blocked_returns|]. by eapply returned_fds.
Qed.

(** A gateway with one worker, stopped while it serves a client, whose number is
    then free for the next one. *)
Definition demo_listener_os : OS := mkOS {[ 3 := mkSocket None None false true true ]} [4; 3] 0.
Definition demo_g0 : listener := listener_new demo_listener_os 3 (gateway_workers 0).
Definition demo_g1 : listener := default demo_g0 (thread_step 0 demo_g0).
Definition demo_g2 : listener := default demo_g1 (thread_step 0 demo_g1).
Definition demo_g3 : listener := default demo_g2 (accept_returns 0 demo_g2).
Definition demo_g4 : listener := default demo_g3 (stop_flag Gateway demo_g3).
Definition demo_g5 : listener := default demo_g4 (stop_close Gateway demo_g4).

Lemma demo_listener_waits : rtc (listener_step Gateway) demo_g0 demo_g2 /\ threads_ demo_g2 = [Blocked].
Proof.
  assert (thread_step 0 demo_g0 = Some demo_g1) as E1 by by vm_compute.
  assert (thread_step 0 demo_g1 = Some demo_g2) as E2 by by vm_compute.
  split; [|by vm_compute]. eapply rtc_l; [exact (step_thread _ _ _ _ E1)|]. apply rtc_once. exact (step_thread _ _ _ _ E2).
Qed.

Lemma demo_listener_reached : rtc (listener_step Gateway) demo_g0 demo_g5.
Proof.
  assert (accept_returns 0 demo_g2 = Some demo_g3) as E3 by by vm_compute.
  assert (stop_flag Gateway demo_g3 = Some demo_g4) as E4 by by vm_compute.
  assert (stop_close Gateway demo_g4 = Some demo_g5) as E5 by by vm_compute.
  etrans; [apply demo_listener_waits|]. eapply rtc_l; [exact (step_returns _ _ _ _ E3)|].
  eapply rtc_l; [exact (step_flag _ _ _ E4)|]. apply rtc_once. exact (step_close _ _ _ E5).
Qed.

Lemma listener_stops_witness :
  threads_ demo_g5 = [Handling 4] /\
  ((exists w g', thread_step w demo_g5 = Some g') \/ Forall waiting_or_done (threads_ demo_g5)).
Proof.
  split; [by vm_compute|].
  assert (is_Some (fds demo_listener_os !! 3)) as Hl by (vm_compute; eauto).
  destruct (listener_stops Gateway demo_listener_os 3 1 demo_g5 eq_refl ltac:(lia) Hl ltac:(by vm_compute) demo_listener_reached)
    as (_ & _ & H). destruct H as (_ & H & _); [by vm_compute..|exact H].
Defined.

(** [stop] can wait for ever.  Its worker waits in [accept] when the socket is closed;
    no step of the program's own gets it out, and the owner waits in [join]. *)
Theorem stop_can_wait :
  exists g, rtc (listener_step Gateway) demo_g0 g /\ g_running g = false /\ g_open g = false /\
    threads_ g = [Blocked] /\ forall w, thread_step w g = None.
Proof.
  set (g4 := default demo_g2 (stop_flag Gateway demo_g2)). set (g5 := default g4 (stop_close Gateway g4)).
  assert (stop_flag Gateway demo_g2 = Some g4) as E4 by by vm_compute.
  assert (stop_close Gateway g4 = Some g5) as E5 by by vm_compute. exists g5. split; [|split; [|split; [|split]]].
  - etrans; [apply demo_listener_waits|]. eapply rtc_l; [exact (step_flag _ _ _ E4)|]. apply rtc_once. exact (step_close _ _ _ E5).
  - by vm_compute.
  - by vm_compute.
  - by vm_compute.
  - assert (threads_ g5 = [Blocked]) as E by by vm_compute. intros w. unfold thread_step. rewrite E. by destruct w as [|[]].
Qed.
