(* ===== verification/Scrape.v ===== *)
(** * The metrics endpoint, read back (src/metrics.cpp [MetricsHttp::loop],
    [prometheus_text])

    What a scraper gets: the HTTP response as the endpoint sends it, and the
    samples of its body as a reader of the exposition format finds them. *)

From S2P Require Import Prelude Stream Interfaces DiskStore Storage Wal Replicator Net Raft Command Metrics Server Web Startup Running Sockets Listener.

Local Open Scope Z_scope.

(** The sending loop of the endpoint: the bytes the socket accepted, and whether
    that was all. *)
Definition send_metrics (body : bytes) (results : list Z) : bool * bytes := send_all (metrics_response body) results [].

(** What the endpoint renders for a server ([setup_metrics]). *)
Definition server_metrics {L R} (uptime : Z) (s : Server L R) : bytes :=
  prometheus_text uptime (storage_size (store_ s)) (metrics_ s).

(** [Server::setup_metrics]: the endpoint with its one thread, if a port is
    configured and its listening socket can be opened; a failure is only reported. *)
Definition setup_metrics (c : ServerConfig) (os : OS) : option listener * OS :=
  if metrics_port c <=? 0 then (None, os)
  else
    let '(listen, os') := open_listener os in
    if listen =? kInvalidSocket then (None, os') else (Some (listener_new os' listen 1), os').

(** Without an endpoint no socket is left open, and with one exactly its own. *)
Lemma setup_metrics_sockets c os :
  let '(endpoint, os') := setup_metrics c os in
  bad_closes os' = bad_closes os /\
  match endpoint with
  | None => fds os' = fds os
  | Some ls => threads_ ls = [Checking] /\ g_os ls = os' /\ fds os !! listen_ ls = None /\
               exists k, serving k /\ fds os' = <[listen_ ls := k]> (fds os)
  end.
Proof.
  unfold setup_metrics. destruct (metrics_port c <=? 0); [done|].
  pose proof (open_listener_acquires os) as Ho. unfold ends in Ho. destruct (open_listener os) as [l os'].
  destruct Ho as [[E [Hf Hb]]|(H0 & Hn & k & Hk & [Hf Hb])]; cbn [fst snd] in *.
  - subst l. rewrite Z.eqb_refl. done.
  - rewrite valid_socket by done. split; [done|]. split; [done|]. split; [done|]. split; [done|]. by exists k.
Qed.

(** ** The reader of the exposition format *)

Definition not_blank (c : ascii) : bool := negb (Ascii.eqb c " ").

(** A line is a comment, or a name (with its labels), a space and a value. *)
Definition sample (line : bytes) : option (bytes * bytes) :=
  match line with
  | [] => None
  | c :: _ =>
      if Ascii.eqb c "#" then None
      else match span not_blank line with
           | (name, _ :: value) => Some (name, value)
           | (_, []) => None
           end
  end.

Definition scrape (text : bytes) : list (bytes * bytes) := omap sample (getlines text []).

Definition read_counter (text : bytes) (name : bytes) : option Z :=
  v ← (list_to_map (scrape text) : gmap bytes bytes) !! name; fst <$> stol v.

(** ** The text, family by family *)

Lemma scrape_line l text : newline ∉ l -> scrape (l ++ newline :: text) = option_list (sample l) ++ scrape text.
Proof. intros Hl. unfold scrape. rewrite getlines_line by done. cbn. by destruct (sample l). Qed.

Definition sample_name (n : bytes) : Prop := stops (Ascii.eqb "#") n /\ n <> [] /\ Forall (fun c => not_blank c = true) n /\ (newline ∉ n).

#[export] Instance sample_name_dec n : Decision (sample_name n).
Proof. unfold sample_name, stops. destruct n; apply _. Defined.

Lemma sample_line n v : sample_name n -> sample (n ++ " "%char :: v) = Some (n, v).
Proof.
  intros (Hh & Hne & Hb & _). destruct n as [|c n]; [done|]. cbn [app sample].
  rewrite Ascii.eqb_sym, Hh. change (c :: n ++ " "%char :: v) with ((c :: n) ++ " "%char :: v).
  by rewrite span_app.
Qed.

Lemma scrape_samples name samples text :
  Forall (fun s => sample_name (lit name ++ s.1) /\ newline ∉ s.2) samples ->
  scrape (mjoin ((fun s => lit name ++ s.1 ++ lit " " ++ s.2 ++ [newline]) <$> samples) ++ text) =
  ((fun s => (lit name ++ s.1, s.2)) <$> samples) ++ scrape text.
Proof.
  induction 1 as [|[l v] samples [Hn Hv] _ IH]; [done|]. cbn [fst snd] in *.
  change (mjoin _ ++ text) with (((lit name ++ l ++ lit " " ++ v ++ [newline]) ++
    mjoin ((fun s : bytes * bytes => lit name ++ s.1 ++ lit " " ++ s.2 ++ [newline]) <$> samples)) ++ text).
  rewrite <- (assoc_L (++)). set (rest := mjoin _ ++ text) in *.
  replace ((lit name ++ l ++ lit " " ++ v ++ [newline]) ++ rest)
    with (((lit name ++ l) ++ " "%char :: v) ++ newline :: rest) by (by rewrite <- !(assoc_L (++))).
  rewrite scrape_line, sample_line, IH; [done|done|].
  intros [Hin|Hin]%elem_of_app; [by apply Hn|]. apply elem_of_cons in Hin as [?|?]; done.
Qed.

Lemma scrape_family name help kind samples text :
  newline ∉ lit name ++ lit help ++ lit kind ->
  Forall (fun s => sample_name (lit name ++ s.1) /\ newline ∉ s.2) samples ->
  scrape (family name help kind samples ++ text) = ((fun s => (lit name ++ s.1, s.2)) <$> samples) ++ scrape text.
Proof.
  intros Hn Hs. unfold family. rewrite !not_elem_of_app in Hn. destruct Hn as (H1 & H2 & H3).
  rewrite <- !(assoc_L (++)). set (rest := mjoin _ ++ text).
  replace (lit "# HELP " ++ lit name ++ lit " " ++ lit help ++ [newline] ++ lit "# TYPE " ++ lit name ++ lit " " ++ lit kind ++ [newline] ++ rest)
    with ((lit "# HELP " ++ lit name ++ lit " " ++ lit help) ++ newline ::
          (lit "# TYPE " ++ lit name ++ lit " " ++ lit kind) ++ newline :: rest) by (by rewrite <- !(assoc_L (++))).
  rewrite !scrape_line; [|rewrite !not_elem_of_app; repeat split; (done || by_word)..].
  cbn [sample lit]. unfold rest. by apply scrape_samples.
Qed.

(** ** All of it *)

Definition samples_of (uptime keys : Z) (m : Metrics) : list (bytes * bytes) :=
  [(lit "redon_uptime_seconds", to_string uptime); (lit "redon_connected_clients", to_string (connected_ m));
   (lit "redon_connections_total", to_string (connections_total_ m)); (lit "redon_commands_total", to_string (commands_ m));
   (lit "redon_command_total" ++ cmd_label "get", to_string (gets_ m));
   (lit "redon_command_total" ++ cmd_label "set", to_string (sets_ m));
   (lit "redon_command_total" ++ cmd_label "del", to_string (dels_ m));
   (lit "redon_keyspace_hits_total", to_string (get_hits_ m)); (lit "redon_keyspace_misses_total", to_string (get_misses_ m));
   (lit "redon_errors_total", to_string (errors_ m));
   (lit "redon_command_latency_microseconds_avg", fixed3 (avg_us m)); (lit "redon_keys", to_string keys)].

Ltac by_family := rewrite scrape_family;
  [ | by_word | repeat (apply Forall_cons_2; [split; [cbn [fst snd]; rewrite ?app_nil_r; by_word|first [apply one_line_to_string | apply fixed3_line]]|]);
      apply Forall_nil_2 ].

Lemma scrape_prometheus uptime keys m : scrape (prometheus_text uptime keys m) = samples_of uptime keys m.
Proof.
  unfold prometheus_text. rewrite <- (app_nil_r (family "redon_keys" _ _ _)). do 10 by_family.
  rewrite !fmap_cons, !fmap_nil. cbn [fst snd]. rewrite !app_nil_r. reflexivity.
Qed.

Lemma metrics_response_read body :
  blen body <= LONG_MAX -> http_read (metrics_response body) = Some (lit "200 OK", body, []).
Proof.
  intros Hb. assert (0 <= blen body) as H0 by (unfold blen; lia).
  set (head := lit "HTTP/1.1 " ++ lit "200 OK" ++ crlf ++ lit "Content-Type: " ++ lit "text/plain; version=0.0.4; charset=utf-8" ++ crlf ++
    lit "Content-Length: " ++ decimal (blen body) ++ crlf ++ lit "Connection: close").
  assert (metrics_response body = head ++ crlf ++ crlf ++ body) as E
    by (unfold metrics_response, head; by rewrite <- !(assoc_L (++))).
  assert (find_end (metrics_response body) = Some (head, body)) as Hend.
  { rewrite E. unfold head. rewrite <- !(assoc_L (++)).
    pose proof (header_text_cr _ (header_text_decimal (blen body) H0)).
    repeat first
      [ rewrite find_end_here
      | rewrite find_end_line by (assumption || by_word)
      | rewrite find_end_next by first [done | by_word] ].
    cbn [prepend]. by rewrite app_nil_r. }
  assert (parse_content_length head = blen body) as Hlen.
  { unfold parse_content_length, head.
    rewrite !getlines_header by first [ (apply header_text_decimal; lia) | by_word ].
    rewrite status_line_skip.
    etrans; [apply (content_length_skip (lit "Content-Type") (lit " text/plain; version=0.0.4; charset=utf-8")); [by_word|by vm_compute]|].
    by apply content_length_here. }
  unfold http_read. rewrite Hend, Hlen. unfold head at 1. rewrite strip_prefix_app, Z.leb_refl.
  unfold blen. rewrite Nat2Z.id, take_ge, drop_ge by done. reflexivity.
Qed.

Definition sample_names : list bytes := (samples_of 0 0 metrics_new).*1.

Lemma read_counter_sample uptime keys m name n :
  (name, to_string n) ∈ samples_of uptime keys m -> long n -> read_counter (prometheus_text uptime keys m) name = Some n.
Proof.
  intros Hin Hn. unfold read_counter. rewrite scrape_prometheus.
  rewrite (elem_of_list_to_map_1 _ name (to_string n)); [| |done].
  - cbn. unfold stol. rewrite <- (app_nil_r (to_string n)), strto_to_string by (exact Hn || done). done.
  - change (samples_of uptime keys m).*1 with sample_names. by_word.
Qed.

Definition counter_names : list bytes :=
  [lit "redon_uptime_seconds"; lit "redon_connected_clients"; lit "redon_connections_total"; lit "redon_commands_total";
   lit "redon_command_total" ++ cmd_label "get"; lit "redon_command_total" ++ cmd_label "set";
   lit "redon_command_total" ++ cmd_label "del"; lit "redon_keyspace_hits_total"; lit "redon_keyspace_misses_total";
   lit "redon_errors_total"; lit "redon_keys"].

(** C37: a scraper reads the counters.  For any server in service: when the endpoint
    has sent its whole response, in however many pieces, a reader of HTTP finds
    status 200, the text as the body and nothing after it; and a reader of the
    exposition format finds in the text, under the name of each counter, exactly its
    value, and for the verbs exactly those of their labels. *)
Theorem metrics_scraped uptime (s : Server Wal Replicator) sends :
  server_typed s -> long uptime -> long (storage_size (store_ s)) -> blen (server_metrics uptime s) <= LONG_MAX ->
  (send_metrics (server_metrics uptime s) sends).1 = true ->
  http_read (send_metrics (server_metrics uptime s) sends).2 = Some (lit "200 OK", server_metrics uptime s, []) /\
  (let m := metrics_ s in
   map (read_counter (server_metrics uptime s)) counter_names =
   map Some [uptime; connected_ m; connections_total_ m; commands_ m; gets_ m; sets_ m; dels_ m;
             get_hits_ m; get_misses_ m; errors_ m; storage_size (store_ s)]).
Proof.
  intros [_ Hm _ _ _] Hu Hk Hlen Hs. split.
  - unfold send_metrics in *. rewrite (send_all_accepts _ _ Hs). by apply metrics_response_read.
  - unfold metrics_typed in Hm. cbv zeta. unfold server_metrics, counter_names. cbn [map].
    decompose_Forall_hyps.
    repeat match goal with |- _ :: _ = _ :: _ => apply f_equal2 end; try reflexivity;
      (apply read_counter_sample; [|assumption]); unfold samples_of; repeat (apply elem_of_cons; first [left; reflexivity | right]).
Qed.

(** A server that has served a GET that missed. *)
#[local] Existing Instance list_iter.

Definition demo_served : Server Wal Replicator := sv_server (serve_line demo_env1 (lit "GET a") false demo_server).

Lemma metrics_scraped_witness :
  map (read_counter (server_metrics 7 demo_served)) [lit "redon_uptime_seconds"; lit "redon_keyspace_misses_total"] = [Some 7; Some 1] /\
  http_read (send_metrics (server_metrics 7 demo_served) [100; 5000]).2 = Some (lit "200 OK", server_metrics 7 demo_served, []).
Proof.
  split; [by vm_compute|].
  assert (server_typed demo_server) as Hd by (split; [apply lru_ok_nil|apply metrics_new_typed|done|done|by vm_compute; lia]).
  assert (server_typed demo_served) as Ht by (apply serve_line_typed; exact Hd).
  assert (long 7) as H7 by (unfold long, LONG_MIN, LONG_MAX; lia).
  assert (long (storage_size (store_ demo_served))) as Hk by (vm_compute; done).
  assert (blen (server_metrics 7 demo_served) <= LONG_MAX) as Hl by (vm_compute; done).
  assert ((send_metrics (server_metrics 7 demo_served) [100; 5000]).1 = true) as Hs by by vm_compute.
  exact (proj1 (metrics_scraped 7 demo_served [100; 5000] Ht H7 Hk Hl Hs)).
Defined.
