(* ===== verification/WebMain.v ===== *)
(** * Starting the web gateway (src/web_main.cpp)

    The command line and the environment variable, the listening socket, the
    worker threads.  Composes [Sockets] (the listener), [Listener] (the threads)
    and [Web] (what a thread does with a connection). *)

From S2P Require Import Prelude Stream Startup Web Sockets Listener.

Local Open Scope Z_scope.

(** This [parse_port] does not look at what follows the number. *)
Definition web_parse_port (text : bytes) : option Z :=
  match stol text with
  | Some (v, _) => if (v <? 1) || (65535 <? v) then None else Some v
  | None => None
  end.

Record gateway_config := mkGatewayConfig {
  bind_host : bytes;
  web_port : Z;
  redon_host : bytes;
  redon_port : Z;
  workers : Z;
}.

(** [env]: the value of [REDON_WEB_HOST]. *)
Definition gateway_args (args : list bytes) (env : option bytes) : bytes + gateway_config :=
  wp <-! argument args 0 8080 web_parse_port (fun t => lit "invalid web port: " ++ t);
  rp <-! argument args 2 6380 web_parse_port (fun t => lit "invalid redon port: " ++ t);
  w <-! argument args 3 8 (fun t => fst <$> stoi t) (fun t => lit "invalid worker count: " ++ t);
  let bind := match env with
              | Some h => if negb (h =?b []) then h else lit "127.0.0.1"
              | None => lit "127.0.0.1"
              end in
  inr (mkGatewayConfig bind wp (default (lit "127.0.0.1") (args !! 1%nat)) rp w).

(** [main] and [WebGateway::start]: the message of a failed start (the exit code
    is then 1), or the gateway and its threads, which [wait] joins.  [page] is the
    text served at /. *)
Definition gateway_main (page : bytes) (args : list bytes) (env : option bytes) (os : OS)
  : (bytes * OS) + (WebGateway * listener) :=
  match gateway_args args env with
  | inl e => inl (e, os)
  | inr c =>
      let '(listen, os') := open_listener os in
      if listen =? kInvalidSocket then
        inl (lit "fatal: could not bind " ++ bind_host c ++ lit ":" ++ to_string (web_port c) ++
             lit " (is the port already in use?)", os')
      else inr (mkGateway (redon_host c) (redon_port c) page, listener_new os' listen (gateway_workers (workers c)))
  end.

(** ** What an accepted command line gives *)

Lemma web_parse_port_range t v : web_parse_port t = Some v -> 1 <= v <= 65535.
Proof.
  unfold web_parse_port. destruct (stol t) as [[x ?]|]; [|done].
  destruct (Z.ltb_spec x 1); [done|]. destruct (Z.ltb_spec 65535 x); [done|]. intros [= ->]. lia.
Qed.

(** Every port the server's own parser accepts is accepted here, with the same value. *)
Lemma web_parse_port_agrees t v : parse_port t = Some v -> web_parse_port t = Some v.
Proof.
  intros Hp. pose proof (in_range_Some _ _ _ _ _ Hp) as Hv. revert Hp.
  unfold parse_port, in_range, web_parse_port, stoi, stol, strto.
  destruct (scan_number _) as [[x r]|]; [|done].
  destruct ((x <? INT_MIN) || (INT_MAX <? x)); [done|]. destruct (negb _ || _ || _) eqn:E; [done|]. intros [= ->].
  unfold LONG_MIN, LONG_MAX. destruct (Z.ltb_spec v (-9223372036854775808)); [lia|].
  destruct (Z.ltb_spec 9223372036854775807 v); [lia|]. simpl.
  destruct (Z.ltb_spec v 1); [lia|]. destruct (Z.ltb_spec 65535 v); [lia|]. done.
Qed.

Lemma gateway_args_sound args env c :
  gateway_args args env = inr c ->
  1 <= web_port c <= 65535 /\ 1 <= redon_port c <= 65535 /\
  bind_host c = (match env with Some (x :: h) => x :: h | _ => lit "127.0.0.1" end).
Proof.
  unfold gateway_args. destruct (argument args 0 _ _ _) as [|wp] eqn:Ew; [done|].
  destruct (argument args 2 _ _ _) as [|rp] eqn:Er; [done|]. destruct (argument args 3 _ _ _) as [|w]; [done|].
  intros [= <-]. cbn [web_port redon_port bind_host].
  split; [eapply (argument_inr (fun p => 1 <= p <= 65535)); [exact Ew|lia|apply web_parse_port_range]|].
  split; [eapply (argument_inr (fun p => 1 <= p <= 65535)); [exact Er|lia|apply web_parse_port_range]|].
  by destruct env as [[|x h]|].
Qed.

(** C30: the gateway starts whole or not at all.  For any arguments, environment
    and results of the system calls, a start that fails leaves the process's
    sockets as they were.  A start that succeeds has both ports in range, listens
    on the loopback address unless [REDON_WEB_HOST] names another, and has at least
    one thread in its accept loop, as many as were asked for; whatever the threads
    then do, no descriptor is closed twice, and after [stop], when they have
    returned, the process's sockets are as they were. *)
Theorem gateway_starts page args env os :
  bad_closes os = 0%nat -> fds os !! kInvalidSocket = None ->
  match gateway_main page args env os with
  | inl (_, os') => fds os' = fds os /\ bad_closes os' = 0%nat
  | inr (g, ls) => exists c,
      gateway_args args env = inr c /\ 1 <= web_port c <= 65535 /\ 1 <= redon_port_ g <= 65535 /\
      bind_host c = (match env with Some (x :: h) => x :: h | _ => lit "127.0.0.1" end) /\
      Z.of_nat (length (threads_ ls)) = Z.max 1 (workers c) /\ Forall (eq Checking) (threads_ ls) /\
      forall ls', rtc (listener_step Gateway) ls ls' ->
        bad_closes (g_os ls') = 0%nat /\
        (g_open ls' = false -> Forall (eq Returned) (threads_ ls') -> fds (g_os ls') = fds os)
  end.
Proof.
  intros Hb Hinv. unfold gateway_main. destruct (gateway_args args env) as [e|c] eqn:Ea; [done|].
  pose proof (open_listener_acquires os) as Ho. unfold ends in Ho.
  destruct (open_listener os) as [l os']. cbn [fst snd] in Ho.
  destruct Ho as [[-> [Hf Hbc]]|(H0 & Hn & k & Hk & [Hf Hbc])].
  { rewrite Z.eqb_refl. split; [done|congruence]. }
  rewrite valid_socket by done. exists c. destruct (gateway_args_sound _ _ _ Ea) as (Hw & Hr & Hbind).
  do 4 (split; [done|]). cbn [threads_ listener_new].
  split; [rewrite length_replicate; unfold gateway_workers; destruct (Z.ltb_spec (workers c) 1); lia|].
  split; [by apply Forall_replicate|]. intros ls' Hls.
  assert (listener_ok Gateway (delete l (fds os')) l ls') as Hok.
  { eapply listener_reachable; [congruence|done| | |exact Hls]; rewrite Hf; [rewrite lookup_insert_eq; by eexists|].
    rewrite lookup_insert_ne; [done|]. unfold kInvalidSocket. lia. }
  split; [apply Hok|]. intros Hop Hall. rewrite (returned_fds _ _ _ _ Hok Hop Hall), Hf. by apply delete_insert_id.
Qed.

(** Two workers on port 9000; and a port followed by other text. *)
Lemma gateway_starts_witness :
  match gateway_main [] [lit "9000"; lit "10.0.0.1"; lit "6380"; lit "2"] None (mkOS ∅ [3; 0; 0; 0; 0] 0) with
  | inl _ => False
  | inr (g, ls) => redon_host_ g = lit "10.0.0.1" /\ 1 <= redon_port_ g <= 65535 /\ threads_ ls = [Checking; Checking]
  end.
Proof.
  pose proof (gateway_starts [] [lit "9000"; lit "10.0.0.1"; lit "6380"; lit "2"] None (mkOS ∅ [3; 0; 0; 0; 0] 0)
    eq_refl (lookup_empty _)) as H.
  destruct (gateway_main _ _ _ _) as [x|[g ls]] eqn:E; [by vm_compute in E|].
  destruct H as (c & _ & _ & Hp & _). vm_compute in E. injection E as <- <-. done.
Defined.

Example web_port_trailing_text : web_parse_port (lit "8080x") = Some 8080 /\ parse_port (lit "8080x") = None.
Proof. by vm_compute. Qed.
