(* ===== verification/Client.v ===== *)
(** * The terminal client (src/client_main.cpp)

    It reads a line from the keyboard, sends it, waits for one reply line and
    prints it, until the input ends, the connection is lost or a QUIT has been
    accepted.  For each line sent, the script of the network has the results of
    the [send]s and the chunks [recv] delivers before the next line is sent. *)

From S2P Require Import Prelude Stream Records Interfaces DiskStore Storage Wal Replicator.
From S2P Require Import Net Raft Command Metrics Server Startup.

Local Open Scope Z_scope.

(** [recv_line] (and the same function of bench/redon_bench.cpp): the line, if
    there is one, what is left in [inbuf] and what is left to receive.  Bytes
    beyond the line stay in [inbuf]; a buffer over the limit fails, newline or not. *)
Fixpoint client_recv_line (chunks : list bytes) (inbuf : bytes) : option bytes * bytes * list bytes :=
  match find_line inbuf with
  | Some (line, rest) => (Some (strip_cr line), rest, chunks)
  | None =>
      match chunks with
      | [] => (None, inbuf, [])
      | chunk :: chunks' =>
          if kMaxLineLength <? blen (inbuf ++ chunk) then (None, inbuf ++ chunk, chunks')
          else client_recv_line chunks' (inbuf ++ chunk)
      end
  end.

(** [send_all]. *)
Definition client_send_all (data : bytes) (results : list Z) : bool * bytes := send_all_capped data results [].

Definition first_word_upper (line : bytes) : bytes :=
  to_upper (span (fun c => negb (is_space c)) (drop_while is_space line)).1.

(** Leave only if the server was asked to quit and did not refuse. *)
Definition client_leaves (line reply : bytes) : bool :=
  let verb := first_word_upper line in
  ((verb =?b lit "QUIT") || (verb =?b lit "EXIT")) && negb (starts_with (lit "ERR") reply).

Definition prompt : bytes := lit "> ".

(** The loop of [main]: what it prints on the standard output, and the bytes the
    server has been sent.  [pending]: chunks delivered and not yet received. *)
Fixpoint client_loop (typed : list bytes) (net : list (list Z * list bytes)) (pending : list bytes) (inbuf : bytes)
  : bytes * bytes :=
  match typed with
  | [] => (prompt, [])
  | l :: typed' =>
      let line := strip_cr l in
      if line =?b [] then
        let '(out, sent) := client_loop typed' net pending inbuf in (prompt ++ out, sent)
      else
        let '(sends, chunks, net') := match net with [] => ([], [], []) | (s, c) :: n => (s, c, n) end in
        let '(ok, accepted) := client_send_all (line ++ [newline]) sends in
        if negb ok then (prompt, accepted)     (* the message goes to the standard error *)
        else
          match client_recv_line (pending ++ chunks) inbuf with
          | (None, _, _) => (prompt ++ lit "(server closed the connection)" ++ [newline], accepted)
          | (Some reply, inbuf', pending') =>
              if client_leaves line reply then (prompt ++ reply ++ [newline], accepted)
              else
                let '(out, sent) := client_loop typed' net' pending' inbuf' in
                (prompt ++ reply ++ [newline] ++ out, accepted ++ sent)
          end
  end.

(** [parse_port], the text of main.cpp's. *)
Definition client_parse_port (text : bytes) : option Z := parse_port text.

(** The arguments: host and port, or the message and exit code 1. *)
Definition client_args (args : list bytes) : bytes + (bytes * Z) :=
  let bad t := lit "error: invalid port '" ++ t ++ lit "'" in
  match args with
  | [] => inr (lit "127.0.0.1", 6380)
  | [p] => match client_parse_port p with Some n => inr (lit "127.0.0.1", n) | None => inl (bad p) end
  | [h; p] => match client_parse_port p with Some n => inr (h, n) | None => inl (bad p) end
  | _ => inl (lit "usage: redon-cli [host] [port]")
  end.

(** [main]: [connects] says whether the socket could be created and connected. *)
Definition client_main (args : list bytes) (connects : bool) (typed : list bytes)
    (net : list (list Z * list bytes)) : Z * bytes * bytes :=
  match client_args args with
  | inl _ => (1, [], [])
  | inr (host, port) =>
      if negb connects then (1, [], [])
      else
        let '(out, sent) := client_loop typed net [] [] in
        (0, lit "Connected to Redon at " ++ host ++ lit ":" ++ to_string port ++ lit "." ++ [newline] ++
            lit "Type commands (SET/GET/DEL/EXISTS/PING), or QUIT to exit." ++ [newline] ++ out, sent)
  end.

(** ** Client and server read the same verb *)

Definition no_bom (line : bytes) : Prop := take 3 (drop_while is_space line) <> bom.

#[export] Instance no_bom_dec line : Decision (no_bom line).
Proof. unfold no_bom. apply _. Defined.

Lemma first_word_upper_verb line : no_bom line -> first_word_upper line = (verb_and_key line).1.
Proof.
  intros Hb. unfold first_word_upper, verb_and_key. rewrite bool_decide_eq_false_2 by done.
  destruct (span _ (drop_while is_space line)) as [verb r]. by destruct (span _ (drop_while is_space r)).
Qed.

Section session.
Context {L R : Type} `{WriteAheadLaws L} `{ReplicaSink R} `{UnorderedIter}.
Context (e0 : line_env).
Abbreviation server := (Server L R).
Abbreviation conn := (Server.conn L R).

(** The verb decides whether the command layer closes the connection. *)
Definition quits (verb : bytes) : bool := (verb =?b lit "QUIT") || (verb =?b lit "EXIT").

Lemma quits_false verb : verb <> lit "QUIT" -> verb <> lit "EXIT" -> quits verb = false.
Proof. intros ??. unfold quits. by rewrite !bool_decide_eq_false_2. Qed.

Lemma execute_data_close verb key rest link raft (st : Storage L R) :
  let x := execute_data verb key rest link raft st in
  should_close x = quits verb && negb (starts_with (lit "ERR") (reply x)).
Proof.
  intros x. subst x. destruct (decide (quits verb = true)) as [Hq|Hq%not_true_is_false].
  - assert (forall v, quits v = false -> (verb =?b v) = false) as Hne
      by (intros v ?; apply bool_decide_eq_false_2; congruence).
    rewrite Hq. unfold execute_data. rewrite !Hne by (by vm_compute). rewrite orb_false_l.
    change ((verb =?b lit "QUIT") || (verb =?b lit "EXIT")) with (quits verb). rewrite Hq.
    by destruct (negb (key =?b []) || negb (rest =?b [])).
  - rewrite Hq, andb_false_l. unfold execute_data.
    change ((verb =?b lit "QUIT") || (verb =?b lit "EXIT")) with (quits verb). rewrite Hq.
    repeat case_match; done.
Qed.

Lemma execute_line_close line (st : Storage L R) follower link raft i :
  let x := execute_line line st follower link raft i in
  should_close x = quits (parse_line (trim line)).1.1 && negb (starts_with (lit "ERR") (reply x)).
Proof.
  intros x. subst x. unfold execute_line.
  destruct (decide (trim line = [])) as [E|E].
  { rewrite bool_decide_eq_true_2 by done. rewrite E. by vm_compute. }
  rewrite bool_decide_eq_false_2 by done.
  destruct (parse_line (trim line)) as [[verb key] rest]. cbn [fst].
  destruct (decide (quits verb = true)) as [Hq|Hq%not_true_is_false].
  - assert (forall v, quits v = false -> (verb =?b v) = false) as Hne
      by (intros v ?; apply bool_decide_eq_false_2; congruence).
    assert (is_write verb = false) as Hw by (unfold is_write; by rewrite !Hne by (by vm_compute)).
    rewrite !Hne by (by vm_compute). rewrite orb_false_l, Hw, !andb_false_r.
    destruct raft as [n|]; [rewrite andb_false_r|]; apply execute_data_close.
  - destruct (verb =?b lit "__REPLSYNC__").
    { rewrite Hq. unfold execute_sync. repeat case_match; done. }
    destruct ((verb =?b lit "__RAFT_VOTE__") || _).
    { rewrite Hq. unfold execute_rpc. repeat case_match; done. }
    destruct (verb =?b lit "ROLE"); [by rewrite Hq|].
    destruct (follower && _ && _); [by rewrite Hq|].
    destruct raft as [n|]; [destruct (negb (is_leader n) && _); [by rewrite Hq|]|]; apply execute_data_close.
Qed.

Lemma serve_line_close e line link (s : server) :
  let v := serve_line e line link s in
  sv_close v = quits (verb_and_key line).1 && negb (starts_with (lit "ERR") (sv_reply v)).
Proof.
  intros v. subst v. unfold serve_line.
  pose proof (verb_and_key_parse line) as Hp.
  destruct (parse_line (trim line)) as [[pv pk] pr] eqn:Epl.
  unfold route_line. rewrite Hp. cbn [fst].
  destruct (decide (pv = lit "INFO")) as [->|Hi]; [by rewrite bool_decide_eq_true_2|].
  rewrite bool_decide_eq_false_2 by done. destruct (router_ s) as [shards|].
  - change ((pv =?b lit "QUIT") || (pv =?b lit "EXIT")) with (quits pv).
    destruct (decide (pv = [])) as [->|Hv]; [by vm_compute|]. rewrite (bool_decide_eq_false_2 (pv = [])) by done.
    destruct (quits pv); [done|]. destruct (pv =?b lit "PING"); [done|]. by destruct (pk =?b []).
  - cbn [sv_close sv_reply]. rewrite execute_line_close. by rewrite Epl.
Qed.

(** A node that is not a follower never turns a connection into a replica link. *)
Lemma serve_line_link e line (s : server) : is_follower s = false -> sv_link (serve_line e line false s) = false.
Proof.
  intros Hf. unfold serve_line. destruct (verb_and_key line) as [verb key].
  destruct (verb =?b lit "INFO"); [done|]. destruct (router_ s); [by destruct (route_line _ _ line)|].
  cbn [sv_link]. rewrite Hf. unfold execute_line, execute_sync, execute_rpc, execute_data.
  repeat case_match; done.
Qed.

Lemma serve_line_role e line link (s : server) :
  let s' := sv_server (serve_line e line link s) in is_follower s' = is_follower s /\ router_ s' = router_ s.
Proof.
  unfold serve_line. destruct (verb_and_key line) as [verb key].
  destruct (verb =?b lit "INFO"); [done|]. destruct (router_ s) eqn:Er; [by destruct (route_line _ _ line)|done].
Qed.

(** ** What a session should be

    The server executes the lines typed, blank ones left out, one after the
    other, until one closes the connection; the client shows the replies. *)
Record outcome := mkOutcome {
  o_screen : bytes;
  o_sent : list bytes;        (* the lines sent, without their newlines *)
  o_replies : list bytes;
  o_server : server;
  o_closed : bool;
}.

Fixpoint session (typed : list bytes) (envs : list line_env) (s : server) : outcome :=
  match typed with
  | [] => mkOutcome prompt [] [] s false
  | l :: typed' =>
      let line := strip_cr l in
      if line =?b [] then
        let o := session typed' envs s in
        mkOutcome (prompt ++ o_screen o) (o_sent o) (o_replies o) (o_server o) (o_closed o)
      else
        let '(e, es) := next_env e0 envs in
        let v := serve_line e line false s in
        let shown := prompt ++ strip_cr (sv_reply v) ++ [newline] in
        if sv_close v then mkOutcome shown [line] [sv_reply v] (sv_server v) true
        else
          let o := session typed' es (sv_server v) in
          mkOutcome (shown ++ o_screen o) (line :: o_sent o) (sv_reply v :: o_replies o) (o_server o) (o_closed o)
  end.

(** A network that loses nothing: each line is sent, and its reply arrives, cut
    into any chunks, before the next line is typed. *)
Fixpoint faithful (typed : list bytes) (envs : list line_env) (s : server) (net : list (list Z * list bytes)) : bool :=
  match typed with
  | [] => true
  | l :: typed' =>
      let line := strip_cr l in
      if line =?b [] then faithful typed' envs s net
      else
        let '(e, es) := next_env e0 envs in
        let v := serve_line e line false s in
        match net with
        | [] => false
        | (sends, chunks) :: net' =>
            e_send e && (client_send_all (line ++ [newline]) sends).1 && (mjoin chunks =?b sv_reply v ++ [newline]) &&
            (blen (sv_reply v) <? kMaxLineLength) && (sv_close v || faithful typed' es (sv_server v) net')
        end
  end.

Lemma faithful_next l typed envs (s : server) net e es :
  strip_cr l <> [] -> next_env e0 envs = (e, es) -> faithful (l :: typed) envs s net = true ->
  let v := serve_line e (strip_cr l) false s in
  exists sends chunks net', net = (sends, chunks) :: net' /\ e_send e = true /\
    (client_send_all (strip_cr l ++ [newline]) sends).1 = true /\ mjoin chunks = sv_reply v ++ [newline] /\
    blen (sv_reply v) < kMaxLineLength /\ (sv_close v = false -> faithful typed es (sv_server v) net' = true).
Proof.
  intros Hl He. cbn [faithful]. rewrite bool_decide_eq_false_2, He by done. destruct net as [|[sends chunks] net']; [done|].
  rewrite !andb_true_iff, orb_true_iff, bool_decide_eq_true, Z.ltb_lt. intros ((((? & ?) & ?) & ?) & [Hc|?]).
  - exists sends, chunks, net'. rewrite Hc. by repeat split.
  - by exists sends, chunks, net'.
Qed.

Definition typable (l : bytes) : Prop := one_line l /\ no_bom (strip_cr l) /\ blen (strip_cr l) <= kMaxLineLength.

Lemma client_recv_reply chunks inbuf r :
  newline ∉ r -> inbuf ++ mjoin chunks = r ++ [newline] -> blen r < kMaxLineLength ->
  exists chunks', client_recv_line chunks inbuf = (Some (strip_cr r), [], chunks') /\ mjoin chunks' = [].
Proof.
  intros Hn. revert inbuf. induction chunks as [|c cs IH]; intros inbuf E Hl; cbn [client_recv_line].
  - unfold mjoin in E. simpl in E. rewrite app_nil_r in E. rewrite E.
    rewrite (proj2 (find_line_Some _ r [])) by done. by exists [].
  - destruct (find_line inbuf) as [[l rest]|] eqn:Ef.
    + apply (find_line_app _ (mjoin (c :: cs))) in Ef. rewrite E in Ef.
      rewrite (proj2 (find_line_Some _ r [])) in Ef by done. injection Ef as <- Ef.
      symmetry in Ef. apply app_eq_nil in Ef as [-> Ef]. by exists (c :: cs).
    + change (mjoin (c :: cs)) with (c ++ mjoin cs) in E. rewrite (assoc_L (++)) in E.
      destruct (Z.ltb_spec kMaxLineLength (blen (inbuf ++ c))) as [Hlt|_]; [|by apply IH].
      apply (f_equal length) in E. unfold blen in *. rewrite !length_app in *. simpl in E. lia.
Qed.

Lemma strip_cr_sub l c : c ∈ strip_cr l -> c ∈ l.
Proof.
  unfold strip_cr. destruct (last l); [|done]. destruct (Ascii.eqb _ _); [|done].
  intros Hc. rewrite <- (take_drop (length l - 1) l). apply elem_of_app. by left.
Qed.

Lemma starts_with_strip_cr r : starts_with (lit "ERR") (strip_cr r) = starts_with (lit "ERR") r.
Proof.
  unfold strip_cr. destruct r as [|c x _] using rev_ind; [done|]. rewrite last_snoc.
  destruct (Ascii.eqb_spec c "013") as [->|]; [|done]. rewrite length_app, Nat.add_sub, take_app_length.
  unfold starts_with. apply bool_decide_ext. simpl length.
  destruct x as [|a [|b [|d x]]]; [done..|]. by rewrite !firstn_cons.
Qed.

Definition on_wire (lines : list bytes) : bytes := mjoin (map (fun l => l ++ [newline]) lines).

(** The client's side of a session. *)
Lemma client_loop_session typed envs (s : server) net pending :
  mjoin pending = [] -> server_clean s -> is_follower s = false -> Forall typable typed -> faithful typed envs s net = true ->
  client_loop typed net pending [] = (o_screen (session typed envs s), on_wire (o_sent (session typed envs s))).
Proof.
  intros Hpd Hs Hf Ht. revert envs s net pending Hpd Hs Hf.
  induction Ht as [|l typed (Hl1 & Hb & Hlen) _ IH]; intros envs s net pending Hpd Hs Hf Hnet; [done|].
  cbn [client_loop session]. destruct (decide (strip_cr l = [])) as [El|El].
  { cbn [faithful] in Hnet. rewrite bool_decide_eq_true_2 in Hnet |- * by done. by rewrite (IH envs s net pending). }
  rewrite bool_decide_eq_false_2 by done. pose proof (fun e es => faithful_next l typed envs s net e es El) as Hnx.
  set (line := strip_cr l) in *.
  assert (one_line line) as Hone by (intros Hin; by apply Hl1, strip_cr_sub).
  pose proof (fun e => serve_line_clean e line false s Hs Hone ltac:(unfold kMaxLineLength, kMaxField in *; lia)) as Hclean.
  pose proof (fun e => serve_line_close e line false s) as Hclose.
  pose proof (fun e => serve_line_role e line false s) as Hrole.
  destruct (next_env e0 envs) as [e es] eqn:He. specialize (Hnx e es eq_refl Hnet). set (v := serve_line e line false s) in *.
  destruct Hnx as (sends & chunks & net' & -> & _ & Hsend & Hch & Hrl & Hnext).
  unfold client_send_all in *. pose proof (send_all_capped_accepts _ _ Hsend) as Hacc.
  destruct (send_all_capped (line ++ [newline]) sends []) as [ok acc]. simpl in Hsend, Hacc. subst ok acc. cbn [negb].
  destruct (client_recv_reply (pending ++ chunks) [] (sv_reply v)) as (pending' & -> & Hpd'); [apply Hclean| |done|].
  { simpl. rewrite join_app. by rewrite Hpd. }
  assert (client_leaves line (strip_cr (sv_reply v)) = sv_close v) as ->.
  { unfold client_leaves. rewrite first_word_upper_verb by done. specialize (Hclose e). fold v in Hclose. rewrite Hclose.
    unfold quits. by rewrite starts_with_strip_cr. }
  destruct (sv_close v); [unfold on_wire, mjoin; simpl; by rewrite app_nil_r|].
  rewrite (IH es (sv_server v) net' pending'); [|done|apply Hclean|etrans; [apply (Hrole e)|done]|by apply Hnext].
  cbn [o_screen o_sent]. f_equal. by rewrite <- !(assoc_L (++)).
Qed.

Lemma on_wire_fit lines :
  Forall (fun l => one_line l /\ blen l <= kMaxLineLength) lines -> lines_fit (on_wire lines).
Proof.
  induction 1 as [|l lines [Hl Hlen] _ IH].
  - intros q [r Hq]. symmetry in Hq. apply app_eq_nil in Hq as [-> _]. by vm_compute.
  - change (on_wire (l :: lines)) with ((l ++ [newline]) ++ on_wire lines). rewrite <- (assoc_L (++)).
    by apply lines_fit_app.
Qed.

Lemma session_sent typed envs (s : server) :
  Forall typable typed -> Forall (fun l => one_line l /\ blen l <= kMaxLineLength) (o_sent (session typed envs s)).
Proof.
  intros Ht. revert envs s. induction Ht as [|l typed (Hl1 & _ & Hlen) _ IH]; intros envs s; [constructor|].
  cbn [session]. destruct (strip_cr l =?b []); [apply IH|].
  assert (one_line (strip_cr l)) by (intros Hin; by apply Hl1, strip_cr_sub).
  destruct (next_env e0 envs) as [e es]. destruct (sv_close _); cbn [o_sent]; constructor; try done; apply IH.
Qed.

(** The server's side: the connection, in the state it is in before the session. *)
Lemma session_feed typed envs (s : server) net (c : conn) :
  is_follower s = false -> Forall typable typed -> faithful typed envs s net = true ->
  c_closed c = false -> inbuf c = [] -> c_link c = false -> c_envs c = envs -> c_server c = s ->
  let o := session typed envs s in
  let d := feed e0 (on_wire (o_sent o)) c in
  c_sent d = c_sent c ++ map (fun r => r ++ [newline]) (o_replies o) /\ c_server d = o_server o /\ c_closed d = o_closed o.
Proof.
  intros Hf Ht. revert envs s net c Hf. induction Ht as [|l typed (Hl1 & _ & Hlen) _ IH];
    intros envs s net c Hf Hnet Hc Hi Hlk He Hs; cbn [session].
  - unfold feed. rewrite Hc. unfold drain_all, append_chunk. simpl. rewrite Hi. simpl. by rewrite app_nil_r.
  - destruct (decide (strip_cr l = [])) as [El|El].
    { cbn [faithful] in Hnet. rewrite bool_decide_eq_true_2 in Hnet |- * by done. by eapply IH. }
    rewrite bool_decide_eq_false_2 by done. pose proof (fun e es => faithful_next l typed envs s net e es El) as Hnx.
    set (line := strip_cr l) in *. assert (one_line line) as Hone by (intros Hin; by apply Hl1, strip_cr_sub).
    pose proof (fun e => serve_line_link e line s Hf) as Hlink. pose proof (fun e => serve_line_role e line false s) as Hrole.
    assert (feed e0 (line ++ [newline]) c = one_line_step e0 line [] c) as Hfeed by (by apply feed_line).
    unfold one_line_step in Hfeed. rewrite He, Hlk, Hs in Hfeed.
    destruct (next_env e0 envs) as [e es] eqn:Hee. specialize (Hnx e es eq_refl Hnet). set (v := serve_line e line false s) in *.
    destruct Hnx as (sends & chunks & net' & -> & Hes & _ & _ & _ & Hnext). rewrite (e_send_all _ Hes) in Hfeed. simpl in Hfeed.
    destruct (sv_close v) eqn:Ecl; cbn [o_sent o_replies o_server o_closed].
    + unfold on_wire, mjoin. simpl. by rewrite app_nil_r, Hfeed.
    + change (on_wire (line :: o_sent (session typed es (sv_server v))))
        with ((line ++ [newline]) ++ on_wire (o_sent (session typed es (sv_server v)))).
      destruct (feed_app e0 (line ++ [newline]) (on_wire (o_sent (session typed es (sv_server v)))) c) as (E1 & E2 & E3 & _).
      rewrite <- E1, <- E2, <- E3, Hfeed.
      destruct (IH es (sv_server v) net' (mkConn [] (sv_link v) es (c_sent c ++ [sv_reply v ++ [newline]]) false (sv_server v)))
        as (F1 & F2 & F3); try done; [etrans; [apply (Hrole e)|done]|by apply Hnext|apply Hlink|].
      rewrite F1, F2, F3. split; [|done]. simpl. by rewrite <- (assoc_L (++)).
Qed.

(** C23: the terminal client and the server stay in step.  Type any lines (no line
    above the server's limit, none beginning with a byte-order mark) to a client of
    a node that is not a follower, over a network that loses nothing but may cut
    the bytes in any way, both directions.  The server receives and executes the
    non-blank lines in order, one each; the screen shows each reply after its
    prompt; and the client leaves at the same line at which the server closes the
    connection. *)
Theorem client_in_step typed envs (s : server) net server_chunks :
  server_clean s -> is_follower s = false -> Forall typable typed -> faithful typed envs s net = true ->
  let o := session typed envs s in
  mjoin server_chunks = (client_loop typed net [] []).2 ->
  let c := handle_client e0 server_chunks (new_conn envs s) in
  (client_loop typed net [] []).1 = o_screen o /\ (client_loop typed net [] []).2 = on_wire (o_sent o) /\
  c_sent c = map (fun r => r ++ [newline]) (o_replies o) /\ c_server c = o_server o /\ c_closed c = o_closed o.
Proof.
  intros Hs Hf Ht Hnet o Hsc c. subst c. rewrite (client_loop_session typed envs s net []) in * by done. fold o in Hsc |- *.
  split; [done|]. split; [done|]. cbn [fst snd] in *.
  rewrite (handle_client_feed e0 server_chunks _ []); [|done|simpl; rewrite Hsc; by apply on_wire_fit, session_sent].
  destruct (feed_all e0 server_chunks (new_conn envs s) eq_refl) as (-> & -> & -> & _). rewrite Hsc.
  exact (session_feed typed envs s net (new_conn envs s) Hf Ht Hnet eq_refl eq_refl eq_refl eq_refl eq_refl).
Qed.
End session.

(** ** A concrete session *)

#[local] Existing Instance list_iter.

Definition demo_typed : list bytes :=
  [lit "SET a 1"; [];  lit "get a" ++ ["013"%char]; lit "quit now"; lit "exit"; lit "GET a"].
Definition demo_cli_net : list (list Z * list bytes) :=
  [([3; 5], [lit "OK" ++ [newline]]); ([6], [lit "1"; [newline]]);
   ([100], [lit "ERR wrong number of arguments for 'quit' command" ++ [newline]]); ([100], [lit "OK" ++ [newline]])].

Lemma client_in_step_witness :
  let o := session demo_env1 demo_typed [] demo_server in
  o_screen o = lit "> OK" ++ [newline] ++ lit "> > 1" ++ [newline] ++
               lit "> ERR wrong number of arguments for 'quit' command" ++ [newline] ++ lit "> OK" ++ [newline] /\
  o_closed o = true /\ (client_loop demo_typed demo_cli_net [] []).1 = o_screen o.
Proof.
  intros o. split; [by vm_compute|]. split; [by vm_compute|].
  assert (server_clean demo_server) as Hs.
  { split; [|done]. exists ∅. split; [split; [apply lru_ok_nil|done]|]. apply map_Forall_empty. }
  assert (Forall typable demo_typed) as Ht.
  { repeat constructor; try by_word; by vm_compute. }
  assert (faithful demo_env1 demo_typed [] demo_server demo_cli_net = true) as Hn by by vm_compute.
  exact (proj1 (client_in_step (L := Wal) demo_env1 demo_typed [] demo_server demo_cli_net
    [(client_loop demo_typed demo_cli_net [] []).2] Hs eq_refl Ht Hn (app_nil_r _))).
Defined.
