(* ===== verification/Bench.v ===== *)
(** * The benchmark (bench/redon_bench.cpp)

    Many connections at once, each of which stores values under keys of its own
    and reads them back; every reply is checked.  For each request, the script of
    the network has the results of the [send]s, the chunks [recv] delivers and the
    time measured. *)

From Stdlib Require Import SpecFloat.
From S2P Require Import Prelude Stream Records Interfaces DiskStore Storage StorageCorrect Wal Replicator.
From S2P Require Import Net Raft Command Metrics Server Standalone Startup Client.

Local Open Scope Z_scope.

(** ** The command line *)

Definition parse_long (text : bytes) (min max : Z) : option Z := in_range text min max (stol text).

Record bench_config := mkBench {
  b_host : bytes;
  b_port : Z;
  connections : Z;
  requests_per_conn : Z;
}.

Definition bench_args (args : list bytes) : bytes + bench_config :=
  port <-! argument args 1 6380 (fun t => parse_long t 1 65535) (fun _ => lit "error: invalid port");
  conns <-! argument args 2 50 (fun t => parse_long t 1 4096)
              (fun _ => lit "error: invalid connection count (1..4096)");
  reqs <-! argument args 3 1000 (fun t => parse_long t 1 10000000)
             (fun _ => lit "error: invalid requests-per-connection");
  inr (mkBench (default (lit "127.0.0.1") (args !! 0%nat)) port conns reqs).

(** ** One connection *)

Record Result := mkResult {
  requests : Z;
  errors : Z;
  total_ns : Z;
  max_ns : Z;
}.

Definition result_new : Result := mkResult 0 0 0 0.

Record request_env := mkRequestEnv {
  q_sends : list Z;
  q_chunks : list bytes;
  q_ns : Z;
}.

(** [send_all] and [recv_line], the texts of the client's. *)
Definition bench_send_all (data : bytes) (results : list Z) : bool * bytes := send_all_capped data results [].
Definition bench_recv_line (chunks : list bytes) (inbuf : bytes) : option bytes * bytes * list bytes :=
  client_recv_line chunks inbuf.

(** [timed_request]: the result, and the state of the connection. *)
Definition timed_request (q : request_env) (line expected : bytes) (r : Result) (pending : list bytes) (inbuf : bytes)
  : Result * list bytes * bytes :=
  let sent := (bench_send_all line (q_sends q)).1 in
  let '(reply, inbuf', pending') :=
    if sent then bench_recv_line (pending ++ q_chunks q) inbuf else (None, inbuf, pending ++ q_chunks q) in
  let correct := match reply with Some x => x =?b expected | None => false end in
  (mkResult (requests r + 1) (if correct then errors r else errors r + 1) (total_ns r + q_ns q)
     (if max_ns r <? q_ns q then q_ns q else max_ns r), pending', inbuf').

Definition bench_key (id i : nat) : bytes :=
  lit "k_" ++ to_string (Z.of_nat id) ++ lit "_" ++ to_string (Z.of_nat i).
Definition bench_val (id i : nat) : bytes :=
  lit "v_" ++ to_string (Z.of_nat id) ++ lit "_" ++ to_string (Z.of_nat i).

(** The [j]th request of connection [id], without its newline, and the reply it
    expects: a SET and a GET for each iteration. *)
Definition bench_request (id j : nat) : bytes * bytes :=
  let i := (j / 2)%nat in
  if Nat.even j then (lit "SET " ++ bench_key id i ++ lit " " ++ bench_val id i, lit "OK")
  else (lit "GET " ++ bench_key id i, bench_val id i).

(** What is left when the script of the network runs out: a broken connection. *)
Definition no_network : request_env := mkRequestEnv [] [] 0.

Definition next_request (net : list request_env) : request_env * list request_env :=
  match net with [] => (no_network, []) | q :: n => (q, n) end.

(** The loop of [worker], from request [j] on: the result, and the connection. *)
Fixpoint bench_loop (id j count : nat) (net : list request_env) (r : Result) (pending : list bytes) (inbuf : bytes)
  : Result * list request_env :=
  match count with
  | O => (r, net)
  | S count' =>
      let '(q, net') := next_request net in
      let '(line, expected) := bench_request id j in
      let '(r', pending', inbuf') := timed_request q (line ++ [newline]) expected r pending inbuf in
      bench_loop id (S j) count' net' r' pending' inbuf'
  end.

(** [worker]: [None] is a failed connection.  At the end it sends QUIT and waits for
    a reply; neither is checked.  The second result is what was accepted of it. *)
Definition bench_worker (n : nat) (id : nat) (net : option (list request_env)) : Result * bytes :=
  match net with
  | None => (result_new, [])
  | Some net =>
      let '(r, net') := bench_loop id 0 (2 * n) net result_new [] [] in
      (r, (bench_send_all (lit "QUIT" ++ [newline]) (q_sends (next_request net').1)).2)
  end.

(** ** All connections *)

Definition add_result (a r : Result) : Result :=
  mkResult (requests a + requests r) (errors a + errors r) (total_ns a + total_ns r)
    (if max_ns a <? max_ns r then max_ns r else max_ns a).

Definition is_none {A} (o : option A) : bool := match o with None => true | Some _ => false end.

Definition bench_exit (total : Result) (connect_failures : Z) : Z :=
  if (errors total =? 0) && (connect_failures =? 0) then 0 else 1.

(** ** The report *)

(** [std::ostream << double] with the default format: six significant digits, the
    exponent form below 0.0001 and from a million on, without trailing zeros. *)
Fixpoint pad_digits (p : nat) (n : Z) : bytes :=
  match p with O => [] | S p' => pad_digits p' (n / 10) ++ [digit (n mod 10)] end.

Definition fraction (digits : bytes) : bytes :=
  match drop_while (fun c => Ascii.eqb c "0") (reverse digits) with
  | [] => []
  | rest => lit "." ++ reverse rest
  end.

(** The least [k] with [d <= n * 10 ^ k]. *)
Fixpoint leading_zeros (fuel : nat) (n d : Z) : Z :=
  match fuel with
  | O => 0
  | S f => if d <=? n then 0 else 1 + leading_zeros f (n * 10) d
  end.

(** The decimal exponent of [n / d]. *)
Definition exponent10 (n d : Z) : Z :=
  if d <=? n then blen (decimal (n / d)) - 1 else - leading_zeros 400 n d.

(** [n / d] as six digits and an exponent. *)
Definition six_digits (n d : Z) : Z * Z :=
  let x := exponent10 n d in
  let sig := if x <=? 5 then round_div (n * 10 ^ (5 - x)) d else round_div n (d * 10 ^ (x - 5)) in
  if sig =? 1000000 then (100000, x + 1) else (sig, x).

Definition exponent_text (x : Z) : bytes :=
  lit "e" ++ (if x <? 0 then lit "-" else lit "+") ++ (if Z.abs x <? 10 then lit "0" else []) ++ decimal (Z.abs x).

Definition general6 (v : double) : bytes :=
  let sign (s : bool) := if s then lit "-" else [] in
  match v with
  | S754_zero s => sign s ++ lit "0"
  | S754_infinity s => sign s ++ lit "inf"
  | S754_nan => lit "nan"
  | S754_finite s m e =>
      let '(sig, x) := six_digits (Z.pos m * 2 ^ Z.max e 0) (2 ^ Z.max (- e) 0) in
      sign s ++
      (if (-4 <=? x) && (x <? 6) then
         decimal (sig / 10 ^ (5 - x)) ++ fraction (pad_digits (Z.to_nat (5 - x)) (sig mod 10 ^ (5 - x)))
       else decimal (sig / 100000) ++ fraction (pad_digits 5 (sig mod 100000)) ++ exponent_text x)
  end.

(** [static_cast<long long>] of a double: towards zero. *)
Definition to_integer (v : double) : Z :=
  match v with
  | S754_finite s m e =>
      let n := Z.pos m * 2 ^ Z.max e 0 / 2 ^ Z.max (- e) 0 in if s then - n else n
  | _ => 0
  end.

Definition positive_double (v : double) : bool := if v is S754_finite false _ _ then true else false.

Definition elapsed_s (elapsed_ns : Z) : double := double_div (of_integer elapsed_ns) (of_integer 1000000000).

Definition throughput (total : Result) (elapsed_ns : Z) : double :=
  if positive_double (elapsed_s elapsed_ns) then double_div (of_integer (requests total)) (elapsed_s elapsed_ns)
  else S754_zero false.

Definition bench_avg_us (total : Result) : double :=
  if 0 <? requests total then
    double_div (double_div (of_integer (total_ns total)) (of_integer (requests total))) (of_integer 1000)
  else S754_zero false.

Definition bench_banner (cfg : bench_config) : bytes :=
  lit "Benchmarking " ++ b_host cfg ++ lit ":" ++ to_string (b_port cfg) ++ lit " with " ++
  to_string (connections cfg) ++ lit " connections x " ++ to_string (requests_per_conn cfg) ++
  lit " iterations (SET+GET each)...".

Definition bench_report (cfg : bench_config) (connect_failures : Z) (total : Result) (elapsed_ns : Z) : list bytes :=
  [lit "------------------------------------------";
   lit "connections        : " ++ to_string (connections cfg);
   lit "connect failures   : " ++ to_string connect_failures;
   lit "total requests     : " ++ to_string (requests total);
   lit "request errors     : " ++ to_string (errors total);
   lit "elapsed            : " ++ general6 (elapsed_s elapsed_ns) ++ lit " s";
   lit "throughput         : " ++ to_string (to_integer (throughput total elapsed_ns)) ++ lit " req/s";
   lit "avg latency        : " ++ general6 (bench_avg_us total) ++ lit " us";
   lit "max latency        : " ++ to_string (Z.quot (max_ns total) 1000) ++ lit " us"].

(** [main] once the arguments are read: the lines printed, the totals and the exit
    code. *)
Definition bench_main (cfg : bench_config) (nets : list (option (list request_env))) (elapsed_ns : Z)
  : list bytes * Result * Z :=
  let results := imap (bench_worker (Z.to_nat (requests_per_conn cfg))) nets in
  let total := foldl add_result result_new results.*1 in
  let connect_failures := Z.of_nat (length (List.filter is_none nets)) in
  (bench_banner cfg :: bench_report cfg connect_failures total elapsed_ns, total, bench_exit total connect_failures).

(** ** A server at the other end

    The connections are served concurrently: at each moment the server takes the
    next request of some connection.  [sched] says which. *)

Section concurrent.
Context {L R : Type} `{WriteAheadLaws L} `{!ReliableLog L} `{ReplicaSink R} `{UnorderedIter}.
Context (e0 : line_env).
Abbreviation server := (Server L R).

(** The requests served, as connection, index and reply. *)
Fixpoint interleaved (sched : list nat) (progress : gmap nat nat) (envs : list line_env) (s : server)
  : list (nat * nat * bytes) :=
  match sched with
  | [] => []
  | id :: sched' =>
      let j := default 0%nat (progress !! id) in
      let '(e, es) := next_env e0 envs in
      let v := serve_line e (bench_request id j).1 false s in
      (id, j, sv_reply v) :: interleaved sched' (<[id := S j]> progress) es (sv_server v)
  end.

(** Keys of different connections or iterations are different. *)
Lemma bench_key_inj id i id' i' : bench_key id i = bench_key id' i' -> id = id' /\ i = i'.
Proof.
  unfold bench_key. intros E. apply app_inv_head in E. simpl in E.
  apply not_elem_of_app_cons_inv_l in E as (E1 & _ & E2); [|by apply to_string_no..].
  apply to_string_inj in E1, E2. lia.
Qed.

Lemma numbered_word p id i : word p -> word (p ++ to_string (Z.of_nat id) ++ lit "_" ++ to_string (Z.of_nat i)).
Proof.
  intros [Hne Hp]. split; [by destruct p|]. unfold no_space in *.
  rewrite !Forall_app. split; [done|]. split; [apply to_string_not_space|]. split; [by repeat constructor|apply to_string_not_space].
Qed.

Lemma bench_key_word id i : word (bench_key id i).
Proof. apply (numbered_word (lit "k_")). by_word. Qed.

Lemma bench_val_text id i : text (bench_val id i).
Proof. apply word_text, (numbered_word (lit "v_")). by_word. Qed.

(** The requests are short. *)
Lemma bench_line_short id j :
  Z.of_nat id <= LONG_MAX -> Z.of_nat j <= LONG_MAX -> blen (bench_request id j).1 <= kMaxField.
Proof.
  intros Hid Hj. assert (Z.of_nat (j / 2) <= LONG_MAX) as Hh.
  { pose proof (Nat.Div0.div_le_upper_bound j 2 j ltac:(lia)). lia. }
  pose proof (length_to_string (Z.of_nat id) ltac:(unfold long, LONG_MIN; lia)).
  pose proof (length_to_string (Z.of_nat (j / 2)) ltac:(unfold long, LONG_MIN; lia)).
  unfold bench_request, bench_key, bench_val, blen, kMaxField.
  destruct (Nat.even j); cbn [fst]; rewrite !length_app; lit_lengths; lia.
Qed.

(** A connection between its SET and its GET finds its value in the store. *)
Definition in_flight (progress : gmap nat nat) (m : gmap bytes bytes) : Prop :=
  forall id j, progress !! id = Some j -> Nat.even j = false ->
    m !! bench_key id (j / 2) = Some (bench_val id (j / 2)).

Lemma half_even j : Nat.even j = true -> (S j / 2 = j / 2)%nat.
Proof. intros [m ->]%Nat.even_spec. rewrite Nat.mul_comm, Nat.div_mul by done.
  replace (S (m * 2)) with (1 + m * 2)%nat by lia. rewrite Nat.div_add by done. done. Qed.

(** No request index exceeds [bound], and no connection is beyond what fits. *)
Definition room (bound : Z) (sched : list nat) (progress : gmap nat nat) : Prop :=
  bound <= LONG_MAX /\ Forall (fun id => Z.of_nat id <= LONG_MAX) sched /\
  forall id, Z.of_nat (default 0%nat (progress !! id) + length sched) <= bound.

Lemma room_next bound id sched progress :
  room bound (id :: sched) progress -> room bound sched (<[id := S (default 0%nat (progress !! id))]> progress).
Proof.
  intros (Hb & Hs & Hp). apply Forall_cons in Hs as [_ Hs]. split; [done|]. split; [done|]. intros id'.
  specialize (Hp id'). destruct (decide (id = id')) as [<-|Hne];
    [rewrite lookup_insert_eq|rewrite lookup_insert_ne by done]; simpl in *; lia.
Qed.

Lemma interleaved_ok bound sched progress envs (s : server) m :
  room bound sched progress -> node_holds s m -> in_flight progress m ->
  Forall (fun '(id, j, r) => r = (bench_request id j).2) (interleaved sched progress envs s).
Proof.
  revert progress envs s m. induction sched as [|id sched IH]; intros progress envs s m Hroom Hs Hfl; [constructor|].
  cbn [interleaved]. set (j := default 0%nat (progress !! id)). destruct (next_env e0 envs) as [e es].
  pose proof Hroom as (Hb & Hids & Hp). apply Forall_cons in Hids as [Hid _]. specialize (Hp id). fold j in Hp.
  destruct (serve_line_answer e (bench_request id j).1 s m Hs) as (Hr & _ & _ & Hs').
  { apply bench_line_short; [done|lia]. }
  apply room_next in Hroom. fold j in Hroom. constructor; [rewrite Hr; clear Hr Hs'|eapply IH; [done|exact Hs'|]; clear Hr Hs'];
    unfold bench_request, node_reply; destruct (Nat.even j) eqn:Ej; cbn [fst snd];
    rewrite ?command_set, ?command_get by (apply bench_key_word || apply bench_val_text); cbn [answer fst snd default dict_lookup dict_set dict_touch map_dictionary];
    try done.
  - assert (progress !! id = Some j) as Hj by (subst j; by destruct (progress !! id)).
    by rewrite (Hfl id j Hj Ej).
  - intros id' j' [[<- <-]|[Hne Hj']]%lookup_insert_Some Hodd.
    + by rewrite half_even, lookup_insert_eq.
    + rewrite lookup_insert_ne; [by apply Hfl|]. intros E. by apply bench_key_inj in E as [E _].
  - intros id' j' [[<- <-]|[Hne Hj']]%lookup_insert_Some Hodd; [|by apply Hfl].
    by rewrite Nat.even_succ, <- Nat.negb_even, Ej in Hodd.
Qed.

(** ** A run without errors *)

(** The request is sent whole, and the reply, recorded for it by the server,
    arrives cut into any chunks. *)
Definition delivered (trace : list (nat * nat * bytes)) (id j : nat) (q : request_env) : Prop :=
  (bench_send_all ((bench_request id j).1 ++ [newline]) (q_sends q)).1 = true /\
  exists r, (id, j, r) ∈ trace /\ mjoin (q_chunks q) = r ++ [newline].

Definition all_delivered (count : nat) (trace : list (nat * nat * bytes)) (nets : list (list request_env)) : Prop :=
  forall id net j q, nets !! id = Some net -> (j < count)%nat -> net !! j = Some q -> delivered trace id j q.

Lemma word_line w : word w -> newline ∉ w /\ strip_cr w = w.
Proof.
  intros [_ Hw]. unfold no_space in Hw. rewrite Forall_forall in Hw. split; [by intros ?%Hw|].
  unfold strip_cr. destruct (last w) as [c|] eqn:E; [|done]. apply last_Some_elem_of, Hw in E.
  destruct (Ascii.eqb_spec c "013") as [->|]; [done|done].
Qed.

Lemma bench_reply_short id j :
  Z.of_nat id <= 4096 -> Z.of_nat j <= 20000000 -> let r := (bench_request id j).2 in
  newline ∉ r /\ blen r < kMaxLineLength /\ strip_cr r = r.
Proof.
  intros Hid Hj. cbv zeta. unfold bench_request. destruct (Nat.even j); cbn [snd]; [split; [by_word|by vm_compute]|].
  assert (word (bench_val id (j / 2))) as Hw by (apply (numbered_word (lit "v_")); by_word).
  assert (Z.of_nat (j / 2) <= LONG_MAX) as Hh.
  { pose proof (Nat.Div0.div_le_upper_bound j 2 j ltac:(lia)). unfold LONG_MAX. lia. }
  destruct (word_line _ Hw). split; [done|]. split; [|done].
  pose proof (length_to_string (Z.of_nat id) ltac:(unfold long, LONG_MIN, LONG_MAX; lia)).
  pose proof (length_to_string (Z.of_nat (j / 2)) ltac:(unfold long, LONG_MIN; lia)).
  unfold bench_val, blen, kMaxLineLength. rewrite !length_app.
  change (length (lit "v_")) with 2%nat. change (length (lit "_")) with 1%nat. lia.
Qed.

Lemma bench_loop_ok trace id count : forall j net r pending,
  Forall (fun '(id, j, r) => r = (bench_request id j).2) trace -> mjoin pending = [] ->
  Z.of_nat id <= 4096 -> Z.of_nat (j + count) <= 20000000 -> (count <= length net)%nat ->
  (forall i q, (i < count)%nat -> net !! i = Some q -> delivered trace id (j + i) q) ->
  let r' := (bench_loop id j count net r pending []).1 in
  errors r' = errors r /\ requests r' = requests r + Z.of_nat count.
Proof.
  induction count as [|count IH]; intros j net r pending Htr Hpd Hid Hj Hlen Hdel; [cbn; lia|].
  destruct net as [|q net]; [simpl in Hlen; lia|]. cbn [bench_loop next_request].
  destruct (Hdel 0%nat q ltac:(lia) eq_refl) as (Hsend & rp & Hin & Hch). rewrite Nat.add_0_r in *.
  rewrite Forall_forall in Htr. pose proof (Htr _ Hin) as Hrp. cbn in Hrp.
  destruct (bench_reply_short id j Hid ltac:(lia)) as (Hn & Hl & Hcr).
  destruct (bench_request id j) as [line expected]. cbn [fst snd] in *. subst rp.
  unfold timed_request, bench_recv_line. rewrite Hsend.
  destruct (client_recv_reply (pending ++ q_chunks q) [] expected) as (pending' & -> & Hpd'); [done| |done|].
  { simpl. by rewrite join_app, Hpd. }
  rewrite Hcr, bool_decide_eq_true_2 by done.
  match goal with |- context [bench_loop _ _ _ _ ?r' _ _] =>
    destruct (IH (S j) net r' pending') as [E1 E2]; [by rewrite Forall_forall|done|done|lia|simpl in Hlen; lia| |] end.
  { intros i q' Hi Hq'. replace (S j + i)%nat with (j + S i)%nat by lia. apply Hdel; [lia|done]. }
  rewrite E1, E2. cbn [errors requests]. split; lia.
Qed.

Lemma total_ok n results a :
  Forall (fun r => errors r = 0 /\ requests r = n) results ->
  errors (foldl add_result a results) = errors a /\
  requests (foldl add_result a results) = requests a + n * Z.of_nat (length results).
Proof.
  intros Hr. revert a. induction Hr as [|r results [He Hn] _ IH]; intros a; cbn [foldl]; [split; simpl; lia|].
  destruct (IH (add_result a r)) as [-> ->]. cbn [add_result errors requests length]. lia.
Qed.

(** Every worker counts all its requests and no error. *)
Lemma workers_ok trace cfg nets :
  Forall (fun '(id, j, r) => r = (bench_request id j).2) trace ->
  Z.of_nat (length nets) <= 4096 -> 0 <= requests_per_conn cfg <= 10000000 ->
  let count := (2 * Z.to_nat (requests_per_conn cfg))%nat in
  Forall (fun net => count <= length net)%nat nets -> all_delivered count trace nets ->
  Forall (fun r => errors r = 0 /\ requests r = 2 * requests_per_conn cfg)
    (imap (bench_worker (Z.to_nat (requests_per_conn cfg))) (map Some nets)).*1.
Proof.
  intros Htr Hlen Hn count Hnets Hdel. rewrite Forall_fmap. apply Forall_lookup_2. intros id r Hr.
  rewrite list_lookup_imap in Hr. destruct (map Some nets !! id) as [o|] eqn:E; [|done]. injection Hr as <-.
  apply list_lookup_fmap_Some in E as (net & -> & Hnet). cbn [bench_worker compose].
  pose proof (lookup_lt_Some _ _ _ Hnet). rewrite Forall_lookup in Hnets.
  edestruct (bench_loop_ok _ id count 0 net result_new [] Htr) as [E1 E2]; try done; [lia|lia|by eapply Hnets| |].
  { intros i q Hi Hq. by eapply Hdel. }
  fold count. simpl fst. destruct (bench_loop id 0 count net result_new [] []) as [r net']. cbn [fst] in *.
  rewrite E1, E2. cbn. lia.
Qed.

Lemma bench_args_range args c :
  bench_args args = inr c -> 1 <= connections c <= 4096 /\ 1 <= requests_per_conn c <= 10000000 /\ 1 <= b_port c <= 65535.
Proof.
  unfold bench_args.
  destruct (argument args 1 _ _ _) as [|p] eqn:Ep; [done|]. destruct (argument args 2 _ _ _) as [|k] eqn:Ek; [done|].
  destruct (argument args 3 _ _ _) as [|n] eqn:En; [done|]. intros [= <-]. cbn.
  repeat split;
    [eapply (argument_inr (fun w => 1 <= w)); [exact Ek|lia|]|eapply (argument_inr (fun w => w <= 4096)); [exact Ek|lia|]
    |eapply (argument_inr (fun w => 1 <= w)); [exact En|lia|]|eapply (argument_inr (fun w => w <= 10000000)); [exact En|lia|]
    |eapply (argument_inr (fun w => 1 <= w)); [exact Ep|lia|]|eapply (argument_inr (fun w => w <= 65535)); [exact Ep|lia|]];
    intros t x Ex%in_range_Some; lia.
Qed.

(** C27: the benchmark reports no error when the server is right and the network
    loses nothing.  Run it with any arguments it accepts against a standalone node
    (an unbounded cache with a log that does not fail or none, or the on-disk
    engine, holding any data); serve the requests of the connections in any
    interleaving; deliver each request's reply in any chunks, and let the final QUIT
    and its reply go lost or not.  Then the exit code is 0, no request is counted
    as an error, and every request is counted: two for each iteration of each
    connection; and the lines printed say so.  A non-zero exit code therefore
    means a broken network or a wrong server. *)
Theorem bench_clean_run args cfg sched envs (s : server) m nets elapsed_ns :
  bench_args args = inr cfg -> node_holds s m -> length nets = Z.to_nat (connections cfg) ->
  Forall (fun id => id < length nets)%nat sched ->
  Z.of_nat (length sched) <= 2 * requests_per_conn cfg * connections cfg ->
  let count := (2 * Z.to_nat (requests_per_conn cfg))%nat in
  Forall (fun net => count <= length net)%nat nets ->
  all_delivered count (interleaved sched ∅ envs s) nets ->
  let '(printed, total, code) := bench_main cfg (map Some nets) elapsed_ns in
  code = 0 /\ errors total = 0 /\ requests total = 2 * requests_per_conn cfg * connections cfg /\
  (lit "connect failures   : 0") ∈ printed /\ (lit "request errors     : 0") ∈ printed /\
  (lit "total requests     : " ++ to_string (2 * requests_per_conn cfg * connections cfg)) ∈ printed.
Proof.
  intros (Hc & Hn & _)%bench_args_range Hs Hlen Hids Hsl count Hnets Hdel. unfold bench_main.
  assert (Forall (fun '(id, j, r) => r = (bench_request id j).2) (interleaved sched ∅ envs s)) as Htr.
  { apply (interleaved_ok LONG_MAX _ _ _ _ m); [|done|intros id j E; by rewrite lookup_empty in E].
    split; [done|]. split.
    - eapply Forall_impl; [exact Hids|]. intros id Hid. simpl in Hid. unfold LONG_MAX. lia.
    - intros id. rewrite lookup_empty. simpl. unfold LONG_MAX. nia. }
  pose proof (workers_ok _ cfg nets Htr ltac:(lia) ltac:(lia) Hnets Hdel) as Hw.
  unfold bench_exit. destruct (total_ok _ _ result_new Hw) as [E1 E2]. rewrite length_fmap, length_imap, length_map, Hlen in E2.
  assert (List.filter is_none (map Some nets) = []) as -> by (clear; by induction nets).
  rewrite Z2Nat.id in E2 by lia. unfold bench_report. rewrite E1, E2.
  change (requests result_new + 2 * requests_per_conn cfg * connections cfg) with (2 * requests_per_conn cfg * connections cfg).
  change (lit "connect failures   : 0") with (lit "connect failures   : " ++ to_string (Z.of_nat (length (@nil (option (list request_env)))))).
  change (lit "request errors     : 0") with (lit "request errors     : " ++ to_string (errors result_new)).
  split; [reflexivity|]. split; [reflexivity|]. split; [reflexivity|].
  split; [do 3 right; left|]. split; [do 5 right; left|do 4 right; left].
Qed.
End concurrent.

(** ** A concrete run: two connections, one iteration each *)

#[local] Existing Instance list_iter.

Definition demo_bench_args : list bytes := [lit "127.0.0.1"; lit "6380"; lit "2"; lit "1"].
Definition demo_sched : list nat := [0; 1; 1; 0]%nat.
Definition demo_nets : list (list request_env) :=
  [[mkRequestEnv [5; 100] [lit "O"; lit "K" ++ [newline]] 40; mkRequestEnv [100] [lit "v_0_0" ++ [newline]] 50];
   [mkRequestEnv [100] [lit "OK" ++ [newline]] 30; mkRequestEnv [100] [lit "v_1"; lit "_0" ++ [newline]] 90]].

Definition demo_cfg : bench_config := mkBench (lit "127.0.0.1") 6380 2 1.

(** Four requests of 210 ns in all, in 12.3456789 ms. *)
Example demo_report :
  (bench_main demo_cfg (map Some demo_nets) 12345678).1.1 =
    [lit "Benchmarking 127.0.0.1:6380 with 2 connections x 1 iterations (SET+GET each)...";
     lit "------------------------------------------"; lit "connections        : 2"; lit "connect failures   : 0";
     lit "total requests     : 4"; lit "request errors     : 0"; lit "elapsed            : 0.0123457 s";
     lit "throughput         : 324 req/s"; lit "avg latency        : 0.0525 us"; lit "max latency        : 0 us"].
Proof. by vm_compute. Qed.

Example general6_forms :
  general6 <$> [of_integer 1; of_integer 1234567; of_integer 999999; elapsed_s 50000; elapsed_s 12345678901;
                of_integer 99999950; S754_zero false] =
  [lit "1"; lit "1.23457e+06"; lit "999999"; lit "5e-05"; lit "12.3457"; lit "1e+08"; lit "0"].
Proof. by vm_compute. Qed.

Lemma bench_clean_run_witness :
  bench_args demo_bench_args = inr demo_cfg /\
  let '(printed, total, code) := bench_main demo_cfg (map Some demo_nets) 12345678 in
  code = 0 /\ errors total = 0 /\ requests total = 2 * 1 * 2 /\
  (lit "connect failures   : 0") ∈ printed /\ (lit "request errors     : 0") ∈ printed /\
  (lit "total requests     : " ++ to_string (2 * 1 * 2)) ∈ printed.
Proof.
  assert (bench_args demo_bench_args = inr demo_cfg) as Ha by by vm_compute.
  split; [exact Ha|].
  assert (Forall (fun id => id < length demo_nets)%nat demo_sched) as Hids by (repeat constructor).
  assert (Z.of_nat (length demo_sched) <= 2 * 1 * 2) as Hl by by vm_compute.
  assert (Forall (fun net : list request_env => 2 * Z.to_nat 1 <= length net)%nat demo_nets) as Hn
    by (repeat constructor).
  assert (all_delivered 2 (interleaved demo_env1 demo_sched ∅ [] demo_server) demo_nets) as Hd.
  { intros id net j q Hid _ Hj.
    destruct id as [|[|id]]; [injection Hid as <-|injection Hid as <-|done];
      (destruct j as [|[|j]]; [injection Hj as <-|injection Hj as <-|done]);
      (split; [by vm_compute|]);
      match goal with |- context [(?i, ?k, _)] => exists (bench_request i k).2 end; (split; [by_word|by vm_compute]). }
  exact (bench_clean_run (L := Wal) demo_env1 demo_bench_args demo_cfg demo_sched [] demo_server ∅ demo_nets 12345678 Ha
    demo_server_holds eq_refl Hids Hl Hn Hd).
Defined.
